(** * Annotation data model and binary serialization of neuroglancer

    A shallow embedding of [neuroglancer/annotation/index.ts] (the property
    layout engine, the geometry codecs, the annotation store and the binary
    serializer) and of the picking resolver of
    [neuroglancer/annotation/renderlayer.ts], with the properties of the
    written specification stated and proved over it.

    Conventions.
    - JavaScript numbers that the code uses as integers (byte offsets, sizes,
      pick offsets) are [Z]; loop bounds and array indices are [nat].
    - A [Float32Array] is the list of the binary32 bit patterns of its
      elements; a [DataView] is the list of its bytes.
    - A JavaScript [Map] is an insertion-ordered association list.
    - A function that can throw returns an [Outcome] together with the state
      it leaves behind. *)

From Stdlib Require Import ZArith Lia.
From Stdlib Require Import Ascii String SpecFloat.
From stdpp Require Import base option list relations functions strings pretty gmap sorting.

Local Open Scope Z_scope.
Local Set Warnings "-clear-no-such-hyp".

(** ** Property layout engine *)

(** [AnnotationPropertySpec['type']] *)
Inductive AnnotationPropertyType :=
| rgb | rgba | float32 | uint32 | int32 | uint16 | int16 | uint8 | int8.

(** JavaScript numbers (IEEE binary64), as specification floats. *)
Abbreviation Number := spec_float (only parsing).

Record AnnotationPropertySpec := {
  identifier : string;
  prop_description : option string;
  type : AnnotationPropertyType;
  default : Number;
}.

(** [annotationPropertyTypeHandlers[t].serializedBytes(rank)] *)
Definition handler_serializedBytes (t : AnnotationPropertyType) (rank : nat) : Z :=
  match t with
  | rgb => 3
  | rgba => 4
  | float32 => 4
  | uint32 => 4
  | int32 => 4
  | uint16 => 2
  | int16 => 2
  | uint8 => 1
  | int8 => 2
  end.

(** [annotationPropertyTypeHandlers[t].alignment(rank)] *)
Definition handler_alignment (t : AnnotationPropertyType) (rank : nat) : Z :=
  match t with
  | rgb => 1
  | rgba => 1
  | float32 => 4
  | uint32 => 4
  | int32 => 4
  | uint16 => 2
  | int16 => 2
  | uint8 => 1
  | int8 => 1
  end.

(** The JavaScript [%] operator truncates towards zero. *)
Definition js_rem (a b : Z) : Z := Z.rem a b.

(** [(alignment - (serializedBytes % alignment)) % alignment] *)
Definition padTo (serializedBytes alignment : Z) : Z :=
  js_rem (alignment - js_rem serializedBytes alignment) alignment.

Section PropertyOffsets.
Variable rank : nat.
Variable propertySpecs : list AnnotationPropertySpec.

(** [getAlignment(i)]; the index is always below [numProperties]. *)
Definition getAlignment (i : nat) : Z :=
  from_option (fun spec => handler_alignment (type spec) rank) 0 (propertySpecs !! i).

(** One step of a stable insertion sort with the comparator
    [compare = (i, j) => getAlignment(j) - getAlignment(i)]: [i], which
    comes from an earlier position than every element of [l], moves behind
    [j] only when [compare(i, j) > 0]. *)
Definition compare (i j : nat) : Z := getAlignment j - getAlignment i.

Fixpoint sort_insert (i : nat) (l : list nat) : list nat :=
  match l with
  | [] => [i]
  | j :: l' =>
      if compare i j >? 0
      then j :: sort_insert i l'
      else i :: j :: l'
  end.

(** [permutation.sort((i, j) => getAlignment(j) - getAlignment(i))] *)
Definition sort_permutation (l : list nat) : list nat :=
  foldr sort_insert [] l.

(** The state of the layout loop: the running [serializedBytes] and the
    [offsets] array, whose unassigned slots are holes. *)
Definition layout_step (st : Z * list (option Z)) (propertyIndex : nat)
  : Z * list (option Z) :=
  let '(serializedBytes, offsets) := st in
  match propertySpecs !! propertyIndex with
  | None => st
  | Some spec =>
      let numBytes := handler_serializedBytes (type spec) rank in
      let alignment := handler_alignment (type spec) rank in
      let serializedBytes := serializedBytes + padTo serializedBytes alignment in
      let offsets := <[propertyIndex := Some serializedBytes]> offsets in
      (serializedBytes + numBytes, offsets)
  end.

Record PropertyOffsets := {
  po_serializedBytes : Z;
  po_offsets : list (option Z);
}.

Definition getPropertyOffsets : PropertyOffsets :=
  let numProperties := length propertySpecs in
  let permutation := sort_permutation (seq 0 numProperties) in
  let '(serializedBytes, offsets) :=
    foldl layout_step (0, replicate numProperties None) permutation in
  let serializedBytes := serializedBytes + padTo serializedBytes 4 in
  {| po_serializedBytes := serializedBytes; po_offsets := offsets |}.

(** The padding that the layout loop adds in front of each property, in
    the order of the loop: the increments of line
    [serializedBytes += (alignment - (serializedBytes % alignment)) % alignment]. *)
Fixpoint alignmentPaddings (serializedBytes : Z) (permutation : list nat) : list Z :=
  match permutation with
  | [] => []
  | propertyIndex :: rest =>
      match propertySpecs !! propertyIndex with
      | None => alignmentPaddings serializedBytes rest
      | Some spec =>
          let numBytes := handler_serializedBytes (type spec) rank in
          let alignment := handler_alignment (type spec) rank in
          let pad := padTo serializedBytes alignment in
          pad :: alignmentPaddings (serializedBytes + pad + numBytes) rest
      end
  end.

(** Sum of the declared sizes of the properties. *)
Definition declaredBytes : Z :=
  foldr (fun spec acc => handler_serializedBytes (type spec) rank + acc) 0 propertySpecs.

(** All the padding of a layout: what [serializedBytes] holds beyond the
    declared sizes of the properties (the padding in front of properties
    and the final padding to a multiple of 4). *)
Definition paddingBytes : Z :=
  po_serializedBytes getPropertyOffsets - declaredBytes.

(** The largest alignment of the schema (0 for the empty schema). *)
Definition maxAlignment : Z :=
  foldr (fun spec acc => Z.max (handler_alignment (type spec) rank) acc) 0 propertySpecs.

(** [i] is at least as aligned as [j]: the order of the sorted permutation. *)
Definition alignment_ge (i j : nat) : Prop := getAlignment j <= getAlignment i.

(** The declared size of the property of index [i]. *)
Definition size_at (i : nat) : Z :=
  from_option (fun spec => handler_serializedBytes (type spec) rank) 0 (propertySpecs !! i).

Definition sizes (l : list nat) : Z := foldr (fun i acc => size_at i + acc) 0 l.

(** Every assigned slot of [offsets] holds an offset that is a multiple of
    the alignment of its property. *)
Definition aligned_slots (offsets : list (option Z)) : Prop :=
  forall i spec o, propertySpecs !! i = Some spec -> offsets !! i = Some (Some o) ->
    0 <= o /\ o mod handler_alignment (type spec) rank = 0.

Definition assigned (offsets : list (option Z)) (i : nat) : Prop :=
  exists o, offsets !! i = Some (Some o).
End PropertyOffsets.

Definition mkSpec (t : AnnotationPropertyType) : AnnotationPropertySpec :=
  {| identifier := ""; prop_description := None; type := t; default := S754_zero false |}.


(** ** Exceptions *)

(** The exceptions that the code raises: the [RangeError] of a [DataView]
    access out of bounds, the [TypeError] of a property access on [null] or
    [undefined], and [Error] with the fixed part of its message. *)
Inductive Exception :=
| RangeError
| TypeError
| Error (message : string).

Inductive Outcome (A : Type) :=
| Ok (a : A)
| Throw (e : Exception).
Arguments Ok {A} a.
Arguments Throw {A} e.

#[global] Instance Outcome_ret : MRet Outcome := fun A a => Ok a.
#[global] Instance Outcome_bind : MBind Outcome := fun A B f m =>
  match m with
  | Ok a => f a
  | Throw e => Throw e
  end.
#[global] Instance Outcome_fmap : FMap Outcome := fun A B f m =>
  match m with
  | Ok a => Ok (f a)
  | Throw e => Throw e
  end.

Definition is_Throw {A} (m : Outcome A) : Prop := exists e, m = Throw e.

(** ** Float32 values and the [DataView] *)

(** A binary32 value is its bit pattern, [0 <= b < 2^32]. *)
Abbreviation Float32 := Z (only parsing).
Abbreviation Float32Array := (list Float32) (only parsing).

Definition f32_exponent (b : Float32) : Z := (b / 2 ^ 23) mod 256.
Definition f32_fraction (b : Float32) : Z := b mod 2 ^ 23.
Definition f32_sign (b : Float32) : bool := 0 <? b / 2 ^ 31.

Definition f32_zero : Float32 := 0.
Definition f32_NaN : Float32 := 0x7FC00000.

Definition f32_isNaN (b : Float32) : bool :=
  (f32_exponent b =? 255) && negb (f32_fraction b =? 0).

(** A finite binary32 value: a 32-bit pattern whose exponent is not all ones. *)
Definition f32_finite (b : Float32) : Prop :=
  0 <= b < 2 ^ 32 /\ f32_exponent b <> 255.

(** [new Float32Array(rank)] *)
Definition new_Float32Array (rank : nat) : Float32Array := replicate rank f32_zero.

(** The binary32 pattern that a store of the JavaScript value [v] into a
    binary32 slot writes, for [v] read from a [Float32Array] ([None] is
    [undefined], read past the end). Such a value is a binary32 number, so
    the conversion to a Number and back keeps its pattern; JavaScript has a
    single NaN, written as the quiet NaN. *)
Definition toFloat32 (v : option Float32) : Float32 :=
  match v with
  | None => f32_NaN
  | Some b => if f32_isNaN b then f32_NaN else b
  end.

Abbreviation DataView := (list Z) (only parsing).

(** [new DataView(new ArrayBuffer(byteLength))] *)
Definition new_DataView (byteLength : Z) : DataView := replicate (Z.to_nat byteLength) 0.

Definition byteLength (buffer : DataView) : Z := Z.of_nat (length buffer).

(** The four bytes of a 32-bit pattern, least significant first. *)
Definition bytes_of_bits (b : Z) : list Z :=
  [b mod 256; (b / 256) mod 256; (b / 65536) mod 256; (b / 16777216) mod 256].

Definition bits_of_bytes (bs : list Z) : Z :=
  foldr (fun byte acc => byte + 256 * acc) 0 bs.

Definition endian_order (isLittleEndian : bool) (bs : list Z) : list Z :=
  if isLittleEndian then bs else reverse bs.

Definition write_bytes (offset : nat) (bs : list Z) (buffer : DataView) : DataView :=
  take offset buffer ++ bs ++ drop (offset + length bs)%nat buffer.

Definition read_bytes (offset : nat) (n : nat) (buffer : DataView) : list Z :=
  take n (drop offset buffer).

(** A [DataView] access of [n] bytes at [byteOffset] throws a [RangeError]
    when it does not lie inside the view. *)
Definition in_range (buffer : DataView) (byteOffset n : Z) : bool :=
  (0 <=? byteOffset) && (byteOffset + n <=? byteLength buffer).

(** [buffer.setFloat32(byteOffset, value, isLittleEndian)] *)
Definition setFloat32 (buffer : DataView) (byteOffset : Z) (value : option Float32)
    (isLittleEndian : bool) : Outcome DataView :=
  if in_range buffer byteOffset 4
  then Ok (write_bytes (Z.to_nat byteOffset)
             (endian_order isLittleEndian (bytes_of_bits (toFloat32 value))) buffer)
  else Throw RangeError.

(** [buffer.getFloat32(byteOffset, isLittleEndian)] *)
Definition getFloat32 (buffer : DataView) (byteOffset : Z) (isLittleEndian : bool)
  : Outcome Float32 :=
  if in_range buffer byteOffset 4
  then Ok (toFloat32 (Some (bits_of_bytes
             (endian_order isLittleEndian (read_bytes (Z.to_nat byteOffset) 4 buffer)))))
  else Throw RangeError.

(** ** Annotations *)

Abbreviation AnnotationId := string (only parsing).
Abbreviation Uint64 := N (only parsing).

Inductive AnnotationType :=
| POINT
| LINE
| AXIS_ALIGNED_BOUNDING_BOX
| ELLIPSOID.

#[global] Instance AnnotationType_eq_dec : EqDecision AnnotationType.
Proof. solve_decision. Defined.

Definition annotationTypes : list AnnotationType :=
  [POINT; LINE; AXIS_ALIGNED_BOUNDING_BOX; ELLIPSOID].

(** [string | undefined | null] *)
Inductive Description :=
| DescUndefined
| DescNull
| DescString (s : string).

(** The geometry of an annotation, one case per interface
    ([Point], [Line], [AxisAlignedBoundingBox], [Ellipsoid]). *)
Inductive Geometry :=
| PointGeometry (point : Float32Array)
| LineGeometry (pointA pointB : Float32Array)
| BoundingBoxGeometry (pointA pointB : Float32Array)
| EllipsoidGeometry (center radii : Float32Array).

Record Annotation := {
  description : Description;
  id : AnnotationId;
  relatedSegments : option (list (list Uint64));
  properties : list Number;
  geometry : Geometry;
}.

Definition annotation_type (a : Annotation) : AnnotationType :=
  match geometry a with
  | PointGeometry _ => POINT
  | LineGeometry _ _ => LINE
  | BoundingBoxGeometry _ _ => AXIS_ALIGNED_BOUNDING_BOX
  | EllipsoidGeometry _ _ => ELLIPSOID
  end.

Definition set_id (a : Annotation) (newId : AnnotationId) : Annotation :=
  {| description := description a; id := newId; relatedSegments := relatedSegments a;
     properties := properties a; geometry := geometry a |}.

Definition set_geometry (a : Annotation) (g : Geometry) : Annotation :=
  {| description := description a; id := id a; relatedSegments := relatedSegments a;
     properties := properties a; geometry := g |}.

(** Field accesses; a field that the object does not have is [undefined]. *)
Definition get_point (a : Annotation) : option Float32Array :=
  match geometry a with PointGeometry p => Some p | _ => None end.
Definition get_pointA (a : Annotation) : option Float32Array :=
  match geometry a with
  | LineGeometry pA _ | BoundingBoxGeometry pA _ => Some pA
  | _ => None
  end.
Definition get_pointB (a : Annotation) : option Float32Array :=
  match geometry a with
  | LineGeometry _ pB | BoundingBoxGeometry _ pB => Some pB
  | _ => None
  end.
Definition get_center (a : Annotation) : option Float32Array :=
  match geometry a with EllipsoidGeometry c _ => Some c | _ => None end.
Definition get_radii (a : Annotation) : option Float32Array :=
  match geometry a with EllipsoidGeometry _ r => Some r | _ => None end.

(** The geometric vectors of an annotation. *)
Definition geometry_vectors (g : Geometry) : list Float32Array :=
  match g with
  | PointGeometry p => [p]
  | LineGeometry a b | BoundingBoxGeometry a b | EllipsoidGeometry a b => [a; b]
  end.

(** ** Geometry codecs *)

(** [vec[i]]: indexing [undefined] throws, reading past the end of a typed
    array gives [undefined]. *)
Definition element (vec : option Float32Array) (i : nat) : Outcome (option Float32) :=
  match vec with
  | None => Throw TypeError
  | Some v => Ok (v !! i)
  end.

(** The loop of [serializeFloatVector], from index [i], for [count] more
    iterations. [vec] is [None] when the caller read it from a field that
    the annotation does not have. *)
Fixpoint serializeFloatVector_from (i count : nat) (buffer : DataView) (offset : Z)
    (isLittleEndian : bool) (vec : option Float32Array) : Outcome (DataView * Z) :=
  match count with
  | O => Ok (buffer, offset)
  | S count' =>
      x ← element vec i;
      buffer' ← setFloat32 buffer offset x isLittleEndian;
      serializeFloatVector_from (S i) count' buffer' (offset + 4) isLittleEndian vec
  end.

Definition serializeFloatVector (buffer : DataView) (offset : Z) (isLittleEndian : bool)
    (rank : nat) (vec : option Float32Array) : Outcome (DataView * Z) :=
  serializeFloatVector_from 0 rank buffer offset isLittleEndian vec.

Definition serializeTwoFloatVectors (buffer : DataView) (offset : Z) (isLittleEndian : bool)
    (rank : nat) (vecA vecB : option Float32Array) : Outcome (DataView * Z) :=
  '(buffer, offset) ← serializeFloatVector buffer offset isLittleEndian rank vecA;
  serializeFloatVector buffer offset isLittleEndian rank vecB.

Fixpoint deserializeFloatVector_from (i count : nat) (buffer : DataView) (offset : Z)
    (isLittleEndian : bool) (vec : Float32Array) : Outcome (Float32Array * Z) :=
  match count with
  | O => Ok (vec, offset)
  | S count' =>
      x ← getFloat32 buffer offset isLittleEndian;
      deserializeFloatVector_from (S i) count' buffer (offset + 4) isLittleEndian
        (<[i := x]> vec)
  end.

Definition deserializeFloatVector (buffer : DataView) (offset : Z) (isLittleEndian : bool)
    (rank : nat) (vec : Float32Array) : Outcome (Float32Array * Z) :=
  deserializeFloatVector_from 0 rank buffer offset isLittleEndian vec.

Definition deserializeTwoFloatVectors (buffer : DataView) (offset : Z) (isLittleEndian : bool)
    (rank : nat) (vecA vecB : Float32Array) : Outcome (Float32Array * Float32Array * Z) :=
  '(vecA, offset) ← deserializeFloatVector buffer offset isLittleEndian rank vecA;
  '(vecB, offset) ← deserializeFloatVector buffer offset isLittleEndian rank vecB;
  mret (vecA, vecB, offset).

(** An annotation as a handler's [deserialize] builds it: no description, no
    related segments, [properties: []]. *)
Definition deserialized (g : Geometry) (i : AnnotationId) : Annotation :=
  {| description := DescUndefined; id := i; relatedSegments := None;
     properties := []; geometry := g |}.

(** [typeHandlers.get(type).serializedBytes(rank)] *)
Definition geometry_serializedBytes (t : AnnotationType) (rank : nat) : Z :=
  match t with
  | LINE => 2 * 4 * Z.of_nat rank
  | POINT => Z.of_nat rank * 4
  | AXIS_ALIGNED_BOUNDING_BOX => 2 * 4 * Z.of_nat rank
  | ELLIPSOID => 2 * 4 * Z.of_nat rank
  end.

(** [typeHandlers.get(type).serialize(buffer, offset, isLittleEndian, rank, annotation)] *)
Definition geometry_serialize (t : AnnotationType) (buffer : DataView) (offset : Z)
    (isLittleEndian : bool) (rank : nat) (annotation : Annotation) : Outcome DataView :=
  match t with
  | LINE =>
      fst <$> serializeTwoFloatVectors buffer offset isLittleEndian rank
                (get_pointA annotation) (get_pointB annotation)
  | POINT =>
      fst <$> serializeFloatVector buffer offset isLittleEndian rank (get_point annotation)
  | AXIS_ALIGNED_BOUNDING_BOX =>
      fst <$> serializeTwoFloatVectors buffer offset isLittleEndian rank
                (get_pointA annotation) (get_pointB annotation)
  | ELLIPSOID =>
      fst <$> serializeTwoFloatVectors buffer offset isLittleEndian rank
                (get_center annotation) (get_radii annotation)
  end.

(** [typeHandlers.get(type).deserialize(buffer, offset, isLittleEndian, rank, id)] *)
Definition geometry_deserialize (t : AnnotationType) (buffer : DataView) (offset : Z)
    (isLittleEndian : bool) (rank : nat) (i : AnnotationId) : Outcome Annotation :=
  match t with
  | LINE =>
      '(pointA, pointB, _) ← deserializeTwoFloatVectors buffer offset isLittleEndian rank
          (new_Float32Array rank) (new_Float32Array rank);
      mret (deserialized (LineGeometry pointA pointB) i)
  | POINT =>
      '(point, _) ← deserializeFloatVector buffer offset isLittleEndian rank
          (new_Float32Array rank);
      mret (deserialized (PointGeometry point) i)
  | AXIS_ALIGNED_BOUNDING_BOX =>
      '(pointA, pointB, _) ← deserializeTwoFloatVectors buffer offset isLittleEndian rank
          (new_Float32Array rank) (new_Float32Array rank);
      mret (deserialized (BoundingBoxGeometry pointA pointB) i)
  | ELLIPSOID =>
      '(center, radii, _) ← deserializeTwoFloatVectors buffer offset isLittleEndian rank
          (new_Float32Array rank) (new_Float32Array rank);
      mret (deserialized (EllipsoidGeometry center radii) i)
  end.

(** ** JavaScript [Map] with string keys

    An insertion-ordered association list: [set] on a present key keeps the
    position of the entry, [set] on a new key appends. *)
Module JsMap.
Abbreviation t V := (list (string * V)) (only parsing).

Definition empty {V} : t V := [].

Fixpoint get {V} (k : string) (m : t V) : option V :=
  match m with
  | [] => None
  | (k', v) :: m' => if decide (k' = k) then Some v else get k m'
  end.

Definition has {V} (k : string) (m : t V) : bool := bool_decide (is_Some (get k m)).

Fixpoint set {V} (k : string) (v : V) (m : t V) : t V :=
  match m with
  | [] => [(k, v)]
  | (k', v') :: m' => if decide (k' = k) then (k, v) :: m' else (k', v') :: set k v m'
  end.

Definition delete {V} (k : string) (m : t V) : t V :=
  filter (fun kv => kv.1 <> k) m.

Definition values {V} (m : t V) : list V := m.*2.
Definition keys {V} (m : t V) : list string := m.*1.
Definition size {V} (m : t V) : Z := Z.of_nat (length m).

(** [new Map(entries)] *)
Definition of_entries {V} (entries : list (string * V)) : t V :=
  foldl (fun m kv => set kv.1 kv.2 m) empty entries.
End JsMap.

(** ** Annotation store *)

(** [AnnotationReference.value]: [Annotation | null | undefined] *)
Inductive RefValue :=
| ValueUndefined
| ValueNull
| ValueAnnotation (a : Annotation).

(** An [AnnotationReference] object; [refCount] is the count of [RefCounted]. *)
Record AnnotationReference := {
  ref_id : AnnotationId;
  ref_value : RefValue;
  refCount : nat;
}.

(** A reference is passed around as the address of its object. *)
Abbreviation Ref := nat (only parsing).

(** One dispatch of a signal: of the store's [changed], [childAdded],
    [childUpdated], [childDeleted], or of the [changed] of a reference.
    The handlers that are registered on the signals are outside of the
    store; a dispatch is recorded, in order. *)
Inductive Dispatch :=
| Changed
| ChildAdded (annotation : Annotation)
| ChildUpdated (annotation : Annotation)
| ChildDeleted (annotationId : AnnotationId)
| ReferenceChanged (reference : Ref).

(** The state of an [AnnotationSource] with what it shares with its users:
    the reference objects ([refs], indexed by address) and the dispatches of
    its signals so far, oldest first. *)
Record AnnotationSourceState := {
  annotationMap : JsMap.t Annotation;
  pending : gset AnnotationId;
  rank_ : nat;
  (** [annotationPropertySerializer.rank]: the rank that the constructor
      gave to the serializer, which is never rebuilt. *)
  serializer_rank : nat;
  relationships : list string;
  source_properties : list AnnotationPropertySpec;
  references : JsMap.t Ref;
  refs : list AnnotationReference;
  dispatched : list Dispatch;
}.

Definition with_annotationMap (m : JsMap.t Annotation) (s : AnnotationSourceState) :=
  {| annotationMap := m; pending := pending s; rank_ := rank_ s;
     serializer_rank := serializer_rank s; relationships := relationships s;
     source_properties := source_properties s;
     references := references s; refs := refs s; dispatched := dispatched s |}.
Definition with_pending (p : gset AnnotationId) (s : AnnotationSourceState) :=
  {| annotationMap := annotationMap s; pending := p; rank_ := rank_ s;
     serializer_rank := serializer_rank s; relationships := relationships s;
     source_properties := source_properties s;
     references := references s; refs := refs s; dispatched := dispatched s |}.
Definition with_rank (r : nat) (s : AnnotationSourceState) :=
  {| annotationMap := annotationMap s; pending := pending s; rank_ := r;
     serializer_rank := serializer_rank s; relationships := relationships s;
     source_properties := source_properties s;
     references := references s; refs := refs s; dispatched := dispatched s |}.
Definition with_references (m : JsMap.t Ref) (s : AnnotationSourceState) :=
  {| annotationMap := annotationMap s; pending := pending s; rank_ := rank_ s;
     serializer_rank := serializer_rank s; relationships := relationships s;
     source_properties := source_properties s;
     references := m; refs := refs s; dispatched := dispatched s |}.
Definition with_refs (h : list AnnotationReference) (s : AnnotationSourceState) :=
  {| annotationMap := annotationMap s; pending := pending s; rank_ := rank_ s;
     serializer_rank := serializer_rank s; relationships := relationships s;
     source_properties := source_properties s;
     references := references s; refs := h; dispatched := dispatched s |}.
Definition with_dispatched (d : list Dispatch) (s : AnnotationSourceState) :=
  {| annotationMap := annotationMap s; pending := pending s; rank_ := rank_ s;
     serializer_rank := serializer_rank s; relationships := relationships s;
     source_properties := source_properties s;
     references := references s; refs := refs s; dispatched := d |}.

(** [new AnnotationSource(rank, relationships, properties)] *)
Definition new_AnnotationSource (rank : nat) (rels : list string)
    (props : list AnnotationPropertySpec) : AnnotationSourceState :=
  {| annotationMap := JsMap.empty; pending := ∅; rank_ := rank;
     serializer_rank := rank; relationships := rels; source_properties := props;
     references := JsMap.empty; refs := []; dispatched := [] |}.

(** A method of the store: it returns or throws, and leaves a state. *)
Definition Method (A : Type) := AnnotationSourceState -> Outcome A * AnnotationSourceState.

#[global] Instance Method_ret : MRet Method := fun A a s => (Ok a, s).
#[global] Instance Method_bind : MBind Method := fun A B f m s =>
  match m s with
  | (Ok a, s') => f a s'
  | (Throw e, s') => (Throw e, s')
  end.

Definition throw {A} (e : Exception) : Method A := fun s => (Throw e, s).
Definition modify (f : AnnotationSourceState -> AnnotationSourceState) : Method () :=
  fun s => (Ok (), f s).
Definition gets {A} (f : AnnotationSourceState -> A) : Method A := fun s => (Ok (f s), s).

(** [signal.dispatch(...)] *)
Definition dispatch (d : Dispatch) : Method () :=
  modify (fun s => with_dispatched (dispatched s ++ [d]) s).

(** The reference object at an address. Code typed by TypeScript always
    holds the address of an object. *)
Definition deref (reference : Ref) : Method AnnotationReference := fun s =>
  match refs s !! reference with
  | Some r => (Ok r, s)
  | None => (Throw TypeError, s)
  end.

Definition set_ref_value (v : RefValue) (r : AnnotationReference) : AnnotationReference :=
  {| ref_id := ref_id r; ref_value := v; refCount := refCount r |}.
Definition addRef (r : AnnotationReference) : AnnotationReference :=
  {| ref_id := ref_id r; ref_value := ref_value r; refCount := S (refCount r) |}.

(** [reference.value = v] *)
Definition assign_value (reference : Ref) (v : RefValue) : Method () :=
  modify (fun s => with_refs (alter (set_ref_value v) reference (refs s)) s).

(** [this.annotationMap.get(id) || null] *)
Definition value_or_null (v : option Annotation) : RefValue :=
  match v with
  | Some a => ValueAnnotation a
  | None => ValueNull
  end.

(** ** JSON values and the helpers of [neuroglancer/util/json] *)

#[warnings="-register-all"]
Inductive Json :=
| JNull
| JBool (b : bool)
| JNumber (n : Number)
| JString (s : string)
| JArray (elements : list Json)
| JObject (members : list (string * Json)).

(** A JavaScript value that can be [undefined] is an [option]. *)
Definition member (name : string) (members : list (string * Json)) : option Json :=
  JsMap.get name members.

Definition number_isFinite (x : Number) : bool :=
  match x with
  | S754_zero _ | S754_finite _ _ _ => true
  | _ => false
  end.

(** [x >= 0] *)
Definition number_nonNegative (x : Number) : bool :=
  match x with
  | S754_zero _ => true
  | S754_finite s _ _ | S754_infinity s => negb s
  | S754_nan => false
  end.

Definition number_of_Z (z : Z) : Number := binary_normalize 53 1024 z 0 false.

(** The binary32 pattern of a specification float that is a binary32 value. *)
Definition f32_of_spec (x : spec_float) : Float32 :=
  let sign (s : bool) := if s then 0x80000000 else 0 in
  match x with
  | S754_zero s => sign s
  | S754_infinity s => sign s + 0x7F800000
  | S754_nan => f32_NaN
  | S754_finite s m e =>
      if Z.pos m <? 2 ^ 23 then sign s + Z.pos m
      else sign s + (e + 150) * 2 ^ 23 + (Z.pos m - 2 ^ 23)
  end.

Definition spec_of_f32 (b : Float32) : spec_float :=
  if f32_exponent b =? 255
  then if f32_fraction b =? 0 then S754_infinity (f32_sign b) else S754_nan
  else if f32_exponent b =? 0
  then match f32_fraction b with
       | Z.pos m => S754_finite (f32_sign b) m (-149)
       | _ => S754_zero (f32_sign b)
       end
  else match f32_fraction b + 2 ^ 23 with
       | Z.pos m => S754_finite (f32_sign b) m (f32_exponent b - 150)
       | _ => S754_nan
       end.

(** A store of a Number into a [Float32Array]: rounding to binary32. *)
Definition fround (x : Number) : Float32 :=
  match x with
  | S754_finite s m e => f32_of_spec (binary_round 24 128 s m e)
  | _ => f32_of_spec x
  end.

(** A read of a [Float32Array] element as a Number. *)
Definition number_of_f32 (b : Float32) : Number :=
  match spec_of_f32 b with
  | S754_finite s m e => binary_normalize 53 1024 (cond_Zopp s (Z.pos m)) e s
  | x => x
  end.

(** [Uint64.toString()]: decimal. *)
Definition Uint64_toString (x : Uint64) : string := pretty x.

Definition digit_value (c : ascii) : option N :=
  let n := N_of_ascii c in
  if ((48 <=? n) && (n <=? 57))%N then Some (n - 48)%N else None.

Fixpoint parse_decimal (acc : N) (s : string) : option N :=
  match s with
  | EmptyString => Some acc
  | String c s' =>
      d ← digit_value c;
      parse_decimal (10 * acc + d)%N s'
  end.

(** Modelled from the spec: [Uint64.parseString] of [neuroglancer/util/uint64]
    is not part of the sources; a segment id is a decimal string of a 64-bit
    unsigned integer, anything else is rejected. *)
Definition Uint64_parseString (x : option Json) : Outcome Uint64 :=
  match x with
  | Some (JString s) =>
      match s, parse_decimal 0 s with
      | String _ _, Some n =>
          if (n <? 2 ^ 64)%N then Ok n
          else Throw (Error "Failed to parse string as uint64 value")
      | _, _ => Throw (Error "Failed to parse string as uint64 value")
      end
  | _ => Throw (Error "Failed to parse string as uint64 value")
  end.

(** Modelled from the spec: the validators of [neuroglancer/util/json] are
    not part of the sources. [verifyObject] accepts JSON objects only. *)
Definition verifyObject (obj : option Json) : Outcome (list (string * Json)) :=
  match obj with
  | Some (JObject members) => Ok members
  | _ => Throw (Error "Expected JSON object")
  end.

(** Modelled from the spec: [verifyObjectProperty] of [neuroglancer/util/json]
    applies the validator to the property, [undefined] when the object does
    not have it, and reports a failure of the validator as its own. *)
Definition verifyObjectProperty {T} (members : list (string * Json)) (propertyName : string)
    (validator : option Json -> Outcome T) : Outcome T :=
  match validator (member propertyName members) with
  | Ok v => Ok v
  | Throw _ => Throw (Error ("Error parsing property " +:+ propertyName))
  end.

(** Modelled from the spec: [verifyString] of [neuroglancer/util/json]. *)
Definition verifyString (obj : option Json) : Outcome string :=
  match obj with
  | Some (JString s) => Ok s
  | _ => Throw (Error "Expected string")
  end.

(** Modelled from the spec: [verifyOptionalString] of [neuroglancer/util/json]
    lets [undefined] through. *)
Definition verifyOptionalString (obj : option Json) : Outcome (option string) :=
  match obj with
  | None => Ok None
  | _ => Some <$> verifyString obj
  end.

Definition ascii_toUpperCase (c : ascii) : ascii :=
  let n := N_of_ascii c in
  if ((97 <=? n) && (n <=? 122))%N then ascii_of_N (n - 32) else c.
Definition ascii_toLowerCase (c : ascii) : ascii :=
  let n := N_of_ascii c in
  if ((65 <=? n) && (n <=? 90))%N then ascii_of_N (n + 32) else c.
Definition ascii_isLetter (c : ascii) : bool :=
  let n := N_of_ascii c in
  (((65 <=? n) && (n <=? 90)) || ((97 <=? n) && (n <=? 122)))%N.

Fixpoint string_map (f : ascii -> ascii) (s : string) : string :=
  match s with
  | EmptyString => EmptyString
  | String c s' => String (f c) (string_map f s')
  end.

(** [AnnotationType[type]] *)
Definition AnnotationType_name (t : AnnotationType) : string :=
  match t with
  | POINT => "POINT"
  | LINE => "LINE"
  | AXIS_ALIGNED_BOUNDING_BOX => "AXIS_ALIGNED_BOUNDING_BOX"
  | ELLIPSOID => "ELLIPSOID"
  end.

(** Modelled from the spec: [verifyEnumString(x, AnnotationType)] of
    [neuroglancer/util/json] accepts the name of a member of the
    enumeration in any letter case. Letters outside ASCII are left as they
    are. *)
Definition verifyEnumString (obj : option Json) : Outcome AnnotationType :=
  match obj with
  | Some (JString (String c _ as s)) =>
      if ascii_isLetter c
      then match filter (fun t => AnnotationType_name t = string_map ascii_toUpperCase s)
                   annotationTypes with
           | t :: _ => Ok t
           | [] => Throw (Error "Invalid enum value")
           end
      else Throw (Error "Invalid enum value")
  | _ => Throw (Error "Invalid enum value")
  end.

(** Modelled from the spec: [expectArray(x, length?)] of
    [neuroglancer/util/json]. *)
Definition expectArray (x : option Json) (len : option nat) : Outcome (list Json) :=
  match x with
  | Some (JArray elements) =>
      match len with
      | Some n =>
          if decide (length elements = n) then Ok elements
          else Throw (Error "Expected array of given length")
      | None => Ok elements
      end
  | _ => Throw (Error "Expected array")
  end.

(** Modelled from the spec: [parseArray(obj, parseElement)] of
    [neuroglancer/util/json] applies [parseElement] to the elements in
    order. *)
Definition parseArray {T} (obj : option Json) (parseElement : option Json -> Outcome T)
  : Outcome (list T) :=
  match obj with
  | Some (JArray elements) => mapM (fun x => parseElement (Some x)) elements
  | _ => Throw (Error "Expected array")
  end.

(** Modelled from the spec: [parseFixedLengthArray(out, obj, parseElement)]
    of [neuroglancer/util/json], for [out = new Float32Array(rank)]: the
    length must be that of [out], and each parsed Number is stored in [out]. *)
Definition parseFixedLengthArray (rank : nat) (obj : option Json)
    (parseElement : option Json -> Outcome Number) : Outcome Float32Array :=
  match obj with
  | Some (JArray elements) =>
      if decide (length elements = rank)
      then fmap fround <$> mapM (fun x => parseElement (Some x)) elements
      else Throw (Error "Expected array of given length")
  | _ => Throw (Error "Expected array of given length")
  end.

(** Modelled from the spec: [verifyFiniteFloat] of [neuroglancer/util/json]
    rejects what is not a finite number. *)
Definition verifyFiniteFloat (obj : option Json) : Outcome Number :=
  match obj with
  | Some (JNumber x) =>
      if number_isFinite x then Ok x else Throw (Error "Expected finite floating-point number")
  | _ => Throw (Error "Expected floating-point number")
  end.

(** Modelled from the spec: [verifyFiniteNonNegativeFloat] of
    [neuroglancer/util/json]. *)
Definition verifyFiniteNonNegativeFloat (obj : option Json) : Outcome Number :=
  x ← verifyFiniteFloat obj;
  if number_nonNegative x then Ok x
  else Throw (Error "Expected non-negative floating-point number").

(** ** [Number(x)]

    The conversion of a string follows the grammar [StringNumericLiteral]
    of ECMAScript; of the white space only the ASCII characters are
    recognised. *)

(** Tab, line feed, vertical tab, form feed, carriage return, space. *)
Definition isStrWhiteSpaceChar (c : ascii) : bool :=
  let n := N_of_ascii c in
  ((9 <=? n) && (n <=? 13) || (n =? 32))%N.

Fixpoint trimStart (l : list ascii) : list ascii :=
  match l with
  | c :: l' => if isStrWhiteSpaceChar c then trimStart l' else l
  | [] => []
  end.

Definition trimString (l : list ascii) : list ascii :=
  rev (trimStart (rev (trimStart l))).

(** The value of a digit of a base up to 16. *)
Definition digit_of_base (base : N) (c : ascii) : option N :=
  let n := N_of_ascii c in
  let d :=
    if ((48 <=? n) && (n <=? 57))%N then Some (n - 48)%N
    else if ((97 <=? n) && (n <=? 102))%N then Some (n - 87)%N
    else if ((65 <=? n) && (n <=? 70))%N then Some (n - 55)%N
    else None in
  match d with
  | Some d => if (d <? base)%N then Some d else None
  | None => None
  end.

(** The longest run of digits at the start of [l]: the value of [acc]
    followed by the digits, their number and what follows them. *)
Fixpoint digits_of_base (base : N) (acc : N) (l : list ascii) : N * nat * list ascii :=
  match l with
  | c :: l' =>
      match digit_of_base base c with
      | Some d =>
          let '(v, n, rest) := digits_of_base base (base * acc + d)%N l' in (v, S n, rest)
      | None => (acc, O, l)
      end
  | [] => (acc, O, [])
  end.

(** The Number value of the mathematical value [(-1)^s * m * 10^k],
    rounded to the nearest, ties to even. *)
Definition decimal_value (s : bool) (m : N) (k : Z) : Number :=
  match m with
  | N0 => S754_zero s
  | Npos p =>
      if 0 <=? k then binary_normalize 53 1024 (cond_Zopp s (Z.pos p * 10 ^ k)) 0 s
      else SFdiv 53 1024 (S754_finite s p 0) (S754_finite false (Z.to_pos (10 ^ (- k))) 0)
  end.

(** [ExponentPart], when there is one: [e] or [E], a sign, digits. *)
Definition exponentPart (l : list ascii) : option Z :=
  match l with
  | [] => Some 0
  | c :: l' =>
      if bool_decide (c = "e"%char) || bool_decide (c = "E"%char)
      then
        let '(negative, l'') :=
          match l' with
          | s :: l'' =>
              if bool_decide (s = "-"%char) then (true, l'')
              else if bool_decide (s = "+"%char) then (false, l'')
              else (false, l')
          | [] => (false, l')
          end in
        match digits_of_base 10 0 l'' with
        | (v, S _, []) => Some (cond_Zopp negative (Z.of_N v))
        | _ => None
        end
      else None
  end.

(** [StrUnsignedDecimalLiteral] with the sign [s] before it. *)
Definition strUnsignedDecimalLiteral (s : bool) (l : list ascii) : Number :=
  if bool_decide (l = list_ascii_of_string "Infinity") then S754_infinity s else
  let '(integer, n1, rest) := digits_of_base 10 0 l in
  let '(mantissa, n2, rest) :=
    match rest with
    | c :: rest' =>
        if bool_decide (c = "."%char) then digits_of_base 10 integer rest'
        else (integer, O, rest)
    | [] => (integer, O, rest)
    end in
  if bool_decide (n1 + n2 = 0)%nat then S754_nan else
  match exponentPart rest with
  | Some e => decimal_value s mantissa (e - Z.of_nat n2)
  | None => S754_nan
  end.

(** [NonDecimalIntegerLiteral]: [0x], [0o] or [0b] and digits, no sign. *)
Definition nonDecimalBase (c : ascii) : option N :=
  if bool_decide (c = "x"%char) || bool_decide (c = "X"%char) then Some 16%N
  else if bool_decide (c = "o"%char) || bool_decide (c = "O"%char) then Some 8%N
  else if bool_decide (c = "b"%char) || bool_decide (c = "B"%char) then Some 2%N
  else None.

(** [StringToNumber(s)] *)
Definition StringToNumber (s : string) : Number :=
  match trimString (list_ascii_of_string s) with
  | [] => S754_zero false
  | c :: l =>
      let decimal :=
        if bool_decide (c = "-"%char) then strUnsignedDecimalLiteral true l
        else if bool_decide (c = "+"%char) then strUnsignedDecimalLiteral false l
        else strUnsignedDecimalLiteral false (c :: l) in
      match l with
      | b :: digits =>
          match (if bool_decide (c = "0"%char) then nonDecimalBase b else None) with
          | Some base =>
              match digits_of_base base 0 digits with
              | (v, S _, []) => number_of_Z (Z.of_N v)
              | _ => S754_nan
              end
          | None => decimal
          end
      | [] => decimal
      end
  end.

(** [Number(x)] for a value that a JSON text holds. An array converts as
    the string that joins its elements with commas: an empty array as the
    empty string; an array of one element as the string of that element,
    which is empty for [null], converts back to the number for a number
    other than [-0], and is the joined string again for an array; any other
    array or object as a string that is not a numeric literal. *)
Fixpoint toNumber (x : Json) : Number :=
  match x with
  | JNull => S754_zero false
  | JBool b => if b then number_of_Z 1 else S754_zero false
  | JNumber n => n
  | JString s => StringToNumber s
  | JArray [] => S754_zero false
  | JArray [element] =>
      match element with
      | JNull => S754_zero false
      | JBool _ => S754_nan
      | JNumber (S754_zero _) => S754_zero false
      | JNumber n => n
      | JString s => StringToNumber s
      | JArray _ => toNumber element
      | JObject _ => S754_nan
      end
  | JArray _ => S754_nan
  | JObject _ => S754_nan
  end.

(** ** JSON form of an annotation *)

Record AnnotationSchema := {
  schema_rank : nat;
  schema_relationships : list string;
  schema_properties : list AnnotationPropertySpec;
}.

Definition json_of_vector (vec : Float32Array) : Json :=
  JArray (JNumber <$> (number_of_f32 <$> vec)).

(** [typeHandlers.get(type).toJSON(annotation, rank)] *)
Definition geometry_toJSON (g : Geometry) : list (string * Json) :=
  match g with
  | LineGeometry pointA pointB | BoundingBoxGeometry pointA pointB =>
      [("pointA", json_of_vector pointA); ("pointB", json_of_vector pointB)]
  | PointGeometry point => [("point", json_of_vector point)]
  | EllipsoidGeometry center radii =>
      [("center", json_of_vector center); ("radii", json_of_vector radii)]
  end.

(** [typeHandlers.get(type).restoreState(annotation, obj, rank)], as the
    geometry that it stores in [annotation]. *)
Definition geometry_restoreState (t : AnnotationType) (obj : list (string * Json))
    (rank : nat) : Outcome Geometry :=
  let vector name verify :=
    verifyObjectProperty obj name (fun x => parseFixedLengthArray rank x verify) in
  match t with
  | LINE =>
      pointA ← vector "pointA" verifyFiniteFloat;
      pointB ← vector "pointB" verifyFiniteFloat;
      mret (LineGeometry pointA pointB)
  | POINT =>
      point ← vector "point" verifyFiniteFloat;
      mret (PointGeometry point)
  | AXIS_ALIGNED_BOUNDING_BOX =>
      pointA ← vector "pointA" verifyFiniteFloat;
      pointB ← vector "pointB" verifyFiniteFloat;
      mret (BoundingBoxGeometry pointA pointB)
  | ELLIPSOID =>
      center ← vector "center" verifyFiniteFloat;
      radii ← vector "radii" verifyFiniteNonNegativeFloat;
      mret (EllipsoidGeometry center radii)
  end.

(** A property set to [undefined] is left out of the JSON object. *)
Definition optional_member (name : string) (v : option Json) : list (string * Json) :=
  match v with
  | Some j => [(name, j)]
  | None => []
  end.

Definition annotationToJson (annotation : Annotation) (schema : AnnotationSchema) : Json :=
  JObject (
    geometry_toJSON (geometry annotation)
    ++ [("type", JString (string_map ascii_toLowerCase
                            (AnnotationType_name (annotation_type annotation))));
        ("id", JString (id annotation))]
    ++ optional_member "description"
         match description annotation with
         | DescString (String _ _ as d) => Some (JString d)
         | _ => None
         end
    ++ optional_member "segments"
         match relatedSegments annotation with
         | Some segments =>
             if bool_decide (Exists (fun x => x <> []) segments)
             then Some (JArray ((fun x => JArray (JString <$> (Uint64_toString <$> x)))
                                  <$> segments))
             else None
         | None => None
         end
    ++ optional_member "props"
         (if decide (length (schema_properties schema) = 0%nat) then None
          else Some (JArray (JNumber <$> properties annotation)))).

Definition is_JArray (x : Json) : bool :=
  match x with
  | JArray _ => true
  | _ => false
  end.

(** [restoreAnnotation(obj, schema, allowMissingId)]; [randomHex] is what
    [makeAnnotationId()] returns if it is called. *)
Definition restoreAnnotation (obj : option Json) (schema : AnnotationSchema)
    (allowMissingId : bool) (randomHex : AnnotationId) : Outcome Annotation :=
  obj ← verifyObject obj;
  t ← verifyObjectProperty obj "type" verifyEnumString;
  i ← verifyObjectProperty obj "id"
        (if allowMissingId then verifyOptionalString else fun x => Some <$> verifyString x);
  let i := match i with
           | Some (String _ _ as i) => i
           | _ => randomHex
           end in
  let no_segments : list (list Uint64) := (fun _ => []) <$> schema_relationships schema in
  segments ← verifyObjectProperty obj "segments" (fun relObj =>
    match relObj with
    | None => Ok no_segments
    | _ =>
        a ← expectArray relObj None;
        match a with
        | [] => Ok no_segments
        | a0 :: _ =>
            if bool_decide (length (schema_relationships schema) = 1%nat) && negb (is_JArray a0)
            then (fun x => [x]) <$> parseArray (Some (JArray a)) Uint64_parseString
            else
              a ← expectArray relObj (Some (length (schema_relationships schema)));
              parseArray (Some (JArray a)) (fun segments => parseArray segments Uint64_parseString)
        end
    end);
  props ← verifyObjectProperty obj "props" (fun propsObj =>
    match propsObj with
    | None => Ok (default <$> schema_properties schema)
    | _ =>
        a ← expectArray propsObj (Some (length (schema_properties schema)));
        parseArray (Some (JArray a)) (fun x => Ok (from_option toNumber S754_nan x))
    end);
  d ← verifyObjectProperty obj "description" verifyOptionalString;
  g ← geometry_restoreState t obj (schema_rank schema);
  mret {| description := from_option DescString DescUndefined d;
          id := i;
          relatedSegments := Some segments;
          properties := props;
          geometry := g |}.

(** ** The methods of [AnnotationSource] *)

(** The methods below are those of an object of the class
    [AnnotationSource] itself, for which [this.ensureUpdated()] is the empty
    method of the class. The methods of a [LocalAnnotationSource], for which
    the call is the override, are in the module [LocalAnnotationSource]. *)
Module AnnotationSource.

(** The base class does nothing; [LocalAnnotationSource] overrides it. *)
Definition ensureUpdated : Method () := mret ().

(** The schema that the source is, where [restoreAnnotation] and
    [annotationToJson] take it as one. *)
Definition schema (s : AnnotationSourceState) : AnnotationSchema :=
  {| schema_rank := rank_ s;
     schema_relationships := relationships s;
     schema_properties := source_properties s |}.

Definition getReference (i : AnnotationId) : Method Ref := fun s =>
  match JsMap.get i (references s) with
  | Some existing =>
      (Ok existing, with_refs (alter addRef existing (refs s)) s)
  | None =>
      let existing := length (refs s) in
      let object := {| ref_id := i;
                       ref_value := value_or_null (JsMap.get i (annotationMap s));
                       refCount := 1 |} in
      (Ok existing,
       with_references (JsMap.set i existing (references s))
         (with_refs (refs s ++ [object]) s))
  end.

(** [add(annotation, commit)]; [randomHex] is what [makeAnnotationId()],
    that is [getRandomHexString(160)], returns if it is called. *)
Definition add (annotation : Annotation) (commit : bool) (randomHex : AnnotationId)
  : Method Ref :=
  ensureUpdated;;
  annotation ←
    (if decide (id annotation = "")
     then mret (set_id annotation randomHex)
     else
       has ← gets (fun s => JsMap.has (id annotation) (annotationMap s));
       if has : bool
       then throw (Error "Annotation id already exists")
       else mret annotation);
  modify (fun s =>
    with_annotationMap (JsMap.set (id annotation) annotation (annotationMap s)) s);;
  dispatch Changed;;
  dispatch (ChildAdded annotation);;
  (if commit then mret ()
   else modify (fun s => with_pending ({[id annotation]} ∪ pending s) s));;
  getReference (id annotation).

Definition commit (reference : Ref) : Method () :=
  ensureUpdated;;
  r ← deref reference;
  modify (fun s => with_pending (pending s ∖ {[ref_id r]}) s).

Definition update (reference : Ref) (annotation : Annotation) : Method () :=
  ensureUpdated;;
  r ← deref reference;
  match ref_value r with
  | ValueNull => throw (Error "Annotation already deleted.")
  | _ =>
      assign_value reference (ValueAnnotation annotation);;
      modify (fun s =>
        with_annotationMap (JsMap.set (id annotation) annotation (annotationMap s)) s);;
      dispatch (ReferenceChanged reference);;
      dispatch Changed;;
      dispatch (ChildUpdated annotation)
  end.

(** [[Symbol.iterator]()] *)
Definition iterator : Method (list Annotation) :=
  ensureUpdated;;
  gets (fun s => JsMap.values (annotationMap s)).

Definition get (i : AnnotationId) : Method (option Annotation) :=
  ensureUpdated;;
  gets (fun s => JsMap.get i (annotationMap s)).

Definition delete (reference : Ref) : Method () :=
  r ← deref reference;
  match ref_value r with
  | ValueNull => mret ()
  | _ =>
      assign_value reference ValueNull;;
      modify (fun s =>
        with_annotationMap (JsMap.delete (ref_id r) (annotationMap s)) s);;
      modify (fun s => with_pending (pending s ∖ {[ref_id r]}) s);;
      dispatch (ReferenceChanged reference);;
      dispatch Changed;;
      dispatch (ChildDeleted (ref_id r))
  end.

Definition toJSON : Method (list Json) :=
  ensureUpdated;;
  annotations ← iterator;
  s ← gets (fun s => s);
  mret (foldl (fun result annotation =>
                 if bool_decide (id annotation ∈ pending s)
                 then result
                 else result ++ [annotationToJson annotation (schema s)])
              [] annotations).

Definition clear : Method () :=
  modify (with_annotationMap JsMap.empty);;
  modify (with_pending ∅);;
  dispatch Changed.

(** The callback of [parseArray] in [restoreState], applied to the
    elements from index [index] on. *)
Fixpoint restore_elements (randomHex : nat -> AnnotationId) (index : nat)
    (elements : list Json) : Method () :=
  match elements with
  | [] => mret ()
  | x :: rest =>
      s ← gets (fun s => s);
      match restoreAnnotation (Some x) (schema s) false (randomHex index) with
      | Throw e => throw e
      | Ok annotation =>
          modify (fun s =>
            with_annotationMap (JsMap.set (id annotation) annotation (annotationMap s)) s);;
          restore_elements randomHex (S index) rest
      end
  end.

(** The loop of [restoreState] over [this.references.values()]. *)
Fixpoint resolve_references (references : list Ref) : Method () :=
  match references with
  | [] => mret ()
  | reference :: rest =>
      r ← deref reference;
      value ← gets (fun s => JsMap.get (ref_id r) (annotationMap s));
      assign_value reference (value_or_null value);;
      dispatch (ReferenceChanged reference);;
      resolve_references rest
  end.

(** [restoreState(obj)]; [randomHex k] is what [makeAnnotationId()]
    returns if the element of index [k] calls it. *)
Definition restoreState (obj : option Json) (randomHex : nat -> AnnotationId)
  : Method () :=
  ensureUpdated;;
  modify (with_annotationMap JsMap.empty);;
  modify (with_pending ∅);;
  match obj with
  | None => mret ()
  | Some (JArray elements) => restore_elements randomHex 0 elements
  | Some _ => throw (Error "Expected array")
  end;;
  references ← gets (fun s => JsMap.values (references s));
  resolve_references references;;
  dispatch Changed.

Definition reset : Method () := clear.
End AnnotationSource.

(** ** [LocalAnnotationSource] *)

(** Modelled from the spec: the types of [neuroglancer/coordinate_transform]
    are not part of the sources; a coordinate space gives a stable identity
    per dimension, a transform gives the rank and the input space. Both are
    objects, compared by [===] on their identity. *)
Record CoordinateSpace := {
  space_object : nat;
  ids : list Z;
}.

Record CoordinateSpaceTransform := {
  transform_object : nat;
  sourceRank : nat;
  inputSpace : CoordinateSpace;
}.

Record LocalAnnotationSourceState := {
  base : AnnotationSourceState;
  curCoordinateTransform : CoordinateSpaceTransform;
  (** [watchableTransform.value] *)
  watchableTransform : CoordinateSpaceTransform;
}.

(** [array.indexOf(x)], [-1] when [x] does not occur; [x] is [None] when it
    is [undefined], which no array of numbers contains. *)
Fixpoint indexOf_from (l : list Z) (x : Z) (i : Z) : Z :=
  match l with
  | [] => -1
  | y :: l' => if decide (y = x) then i else indexOf_from l' x (i + 1)
  end.

Definition indexOf (l : list Z) (x : option Z) : Z :=
  match x with
  | Some x => indexOf_from l x 0
  | None => -1
  end.

(** Modelled from the spec: [arraysEqual(a, b)] of [neuroglancer/util/array]
    is not part of the sources; two arrays are equal when they have the same
    length and the same elements. *)
Definition arraysEqual (a b : list Z) : bool := bool_decide (a = b).

Module LocalAnnotationSource.

Definition newToOldDims (oldIds newIds : list Z) (oldSourceRank sourceRank : nat)
  : list Z :=
  foldl (fun newToOldDims newDim =>
           let oldDim := indexOf oldIds (newIds !! newDim) in
           let oldDim := if oldDim >=? Z.of_nat oldSourceRank then -1 else oldDim in
           newToOldDims ++ [oldDim])
        [] (seq 0 sourceRank).

(** [mapVector(radii)]; [newToOldDims[i]] is always defined. *)
Definition mapVector (sourceRank : nat) (newToOldDims : list Z) (radii : Float32Array)
  : Float32Array :=
  foldl (fun newRadii i =>
           match newToOldDims !! i with
           | Some oldDim =>
               <[i := if decide (oldDim = -1) then f32_zero
                      else toFloat32 (radii !! i)]> newRadii
           | None => newRadii
           end)
        (new_Float32Array sourceRank) (seq 0 sourceRank).

Definition mapGeometry (mapVector : Float32Array -> Float32Array) (g : Geometry)
  : Geometry :=
  match g with
  | PointGeometry point => PointGeometry (mapVector point)
  | LineGeometry pointA pointB => LineGeometry (mapVector pointA) (mapVector pointB)
  | BoundingBoxGeometry pointA pointB =>
      BoundingBoxGeometry (mapVector pointA) (mapVector pointB)
  | EllipsoidGeometry center radii => EllipsoidGeometry (mapVector center) (mapVector radii)
  end.

(** The assignments of [ensureUpdated] to the vectors of one annotation. *)
Definition migrate (mapVector : Float32Array -> Float32Array) (annotation : Annotation)
  : Annotation :=
  set_geometry annotation (mapGeometry mapVector (geometry annotation)).

(** What the assignments do to a reference object: they change the
    annotation in place, so that a reference whose [value] is this object
    holds the new vectors. *)
Definition migrate_reference (mapVector : Float32Array -> Float32Array)
    (r : AnnotationReference) : AnnotationReference :=
  match ref_value r with
  | ValueAnnotation a => set_ref_value (ValueAnnotation (migrate mapVector a)) r
  | _ => r
  end.

(** [ensureUpdated()]. The annotations are changed in place: the map keeps
    its keys and its order. The store of the model holds the value of a
    reference by copy; [aliased reference] tells whether, in JavaScript,
    the [value] of the reference at this address is one of the objects of
    [annotationMap], which the assignments change. The identity of objects
    is an input of the model. *)
Definition ensureUpdated (aliased : Ref -> bool) (s : LocalAnnotationSourceState)
  : LocalAnnotationSourceState :=
  let transform := watchableTransform s in
  let cur := curCoordinateTransform s in
  if decide (transform_object transform = transform_object cur) then s else
  let s := {| base := base s; curCoordinateTransform := transform;
              watchableTransform := watchableTransform s |} in
  let newSourceRank := sourceRank transform in
  let oldSourceRank := sourceRank cur in
  if bool_decide (oldSourceRank = newSourceRank)
     && (bool_decide (space_object (inputSpace cur) = space_object (inputSpace transform))
         || arraysEqual (take newSourceRank (ids (inputSpace cur)))
                        (take newSourceRank (ids (inputSpace transform))))
  then s else
  let newIds := ids (inputSpace transform) in
  let oldIds := ids (inputSpace cur) in
  let newToOldDims := newToOldDims oldIds newIds oldSourceRank newSourceRank in
  let mapVector := mapVector newSourceRank newToOldDims in
  let annotations :=
    (fun kv : string * Annotation => (kv.1, migrate mapVector kv.2))
    <$> annotationMap (base s) in
  let objects :=
    imap (fun reference r =>
            if aliased reference then migrate_reference mapVector r else r)
         (refs (base s)) in
  let b := with_refs objects (with_annotationMap annotations (base s)) in
  let b := with_rank newSourceRank b in
  let b := with_dispatched (dispatched b ++ [Changed]) b in
  {| base := b; curCoordinateTransform := curCoordinateTransform s;
     watchableTransform := watchableTransform s |}.

Definition with_base (b : AnnotationSourceState) (s : LocalAnnotationSourceState)
  : LocalAnnotationSourceState :=
  {| base := b; curCoordinateTransform := curCoordinateTransform s;
     watchableTransform := watchableTransform s |}.

(** A method that [LocalAnnotationSource] inherits and whose body starts
    with [this.ensureUpdated()]: on a local source the call is the override
    above. What follows it in the body is the method of [AnnotationSource],
    in which the call does nothing; a later call of the override in the same
    body finds the transform current and returns at once. *)
Definition inherited {A} (aliased : Ref -> bool) (method : Method A)
    (s : LocalAnnotationSourceState) : Outcome A * LocalAnnotationSourceState :=
  let s := ensureUpdated aliased s in
  let '(result, b) := method (base s) in
  (result, with_base b s).

(** An inherited method that does not call [ensureUpdated]. *)
Definition unchanged {A} (method : Method A) (s : LocalAnnotationSourceState)
  : Outcome A * LocalAnnotationSourceState :=
  let '(result, b) := method (base s) in
  (result, with_base b s).

Definition add (aliased : Ref -> bool) (annotation : Annotation) (commit : bool)
    (randomHex : AnnotationId) :=
  inherited aliased (AnnotationSource.add annotation commit randomHex).
Definition commit (aliased : Ref -> bool) (reference : Ref) :=
  inherited aliased (AnnotationSource.commit reference).
Definition update (aliased : Ref -> bool) (reference : Ref) (annotation : Annotation) :=
  inherited aliased (AnnotationSource.update reference annotation).
Definition iterator (aliased : Ref -> bool) := inherited aliased AnnotationSource.iterator.
Definition get (aliased : Ref -> bool) (i : AnnotationId) :=
  inherited aliased (AnnotationSource.get i).
Definition toJSON (aliased : Ref -> bool) := inherited aliased AnnotationSource.toJSON.
Definition restoreState (aliased : Ref -> bool) (obj : option Json)
    (randomHex : nat -> AnnotationId) :=
  inherited aliased (AnnotationSource.restoreState obj randomHex).
Definition delete (reference : Ref) := unchanged (AnnotationSource.delete reference).
Definition getReference (i : AnnotationId) := unchanged (AnnotationSource.getReference i).
Definition clear := unchanged AnnotationSource.clear.
Definition reset := unchanged AnnotationSource.reset.
End LocalAnnotationSource.

(** ** Binary serializer *)

(** An [AnnotationPropertySerializer]: the size of the serialized properties
    of one annotation and the two routines that its constructor generates. *)
Record AnnotationPropertySerializer := {
  ps_rank : nat;
  ps_propertySpecs : list AnnotationPropertySpec;
  ps_serializedBytes : Z;
  ps_serialize : DataView -> Z -> bool -> list Number -> Outcome DataView;
  ps_deserialize : DataView -> Z -> bool -> list Number -> Outcome (list Number);
}.

(** [new AnnotationPropertySerializer(rank, [])] *)
Definition empty_AnnotationPropertySerializer (rank : nat) : AnnotationPropertySerializer :=
  {| ps_rank := rank; ps_propertySpecs := []; ps_serializedBytes := 0;
     ps_serialize := fun buffer _ _ _ => Ok buffer;
     ps_deserialize := fun _ _ _ props => Ok props |}.

(** An array indexed by the annotation type. *)
Abbreviation PerType A := (AnnotationType -> A) (only parsing).

Record SerializedAnnotations := {
  data : DataView;
  typeToIds : PerType (list string);
  typeToOffset : PerType Z;
  typeToIdMaps : PerType (JsMap.t Z);
}.

(** [ENDIANNESS === Endianness.LITTLE], fixed per process. *)
Abbreviation Endianness := bool (only parsing).

Section Serialize.
Variable allAnnotations : PerType (list Annotation).
Variable propertySerializer : AnnotationPropertySerializer.
Variable isLittleEndian : Endianness.

Let rank := ps_rank propertySerializer.
Let serializedPropertiesBytes := ps_serializedBytes propertySerializer.

(** The first loop of [serializeAnnotations]: the state is [totalBytes]
    and [typeToOffset]. *)
Definition layout_types : Z * PerType Z :=
  foldl (fun '(totalBytes, typeToOffset) annotationType =>
           let typeToOffset := <[annotationType := totalBytes]> typeToOffset in
           let annotations := allAnnotations annotationType in
           let count := Z.of_nat (length annotations) in
           let totalBytes :=
             totalBytes
             + (geometry_serializedBytes annotationType rank + serializedPropertiesBytes)
               * count in
           let totalBytes := totalBytes + padTo totalBytes 4 in
           (totalBytes, typeToOffset))
        (0, fun _ => 0) annotationTypes.

(** The loop over the annotations of one type. *)
Fixpoint serialize_annotations (annotationType : AnnotationType)
    (annotations : list Annotation) (dataView : DataView) (offset : Z)
  : Outcome DataView :=
  match annotations with
  | [] => Ok dataView
  | annotation :: rest =>
      dataView ← geometry_serialize annotationType dataView offset isLittleEndian rank
                   annotation;
      let offset := offset + geometry_serializedBytes annotationType rank in
      dataView ← ps_serialize propertySerializer dataView offset isLittleEndian
                   (properties annotation);
      let offset := offset + serializedPropertiesBytes in
      serialize_annotations annotationType rest dataView offset
  end.

(** The second loop of [serializeAnnotations], over the annotation types. *)
Fixpoint serialize_types (types : list AnnotationType) (typeToOffset : PerType Z)
    (st : DataView * PerType (list string) * PerType (JsMap.t Z))
  : Outcome (DataView * PerType (list string) * PerType (JsMap.t Z)) :=
  match types with
  | [] => Ok st
  | annotationType :: rest =>
      let '(dataView, typeToIds, typeToIdMaps) := st in
      let annotations := allAnnotations annotationType in
      let typeToIds := <[annotationType := id <$> annotations]> typeToIds in
      let typeToIdMaps :=
        <[annotationType :=
            JsMap.of_entries (imap (fun i x => (id x, Z.of_nat i)) annotations)]>
          typeToIdMaps in
      dataView ← serialize_annotations annotationType annotations dataView
                   (typeToOffset annotationType);
      serialize_types rest typeToOffset (dataView, typeToIds, typeToIdMaps)
  end.

Definition serializeAnnotations : Outcome SerializedAnnotations :=
  let '(totalBytes, typeToOffset) := layout_types in
  '(dataView, typeToIds, typeToIdMaps) ←
    serialize_types annotationTypes typeToOffset
      (new_DataView totalBytes, fun _ => [], fun _ => JsMap.empty);
  mret {| data := dataView; typeToIds := typeToIds; typeToOffset := typeToOffset;
          typeToIdMaps := typeToIdMaps |}.
End Serialize.

(** ** Picking *)

(** [Math.min(x, y)] *)
Definition Math_min (x y : Number) : Number :=
  match SFcompare x y with
  | Some Lt => x
  | Some Gt => y
  | Some Eq => match x with S754_zero true => x | _ => y end
  | None => S754_nan
  end.

(** [Math.round(x)] of a finite [x], as an integer: the integer closest to
    [x], the larger one when two are as close. [NaN] and the infinities,
    which [Math.round] returns as they are, stand as 0. *)
Definition Math_round (x : Number) : Z :=
  match x with
  | S754_finite s m e =>
      if 0 <=? e then cond_Zopp s (Z.pos m * 2 ^ e)
      else (2 * cond_Zopp s (Z.pos m) + 2 ^ (- e)) / 2 ^ (- e + 1)
  | _ => 0
  end.

Section Picking.
(** [getAnnotationTypeRenderHandler(annotationType).pickIdsPerInstance],
    an input from the render handlers. *)
Variable pickIdsPerInstance : PerType Z.
Variable propertySerializer : AnnotationPropertySerializer.
(** [this.curRank] *)
Variable rank : nat.

(** One call of a render helper's [draw]: the annotation type, the pick id
    of its first instance relative to the pick id registered for the
    chunk, the number of instances and the offset into the buffer. *)
Record DrawCall := {
  draw_type : AnnotationType;
  draw_basePickId : Z;
  draw_count : Z;
  draw_bufferOffset : Z;
}.

(** The loop of [drawGeometry] over the annotation types: the calls of
    [draw]. [maxCount] is the last argument, [Number.POSITIVE_INFINITY]
    when it is left out. In the loop [count] is above 0, so that
    [totalCount] is too and [count * drawFraction] is finite. *)
Definition drawGeometry (maxCount : Number) (serializedAnnotations : SerializedAnnotations)
  : list DrawCall :=
  let totalCount :=
    foldl (fun totalCount annotationType =>
             totalCount + JsMap.size (typeToIdMaps serializedAnnotations annotationType))
          0 annotationTypes in
  let drawFraction :=
    if number_isFinite maxCount
    then Math_min (number_of_Z 1) (SFdiv 53 1024 maxCount (number_of_Z totalCount))
    else number_of_Z 1 in
  (foldl (fun '(basePickId, calls) annotationType =>
            let idMap := typeToIdMaps serializedAnnotations annotationType in
            let count := JsMap.size idMap in
            if count >? 0
            then
              let count := Math_round (SFmul 53 1024 (number_of_Z count) drawFraction) in
              (basePickId + count * pickIdsPerInstance annotationType,
               calls ++ [{| draw_type := annotationType;
                            draw_basePickId := basePickId;
                            draw_count := count;
                            draw_bufferOffset :=
                              typeToOffset serializedAnnotations annotationType |}])
            else (basePickId, calls))
         (0, []) annotationTypes).2.

(** Modelled from the spec: the render helpers of
    [neuroglancer/annotation/type_handler] are not part of the sources;
    each drawn instance consumes a contiguous block of
    [pickIdsPerInstance] pick ids, from the base pick id of the call on. *)
Definition instancePickOffset (call : DrawCall) (instanceIndex partIndex : Z) : Z :=
  draw_basePickId call + instanceIndex * pickIdsPerInstance (draw_type call) + partIndex.

(** What the loop of [updateMouseState] holds when it finds the type that
    contains the offset. *)
Record Picked := {
  picked_type : AnnotationType;
  picked_instanceIndex : Z;
  (** [ids[instanceIndex]], [undefined] outside of [ids] *)
  picked_id : option string;
  picked_partIndex : Z;
  picked_bufferOffset : Z;
}.

(** [serializedAnnotations.data.byteOffset]: [serializeAnnotations] wraps
    the whole [ArrayBuffer]. *)
Definition data_byteOffset : Z := 0.

(** The loop of [updateMouseState] over the annotation types. *)
Fixpoint resolve (types : list AnnotationType) (serializedAnnotations : SerializedAnnotations)
    (pickedOffset : Z) : option Picked :=
  match types with
  | [] => None
  | annotationType :: rest =>
      let ids := typeToIds serializedAnnotations annotationType in
      let pickIdsPerInstance := pickIdsPerInstance annotationType in
      if pickedOffset <? Z.of_nat (length ids) * pickIdsPerInstance
      then
        let instanceIndex := pickedOffset / pickIdsPerInstance in
        Some {| picked_type := annotationType;
                picked_instanceIndex := instanceIndex;
                picked_id := if 0 <=? instanceIndex then ids !! Z.to_nat instanceIndex
                             else None;
                picked_partIndex := js_rem pickedOffset pickIdsPerInstance;
                picked_bufferOffset :=
                  data_byteOffset + typeToOffset serializedAnnotations annotationType
                  + instanceIndex
                    * (geometry_serializedBytes annotationType rank
                       + ps_serializedBytes propertySerializer) |}
      else resolve rest serializedAnnotations
             (pickedOffset - Z.of_nat (length ids) * pickIdsPerInstance)
  end.

(** The fields of [MouseSelectionState] that [updateMouseState] assigns
    before it snaps the mouse position. *)
Record MouseSelectionState := {
  pickedAnnotationId : option string;
  pickedOffset : Z;
  pickedAnnotationBufferOffset : option Z;
}.

(** [updateMouseState(mouseState, _pickedValue, pickedOffset, data)];
    [chunkTransformError] tells whether [this.chunkTransform.error] is
    defined. What follows the assignments of the picked annotation only
    writes [mouseState.position]. *)
Definition updateMouseState (chunkTransformError : bool) (mouseState : MouseSelectionState)
    (pickedOffset : Z) (serializedAnnotations : SerializedAnnotations)
  : MouseSelectionState :=
  if chunkTransformError then mouseState else
  match resolve annotationTypes serializedAnnotations pickedOffset with
  | Some p =>
      {| pickedAnnotationId := picked_id p;
         pickedOffset := picked_partIndex p;
         pickedAnnotationBufferOffset := Some (picked_bufferOffset p) |}
  | None => mouseState
  end.
End Picking.

(** The bytes that [serializeFloatVector] writes for the elements [xs]. *)
Fixpoint encode_elements (isLittleEndian : bool) (xs : list (option Float32)) : list Z :=
  match xs with
  | [] => []
  | x :: xs' =>
      endian_order isLittleEndian (bytes_of_bits (toFloat32 x))
      ++ encode_elements isLittleEndian xs'
  end.


(** Example records: the binary32 patterns are those of 1, 2, 3 and -5. *)
Definition example_line : Annotation :=
  {| description := DescUndefined; id := "a"; relatedSegments := None; properties := [];
     geometry := LineGeometry [0x3F800000; 0x40000000] [0x40400000; 0xC0A00000] |}.

Definition example_point_with_property : Annotation :=
  {| description := DescUndefined; id := "a"; relatedSegments := None;
     properties := [number_of_Z 5];
     geometry := PointGeometry [0x3F800000] |}.

(** The registry of references is consistent: every registered address
    holds a reference object with the id that it is registered for. *)
Definition references_wf (s : AnnotationSourceState) : Prop :=
  forall i reference, JsMap.get i (references s) = Some reference ->
    exists r, refs s !! reference = Some r /\ ref_id r = i.

(** The [id] member of the JSON form of an annotation. *)
Definition json_id (j : Json) : option string :=
  match j with
  | JObject members =>
      match member "id" members with
      | Some (JString i) => Some i
      | _ => None
      end
  | _ => None
  end.

(** What [toJSON()] returns. *)
Definition toJSON_output (s : AnnotationSourceState) : list Json :=
  match (AnnotationSource.toJSON s).1 with
  | Ok result => result
  | Throw _ => []
  end.

(** The state in which [add] calls [getReference], for the annotation with
    its final id. *)
Definition add_state (annotation : Annotation) (commit : bool) (s : AnnotationSourceState)
  : AnnotationSourceState :=
  let s := with_annotationMap (JsMap.set (id annotation) annotation (annotationMap s)) s in
  let s := with_dispatched (dispatched s ++ [Changed]) s in
  let s := with_dispatched (dispatched s ++ [ChildAdded annotation]) s in
  if commit then s else with_pending ({[id annotation]} ∪ pending s) s.

(** An example store: rank 3, one relationship, no properties. *)
Definition example_store : AnnotationSourceState := new_AnnotationSource 3 ["segments"] [].

(** The binary32 patterns of 1, 2 and 3. *)
Definition example_point (i : AnnotationId) : Annotation :=
  {| description := DescUndefined; id := i; relatedSegments := None; properties := [];
     geometry := PointGeometry [0x3F800000; 0x40000000; 0x40400000] |}.

(** A store in which the annotation ["a"] is pending: it was added with
    [commit = false]; its reference has the address 0. *)
Definition example_pending_store : AnnotationSourceState :=
  (AnnotationSource.add (example_point "a") false "0f" example_store).2.

(** A store whose reference 0 is deleted: ["a"] was added, then deleted. *)
Definition example_deleted_store : AnnotationSourceState :=
  (AnnotationSource.delete 0
     (AnnotationSource.add (example_point "a") true "0f" example_store).2).2.

(** A store with a live reference, of address 0, for the id ["x"] that the
    store does not hold. *)
Definition example_referenced_store : AnnotationSourceState :=
  (AnnotationSource.getReference "x" example_store).2.

(** The store that [add] of the point ["x"] leaves from there. *)
Definition example_stale_store : AnnotationSourceState :=
  (AnnotationSource.add (example_point "x") true "0f" example_referenced_store).2.

(** What [delete] leaves when the reference is not deleted. *)
Definition delete_state (reference : Ref) (r : AnnotationReference)
    (s : AnnotationSourceState) : AnnotationSourceState :=
  let s := with_refs (alter (set_ref_value ValueNull) reference (refs s)) s in
  let s := with_annotationMap (JsMap.delete (ref_id r) (annotationMap s)) s in
  let s := with_pending (pending s ∖ {[ref_id r]}) s in
  with_dispatched
    (dispatched s ++ [ReferenceChanged reference; Changed; ChildDeleted (ref_id r)]) s.

(** What [update] leaves when the reference is not deleted. *)
Definition update_state (reference : Ref) (annotation : Annotation)
    (s : AnnotationSourceState) : AnnotationSourceState :=
  let s := with_refs (alter (set_ref_value (ValueAnnotation annotation)) reference (refs s)) s in
  let s := with_annotationMap (JsMap.set (id annotation) annotation (annotationMap s)) s in
  with_dispatched
    (dispatched s ++ [ReferenceChanged reference; Changed; ChildUpdated annotation]) s.

(** The annotations that the elements of a JSON array restore to, when
    every one of them restores; the element of index [k] draws
    [randomHex (index + k)]. *)
Fixpoint restore_all (schema : AnnotationSchema) (randomHex : nat -> AnnotationId)
    (index : nat) (elements : list Json) : Outcome (list Annotation) :=
  match elements with
  | [] => Ok []
  | x :: rest =>
      annotation ← restoreAnnotation (Some x) schema false (randomHex index);
      annotations ← restore_all schema randomHex (S index) rest;
      mret (annotation :: annotations)
  end.

(** The map after [annotationMap.set(annotation.id, annotation)] for each of
    the annotations in turn. *)
Definition install (m : JsMap.t Annotation) (annotations : list Annotation)
  : JsMap.t Annotation :=
  foldl (fun m annotation => JsMap.set (id annotation) annotation m) m annotations.

(** The JSON form of a point (1, 2, 3). *)
Definition example_point_json (i : AnnotationId) : Json :=
  JObject [("type", JString "point"); ("id", JString i);
           ("point", JArray [JNumber (number_of_Z 1); JNumber (number_of_Z 2);
                             JNumber (number_of_Z 3)])].


(** The old dimension that [ensureUpdated] matches with the new dimension
    [newDim], [-1] when there is none. *)
Definition matching_oldDim (oldIds newIds : list Z) (oldSourceRank : nat) (newDim : nat) : Z :=
  let oldDim := indexOf oldIds (newIds !! newDim) in
  if oldDim >=? Z.of_nat oldSourceRank then -1 else oldDim.

(** In the examples every reference holds the object that the store has. *)
Definition example_aliased : Ref -> bool := fun _ => true.

(** A local source of rank 3 with the dimensions 10, 11, 12 and the point
    (1, 2, 3), whose transform was replaced by one of rank 2 that keeps the
    dimensions 10 and 12. *)
Definition example_local_source : LocalAnnotationSourceState :=
  {| base := (AnnotationSource.add (example_point "a") true "0f" example_store).2;
     curCoordinateTransform :=
       {| transform_object := 0; sourceRank := 3;
          inputSpace := {| space_object := 0; ids := [10; 11; 12] |} |};
     watchableTransform :=
       {| transform_object := 1; sourceRank := 2;
          inputSpace := {| space_object := 1; ids := [10; 12] |} |} |}.

(** The instance [instanceIndex], part [partIndex], of [call] is resolved
    from the pick offset [offset] by the loop of [updateMouseState] over
    [types]. *)
Definition resolved (pickIdsPerInstance : AnnotationType -> Z)
    (propertySerializer : AnnotationPropertySerializer) (rank : nat)
    (sa : SerializedAnnotations) (types : list AnnotationType) (offset : Z)
    (call : DrawCall) (instanceIndex partIndex : Z) : Prop :=
  exists picked,
    resolve pickIdsPerInstance propertySerializer rank types sa offset = Some picked
    /\ picked_type picked = draw_type call
    /\ picked_instanceIndex picked = instanceIndex
    /\ picked_id picked = typeToIds sa (draw_type call) !! Z.to_nat instanceIndex
    /\ picked_partIndex picked = partIndex
    /\ picked_bufferOffset picked
       = typeToOffset sa (draw_type call)
         + instanceIndex * (geometry_serializedBytes (draw_type call) rank
                            + ps_serializedBytes propertySerializer).

(** Example of a set of annotations by type: two points and a line. *)
Definition example_annotations (t : AnnotationType) : list Annotation :=
  match t with
  | POINT => [example_point "a"; example_point "b"]
  | LINE => [example_line]
  | _ => []
  end.

Definition example_pickIdsPerInstance (t : AnnotationType) : Z :=
  match t with
  | POINT => 1
  | LINE => 3
  | AXIS_ALIGNED_BOUNDING_BOX => 19
  | ELLIPSOID => 1
  end.

(** The snapshot of the example, of rank 2 and without properties. *)
Definition example_serialized : SerializedAnnotations :=
  match serializeAnnotations example_annotations (empty_AnnotationPropertySerializer 2) true with
  | Ok sa => sa
  | Throw _ => {| data := []; typeToIds := fun _ => []; typeToOffset := fun _ => 0;
                  typeToIdMaps := fun _ => JsMap.empty |}
  end.

Definition example_mouseState : MouseSelectionState :=
  {| pickedAnnotationId := None; pickedOffset := 0; pickedAnnotationBufferOffset := None |}.

(** One call of a method of the store by a user. *)
Inductive store_step (s : AnnotationSourceState) : AnnotationSourceState -> Prop :=
| step_add annotation commit randomHex :
    store_step s (AnnotationSource.add annotation commit randomHex s).2
| step_commit reference :
    store_step s (AnnotationSource.commit reference s).2
| step_update reference annotation :
    store_step s (AnnotationSource.update reference annotation s).2
| step_delete reference :
    store_step s (AnnotationSource.delete reference s).2
| step_getReference i :
    store_step s (AnnotationSource.getReference i s).2
| step_clear :
    store_step s (AnnotationSource.clear s).2
| step_restoreState obj randomHex :
    store_step s (AnnotationSource.restoreState obj randomHex s).2.

(** What the store keeps true of its maps: the annotation map has one entry
    per key and holds every record under the id of the record, a pending id
    is the id of a stored record, and the registry of references has one
    entry per id, each the address of a reference object with that id. *)
Definition store_inv (s : AnnotationSourceState) : Prop :=
  NoDup (JsMap.keys (annotationMap s))
  /\ (forall k a, (k, a) ∈ annotationMap s -> id a = k)
  /\ (forall i, i ∈ pending s -> is_Some (JsMap.get i (annotationMap s)))
  /\ NoDup (JsMap.keys (references s))
  /\ (forall i reference, (i, reference) ∈ references s ->
        exists r, refs s !! reference = Some r /\ ref_id r = i).

(** The record that [add] stores: the annotation, with the generated id when
    it came without one. *)
Definition added_record (annotation : Annotation) (randomHex : AnnotationId) : Annotation :=
  if decide (id annotation = "") then set_id annotation randomHex else annotation.

(** A store that holds the point ["a"], committed; its reference has the
    address 0. *)
Definition example_one_point_store : AnnotationSourceState :=
  (AnnotationSource.add (example_point "a") true "0f" example_store).2.

(** A store that holds the points ["a"] and ["b"], both committed; their
    references have the addresses 0 and 1. *)
Definition example_two_points_store : AnnotationSourceState :=
  (AnnotationSource.add (example_point "b") true "0f" example_one_point_store).2.

(** The JSON form of a point (3, 2, 1), and the record that it restores to
    in the example store. *)
Definition example_other_point_json (i : AnnotationId) : Json :=
  JObject [("type", JString "point"); ("id", JString i);
           ("point", JArray [JNumber (number_of_Z 3); JNumber (number_of_Z 2);
                             JNumber (number_of_Z 1)])].

Definition example_restored_point (i : AnnotationId) : Annotation :=
  {| description := DescUndefined; id := i; relatedSegments := Some [[]]; properties := [];
     geometry := PointGeometry [0x3F800000; 0x40000000; 0x40400000] |}.

Definition example_other_restored_point (i : AnnotationId) : Annotation :=
  {| description := DescUndefined; id := i; relatedSegments := Some [[]]; properties := [];
     geometry := PointGeometry [0x40400000; 0x40000000; 0x3F800000] |}.

(** The line of the examples, with the id ["b"]. *)
Definition example_line_b : Annotation := set_id example_line "b".

(** [new LocalAnnotationSource(watchableTransform)] *)
Definition new_LocalAnnotationSource (watchableTransform : CoordinateSpaceTransform)
  : LocalAnnotationSourceState :=
  {| base := new_AnnotationSource (sourceRank watchableTransform) ["segments"] [];
     curCoordinateTransform := watchableTransform;
     watchableTransform := watchableTransform |}.

(** The getter [rank] of [LocalAnnotationSource]: the rank and the state
    that the call leaves. *)
Definition LocalAnnotationSource_rank (aliased : Ref -> bool) (s : LocalAnnotationSourceState)
  : nat * LocalAnnotationSourceState :=
  let s := LocalAnnotationSource.ensureUpdated aliased s in
  (rank_ (base s), s).

(** The two tests after which [ensureUpdated] leaves the annotations as
    they are: the transform is the one that the source has, or it has the
    same rank and either the same input space or the same ids for the
    dimensions below the rank. *)
Definition same_coordinates (s : LocalAnnotationSourceState) : Prop :=
  let transform := watchableTransform s in
  let cur := curCoordinateTransform s in
  transform_object transform = transform_object cur
  \/ (sourceRank cur = sourceRank transform
      /\ (space_object (inputSpace cur) = space_object (inputSpace transform)
          \/ take (sourceRank transform) (ids (inputSpace cur))
             = take (sourceRank transform) (ids (inputSpace transform)))).

(** The source of the example after its migration to the rank 2, with a
    new transform object of the same rank over the same input space. *)
Definition example_migrated_source : LocalAnnotationSourceState :=
  {| base := base (LocalAnnotationSource.ensureUpdated example_aliased example_local_source);
     curCoordinateTransform :=
       curCoordinateTransform (LocalAnnotationSource.ensureUpdated example_aliased example_local_source);
     watchableTransform :=
       {| transform_object := 2; sourceRank := 2;
          inputSpace := {| space_object := 1; ids := [10; 12] |} |} |}.

(** The integer part of a Number, truncated towards zero; NaN and the
    infinities give 0: the first step of [ToInt32], [ToUint32], [ToUint16]
    and [ToUint8]. *)
Definition toIntegerOrZero (x : Number) : Z :=
  match x with
  | S754_finite s m e =>
      cond_Zopp s (if 0 <=? e then Z.pos m * 2 ^ e else Z.pos m / 2 ^ (- e))
  | _ => 0
  end.

(** ** The integer accessors of the [DataView] *)

(** The [n] low bytes of an integer, least significant first: its two's
    complement on [8 n] bits. *)
Fixpoint bytes_of_integer (n : nat) (v : Z) : list Z :=
  match n with
  | O => []
  | S n' => v mod 256 :: bytes_of_integer n' (v / 256)
  end.

(** [buffer.setUintN(byteOffset, value, isLittleEndian)] and
    [buffer.setIntN(...)], for [N = 8 n]: both write the low [n] bytes of
    the integer part of the value. *)
Definition set_integer (n : nat) (buffer : DataView) (byteOffset : Z) (value : Number)
    (isLittleEndian : bool) : Outcome DataView :=
  if in_range buffer byteOffset (Z.of_nat n)
  then Ok (write_bytes (Z.to_nat byteOffset)
             (endian_order isLittleEndian (bytes_of_integer n (toIntegerOrZero value))) buffer)
  else Throw RangeError.

(** [buffer.getUintN(byteOffset, isLittleEndian)] *)
Definition get_unsigned (n : nat) (buffer : DataView) (byteOffset : Z) (isLittleEndian : bool)
  : Outcome Z :=
  if in_range buffer byteOffset (Z.of_nat n)
  then Ok (bits_of_bytes (endian_order isLittleEndian
                            (read_bytes (Z.to_nat byteOffset) n buffer)))
  else Throw RangeError.

(** [buffer.getIntN(byteOffset, isLittleEndian)] *)
Definition get_signed (n : nat) (buffer : DataView) (byteOffset : Z) (isLittleEndian : bool)
  : Outcome Z :=
  u ← get_unsigned n buffer byteOffset isLittleEndian;
  mret (if 2 ^ (8 * Z.of_nat n - 1) <=? u then u - 2 ^ (8 * Z.of_nat n) else u).

Definition setUint8 (buffer : DataView) (byteOffset : Z) (value : Number) : Outcome DataView :=
  set_integer 1 buffer byteOffset value true.
Definition setInt8 (buffer : DataView) (byteOffset : Z) (value : Number) : Outcome DataView :=
  set_integer 1 buffer byteOffset value true.
Definition setUint16 := set_integer 2.
Definition setInt16 := set_integer 2.
Definition setUint32 := set_integer 4.
Definition setInt32 := set_integer 4.
Definition getUint8 (buffer : DataView) (byteOffset : Z) : Outcome Z :=
  get_unsigned 1 buffer byteOffset true.
Definition getInt8 (buffer : DataView) (byteOffset : Z) : Outcome Z :=
  get_signed 1 buffer byteOffset true.
Definition getUint16 := get_unsigned 2.
Definition getInt16 := get_signed 2.
Definition getUint32 := get_unsigned 4.
Definition getInt32 := get_signed 4.

(** [x >>> 16] *)
Definition ushr16 (x : Number) : Number :=
  number_of_Z (Z.shiftr (toIntegerOrZero x mod 2 ^ 32) 16).

(** ** The property serializer *)

(** The Number that an element of [properties] converts to: [undefined],
    read past the end of the array, gives NaN. *)
Definition property_number (property : option Number) : Number :=
  match property with
  | Some x => x
  | None => S754_nan
  end.

(** What the statements of [annotationPropertyTypeHandlers[t].serializeCode(
    property, offset)] do when the generated function runs them: [property]
    is the value of [properties[propertyIndex]], [undefined] past the end
    of the array, and [offset] the value of the offset expression. *)
Definition serializeCode (t : AnnotationPropertyType) (dv : DataView)
    (property : option Number) (offset : Z) (isLittleEndian : bool) : Outcome DataView :=
  let p := property_number property in
  match t with
  | rgb =>
      dv ← setUint16 dv offset p true;
      setUint8 dv (offset + 2) (ushr16 p)
  | rgba => setUint32 dv offset p true
  | float32 => setFloat32 dv offset (Some (fround p)) isLittleEndian
  | uint32 => setUint32 dv offset p isLittleEndian
  | int32 => setInt32 dv offset p isLittleEndian
  | uint16 => setUint16 dv offset p isLittleEndian
  | int16 => setInt16 dv offset p isLittleEndian
  | uint8 => setUint8 dv offset p
  | int8 => setInt8 dv offset p
  end.

(** The value that the statement of [deserializeCode(property, offset)]
    assigns to the property. In [rgb], the operands of [|] are below
    [2^16] and [2^24]. *)
Definition deserializeCode (t : AnnotationPropertyType) (dv : DataView) (offset : Z)
    (isLittleEndian : bool) : Outcome Number :=
  match t with
  | rgb =>
      lo ← getUint16 dv offset true;
      hi ← getUint8 dv (offset + 2);
      mret (number_of_Z (Z.lor lo (Z.shiftl hi 16)))
  | rgba => number_of_Z <$> getUint32 dv offset true
  | float32 => number_of_f32 <$> getFloat32 dv offset isLittleEndian
  | uint32 => number_of_Z <$> getUint32 dv offset isLittleEndian
  | int32 => number_of_Z <$> getInt32 dv offset isLittleEndian
  | uint16 => number_of_Z <$> getUint16 dv offset isLittleEndian
  | int16 => number_of_Z <$> getInt16 dv offset isLittleEndian
  | uint8 => number_of_Z <$> getUint8 dv offset
  | int8 => number_of_Z <$> getInt8 dv offset
  end.

(** The value of the expression [offset + ${offsets[propertyIndex]}];
    every slot of [offsets] is assigned (a hole would make the expression
    NaN, which a [DataView] takes as the index 0). *)
Definition offsetExpr (offsets : list (option Z)) (offset : Z) (propertyIndex : nat) : Z :=
  match offsets !! propertyIndex with
  | Some (Some o) => offset + o
  | _ => 0
  end.

(** [properties[propertyIndex] = x]; the generated function assigns the
    indices in increasing order from 0, so that the index is at most the
    length of the array (beyond it the assignment would leave holes, which
    read as [undefined]). *)
Definition array_assign (propertyIndex : nat) (x : Number) (properties : list Number)
  : list Number :=
  if decide (propertyIndex < length properties)%nat
  then <[propertyIndex := x]> properties
  else properties ++ replicate (propertyIndex - length properties) S754_nan ++ [x].

Section GeneratedCode.
Variable offsets : list (option Z).

(** The generated [serialize]: the statements of the properties, from
    [propertyIndex] on. *)
Fixpoint run_serializeCode (specs : list AnnotationPropertySpec) (propertyIndex : nat)
    (dv : DataView) (offset : Z) (isLittleEndian : bool) (properties : list Number)
  : Outcome DataView :=
  match specs with
  | [] => Ok dv
  | spec :: rest =>
      dv ← serializeCode (type spec) dv (properties !! propertyIndex)
             (offsetExpr offsets offset propertyIndex) isLittleEndian;
      run_serializeCode rest (S propertyIndex) dv offset isLittleEndian properties
  end.

(** The generated [deserialize]. *)
Fixpoint run_deserializeCode (specs : list AnnotationPropertySpec) (propertyIndex : nat)
    (dv : DataView) (offset : Z) (isLittleEndian : bool) (properties : list Number)
  : Outcome (list Number) :=
  match specs with
  | [] => Ok properties
  | spec :: rest =>
      x ← deserializeCode (type spec) dv (offsetExpr offsets offset propertyIndex)
            isLittleEndian;
      run_deserializeCode rest (S propertyIndex) dv offset isLittleEndian
        (array_assign propertyIndex x properties)
  end.
End GeneratedCode.

(** [new AnnotationPropertySerializer(rank, propertySpecs)] *)
Definition new_AnnotationPropertySerializer (rank : nat)
    (propertySpecs : list AnnotationPropertySpec) : AnnotationPropertySerializer :=
  if decide (length propertySpecs = 0%nat)
  then {| ps_rank := rank; ps_propertySpecs := propertySpecs; ps_serializedBytes := 0;
          ps_serialize := fun buffer _ _ _ => Ok buffer;
          ps_deserialize := fun _ _ _ properties => Ok properties |}
  else
    let result := getPropertyOffsets rank propertySpecs in
    {| ps_rank := rank; ps_propertySpecs := propertySpecs;
       ps_serializedBytes := po_serializedBytes result;
       ps_serialize := run_serializeCode (po_offsets result) propertySpecs 0;
       ps_deserialize := run_deserializeCode (po_offsets result) propertySpecs 0 |}.

(** The annotation property serializer of a store, made by the constructor
    of the store. *)
Definition annotationPropertySerializer (s : AnnotationSourceState)
  : AnnotationPropertySerializer :=
  new_AnnotationPropertySerializer (serializer_rank s) (source_properties s).

(** The bytes that [serializeCode] writes for a property. *)
Definition property_bytes (t : AnnotationPropertyType) (isLittleEndian : bool)
    (property : option Number) : list Z :=
  let p := property_number property in
  match t with
  | rgb => bytes_of_integer 2 (toIntegerOrZero p)
           ++ bytes_of_integer 1 (toIntegerOrZero (ushr16 p))
  | rgba => bytes_of_integer 4 (toIntegerOrZero p)
  | float32 => endian_order isLittleEndian (bytes_of_bits (toFloat32 (Some (fround p))))
  | uint32 | int32 => endian_order isLittleEndian (bytes_of_integer 4 (toIntegerOrZero p))
  | uint16 | int16 => endian_order isLittleEndian (bytes_of_integer 2 (toIntegerOrZero p))
  | uint8 | int8 => bytes_of_integer 1 (toIntegerOrZero p)
  end.

(** The number of bytes that [serializeCode] writes for a property. *)
Definition property_written (t : AnnotationPropertyType) : nat :=
  match t with
  | rgb => 3
  | rgba | float32 | uint32 | int32 => 4
  | uint16 | int16 => 2
  | uint8 | int8 => 1
  end.

(** The signed reading of an unsigned integer of [n] bytes. *)
Definition signed (n : nat) (u : Z) : Z :=
  if 2 ^ (8 * Z.of_nat n - 1) <=? u then u - 2 ^ (8 * Z.of_nat n) else u.

(** The value that [deserializeCode] computes from the bytes of a property. *)
Definition property_of_bytes (t : AnnotationPropertyType) (isLittleEndian : bool)
    (bs : list Z) : Number :=
  match t with
  | rgb => number_of_Z (Z.lor (bits_of_bytes (take 2 bs))
                              (Z.shiftl (bits_of_bytes (drop 2 bs)) 16))
  | rgba => number_of_Z (bits_of_bytes bs)
  | float32 =>
      number_of_f32 (toFloat32 (Some (bits_of_bytes (endian_order isLittleEndian bs))))
  | uint32 => number_of_Z (bits_of_bytes (endian_order isLittleEndian bs))
  | int32 => number_of_Z (signed 4 (bits_of_bytes (endian_order isLittleEndian bs)))
  | uint16 => number_of_Z (bits_of_bytes (endian_order isLittleEndian bs))
  | int16 => number_of_Z (signed 2 (bits_of_bytes (endian_order isLittleEndian bs)))
  | uint8 => number_of_Z (bits_of_bytes bs)
  | int8 => number_of_Z (signed 1 (bits_of_bytes bs))
  end.

(** The values that a property of a type holds exactly: the integers of
    the range of the type (24 bits for [rgb]), the finite binary32 values. *)
Definition property_value (t : AnnotationPropertyType) (p : Number) : Prop :=
  match t with
  | rgb => exists z, 0 <= z < 2 ^ 24 /\ p = number_of_Z z
  | rgba | uint32 => exists z, 0 <= z < 2 ^ 32 /\ p = number_of_Z z
  | int32 => exists z, - 2 ^ 31 <= z < 2 ^ 31 /\ p = number_of_Z z
  | uint16 => exists z, 0 <= z < 2 ^ 16 /\ p = number_of_Z z
  | int16 => exists z, - 2 ^ 15 <= z < 2 ^ 15 /\ p = number_of_Z z
  | uint8 => exists z, 0 <= z < 2 ^ 8 /\ p = number_of_Z z
  | int8 => exists z, - 2 ^ 7 <= z < 2 ^ 7 /\ p = number_of_Z z
  | float32 => exists b, f32_finite b /\ p = number_of_f32 b
  end.

(** The ranges of the assigned properties of a layout end below the running
    size and are pairwise disjoint. *)
Definition regions_inv (rank : nat) (propertySpecs : list AnnotationPropertySpec)
    (s : Z) (offs : list (option Z)) : Prop :=
  (forall i o, offs !! i = Some (Some o) -> 0 <= o /\ o + size_at rank propertySpecs i <= s)
  /\ (forall i j oi oj, i <> j -> offs !! i = Some (Some oi) -> offs !! j = Some (Some oj) ->
        oi + size_at rank propertySpecs i <= oj \/ oj + size_at rank propertySpecs j <= oi).

(** A schema with a property of each size, and values for it: 0x112233,
    -2, 1.5 and 70000. *)
Definition example_schema : list AnnotationPropertySpec :=
  [mkSpec rgb; mkSpec int8; mkSpec float32; mkSpec uint32].

Definition example_properties : list Number :=
  [number_of_Z 0x112233; number_of_Z (-2); number_of_f32 0x3FC00000; number_of_Z 70000].

(** The bytes that [serializeFloatVector] writes for a vector, and a
    handler's [serialize] for a geometry. *)
Definition vector_bytes (isLittleEndian : bool) (rank : nat) (vec : Float32Array) : list Z :=
  encode_elements isLittleEndian ((vec !!.) <$> seq 0 rank).

Definition geometry_bytes (isLittleEndian : bool) (rank : nat) (g : Geometry) : list Z :=
  match g with
  | PointGeometry point => vector_bytes isLittleEndian rank point
  | LineGeometry a b | BoundingBoxGeometry a b | EllipsoidGeometry a b =>
      vector_bytes isLittleEndian rank a ++ vector_bytes isLittleEndian rank b
  end.

(** The type of a geometry. *)
Definition geometry_type (g : Geometry) : AnnotationType :=
  match g with
  | PointGeometry _ => POINT
  | LineGeometry _ _ => LINE
  | BoundingBoxGeometry _ _ => AXIS_ALIGNED_BOUNDING_BOX
  | EllipsoidGeometry _ _ => ELLIPSOID
  end.

(** The ranges of bytes of the types of a list do not overlap, and lie in
    a buffer of [size] bytes. *)
Definition regions_apart (allAnnotations : AnnotationType -> list Annotation)
    (propertySerializer : AnnotationPropertySerializer) (typeToOffset : AnnotationType -> Z)
    (size : Z) (types : list AnnotationType) : Prop :=
  let end_of t :=
    typeToOffset t
    + (geometry_serializedBytes t (ps_rank propertySerializer)
       + ps_serializedBytes propertySerializer) * Z.of_nat (length (allAnnotations t)) in
  (forall t, t ∈ types -> 0 <= typeToOffset t /\ end_of t <= size)
  /\ (forall t t', t ∈ types -> t' ∈ types -> t <> t' ->
        end_of t <= typeToOffset t' \/ end_of t' <= typeToOffset t).

(** The bytes of the properties of one annotation, [serializedBytes] of
    them from [offset] on, hold what the generated [serialize] writes for
    [properties]. *)
Definition properties_written (rank : nat) (propertySpecs : list AnnotationPropertySpec)
    (isLittleEndian : bool) (offset : Z) (properties : list Number) (buffer : DataView)
  : Prop :=
  forall i spec o, propertySpecs !! i = Some spec ->
    po_offsets (getPropertyOffsets rank propertySpecs) !! i = Some (Some o) ->
    read_bytes (Z.to_nat (offset + o)) (property_written (type spec)) buffer
    = property_bytes (type spec) isLittleEndian (properties !! i).

(** The byte offset of the instance [i] of the type [t] in the serialized
    annotations. *)
Definition instance_offset (propertySerializer : AnnotationPropertySerializer)
    (sa : SerializedAnnotations) (t : AnnotationType) (i : nat) : Z :=
  typeToOffset sa t
  + Z.of_nat i * (geometry_serializedBytes t (ps_rank propertySerializer)
                  + ps_serializedBytes propertySerializer).

(** The end of the bytes of the instances of the type [t]. *)
Definition instances_end (allAnnotations : AnnotationType -> list Annotation)
    (propertySerializer : AnnotationPropertySerializer) (sa : SerializedAnnotations)
    (t : AnnotationType) : Z :=
  instance_offset propertySerializer sa t (length (allAnnotations t)).

(** Annotations with properties for the schema of the examples. *)
Definition example_annotations_with_properties (t : AnnotationType) : list Annotation :=
  match t with
  | POINT =>
      [{| description := DescUndefined; id := "a"; relatedSegments := None;
          properties := example_properties;
          geometry := PointGeometry [0x3F800000; 0x40000000; 0x40400000] |}]
  | ELLIPSOID =>
      [{| description := DescUndefined; id := "e"; relatedSegments := None;
          properties := example_properties;
          geometry := EllipsoidGeometry [0x3F800000; 0x40000000; 0x40400000]
                        [0x3F800000; 0x3F800000; 0x40000000] |}]
  | _ => []
  end.

(** The serializer generated for the schema of the examples. *)
Definition example_propertySerializer : AnnotationPropertySerializer :=
  new_AnnotationPropertySerializer 3 example_schema.

(** An annotation that a schema describes: the id is not empty, the
    description is absent or a non-empty string, there is one list of 64-bit
    segment ids per relationship and one value per property, the vectors
    have [rank] finite coordinates, and the radii of an ellipsoid are not
    negative. *)
Definition conforms (schema : AnnotationSchema) (a : Annotation) : Prop :=
  id a <> EmptyString
  /\ (description a = DescUndefined \/ exists c d, description a = DescString (String c d))
  /\ (exists segments, relatedSegments a = Some segments
        /\ length segments = length (schema_relationships schema)
        /\ Forall (Forall (fun x => (x < 2 ^ 64)%N)) segments)
  /\ length (properties a) = length (schema_properties schema)
  /\ Forall (fun vec => length vec = schema_rank schema /\ Forall f32_finite vec)
       (geometry_vectors (geometry a))
  /\ (forall center radii, geometry a = EllipsoidGeometry center radii ->
        Forall (fun b => b = 2 ^ 31 \/ b < 2 ^ 31) radii).

(** An ellipsoid with a description, segments and a property. *)
Definition example_ellipsoid : Annotation :=
  {| description := DescString "soma"; id := "e";
     relatedSegments := Some [[7%N; 18446744073709551615%N]];
     properties := [number_of_Z 5];
     geometry := EllipsoidGeometry [0x3F800000; 0xC0000000; 0x40400000]
                   [0x3F800000; 0x80000000; 0x40000000] |}.

Definition example_ellipsoid_schema : AnnotationSchema :=
  {| schema_rank := 3; schema_relationships := ["segments"];
     schema_properties := [mkSpec uint8] |}.

(** A store that holds the restored points ["a"] and ["b"], both
    committed. *)
Definition example_restored_store : AnnotationSourceState :=
  (AnnotationSource.add (example_restored_point "a") true "0f" example_store).2.

Definition example_restored_points_store : AnnotationSourceState :=
  (AnnotationSource.add (example_other_restored_point "b") true "0f"
     example_restored_store).2.

(** The number of pick ids of the instances of the types of a list: every
    instance has [pickIdsPerInstance] of them. *)
Definition pickIds_of (pickIdsPerInstance : AnnotationType -> Z) (sa : SerializedAnnotations)
    (types : list AnnotationType) : Z :=
  foldr (fun t acc => Z.of_nat (length (typeToIds sa t)) * pickIdsPerInstance t + acc) 0 types.

(** ** [AnnotationSerializer] and the snapshot of a store *)

(** The state of an [AnnotationSerializer] is its field [annotations], the
    annotations that were added, by type. *)
Module AnnotationSerializer.
Definition new : AnnotationType -> list Annotation := fun _ => [].

Definition add (annotation : Annotation) (annotations : AnnotationType -> list Annotation)
  : AnnotationType -> list Annotation :=
  <[annotation_type annotation := annotations (annotation_type annotation) ++ [annotation]]>
    annotations.

Definition serialize (propertySerializer : AnnotationPropertySerializer)
    (isLittleEndian : bool) (annotations : AnnotationType -> list Annotation)
  : Outcome SerializedAnnotations :=
  serializeAnnotations annotations propertySerializer isLittleEndian.
End AnnotationSerializer.

(** What [segmentationFilter] uses of a [SegmentationDisplayState]:
    [visibleSegments.has] and [segmentEquivalences.get]. *)
Record SegmentationDisplayState := {
  visibleSegments_has : N -> bool;
  segmentEquivalences_get : N -> N;
}.

(** The inner loop of the filter, over the segments of one relationship. *)
Fixpoint some_segment_visible (segmentationState : SegmentationDisplayState)
    (segments : list N) : bool :=
  match segments with
  | [] => false
  | segment :: rest =>
      if visibleSegments_has segmentationState
           (segmentEquivalences_get segmentationState segment)
      then true
      else some_segment_visible segmentationState rest
  end.

(** The outer loop of the filter, from the index [i] on; [rest] are the
    related segments from [i] on. A state that is [undefined] or [null],
    or that the array does not have, is skipped. *)
Fixpoint segmentationFilter_from (segmentationStates : list (option SegmentationDisplayState))
    (i : nat) (rest : list (list N)) : bool :=
  match rest with
  | [] => false
  | segments :: rest =>
      match segmentationStates !! i with
      | Some (Some segmentationState) =>
          if some_segment_visible segmentationState segments then true
          else segmentationFilter_from segmentationStates (S i) rest
      | _ => segmentationFilter_from segmentationStates (S i) rest
      end
  end.

(** [segmentationFilter(segmentationStates)]: no filter for [undefined]. *)
Definition segmentationFilter
    (segmentationStates : option (list (option SegmentationDisplayState)))
  : option (Annotation -> bool) :=
  match segmentationStates with
  | None => None
  | Some segmentationStates =>
      Some (fun annotation =>
              match relatedSegments annotation with
              | None => false
              | Some relatedSegments =>
                  segmentationFilter_from segmentationStates 0 relatedSegments
              end)
  end.

(** [filter === undefined || filter(annotation)] *)
Definition passes (filter : option (Annotation -> bool)) (annotation : Annotation) : bool :=
  match filter with
  | None => true
  | Some filter => filter annotation
  end.

(** [serializeAnnotationSet(annotationSet, filter)] *)
Definition serializeAnnotationSet (annotationSet : AnnotationSourceState)
    (filter : option (Annotation -> bool)) (isLittleEndian : bool)
  : Outcome SerializedAnnotations :=
  annotations ← (AnnotationSource.iterator annotationSet).1;
  let serializer :=
    foldl (fun serializer annotation =>
             if passes filter annotation then AnnotationSerializer.add annotation serializer
             else serializer)
          AnnotationSerializer.new annotations in
  AnnotationSerializer.serialize (annotationPropertySerializer annotationSet) isLittleEndian
    serializer.

(** A local source in which the point ["a"] is pending, and whose transform
    was replaced as in [example_local_source]. *)
Definition example_local_pending_source : LocalAnnotationSourceState :=
  LocalAnnotationSource.with_base example_pending_store example_local_source.

(** An id as [makeAnnotationId()] returns them: 40 hexadecimal digits. *)
Definition example_generated_id : AnnotationId :=
  "00112233445566778899aabbccddeeff00112233".

(** A store that holds a line under an id of this form. *)
Definition example_generated_store : AnnotationSourceState :=
  (AnnotationSource.add (set_id example_line example_generated_id) true "0f" example_store).2.

(** Annotations by type of which two points have the same id; the line has
    the id ["c"]. *)
Definition example_duplicate_annotations (t : AnnotationType) : list Annotation :=
  match t with
  | POINT => [example_point "a"; example_point "b"; example_point "a"]
  | LINE => [set_id example_line "c"]
  | _ => []
  end.

(** * Properties *)

(** ** Facts on the property layout *)

Lemma padTo_spec (s a : Z) :
  0 <= s -> 0 < a -> 0 <= padTo s a < a /\ (s + padTo s a) mod a = 0.
Proof.
  intros Hs Ha. unfold padTo, js_rem.
  rewrite (Z.rem_mod_nonneg s a) by lia.
  pose proof (Z.mod_pos_bound s a Ha) as Hb.
  rewrite Z.rem_mod_nonneg by lia.
  split; [apply Z.mod_pos_bound; lia|].
  rewrite Zplus_mod_idemp_r.
  replace (s + (a - s mod a)) with (a + (s - s mod a)) by lia.
  rewrite (Z.div_mod s a) at 1 by lia.
  replace (a + (a * (s / a) + s mod a - s mod a)) with ((1 + s / a) * a) by lia.
  apply Z_mod_mult.
Qed.

Lemma padTo_aligned (s a : Z) : 0 <= s -> 0 < a -> s mod a = 0 -> padTo s a = 0.
Proof.
  intros Hs Ha Hm. unfold padTo, js_rem.
  rewrite (Z.rem_mod_nonneg s a), Hm, Z.sub_0_r by lia.
  rewrite Z.rem_mod_nonneg by lia. apply Z_mod_same_full.
Qed.

Lemma handler_alignment_pos t rank : 0 < handler_alignment t rank.
Proof. destruct t; simpl; lia. Qed.

Lemma handler_serializedBytes_pos t rank : 0 < handler_serializedBytes t rank.
Proof. destruct t; simpl; lia. Qed.

(** The size of a property type is a multiple of every alignment that is
    not larger than its own. *)
Lemma size_multiple_of_smaller_alignment t u rank :
  handler_alignment u rank <= handler_alignment t rank ->
  handler_serializedBytes t rank mod handler_alignment u rank = 0.
Proof. destruct t, u; simpl; intros; try reflexivity; lia. Qed.

Lemma alignment_divides t u rank (s : Z) :
  handler_alignment u rank <= handler_alignment t rank ->
  s mod handler_alignment t rank = 0 -> s mod handler_alignment u rank = 0.
Proof.
  intros Hle Hs.
  assert (Hd : exists k, handler_alignment t rank = k * handler_alignment u rank).
  { destruct t, u; simpl in *; try lia;
      first [ by exists 1 | by exists 2 | by exists 4 ]. }
  destruct Hd as [k Hk].
  pose proof (handler_alignment_pos t rank). pose proof (handler_alignment_pos u rank).
  apply Z.mod_divide in Hs; [|lia]. apply Z.mod_divide; [lia|].
  destruct Hs as [q Hq]. exists (q * k). lia.
Qed.

Section PropertyOffsetsFacts.
Variable rank : nat.
Variable propertySpecs : list AnnotationPropertySpec.

Local Abbreviation getAlignment' := (getAlignment rank propertySpecs).
Local Abbreviation sort_insert' := (sort_insert rank propertySpecs).
Local Abbreviation sort_permutation' := (sort_permutation rank propertySpecs).
Local Abbreviation layout_step' := (layout_step rank propertySpecs).
Local Abbreviation alignment_ge' := (alignment_ge rank propertySpecs).
Local Abbreviation aligned_slots' := (aligned_slots rank propertySpecs).
Local Abbreviation assigned' := assigned.
Local Abbreviation sizes' := (sizes rank propertySpecs).
Local Abbreviation size_at' := (size_at rank propertySpecs).


Lemma sort_insert_perm i l : sort_insert' i l ≡ₚ i :: l.
Proof.
  induction l as [|j l IH]; simpl; [done|].
  destruct (compare rank propertySpecs i j >? 0); [|done].
  rewrite IH. apply perm_swap.
Qed.

Lemma sort_permutation_perm l : sort_permutation' l ≡ₚ l.
Proof.
  induction l as [|i l IH]; simpl; [done|].
  unfold sort_permutation in *. simpl. by rewrite sort_insert_perm, IH.
Qed.

Lemma sort_insert_sorted i l :
  StronglySorted alignment_ge' l -> StronglySorted alignment_ge' (sort_insert' i l).
Proof.
  induction 1 as [|j l Hl IH Hj]; simpl.
  { repeat constructor. }
  destruct (compare rank propertySpecs i j >? 0) eqn:Hc.
  - constructor; [done|].
    rewrite sort_insert_perm. constructor; [|done].
    unfold alignment_ge, compare in *. lia.
  - assert (Hij : alignment_ge' i j) by (unfold alignment_ge, compare in *; lia).
    constructor; [by constructor|].
    constructor; [done|].
    eapply Forall_impl; [exact Hj|]. unfold alignment_ge in *. intros; lia.
Qed.

Lemma sort_permutation_sorted l : StronglySorted alignment_ge' (sort_permutation' l).
Proof.
  induction l as [|i l IH]; [constructor|].
  apply sort_insert_sorted, IH.
Qed.

Lemma layout_step_inv st i :
  0 <= st.1 -> length st.2 = length propertySpecs -> aligned_slots' st.2 ->
  let st' := layout_step' st i in
  0 <= st'.1 /\ length st'.2 = length propertySpecs /\ aligned_slots' st'.2
  /\ (forall j, assigned' st.2 j -> assigned' st'.2 j)
  /\ ((i < length propertySpecs)%nat -> assigned' st'.2 i).
Proof.
  destruct st as [s offs]. simpl. intros Hs Hlen Hal.
  unfold layout_step.
  destruct (propertySpecs !! i) as [spec|] eqn:Hi; simpl.
  - pose proof (handler_alignment_pos (type spec) rank) as Ha.
    pose proof (handler_serializedBytes_pos (type spec) rank) as Hb.
    destruct (padTo_spec s _ Hs Ha) as [Hp Hm].
    split; [lia|]. split; [by rewrite length_insert|].
    split; [|split].
    + intros j spec' o Hj Ho.
      destruct (decide (i = j)) as [->|Hne].
      * rewrite list_lookup_insert_eq in Ho by (apply lookup_lt_Some in Hj; lia).
        simplify_eq. split; [lia|done].
      * rewrite list_lookup_insert_ne in Ho by done. eauto.
    + intros j [o Ho]. destruct (decide (i = j)) as [->|Hne].
      * eexists. apply list_lookup_insert_eq. by apply lookup_lt_Some in Ho.
      * exists o. by rewrite list_lookup_insert_ne.
    + intros Hlt. eexists. apply list_lookup_insert_eq. lia.
  - split; [done|]. split; [done|]. split; [done|]. split; [done|].
    intros Hlt. apply lookup_ge_None in Hi. lia.
Qed.

Lemma layout_fold_inv l st :
  0 <= st.1 -> length st.2 = length propertySpecs -> aligned_slots' st.2 ->
  let st' := foldl layout_step' st l in
  0 <= st'.1 /\ length st'.2 = length propertySpecs /\ aligned_slots' st'.2
  /\ (forall j, assigned' st.2 j -> assigned' st'.2 j)
  /\ (forall i, i ∈ l -> (i < length propertySpecs)%nat -> assigned' st'.2 i).
Proof.
  revert st. induction l as [|i l IH]; intros st Hs Hlen Hal; simpl.
  { split_and!; try done. intros j Hj. by apply elem_of_nil in Hj. }
  destruct (layout_step_inv st i Hs Hlen Hal) as (Hs' & Hlen' & Hal' & Hkeep & Hnew).
  destruct (IH _ Hs' Hlen' Hal') as (Hs2 & Hlen2 & Hal2 & Hkeep2 & Hnew2).
  split_and!; try done.
  - intros j Hj. auto.
  - intros j Hj Hlt. apply elem_of_cons in Hj as [->|Hj]; auto.
Qed.

Lemma layout_step_Some s offs i spec :
  propertySpecs !! i = Some spec ->
  layout_step' (s, offs) i
  = (s + padTo s (handler_alignment (type spec) rank)
     + handler_serializedBytes (type spec) rank,
     <[i := Some (s + padTo s (handler_alignment (type spec) rank))]> offs).
Proof. intros H. unfold layout_step. by rewrite H. Qed.

Lemma alignmentPaddings_cons s i l spec :
  propertySpecs !! i = Some spec ->
  alignmentPaddings rank propertySpecs s (i :: l)
  = padTo s (handler_alignment (type spec) rank)
    :: alignmentPaddings rank propertySpecs
         (s + padTo s (handler_alignment (type spec) rank)
          + handler_serializedBytes (type spec) rank) l.
Proof. intros H. simpl. by rewrite H. Qed.

(** In the order of the sorted permutation no property needs padding:
    the running size is the sum of the sizes'. *)
Lemma layout_fold_sorted l s offs :
  StronglySorted alignment_ge' l -> Forall (fun i => (i < length propertySpecs)%nat) l ->
  0 <= s -> Forall (fun i => s mod getAlignment' i = 0) l ->
  (foldl layout_step' (s, offs) l).1 = s + sizes' l
  /\ Forall (fun p => p = 0) (alignmentPaddings rank propertySpecs s l).
Proof.
  intros Hsorted. revert s offs.
  induction Hsorted as [|i l Hl IH Hi]; intros s offs Hvalid Hs Hmod.
  { simpl. split; [lia|constructor]. }
  apply Forall_cons in Hvalid as [Hlt Hvalid]. apply Forall_cons in Hmod as [Hmi Hmod].
  apply lookup_lt_is_Some in Hlt as [spec Hspec].
  cbn [foldl]. rewrite (layout_step_Some _ _ _ _ Hspec), (alignmentPaddings_cons _ _ _ _ Hspec).
  unfold getAlignment in Hmi. rewrite Hspec in Hmi. simpl in Hmi.
  pose proof (handler_alignment_pos (type spec) rank) as Ha.
  pose proof (handler_serializedBytes_pos (type spec) rank) as Hb.
  cbv zeta. rewrite (padTo_aligned s _ Hs Ha Hmi), Z.add_0_r.
  destruct (IH (s + handler_serializedBytes (type spec) rank)
               (<[i := Some s]> offs)) as [IH1 IH2]; [done|lia| |].
  { rewrite Forall_forall in Hi, Hmod, Hvalid. apply Forall_forall. intros j Hj.
    specialize (Hi j Hj). specialize (Hmod j Hj). specialize (Hvalid j Hj).
    apply lookup_lt_is_Some in Hvalid as [specj Hspecj].
    unfold alignment_ge, getAlignment in *.
    rewrite Hspecj in *. rewrite Hspec in Hi. simpl in *.
    rewrite Z.add_mod by (pose proof (handler_alignment_pos (type specj) rank); lia).
    rewrite Hmod, (size_multiple_of_smaller_alignment _ _ _ Hi). done. }
  split.
  - rewrite IH1. unfold sizes. cbn [foldr]. unfold size_at. rewrite Hspec. simpl. lia.
  - constructor; [done|]. done.
Qed.

Lemma sizes_perm l l' : l ≡ₚ l' -> sizes' l = sizes' l'.
Proof. induction 1; simpl; unfold sizes in *; simpl; lia. Qed.

End PropertyOffsetsFacts.

Lemma sizes_seq_from rank (prefix l : list AnnotationPropertySpec) :
  sizes rank (prefix ++ l) (seq (length prefix) (length l)) = declaredBytes rank l.
Proof.
  revert prefix. induction l as [|spec l IH]; intros prefix; [done|].
  cbn [length seq]. unfold sizes, declaredBytes in *. cbn [foldr].
  unfold size_at at 1. rewrite lookup_app_r, Nat.sub_diag by lia. cbn [lookup list_lookup from_option].
  f_equal. specialize (IH (prefix ++ [spec])).
  rewrite <- app_assoc, length_app, Nat.add_1_r in IH. exact IH.
Qed.

Lemma sizes_seq rank propertySpecs :
  sizes rank propertySpecs (seq 0 (length propertySpecs)) = declaredBytes rank propertySpecs.
Proof. exact (sizes_seq_from rank [] propertySpecs). Qed.

Lemma sort_permutation_valid rank propertySpecs :
  Forall (fun i => (i < length propertySpecs)%nat)
    (sort_permutation rank propertySpecs (seq 0 (length propertySpecs))).
Proof.
  rewrite sort_permutation_perm. apply Forall_forall. intros i Hi.
  apply elem_of_seq in Hi. lia.
Qed.

(** Before the final padding, [serializedBytes] is the sum of the declared
    sizes, and no property has padding in front of it. *)
Lemma layout_fold_permutation rank propertySpecs :
  let permutation := sort_permutation rank propertySpecs (seq 0 (length propertySpecs)) in
  (foldl (layout_step rank propertySpecs)
     (0, replicate (length propertySpecs) None) permutation).1
  = declaredBytes rank propertySpecs
  /\ Forall (fun p => p = 0) (alignmentPaddings rank propertySpecs 0 permutation).
Proof.
  intros permutation.
  destruct (layout_fold_sorted rank propertySpecs permutation 0
              (replicate (length propertySpecs) None)) as [H1 H2].
  - apply sort_permutation_sorted.
  - apply sort_permutation_valid.
  - lia.
  - apply Forall_forall. intros i _. apply Zmod_0_l.
  - split; [|done]. rewrite H1. subst permutation.
    rewrite (sizes_perm rank propertySpecs _ _ (sort_permutation_perm _ _ _)).
    rewrite sizes_seq. lia.
Qed.

Lemma declaredBytes_nonneg rank propertySpecs : 0 <= declaredBytes rank propertySpecs.
Proof.
  induction propertySpecs as [|spec l IH]; unfold declaredBytes in *; simpl; [lia|].
  pose proof (handler_serializedBytes_pos (type spec) rank). lia.
Qed.

Lemma getPropertyOffsets_serializedBytes rank propertySpecs :
  po_serializedBytes (getPropertyOffsets rank propertySpecs)
  = declaredBytes rank propertySpecs + padTo (declaredBytes rank propertySpecs) 4.
Proof.
  unfold getPropertyOffsets.
  destruct (layout_fold_permutation rank propertySpecs) as [H _].
  destruct (foldl _ _ _) as [s offs]. simpl in *. by subst.
Qed.

(** C4 (as amended). For every rank and every ordered property schema, in
    the result of [getPropertyOffsets] every property has an offset that is
    a multiple of the alignment of its type; [serializedBytes] is a
    multiple of 4; no padding is inserted in front of a property; the
    padding in all (what [serializedBytes] holds beyond the declared sizes)
    is the final padding, which is less than 4; and the schema of rank 2
    with the properties [uint8, float32] gets the offsets [4, 0] and 8
    bytes. *)
Theorem getPropertyOffsets_layout (rank : nat) (propertySpecs : list AnnotationPropertySpec) :
  let result := getPropertyOffsets rank propertySpecs in
  (forall i spec, propertySpecs !! i = Some spec ->
     exists offset, po_offsets result !! i = Some (Some offset) /\ 0 <= offset
                    /\ offset mod handler_alignment (type spec) rank = 0)
  /\ po_serializedBytes result mod 4 = 0
  /\ Forall (fun p => p = 0)
       (alignmentPaddings rank propertySpecs 0
          (sort_permutation rank propertySpecs (seq 0 (length propertySpecs))))
  /\ 0 <= paddingBytes rank propertySpecs < 4
  /\ getPropertyOffsets 2 [mkSpec uint8; mkSpec float32]
     = {| po_serializedBytes := 8; po_offsets := [Some 4; Some 0] |}.
Proof.
  intros result.
  pose proof (declaredBytes_nonneg rank propertySpecs) as Hd.
  destruct (padTo_spec (declaredBytes rank propertySpecs) 4 Hd) as [Hpad Hmod]; [lia|].
  split_and!.
  - intros i spec Hspec.
    destruct (layout_fold_inv rank propertySpecs
                (sort_permutation rank propertySpecs (seq 0 (length propertySpecs)))
                (0, replicate (length propertySpecs) None))
      as (_ & _ & Hal & _ & Has); simpl.
    + lia.
    + apply length_replicate.
    + intros j spec' o _ Ho. apply lookup_replicate in Ho as [? _]. done.
    + pose proof (lookup_lt_Some _ _ _ Hspec) as Hlt.
      destruct (Has i) as [o Ho]; [|done|].
      { rewrite sort_permutation_perm. apply elem_of_seq. lia. }
      exists o. subst result. unfold getPropertyOffsets.
      destruct (foldl _ _ _) as [s offs]. simpl in *.
      split; [done|]. eapply Hal; eauto.
  - subst result. by rewrite getPropertyOffsets_serializedBytes.
  - apply layout_fold_permutation.
  - unfold paddingBytes. rewrite getPropertyOffsets_serializedBytes. lia.
  - unfold paddingBytes. rewrite getPropertyOffsets_serializedBytes. lia.
  - reflexivity.
Qed.

(** C4 (as stated) fails: for the schema with the single property [uint8]
    the layout holds 3 bytes of padding, and the maximum alignment is 1. *)
Lemma padding_not_below_maxAlignment :
  ~ (paddingBytes 2 [mkSpec uint8] < maxAlignment 2 [mkSpec uint8]).
Proof. vm_compute. intros H. discriminate H. Qed.

(** ** Facts on the [DataView] *)

Lemma bits_of_bytes_of_bits (b : Z) : 0 <= b < 2 ^ 32 -> bits_of_bytes (bytes_of_bits b) = b.
Proof.
  intros Hb. unfold bits_of_bytes, bytes_of_bits. simpl.
  change (2 ^ 32) with 4294967296 in Hb.
  Z.div_mod_to_equations. lia.
Qed.

Lemma endian_order_involutive le bs : endian_order le (endian_order le bs) = bs.
Proof. destruct le; simpl; [done|]. apply reverse_involutive. Qed.

Lemma length_endian_order le bs : length (endian_order le bs) = length bs.
Proof. destruct le; simpl; [done|]. apply length_reverse. Qed.

Lemma length_encode_elements le xs :
  length (encode_elements le xs) = (4 * length xs)%nat.
Proof.
  induction xs as [|x xs IH]; [done|].
  cbn [encode_elements]. rewrite length_app, length_endian_order, IH. simpl. lia.
Qed.

Lemma length_write_bytes off bs buf :
  (off + length bs <= length buf)%nat -> length (write_bytes off bs buf) = length buf.
Proof.
  intros H. unfold write_bytes. rewrite !length_app, length_take, length_drop. lia.
Qed.

Lemma write_bytes_nil off buf : (off <= length buf)%nat -> write_bytes off [] buf = buf.
Proof. intros H. unfold write_bytes. simpl. rewrite Nat.add_0_r. apply take_drop. Qed.

Lemma write_bytes_app off bs1 bs2 buf :
  (off + length bs1 + length bs2 <= length buf)%nat ->
  write_bytes (off + length bs1) bs2 (write_bytes off bs1 buf)
  = write_bytes off (bs1 ++ bs2) buf.
Proof.
  intros H. unfold write_bytes.
  assert (Hl : length (take off buf ++ bs1) = (off + length bs1)%nat)
    by (rewrite length_app, length_take; lia).
  rewrite (app_assoc (take off buf) bs1).
  rewrite take_app_length' by done.
  rewrite <- !app_assoc. do 2 f_equal.
  rewrite (app_assoc (take off buf) bs1).
  rewrite drop_app_ge by lia.
  rewrite Hl, drop_drop, length_app. do 2 f_equal. lia.
Qed.

Lemma read_bytes_write_bytes off bs buf :
  (off + length bs <= length buf)%nat ->
  read_bytes off (length bs) (write_bytes off bs buf) = bs.
Proof.
  intros H. unfold read_bytes, write_bytes.
  rewrite drop_app_length' by (rewrite length_take; lia).
  by rewrite take_app_length.
Qed.

Lemma read_bytes_split off n m buf :
  read_bytes off (n + m) buf = read_bytes off n buf ++ read_bytes (off + n) m buf.
Proof.
  unfold read_bytes. rewrite <- drop_drop.
  generalize (drop off buf). intros l. revert l.
  induction n as [|n IH]; intros l; simpl; [by rewrite drop_0|].
  destruct l as [|x l]; simpl.
  - by rewrite take_nil.
  - by rewrite IH.
Qed.

Lemma in_range_true buf off n :
  0 <= off -> off + n <= byteLength buf -> in_range buf off n = true.
Proof. intros. unfold in_range. apply andb_true_intro. split; lia. Qed.

Lemma toFloat32_finite b : f32_finite b -> toFloat32 (Some b) = b.
Proof.
  intros [_ Hf]. unfold toFloat32, f32_isNaN.
  destruct (f32_exponent b =? 255) eqn:He; [lia|done].
Qed.

(** ** The vector codecs *)

Lemma serializeFloatVector_from_ok le vec count : forall i buf off,
  0 <= off -> off + 4 * Z.of_nat count <= byteLength buf ->
  serializeFloatVector_from i count buf off le (Some vec)
  = Ok (write_bytes (Z.to_nat off) (encode_elements le ((vec !!.) <$> seq i count)) buf,
        off + 4 * Z.of_nat count).
Proof.
  induction count as [|count IH]; intros i buf off Hoff Hlen.
  { simpl. rewrite write_bytes_nil by (unfold byteLength in *; lia).
    by rewrite Z.add_0_r. }
  cbn [serializeFloatVector_from element mbind Outcome_bind].
  unfold setFloat32. rewrite in_range_true by lia.
  set (bs := endian_order le (bytes_of_bits (toFloat32 (vec !! i)))).
  assert (Hbs : length bs = 4%nat) by (subst bs; by rewrite length_endian_order).
  cbn [mbind Outcome_bind].
  rewrite IH.
  - f_equal. f_equal; [|lia].
    replace (Z.to_nat (off + 4)) with (Z.to_nat off + length bs)%nat by lia.
    rewrite write_bytes_app.
    + done.
    + rewrite length_encode_elements, length_fmap, length_seq.
      unfold byteLength in *. lia.
  - lia.
  - unfold byteLength in *. rewrite length_write_bytes; lia.
Qed.

Lemma deserializeFloatVector_from_ok le (xs : Float32Array) : forall i buf off vec,
  0 <= off -> off + 4 * Z.of_nat (length xs) <= byteLength buf ->
  Forall f32_finite xs ->
  read_bytes (Z.to_nat off) (4 * length xs) buf = encode_elements le (Some <$> xs) ->
  (i + length xs <= length vec)%nat ->
  deserializeFloatVector_from i (length xs) buf off le vec
  = Ok (take i vec ++ xs ++ drop (i + length xs) vec, off + 4 * Z.of_nat (length xs)).
Proof.
  induction xs as [|x xs IH]; intros i buf off vec Hoff Hlen Hfin Hread Hvec.
  { simpl. rewrite Nat.add_0_r, take_drop, Z.add_0_r. done. }
  apply Forall_cons in Hfin as [Hx Hfin].
  cbn [length deserializeFloatVector_from]. cbn [length] in Hread, Hvec.
  change (length (x :: xs)) with (S (length xs)) in Hlen. rewrite Nat2Z.inj_succ in *.
  unfold getFloat32. assert (H4 : off + 4 <= byteLength buf) by lia. rewrite (in_range_true buf off 4 Hoff H4).
  replace (4 * S (length xs))%nat with (4 + 4 * length xs)%nat in Hread by lia.
  rewrite read_bytes_split in Hread.
  cbn [fmap list_fmap encode_elements] in Hread.
  apply app_inj_1 in Hread as [Hread1 Hread2].
  2:{ rewrite length_endian_order. unfold read_bytes. rewrite length_take, length_drop.
      unfold byteLength in *. cbn [bytes_of_bits length]. lia. }
  rewrite Hread1, endian_order_involutive, (toFloat32_finite x Hx).
  rewrite bits_of_bytes_of_bits by apply Hx.
  rewrite (toFloat32_finite x Hx).
  cbn [mbind Outcome_bind].
  rewrite IH; try done.
  - f_equal. f_equal; [|lia].
    rewrite (take_S_r _ _ x) by (apply list_lookup_insert_eq; lia). 
    rewrite take_insert_ge by lia. rewrite drop_insert_lt by lia.
    rewrite <- app_assoc. simpl. repeat f_equal. lia.
  - lia.
  - lia.
  - replace (Z.to_nat (off + 4)) with (Z.to_nat off + 4)%nat by lia. done.
  - rewrite length_insert. lia.
Qed.

Lemma lookups_seq {A} (l : list A) : (l !!.) <$> seq 0 (length l) = Some <$> l.
Proof.
  apply list_eq. intros i. rewrite !list_lookup_fmap.
  destruct (decide (i < length l)%nat) as [Hlt|Hge].
  - rewrite lookup_seq_lt by done. simpl.
    destruct (lookup_lt_is_Some_2 l i Hlt) as [x Hx]. by rewrite Hx.
  - rewrite lookup_seq_ge by lia. by rewrite lookup_ge_None_2 by lia.
Qed.

Lemma serializeFloatVector_ok le rank (vec : Float32Array) buf off :
  length vec = rank ->
  0 <= off -> off + 4 * Z.of_nat rank <= byteLength buf ->
  serializeFloatVector buf off le rank (Some vec)
  = Ok (write_bytes (Z.to_nat off) (encode_elements le (Some <$> vec)) buf,
        off + 4 * Z.of_nat rank).
Proof.
  intros <- Hoff Hlen. unfold serializeFloatVector.
  rewrite serializeFloatVector_from_ok by done. by rewrite lookups_seq.
Qed.

Lemma deserializeFloatVector_ok le rank (vec : Float32Array) buf off :
  length vec = rank ->
  0 <= off -> off + 4 * Z.of_nat rank <= byteLength buf ->
  Forall f32_finite vec ->
  read_bytes (Z.to_nat off) (4 * rank) buf = encode_elements le (Some <$> vec) ->
  deserializeFloatVector buf off le rank (new_Float32Array rank)
  = Ok (vec, off + 4 * Z.of_nat rank).
Proof.
  intros <- Hoff Hlen Hfin Hread. unfold deserializeFloatVector, new_Float32Array.
  rewrite (deserializeFloatVector_from_ok le vec) by (rewrite ?length_replicate; done || lia).
  rewrite take_0, drop_ge by (rewrite length_replicate; lia).
  by rewrite app_nil_r.
Qed.

(** One vector written by [serializeFloatVector] is read back by
    [deserializeFloatVector]. *)
Lemma vector_roundtrip le rank (vec : Float32Array) buf off :
  length vec = rank -> Forall f32_finite vec ->
  0 <= off -> off + 4 * Z.of_nat rank <= byteLength buf ->
  exists buf',
    serializeFloatVector buf off le rank (Some vec) = Ok (buf', off + 4 * Z.of_nat rank)
    /\ byteLength buf' = byteLength buf
    /\ deserializeFloatVector buf' off le rank (new_Float32Array rank)
       = Ok (vec, off + 4 * Z.of_nat rank).
Proof.
  intros Hrank Hfin Hoff Hlen.
  assert (Henc : length (encode_elements le (Some <$> vec)) = (4 * rank)%nat)
    by (rewrite length_encode_elements, length_fmap; lia).
  unfold byteLength in Hlen.
  eexists. split; [by apply serializeFloatVector_ok|]. split.
  - unfold byteLength. rewrite length_write_bytes; [done|lia].
  - apply deserializeFloatVector_ok; try done.
    + unfold byteLength. rewrite length_write_bytes; lia.
    + rewrite <- Henc. apply read_bytes_write_bytes. lia.
Qed.

(** Two vectors written by [serializeTwoFloatVectors] are read back by
    [deserializeTwoFloatVectors]. *)
Lemma two_vectors_roundtrip le rank (vecA vecB : Float32Array) buf off :
  length vecA = rank -> length vecB = rank ->
  Forall f32_finite vecA -> Forall f32_finite vecB ->
  0 <= off -> off + 2 * 4 * Z.of_nat rank <= byteLength buf ->
  exists buf',
    serializeTwoFloatVectors buf off le rank (Some vecA) (Some vecB)
    = Ok (buf', off + 2 * 4 * Z.of_nat rank)
    /\ byteLength buf' = byteLength buf
    /\ deserializeTwoFloatVectors buf' off le rank
         (new_Float32Array rank) (new_Float32Array rank)
       = Ok (vecA, vecB, off + 2 * 4 * Z.of_nat rank).
Proof.
  intros HA HB HfA HfB Hoff Hlen.
  set (encA := encode_elements le (Some <$> vecA)).
  set (encB := encode_elements le (Some <$> vecB)).
  assert (HlA : length encA = (4 * rank)%nat)
    by (subst encA; rewrite length_encode_elements, length_fmap; lia).
  assert (HlB : length encB = (4 * rank)%nat)
    by (subst encB; rewrite length_encode_elements, length_fmap; lia).
  unfold byteLength in Hlen.
  exists (write_bytes (Z.to_nat off) (encA ++ encB) buf).
  assert (Hread : read_bytes (Z.to_nat off) (4 * rank + 4 * rank)
                    (write_bytes (Z.to_nat off) (encA ++ encB) buf) = encA ++ encB).
  { rewrite <- HlA at 1. rewrite <- HlB at 1. rewrite <- length_app.
    apply read_bytes_write_bytes. rewrite length_app. lia. }
  rewrite read_bytes_split in Hread.
  apply app_inj_1 in Hread as [HreadA HreadB].
  2:{ unfold read_bytes. rewrite length_take, length_drop, length_write_bytes
        by (rewrite length_app; lia). lia. }
  assert (Hlen' : byteLength (write_bytes (Z.to_nat off) (encA ++ encB) buf) = byteLength buf).
  { unfold byteLength. rewrite length_write_bytes; [done|]. rewrite length_app. lia. }
  split; [|split; [done|]].
  - unfold serializeTwoFloatVectors.
    rewrite (serializeFloatVector_ok le rank vecA) by (done || unfold byteLength; lia).
    cbn [mbind Outcome_bind].
    rewrite (serializeFloatVector_ok le rank vecB).
    + fold encA encB. f_equal. f_equal; [|lia].
      replace (Z.to_nat (off + 4 * Z.of_nat rank)) with (Z.to_nat off + length encA)%nat by lia.
      apply write_bytes_app. lia.
    + done.
    + lia.
    + unfold byteLength. rewrite length_write_bytes; fold encA; lia.
  - unfold deserializeTwoFloatVectors.
    rewrite (deserializeFloatVector_ok le rank vecA); try done.
    2:{ rewrite Hlen'. unfold byteLength. lia. }
    cbn [mbind Outcome_bind].
    rewrite (deserializeFloatVector_ok le rank vecB); try done.
    + cbn [mbind Outcome_bind mret Outcome_ret]. do 2 f_equal. lia.
    + lia.
    + rewrite Hlen'. unfold byteLength. lia.
    + replace (Z.to_nat (off + 4 * Z.of_nat rank)) with (Z.to_nat off + 4 * rank)%nat by lia.
      done.
Qed.

(** C3 (as amended). For every geometry kind, rank, endianness and offset
    at which the geometry fits in the buffer, and every annotation of that
    kind whose geometric vectors have [rank] components, all finite
    binary32 values: [serialize] returns, and [deserialize] at the same
    offset, endianness and rank, with the same id, returns the record with
    the type, the id and the geometric vectors of the original, bit for
    bit, with no description, no related segments and [properties: []]; it
    is the original record when that one carries none of these. *)
Theorem geometry_roundtrip (t : AnnotationType) (rank : nat) (buffer : DataView) (offset : Z)
    (isLittleEndian : bool) (annotation : Annotation) :
  annotation_type annotation = t ->
  Forall (fun vec => length vec = rank /\ Forall f32_finite vec)
    (geometry_vectors (geometry annotation)) ->
  0 <= offset -> offset + geometry_serializedBytes t rank <= byteLength buffer ->
  exists buffer',
    geometry_serialize t buffer offset isLittleEndian rank annotation = Ok buffer'
    /\ byteLength buffer' = byteLength buffer
    /\ geometry_deserialize t buffer' offset isLittleEndian rank (id annotation)
       = Ok (deserialized (geometry annotation) (id annotation))
    /\ (description annotation = DescUndefined -> relatedSegments annotation = None ->
        properties annotation = [] ->
        deserialized (geometry annotation) (id annotation) = annotation).
Proof.
  intros Ht Hvec Hoff Hlen.
  destruct annotation as [d i rel props g]. unfold annotation_type in Ht.
  simpl in *.
  destruct g as [point|pointA pointB|pointA pointB|center radii]; subst t; simpl in *.
  - apply Forall_singleton in Hvec as [Hl Hf].
    destruct (vector_roundtrip isLittleEndian rank point buffer offset)
      as (buf' & Hs & Hb & Hd); try done; [lia|].
    exists buf'. unfold get_point. simpl. rewrite Hs, Hd.
    split_and!; try done. by intros -> -> ->.
  - apply Forall_cons in Hvec as [[HlA HfA] Hvec]. apply Forall_singleton in Hvec as [HlB HfB].
    destruct (two_vectors_roundtrip isLittleEndian rank pointA pointB buffer offset)
      as (buf' & Hs & Hb & Hd); try done.
    exists buf'. unfold get_pointA, get_pointB. simpl. rewrite Hs, Hd.
    split_and!; try done. by intros -> -> ->.
  - apply Forall_cons in Hvec as [[HlA HfA] Hvec]. apply Forall_singleton in Hvec as [HlB HfB].
    destruct (two_vectors_roundtrip isLittleEndian rank pointA pointB buffer offset)
      as (buf' & Hs & Hb & Hd); try done.
    exists buf'. unfold get_pointA, get_pointB. simpl. rewrite Hs, Hd.
    split_and!; try done. by intros -> -> ->.
  - apply Forall_cons in Hvec as [[HlA HfA] Hvec]. apply Forall_singleton in Hvec as [HlB HfB].
    destruct (two_vectors_roundtrip isLittleEndian rank center radii buffer offset)
      as (buf' & Hs & Hb & Hd); try done.
    exists buf'. unfold get_center, get_radii. simpl. rewrite Hs, Hd.
    split_and!; try done. by intros -> -> ->.
Qed.

(** A line of rank 2 in a buffer of 16 bytes is read back as written. *)
Lemma geometry_roundtrip_witness :
  exists buffer',
    geometry_serialize LINE (new_DataView 16) 0 true 2 example_line = Ok buffer'
    /\ byteLength buffer' = byteLength (new_DataView 16)
    /\ geometry_deserialize LINE buffer' 0 true 2 (id example_line)
       = Ok (deserialized (geometry example_line) (id example_line))
    /\ (description example_line = DescUndefined -> relatedSegments example_line = None ->
        properties example_line = [] ->
        deserialized (geometry example_line) (id example_line) = example_line).
Proof.
  apply (geometry_roundtrip LINE 2 (new_DataView 16) 0 true example_line).
  - reflexivity.
  - repeat constructor; vm_compute; congruence.
  - lia.
  - vm_compute. congruence.
Defined.

(** C3 (as stated) fails: a point with one property is not read back as
    the record that was written, [deserialize] yields [properties: []]. *)
Lemma roundtrip_drops_properties :
  Forall (Forall f32_finite) (geometry_vectors (geometry example_point_with_property))
  /\ (buffer ← geometry_serialize POINT (new_DataView 4) 0 true 1 example_point_with_property;
      geometry_deserialize POINT buffer 0 true 1 (id example_point_with_property))
     <> Ok example_point_with_property.
Proof.
  split.
  - repeat constructor; vm_compute; congruence.
  - vm_compute. congruence.
Qed.

(** ** Facts on [JsMap] *)

Lemma JsMap_get_set_eq {V} k (v : V) m : JsMap.get k (JsMap.set k v m) = Some v.
Proof.
  induction m as [|[k' v'] m IH]; simpl.
  - by rewrite decide_True.
  - destruct (decide (k' = k)) as [->|Hne]; simpl.
    + by rewrite decide_True.
    + by rewrite decide_False.
Qed.

Lemma JsMap_get_set_ne {V} k k' (v : V) m :
  k <> k' -> JsMap.get k' (JsMap.set k v m) = JsMap.get k' m.
Proof.
  intros Hne. induction m as [|[k0 v0] m IH]; simpl.
  - by rewrite decide_False.
  - destruct (decide (k0 = k)) as [->|Hne0]; simpl.
    + by rewrite !decide_False.
    + destruct (decide (k0 = k')); [done|]. apply IH.
Qed.

Lemma JsMap_get_delete_eq {V} k (m : JsMap.t V) : JsMap.get k (JsMap.delete k m) = None.
Proof.
  unfold JsMap.delete. induction m as [|[k0 v0] m IH]; [done|].
  rewrite filter_cons. simpl. destruct (decide (k0 <> k)) as [Hne|Heq]; simpl.
  - by rewrite decide_False.
  - done.
Qed.

Lemma JsMap_get_delete_ne {V} k k' (m : JsMap.t V) :
  k <> k' -> JsMap.get k' (JsMap.delete k m) = JsMap.get k' m.
Proof.
  intros Hne. unfold JsMap.delete. induction m as [|[k0 v0] m IH]; [done|].
  rewrite filter_cons. simpl. destruct (decide (k0 <> k)) as [Hne0|Heq]; simpl.
  - by rewrite IH.
  - apply dec_stable in Heq. subst k0. by rewrite decide_False.
Qed.

Lemma JsMap_get_values {V} k (v : V) m : JsMap.get k m = Some v -> v ∈ JsMap.values m.
Proof.
  unfold JsMap.values. induction m as [|[k0 v0] m IH]; simpl; [done|].
  destruct (decide (k0 = k)); intros H.
  - simplify_eq. apply elem_of_cons. by left.
  - apply elem_of_cons. right. by apply IH.
Qed.

Lemma JsMap_has_get {V} k (m : JsMap.t V) :
  JsMap.has k m = true <-> is_Some (JsMap.get k m).
Proof. unfold JsMap.has. apply bool_decide_eq_true. Qed.

(** ** Facts on the annotation store *)

(** Runs the monadic definitions of the methods of the store. *)
Ltac run_method :=
  unfold AnnotationSource.ensureUpdated, deref, assign_value, dispatch, modify, gets, throw,
    mbind, mret, Method_bind, Method_ret in *;
  cbn [fst snd] in *.

Lemma toJSON_run s :
  AnnotationSource.toJSON s
  = (Ok ((fun a => annotationToJson a (AnnotationSource.schema s))
         <$> filter (fun a => id a ∉ pending s) (JsMap.values (annotationMap s))), s).
Proof.
  unfold AnnotationSource.toJSON, AnnotationSource.iterator. run_method. f_equal. f_equal.
  generalize (JsMap.values (annotationMap s)). intros l.
  assert (Hgen : forall acc,
    foldl (fun result annotation =>
             if bool_decide (id annotation ∈ pending s) then result
             else result ++ [annotationToJson annotation (AnnotationSource.schema s)]) acc l
    = acc ++ ((fun a => annotationToJson a (AnnotationSource.schema s))
              <$> filter (fun a => id a ∉ pending s) l)).
  { induction l as [|a l IH]; intros acc; simpl; [by rewrite app_nil_r|].
    rewrite IH, filter_cons. case_bool_decide as Hin.
    - by rewrite decide_False by (intros H; by apply H).
    - rewrite decide_True by done. simpl. by rewrite <- app_assoc. }
  apply (Hgen []).
Qed.

Lemma json_id_annotationToJson a schema : json_id (annotationToJson a schema) = Some (id a).
Proof.
  unfold annotationToJson, json_id, member.
  destruct (geometry a); simpl; done.
Qed.

Lemma add_run annotation commit randomHex s :
  AnnotationSource.add annotation commit randomHex s
  = if decide (id annotation = "")
    then AnnotationSource.getReference randomHex
           (add_state (set_id annotation randomHex) commit s)
    else if JsMap.has (id annotation) (annotationMap s)
         then (Throw (Error "Annotation id already exists"), s)
         else AnnotationSource.getReference (id annotation) (add_state annotation commit s).
Proof.
  unfold AnnotationSource.add, add_state. run_method.
  destruct (decide (id annotation = "")) as [He|He]; simpl.
  - by destruct commit.
  - destruct (JsMap.has (id annotation) (annotationMap s)); simpl; [done|].
    by destruct commit.
Qed.

Lemma getReference_spec i s :
  exists reference s',
    AnnotationSource.getReference i s = (Ok reference, s')
    /\ annotationMap s' = annotationMap s /\ pending s' = pending s
    /\ dispatched s' = dispatched s /\ rank_ s' = rank_ s
    /\ relationships s' = relationships s /\ source_properties s' = source_properties s
    /\ (references_wf s -> references_wf s'
                           /\ exists r, refs s' !! reference = Some r /\ ref_id r = i).
Proof.
  unfold AnnotationSource.getReference.
  destruct (JsMap.get i (references s)) as [existing|] eqn:Hget.
  - eexists _, _. split; [done|]. simpl. split_and!; try done.
    intros Hwf. split.
    + intros k a Hk. simpl in *. destruct (Hwf k a Hk) as (r & Hr & Hid).
      destruct (decide (a = existing)) as [->|Hne].
      * exists (addRef r). by rewrite list_lookup_alter_eq, Hr.
      * exists r. by rewrite list_lookup_alter_ne.
    + destruct (Hwf i existing Hget) as (r & Hr & Hid).
      exists (addRef r). by rewrite list_lookup_alter_eq, Hr.
  - eexists _, _. split; [done|]. simpl. split_and!; try done.
    intros Hwf. split.
    + intros k a Hk. simpl in *.
      destruct (decide (i = k)) as [->|Hne].
      * rewrite JsMap_get_set_eq in Hk. simplify_eq.
        eexists. rewrite lookup_app_r, Nat.sub_diag by lia. done.
      * rewrite JsMap_get_set_ne in Hk by done.
        destruct (Hwf k a Hk) as (r & Hr & Hid). exists r.
        by rewrite lookup_app_l by (by apply lookup_lt_Some in Hr).
    + eexists. rewrite lookup_app_r, Nat.sub_diag by lia. done.
Qed.

Lemma references_wf_new rank rels props : references_wf (new_AnnotationSource rank rels props).
Proof. intros i a H. discriminate H. Qed.

Lemma references_wf_add_state a commit s : references_wf s -> references_wf (add_state a commit s).
Proof. unfold add_state, references_wf. by destruct commit. Qed.

Lemma commit_run reference r s :
  refs s !! reference = Some r ->
  AnnotationSource.commit reference s = (Ok (), with_pending (pending s ∖ {[ref_id r]}) s).
Proof. intros Hr. unfold AnnotationSource.commit. run_method. by rewrite Hr. Qed.

(** C5. For every store, when [add(annotation, false)] returns a
    reference, the added annotation does not appear in the output of
    [toJSON()]; after [commit(reference)], immediately or in any later
    state where the record is still stored under its id, it appears in the
    output of [toJSON()]. *)
Theorem pending_visibility (s s1 : AnnotationSourceState) (annotation : Annotation)
    (randomHex : AnnotationId) (reference : Ref) :
  references_wf s ->
  AnnotationSource.add annotation false randomHex s = (Ok reference, s1) ->
  let added := if decide (id annotation = "") then set_id annotation randomHex
               else annotation in
  (forall j, j ∈ toJSON_output s1 -> json_id j <> Some (id added))
  /\ (exists s3, AnnotationSource.commit reference s1 = (Ok (), s3)
                 /\ annotationToJson added (AnnotationSource.schema s3) ∈ toJSON_output s3)
  /\ (forall s2 r stored,
        refs s2 !! reference = Some r -> ref_id r = id added ->
        JsMap.get (id added) (annotationMap s2) = Some stored -> id stored = id added ->
        exists s3, AnnotationSource.commit reference s2 = (Ok (), s3)
                   /\ annotationToJson stored (AnnotationSource.schema s3) ∈ toJSON_output s3).
Proof.
  intros Hwf Hadd added.
  assert (Hlater : forall s2 r stored,
    refs s2 !! reference = Some r -> ref_id r = id added ->
    JsMap.get (id added) (annotationMap s2) = Some stored -> id stored = id added ->
    exists s3, AnnotationSource.commit reference s2 = (Ok (), s3)
               /\ annotationToJson stored (AnnotationSource.schema s3) ∈ toJSON_output s3).
  { intros s2 r stored Hr Hid Hget Hstored.
    eexists. split; [by apply commit_run|].
    unfold toJSON_output. rewrite toJSON_run. simpl.
    apply (list_elem_of_fmap_2 (fun a => annotationToJson a _)).
    apply list_elem_of_filter. split.
    - rewrite Hstored, Hid. set_solver.
    - by apply JsMap_get_values in Hget. }
  assert (Hstate : exists s0, references_wf s0
            /\ AnnotationSource.getReference (id added) s0 = (Ok reference, s1)
            /\ JsMap.get (id added) (annotationMap s0) = Some added
            /\ id added ∈ pending s0).
  { rewrite add_run in Hadd. subst added.
    destruct (decide (id annotation = "")) as [He|He].
    - eexists. split; [by apply references_wf_add_state|]. split; [exact Hadd|].
      simpl. split; [apply JsMap_get_set_eq|set_solver].
    - destruct (JsMap.has (id annotation) (annotationMap s)); [done|].
      eexists. split; [by apply references_wf_add_state|]. split; [exact Hadd|].
      simpl. split; [apply JsMap_get_set_eq|set_solver]. }
  destruct Hstate as (s0 & Hwf0 & Hget & Hmap & Hpend).
  destruct (getReference_spec (id added) s0)
    as (reference' & s1' & Hrun & Hm & Hp & _ & _ & _ & _ & Hrefs).
  rewrite Hget in Hrun. simplify_eq.
  destruct (Hrefs Hwf0) as (_ & r & Hr & Hid).
  split_and!.
  - intros j Hj. unfold toJSON_output in Hj. rewrite toJSON_run in Hj. simpl in Hj.
    apply list_elem_of_fmap in Hj as (a & -> & Ha).
    apply list_elem_of_filter in Ha as [Hnp _].
    rewrite json_id_annotationToJson. intros Heq. simplify_eq.
    apply Hnp. rewrite Hp. by rewrite Heq.
  - apply (Hlater s1' r added); try done. by rewrite Hm.
  - exact Hlater.
Qed.

(** The store of example with ["a"] pending satisfies the hypotheses of C5. *)
Lemma pending_visibility_witness :
  (forall j, j ∈ toJSON_output example_pending_store -> json_id j <> Some "a")
  /\ (exists s3, AnnotationSource.commit 0 example_pending_store = (Ok (), s3)
                 /\ annotationToJson (example_point "a") (AnnotationSource.schema s3)
                    ∈ toJSON_output s3)
  /\ (forall s2 r stored,
        refs s2 !! 0%nat = Some r -> ref_id r = "a" ->
        JsMap.get "a" (annotationMap s2) = Some stored -> id stored = "a" ->
        exists s3, AnnotationSource.commit 0 s2 = (Ok (), s3)
                   /\ annotationToJson stored (AnnotationSource.schema s3) ∈ toJSON_output s3).
Proof.
  apply (pending_visibility example_store example_pending_store (example_point "a") "0f" 0).
  - apply references_wf_new.
  - reflexivity.
Defined.

Lemma delete_run reference r s :
  refs s !! reference = Some r ->
  AnnotationSource.delete reference s
  = match ref_value r with
    | ValueNull => (Ok (), s)
    | _ => (Ok (), delete_state reference r s)
    end.
Proof.
  intros Hr. unfold AnnotationSource.delete, delete_state. run_method. rewrite Hr.
  destruct (ref_value r); simpl; try done.
  - by rewrite <- !app_assoc.
  - by rewrite <- !app_assoc.
Qed.

(** C7 (as amended). For every store, [delete] on a reference whose value
    is [null] returns without any effect; on a reference that is not
    deleted it returns, and it has removed the record of the reference's
    id, cleared the pending status of that id, set the value of the
    reference to [null], and dispatched the [changed] of the reference,
    [changed] and [childDeleted] with the id, in this order. *)
Theorem delete_semantics (s : AnnotationSourceState) (reference : Ref) (r : AnnotationReference) :
  refs s !! reference = Some r ->
  (ref_value r = ValueNull -> AnnotationSource.delete reference s = (Ok (), s))
  /\ (ref_value r <> ValueNull ->
      exists s',
        AnnotationSource.delete reference s = (Ok (), s')
        /\ annotationMap s' = JsMap.delete (ref_id r) (annotationMap s)
        /\ JsMap.get (ref_id r) (annotationMap s') = None
        /\ pending s' = pending s ∖ {[ref_id r]}
        /\ refs s' !! reference = Some (set_ref_value ValueNull r)
        /\ dispatched s'
           = dispatched s ++ [ReferenceChanged reference; Changed; ChildDeleted (ref_id r)]).
Proof.
  intros Hr. rewrite (delete_run reference r) by done. split.
  - by intros ->.
  - intros Hv. exists (delete_state reference r s).
    split; [by destruct (ref_value r)|]. unfold delete_state. simpl.
    split_and!; try done.
    + apply JsMap_get_delete_eq.
    + by rewrite list_lookup_alter_eq, Hr.
Qed.

Lemma delete_semantics_witness :
  AnnotationSource.delete 0 example_deleted_store = (Ok (), example_deleted_store)
  /\ exists s',
       AnnotationSource.delete 0 example_pending_store = (Ok (), s')
       /\ annotationMap s' = JsMap.delete "a" (annotationMap example_pending_store)
       /\ JsMap.get "a" (annotationMap s') = None
       /\ pending s' = pending example_pending_store ∖ {["a"]}
       /\ refs s' !! 0%nat
          = Some (set_ref_value ValueNull
                    {| ref_id := "a"; ref_value := ValueAnnotation (example_point "a");
                       refCount := 1 |})
       /\ dispatched s'
          = dispatched example_pending_store ++ [ReferenceChanged 0; Changed; ChildDeleted "a"].
Proof.
  split.
  - apply (proj1 (delete_semantics example_deleted_store 0
                    {| ref_id := "a"; ref_value := ValueNull; refCount := 1 |} eq_refl)).
    reflexivity.
  - apply (proj2 (delete_semantics example_pending_store 0
                    {| ref_id := "a"; ref_value := ValueAnnotation (example_point "a");
                       refCount := 1 |} eq_refl)).
    discriminate.
Defined.

(** C7 (as stated) fails: [delete] on a reference whose value is [null]
    does not throw. *)
Lemma delete_of_deleted_reference_returns :
  ref_value <$> refs example_deleted_store !! 0%nat = Some ValueNull
  /\ ~ is_Throw (AnnotationSource.delete 0 example_deleted_store).1.
Proof.
  split; [reflexivity|]. intros [e He]. vm_compute in He. discriminate He.
Qed.

Lemma update_run reference r annotation s :
  refs s !! reference = Some r ->
  AnnotationSource.update reference annotation s
  = match ref_value r with
    | ValueNull => (Throw (Error "Annotation already deleted."), s)
    | _ => (Ok (), update_state reference annotation s)
    end.
Proof.
  intros Hr. unfold AnnotationSource.update, update_state. run_method. rewrite Hr.
  destruct (ref_value r); simpl; try done.
  - by rewrite <- !app_assoc.
  - by rewrite <- !app_assoc.
Qed.

(** [update] on a reference that is not deleted sets the value of the
    reference to the record and dispatches the [changed] of the reference. *)
Lemma update_notifies_reference reference r annotation s :
  refs s !! reference = Some r -> ref_value r <> ValueNull ->
  exists s',
    AnnotationSource.update reference annotation s = (Ok (), s')
    /\ refs s' !! reference = Some (set_ref_value (ValueAnnotation annotation) r)
    /\ JsMap.get (id annotation) (annotationMap s') = Some annotation
    /\ dispatched s'
       = dispatched s ++ [ReferenceChanged reference; Changed; ChildUpdated annotation].
Proof.
  intros Hr Hv. exists (update_state reference annotation s).
  rewrite (update_run reference r) by done.
  split; [by destruct (ref_value r)|]. unfold update_state. simpl. split_and!.
  - by rewrite list_lookup_alter_eq, Hr.
  - apply JsMap_get_set_eq.
  - done.
Qed.

(** [add] of an annotation whose id has a live reference returns that
    reference and leaves its value as it was: the reference is neither
    updated nor notified. *)
Lemma add_keeps_live_reference annotation commit randomHex s reference r :
  id annotation <> "" -> JsMap.has (id annotation) (annotationMap s) = false ->
  JsMap.get (id annotation) (references s) = Some reference ->
  refs s !! reference = Some r ->
  exists s',
    AnnotationSource.add annotation commit randomHex s = (Ok reference, s')
    /\ refs s' !! reference = Some (addRef r)
    /\ dispatched s' = dispatched s ++ [Changed; ChildAdded annotation].
Proof.
  intros He Hhas Href Hr. rewrite add_run, decide_False, Hhas by done.
  unfold AnnotationSource.getReference.
  assert (Hrefs : references (add_state annotation commit s) = references s)
    by (unfold add_state; by destruct commit).
  assert (Hobjs : refs (add_state annotation commit s) = refs s)
    by (unfold add_state; by destruct commit).
  assert (Hd : dispatched (add_state annotation commit s)
               = dispatched s ++ [Changed; ChildAdded annotation]).
  { unfold add_state. destruct commit; simpl; by rewrite <- app_assoc. }
  rewrite Hrefs, Href. eexists. split; [done|]. simpl. rewrite Hobjs. split; [|done].
  by rewrite list_lookup_alter_eq, Hr.
Qed.

(** C8, at the failing input: a reference for ["x"] is live, with the value
    [null], when ["x"] is added; [add] returns that reference, the store
    holds the record, and the reference still has the value [null] and its
    [changed] was not dispatched. Through this reference [delete] then does
    nothing and [update] throws, as for a deleted annotation. *)
Theorem add_leaves_live_reference_stale :
  (AnnotationSource.add (example_point "x") true "0f" example_referenced_store).1 = Ok 0%nat
  /\ JsMap.get "x" (annotationMap example_stale_store) = Some (example_point "x")
  /\ ref_value <$> refs example_stale_store !! 0%nat = Some ValueNull
  /\ dispatched example_stale_store = [Changed; ChildAdded (example_point "x")]
  /\ AnnotationSource.delete 0 example_stale_store = (Ok (), example_stale_store)
  /\ AnnotationSource.update 0 (example_point "x") example_stale_store
     = (Throw (Error "Annotation already deleted."), example_stale_store).
Proof. split_and!; reflexivity. Qed.

Lemma restore_elements_prefix randomHex before : forall index restored rest s,
  restore_all (AnnotationSource.schema s) randomHex index before = Ok restored ->
  AnnotationSource.restore_elements randomHex index (before ++ rest) s
  = AnnotationSource.restore_elements randomHex (index + length before) rest
      (with_annotationMap (install (annotationMap s) restored) s).
Proof.
  induction before as [|x before IH]; intros index restored rest s Hall.
  { simpl in *. simplify_eq. rewrite Nat.add_0_r. by destruct s. }
  cbn [restore_all] in Hall.
  destruct (restoreAnnotation (Some x) (AnnotationSource.schema s) false (randomHex index))
    as [a|e] eqn:Ha; [|done].
  cbn [mbind Outcome_bind] in Hall.
  destruct (restore_all (AnnotationSource.schema s) randomHex (S index) before)
    as [l|e] eqn:Hl; [|done].
  unfold mbind, mret, Outcome_bind, Outcome_ret in Hall. simplify_eq.
  cbn [app AnnotationSource.restore_elements]. run_method. rewrite Ha.
  rewrite (IH (S index) l rest); [|done].
  simpl. f_equal. lia.
Qed.




(** ** Rank migration *)

Lemma newToOldDims_spec oldIds newIds oldSourceRank sourceRank :
  LocalAnnotationSource.newToOldDims oldIds newIds oldSourceRank sourceRank
  = matching_oldDim oldIds newIds oldSourceRank <$> seq 0 sourceRank.
Proof.
  unfold LocalAnnotationSource.newToOldDims.
  assert (Hgen : forall l acc,
    foldl (fun newToOldDims newDim =>
             let oldDim := indexOf oldIds (newIds !! newDim) in
             let oldDim := if oldDim >=? Z.of_nat oldSourceRank then -1 else oldDim in
             newToOldDims ++ [oldDim]) acc l
    = acc ++ (matching_oldDim oldIds newIds oldSourceRank <$> l)).
  { induction l as [|x l IH]; intros acc; simpl; [by rewrite app_nil_r|].
    rewrite IH, <- app_assoc. done. }
  apply (Hgen _ []).
Qed.

(** What [mapVector] computes: the component [i] of the result is 0 when
    the new dimension [i] has no matching old dimension, and otherwise the
    component of the old vector at the same index [i], whatever the matching
    old dimension is. *)
Lemma mapVector_lookup sourceRank newToOldDims (radii : Float32Array) i oldDim :
  (i < sourceRank)%nat -> newToOldDims !! i = Some oldDim ->
  LocalAnnotationSource.mapVector sourceRank newToOldDims radii !! i
  = Some (if decide (oldDim = -1) then f32_zero else toFloat32 (radii !! i)).
Proof.
  intros Hi Hdim. unfold LocalAnnotationSource.mapVector.
  set (step := fun (newRadii : Float32Array) (i : nat) =>
                 match newToOldDims !! i with
                 | Some oldDim =>
                     <[i := if decide (oldDim = -1) then f32_zero
                            else toFloat32 (radii !! i)]> newRadii
                 | None => newRadii
                 end).
  assert (Hlen : forall l acc, length (foldl step acc l) = length acc).
  { induction l as [|x l IH]; intros acc; simpl; [done|].
    rewrite IH. unfold step. destruct (newToOldDims !! x); [apply length_insert|done]. }
  assert (Hgen : forall k, (i < k <= sourceRank)%nat ->
    foldl step (new_Float32Array sourceRank) (seq 0 k) !! i
    = Some (if decide (oldDim = -1) then f32_zero else toFloat32 (radii !! i))).
  { induction k as [|k IH]; intros Hk; [lia|].
    rewrite seq_S, foldl_app. simpl.
    destruct (decide (i = k)) as [->|Hne].
    - unfold step at 1. rewrite Hdim. apply list_lookup_insert_eq.
      rewrite Hlen. unfold new_Float32Array. rewrite length_replicate. lia.
    - unfold step at 1. destruct (newToOldDims !! k).
      + rewrite list_lookup_insert_ne by done. apply IH. lia.
      + apply IH. lia. }
  apply Hgen. lia.
Qed.

(** C1, at the failing input: the point (1, 2, 3) of rank 3 with the
    dimensions 10, 11, 12, migrated to the rank 2 with the dimensions 10
    and 12, becomes (1, 2): the new dimension 1 matches the old dimension 2,
    and gets the old component of index 1. *)
Theorem rank_migration_example :
  LocalAnnotationSource.newToOldDims [10; 11; 12] [10; 12] 3 2 = [0; 2]
  /\ geometry <$> JsMap.get "a"
       (annotationMap (base (LocalAnnotationSource.ensureUpdated example_aliased example_local_source)))
     = Some (PointGeometry [0x3F800000; 0x40000000])
  /\ rank_ (base (LocalAnnotationSource.ensureUpdated example_aliased example_local_source)) = 2%nat.
Proof. split_and!; reflexivity. Qed.

(** ** Picking *)

Lemma JsMap_keys_set_new {V} k (v : V) m :
  k ∉ JsMap.keys m -> JsMap.set k v m = m ++ [(k, v)].
Proof.
  unfold JsMap.keys. induction m as [|[k' v'] m IH]; simpl; [done|].
  intros Hk. apply not_elem_of_cons in Hk as [Hne Hk].
  rewrite decide_False by done. by rewrite IH.
Qed.

Lemma JsMap_of_entries_NoDup {V} (entries : list (string * V)) :
  NoDup (entries.*1) -> JsMap.of_entries entries = entries.
Proof.
  unfold JsMap.of_entries.
  assert (Hgen : forall (l acc : list (string * V)), NoDup ((acc ++ l).*1) ->
    foldl (fun m kv => JsMap.set kv.1 kv.2 m) acc l = acc ++ l).
  { induction l as [|[k v] l IH]; intros acc Hnd; simpl; [by rewrite app_nil_r|].
    rewrite JsMap_keys_set_new.
    - rewrite IH; [by rewrite <- app_assoc|]. by rewrite <- app_assoc.
    - rewrite fmap_app in Hnd. apply NoDup_app in Hnd as (_ & Hnd & _).
      intros Hin. apply (Hnd k Hin). simpl. apply elem_of_cons. by left. }
  intros Hnd. apply (Hgen entries []). done.
Qed.

Lemma idMap_size (annotations : list Annotation) :
  NoDup (id <$> annotations) ->
  JsMap.size (JsMap.of_entries (imap (fun i x => (id x, Z.of_nat i)) annotations))
  = Z.of_nat (length annotations).
Proof.
  intros Hnd. rewrite JsMap_of_entries_NoDup.
  - unfold JsMap.size. by rewrite length_imap.
  - rewrite fmap_imap. simpl. unfold compose. simpl.
    replace (imap (fun (_ : nat) (x : Annotation) => id x) annotations) with (id <$> annotations);
      [done|].
    clear Hnd. generalize 0%nat. induction annotations; intros; simpl; [done|]. f_equal.
    apply (IHannotations 0%nat).
Qed.

Lemma serializeAnnotations_fields allAnnotations propertySerializer isLittleEndian sa :
  serializeAnnotations allAnnotations propertySerializer isLittleEndian = Ok sa ->
  forall t,
    typeToIds sa t = id <$> allAnnotations t
    /\ typeToIdMaps sa t
       = JsMap.of_entries (imap (fun i x => (id x, Z.of_nat i)) (allAnnotations t))
    /\ typeToOffset sa t = (layout_types allAnnotations propertySerializer).2 t.
Proof.
  unfold serializeAnnotations.
  destruct (layout_types allAnnotations propertySerializer) as [totalBytes offsets].
  unfold annotationTypes. cbn [serialize_types]. intros Hsa t.
  repeat match type of Hsa with
         | context [serialize_annotations ?a ?b ?c ?d ?e ?f] =>
             destruct (serialize_annotations a b c d e f);
             cbn [mbind Outcome_bind mret Outcome_ret] in Hsa; [|done]
         end.
  unfold mbind, mret, Outcome_bind, Outcome_ret in Hsa. simpl in Hsa.
  simplify_eq. simpl. by destruct t.
Qed.

Section PickingFacts.
Variable pickIdsPerInstance : PerType Z.
Variable propertySerializer : AnnotationPropertySerializer.
Variable rank : nat.
Variable sa : SerializedAnnotations.

Hypothesis pickIds_pos : forall t, 0 < pickIdsPerInstance t.
Hypothesis idMap_sizes :
  forall t, JsMap.size (typeToIdMaps sa t) = Z.of_nat (length (typeToIds sa t)).

Local Abbreviation resolved' := (resolved pickIdsPerInstance propertySerializer rank sa).

(** One step of the loop of [drawGeometry]. *)
Local Abbreviation draw_step :=
  (fun '(basePickId, calls) annotationType =>
     let idMap := typeToIdMaps sa annotationType in
     let count := JsMap.size idMap in
     if count >? 0
     then (basePickId + count * pickIdsPerInstance annotationType,
           calls ++ [{| draw_type := annotationType;
                        draw_basePickId := basePickId;
                        draw_count := count;
                        draw_bufferOffset := typeToOffset sa annotationType |}])
     else (basePickId, calls)).

Lemma resolve_found t types offset :
  0 <= offset < Z.of_nat (length (typeToIds sa t)) * pickIdsPerInstance t ->
  resolve pickIdsPerInstance propertySerializer rank (t :: types) sa offset
  = Some {| picked_type := t;
            picked_instanceIndex := offset / pickIdsPerInstance t;
            picked_id := typeToIds sa t !! Z.to_nat (offset / pickIdsPerInstance t);
            picked_partIndex := offset mod pickIdsPerInstance t;
            picked_bufferOffset :=
              data_byteOffset + typeToOffset sa t
              + offset / pickIdsPerInstance t
                * (geometry_serializedBytes t rank + ps_serializedBytes propertySerializer) |}.
Proof.
  intros Hoff. pose proof (pickIds_pos t) as HP. cbn [resolve].
  destruct (offset <? Z.of_nat (length (typeToIds sa t)) * pickIdsPerInstance t) eqn:Hlt; [|lia].
  assert (Hdiv : 0 <= offset / pickIdsPerInstance t) by (apply Z.div_pos; lia).
  destruct (0 <=? offset / pickIdsPerInstance t) eqn:Hge; [|lia].
  unfold js_rem. rewrite Z.rem_mod_nonneg by lia. done.
Qed.

Lemma resolve_skip t types offset :
  Z.of_nat (length (typeToIds sa t)) * pickIdsPerInstance t <= offset ->
  resolve pickIdsPerInstance propertySerializer rank (t :: types) sa offset
  = resolve pickIdsPerInstance propertySerializer rank types sa
      (offset - Z.of_nat (length (typeToIds sa t)) * pickIdsPerInstance t).
Proof.
  intros Hoff. cbn [resolve].
  destruct (offset <? Z.of_nat (length (typeToIds sa t)) * pickIdsPerInstance t) eqn:Hlt;
    [lia|done].
Qed.

(** Every call of [draw] that the loop of [drawGeometry] adds, from the
    base pick id [basePickId] on, is for all the annotations of its type,
    and any pick offset of any of its instances resolves to that instance. *)
Lemma draw_resolve types : forall basePickId calls call,
  call ∈ (foldl draw_step (basePickId, calls) types).2 ->
  call ∈ calls
  \/ (basePickId <= draw_basePickId call
      /\ draw_count call = Z.of_nat (length (typeToIds sa (draw_type call)))
      /\ forall instanceIndex partIndex,
           0 <= instanceIndex < draw_count call ->
           0 <= partIndex < pickIdsPerInstance (draw_type call) ->
           resolved' types
             (instancePickOffset pickIdsPerInstance call instanceIndex partIndex - basePickId)
             call instanceIndex partIndex).
Proof.
  induction types as [|t types IH]; intros base calls call Hin; [by left|].
  cbn [foldl] in Hin.
  pose proof (pickIds_pos t) as HP. pose proof (idMap_sizes t) as Hsz.
  set (n := Z.of_nat (length (typeToIds sa t))) in *.
  assert (Hn : 0 <= n) by (subst n; lia).
  (* a call of a later type *)
  assert (Hlater : base + n * pickIdsPerInstance t <= draw_basePickId call ->
    draw_count call = Z.of_nat (length (typeToIds sa (draw_type call))) ->
    (forall i p, 0 <= i < draw_count call -> 0 <= p < pickIdsPerInstance (draw_type call) ->
       resolved' types
         (instancePickOffset pickIdsPerInstance call i p - (base + n * pickIdsPerInstance t))
         call i p) ->
    base <= draw_basePickId call
    /\ draw_count call = Z.of_nat (length (typeToIds sa (draw_type call)))
    /\ forall i p, 0 <= i < draw_count call -> 0 <= p < pickIdsPerInstance (draw_type call) ->
         resolved' (t :: types) (instancePickOffset pickIdsPerInstance call i p - base)
           call i p).
  { intros Hbase Hcount Hres. split; [nia|]. split; [done|].
    intros i p Hi Hp. destruct (Hres i p Hi Hp) as (picked & Hpicked & Hrest).
    exists picked. split; [|done].
    pose proof (pickIds_pos (draw_type call)) as HPc.
    rewrite resolve_skip.
    - rewrite <- Hpicked. f_equal. fold n. lia.
    - fold n. unfold instancePickOffset. nia. }
  cbv beta iota zeta in Hin. rewrite Hsz in Hin.
  destruct (n >? 0) eqn:Hpos.
  - destruct (IH _ _ call Hin) as [Hold|(Hbase & Hcount & Hres)].
    + apply elem_of_app in Hold as [Hold|Hnew]; [by left|].
      apply list_elem_of_singleton in Hnew. subst call. right. simpl.
      split; [lia|]. split; [done|].
      intros i p Hi Hp. unfold resolved, instancePickOffset. simpl.
      replace (base + i * pickIdsPerInstance t + p - base)
        with (i * pickIdsPerInstance t + p) by lia.
      eexists. split.
      * apply resolve_found. fold n. nia.
      * assert (Hq : (i * pickIdsPerInstance t + p) / pickIdsPerInstance t = i).
        { rewrite Z.div_add_l by lia. rewrite Z.div_small by lia. lia. }
        assert (Hr : (i * pickIdsPerInstance t + p) mod pickIdsPerInstance t = p).
        { rewrite Z.add_comm, Z_mod_plus_full. apply Z.mod_small. lia. }
        simpl. rewrite Hq, Hr. unfold data_byteOffset. split_and!; try done. 
    + right. by apply Hlater.
  - assert (n = 0) as Hn0 by lia.
    destruct (IH _ _ call Hin) as [Hold|(Hbase & Hcount & Hres)]; [by left|].
    right. apply Hlater; [lia|done|].
    intros i p Hi Hp. replace (base + n * pickIdsPerInstance t) with base by lia. auto.
Qed.
End PickingFacts.

(** ** The serializer returns *)

Lemma serializeFloatVector_length le rank (vec : list Z) buf off :
  0 <= off -> off + 4 * Z.of_nat rank <= byteLength buf ->
  exists buf',
    serializeFloatVector buf off le rank (Some vec) = Ok (buf', off + 4 * Z.of_nat rank)
    /\ byteLength buf' = byteLength buf.
Proof.
  intros Hoff Hlen. unfold serializeFloatVector.
  rewrite serializeFloatVector_from_ok by done.
  eexists. split; [done|]. unfold byteLength in *.
  rewrite length_write_bytes; [done|].
  rewrite length_encode_elements, length_fmap, length_seq. lia.
Qed.

Lemma geometry_serialize_ok t buf off le rank annotation :
  annotation_type annotation = t ->
  0 <= off -> off + geometry_serializedBytes t rank <= byteLength buf ->
  exists buf',
    geometry_serialize t buf off le rank annotation = Ok buf'
    /\ byteLength buf' = byteLength buf.
Proof.
  intros Ht Hoff Hlen. unfold annotation_type in Ht.
  assert (Htwo : forall vecA vecB : list Z,
    off + 2 * 4 * Z.of_nat rank <= byteLength buf ->
    exists buf',
      fst <$> serializeTwoFloatVectors buf off le rank (Some vecA) (Some vecB) = Ok buf'
      /\ byteLength buf' = byteLength buf).
  { intros vecA vecB Hl. unfold serializeTwoFloatVectors.
    destruct (serializeFloatVector_length le rank vecA buf off) as (b1 & -> & Hb1); [lia..|].
    cbn [mbind Outcome_bind].
    destruct (serializeFloatVector_length le rank vecB b1 (off + 4 * Z.of_nat rank))
      as (b2 & -> & Hb2); [lia..|].
    exists b2. split; [done|]. lia. }
  destruct (geometry annotation) as [point|pointA pointB|pointA pointB|center radii] eqn:Hg;
    subst t; simpl in *.
  - unfold get_point. rewrite Hg.
    destruct (serializeFloatVector_length le rank point buf off) as (b1 & -> & Hb1); [lia..|].
    by exists b1.
  - unfold get_pointA, get_pointB. rewrite Hg. by apply Htwo.
  - unfold get_pointA, get_pointB. rewrite Hg. by apply Htwo.
  - unfold get_center, get_radii. rewrite Hg. by apply Htwo.
Qed.

Section SerializeFacts.
Variable allAnnotations : AnnotationType -> list Annotation.
Variable propertySerializer : AnnotationPropertySerializer.
Variable isLittleEndian : bool.

(** The annotations are filed under their type. *)
Hypothesis annotations_typed :
  forall t annotation, annotation ∈ allAnnotations t -> annotation_type annotation = t.
Hypothesis serializedBytes_nonneg : 0 <= ps_serializedBytes propertySerializer.
(** The generated routine writes inside the bytes of the properties. *)
Hypothesis serialize_in_range :
  forall buffer offset properties,
    0 <= offset -> offset + ps_serializedBytes propertySerializer <= byteLength buffer ->
    exists buffer',
      ps_serialize propertySerializer buffer offset isLittleEndian properties = Ok buffer'
      /\ byteLength buffer' = byteLength buffer.

Local Abbreviation stride t :=
  (geometry_serializedBytes t (ps_rank propertySerializer)
   + ps_serializedBytes propertySerializer).

Lemma stride_nonneg t : 0 <= stride t.
Proof. destruct t; simpl; lia. Qed.

Lemma serialize_annotations_ok t annotations : forall dataView offset,
  (forall annotation, annotation ∈ annotations -> annotation_type annotation = t) ->
  0 <= offset ->
  offset + stride t * Z.of_nat (length annotations) <= byteLength dataView ->
  exists dataView',
    serialize_annotations propertySerializer isLittleEndian t annotations dataView offset
    = Ok dataView'
    /\ byteLength dataView' = byteLength dataView.
Proof.
  induction annotations as [|a annotations IH]; intros dv off Htyped Hoff Hlen.
  { by exists dv. }
  cbn [serialize_annotations].
  pose proof (stride_nonneg t) as Hs.
  assert (Hg : 0 <= geometry_serializedBytes t (ps_rank propertySerializer))
    by (destruct t; simpl; lia).
  change (length (a :: annotations)) with (S (length annotations)) in Hlen.
  destruct (geometry_serialize_ok t dv off isLittleEndian (ps_rank propertySerializer) a)
    as (dv1 & -> & Hdv1); [apply Htyped; by left|lia|nia|].
  cbn [mbind Outcome_bind].
  destruct (serialize_in_range dv1
              (off + geometry_serializedBytes t (ps_rank propertySerializer)) (properties a))
    as (dv2 & -> & Hdv2); [lia|nia|].
  cbn [mbind Outcome_bind].
  destruct (IH dv2 (off + geometry_serializedBytes t (ps_rank propertySerializer)
                    + ps_serializedBytes propertySerializer))
    as (dv3 & -> & Hdv3).
  - intros b Hb. apply Htyped. by right.
  - lia.
  - nia.
  - exists dv3. split; [done|]. lia.
Qed.

(** [serializeAnnotations] returns, with a buffer of [totalBytes] bytes. *)
Lemma serializeAnnotations_returns :
  exists sa,
    serializeAnnotations allAnnotations propertySerializer isLittleEndian = Ok sa
    /\ byteLength (data sa) = (layout_types allAnnotations propertySerializer).1.
Proof.
  unfold serializeAnnotations, layout_types, annotationTypes. cbn [foldl].
  cbv beta iota zeta.
  set (nP := Z.of_nat (length (allAnnotations POINT))).
  set (nL := Z.of_nat (length (allAnnotations LINE))).
  set (nB := Z.of_nat (length (allAnnotations AXIS_ALIGNED_BOUNDING_BOX))).
  set (nE := Z.of_nat (length (allAnnotations ELLIPSOID))).
  set (e0 := 0 + stride POINT * nP).
  set (b1 := e0 + padTo e0 4).
  set (e1 := b1 + stride LINE * nL).
  set (b2 := e1 + padTo e1 4).
  set (e2 := b2 + stride AXIS_ALIGNED_BOUNDING_BOX * nB).
  set (b3 := e2 + padTo e2 4).
  set (e3 := b3 + stride ELLIPSOID * nE).
  set (b4 := e3 + padTo e3 4).
  pose proof (stride_nonneg POINT). pose proof (stride_nonneg LINE).
  pose proof (stride_nonneg AXIS_ALIGNED_BOUNDING_BOX). pose proof (stride_nonneg ELLIPSOID).
  assert (Hm0 : 0 <= stride POINT * nP) by (subst nP; nia).
  assert (Hm1 : 0 <= stride LINE * nL) by (subst nL; nia).
  assert (Hm2 : 0 <= stride AXIS_ALIGNED_BOUNDING_BOX * nB) by (subst nB; nia).
  assert (Hm3 : 0 <= stride ELLIPSOID * nE) by (subst nE; nia).
  assert (He0 : 0 <= e0) by (subst e0; lia).
  destruct (padTo_spec e0 4 He0) as [Hp0 _]; [lia|].
  assert (He1 : 0 <= e1) by (subst e1 b1; lia).
  destruct (padTo_spec e1 4 He1) as [Hp1 _]; [lia|].
  assert (He2 : 0 <= e2) by (subst e2 b2; lia).
  destruct (padTo_spec e2 4 He2) as [Hp2 _]; [lia|].
  assert (He3 : 0 <= e3) by (subst e3 b3; lia).
  destruct (padTo_spec e3 4 He3) as [Hp3 _]; [lia|].
  assert (Hnew : byteLength (new_DataView b4) = b4).
  { unfold byteLength, new_DataView. rewrite length_replicate. subst b4. lia. }
  assert (Hr0 : 0 + stride POINT * nP <= byteLength (new_DataView b4))
    by (rewrite Hnew; subst b4 e3 b3 e2 b2 e1 b1 e0; lia).
  assert (Hr1 : b1 + stride LINE * nL <= byteLength (new_DataView b4))
    by (rewrite Hnew; subst b4 e3 b3 e2 b2 e1; lia).
  assert (Hr2 : b2 + stride AXIS_ALIGNED_BOUNDING_BOX * nB <= byteLength (new_DataView b4))
    by (rewrite Hnew; subst b4 e3 b3 e2; lia).
  assert (Hr3 : b3 + stride ELLIPSOID * nE <= byteLength (new_DataView b4))
    by (rewrite Hnew; subst b4 e3; lia).
  assert (Hb1 : 0 <= b1) by (subst b1; lia).
  assert (Hb2 : 0 <= b2) by (subst b2; lia).
  assert (Hb3 : 0 <= b3) by (subst b3; lia).
  clearbody b4 b3 b2 b1. clear e0 e1 e2 e3 He0 He1 He2 He3 Hp0 Hp1 Hp2 Hp3.
  cbn [serialize_types].
  unfold insert, fn_insert.
  repeat (first [rewrite decide_True by done | rewrite decide_False by done]).
  destruct (serialize_annotations_ok POINT (allAnnotations POINT) (new_DataView b4) 0)
    as (dv1 & -> & Hl1); [apply annotations_typed|lia|exact Hr0|].
  cbn [mbind Outcome_bind].
  destruct (serialize_annotations_ok LINE (allAnnotations LINE) dv1 b1)
    as (dv2 & -> & Hl2); [apply annotations_typed|lia|rewrite Hl1; exact Hr1|].
  cbn [mbind Outcome_bind].
  destruct (serialize_annotations_ok AXIS_ALIGNED_BOUNDING_BOX
              (allAnnotations AXIS_ALIGNED_BOUNDING_BOX) dv2 b2)
    as (dv3 & -> & Hl3); [apply annotations_typed|lia|rewrite Hl2, Hl1; exact Hr2|].
  cbn [mbind Outcome_bind].
  destruct (serialize_annotations_ok ELLIPSOID (allAnnotations ELLIPSOID) dv3 b3)
    as (dv4 & -> & Hl4); [apply annotations_typed|lia|rewrite Hl3, Hl2, Hl1; exact Hr3|].
  cbn [mbind Outcome_bind mret Outcome_ret].
  eexists. split; [done|]. simpl. lia.
Qed.
End SerializeFacts.

(** Without properties, [serializeAnnotations] returns for all annotations
    that are filed under their type. *)
Lemma serializeAnnotations_returns_without_properties allAnnotations rank isLittleEndian :
  (forall t annotation, annotation ∈ allAnnotations t -> annotation_type annotation = t) ->
  exists sa,
    serializeAnnotations allAnnotations (empty_AnnotationPropertySerializer rank) isLittleEndian
    = Ok sa.
Proof.
  intros Htyped.
  destruct (serializeAnnotations_returns allAnnotations
              (empty_AnnotationPropertySerializer rank) isLittleEndian Htyped)
    as (sa & Hsa & _).
  - simpl. lia.
  - intros buffer offset props _ _. by exists buffer.
  - by exists sa.
Qed.

(** ** The registry of references stays consistent *)

Lemma references_wf_alter f reference s s' :
  references_wf s -> (forall r, ref_id (f r) = ref_id r) ->
  references s' = references s -> refs s' = alter f reference (refs s) ->
  references_wf s'.
Proof.
  intros Hwf Hf Hrefs Hobjs i a Hi. rewrite Hrefs in Hi.
  destruct (Hwf i a Hi) as (r & Hr & Hid). rewrite Hobjs.
  destruct (decide (a = reference)) as [->|Hne].
  - exists (f r). rewrite list_lookup_alter_eq, Hr. split; [done|]. by rewrite Hf.
  - exists r. by rewrite list_lookup_alter_ne.
Qed.

Lemma references_wf_same s s' :
  references_wf s -> references s' = references s -> refs s' = refs s -> references_wf s'.
Proof. intros Hwf Hrefs Hobjs i a Hi. rewrite Hrefs in Hi. rewrite Hobjs. by apply Hwf. Qed.

Lemma restore_elements_frame randomHex elements : forall index s,
  let s' := (AnnotationSource.restore_elements randomHex index elements s).2 in
  references s' = references s /\ refs s' = refs s.
Proof.
  induction elements as [|x elements IH]; intros index s; [done|].
  cbn [AnnotationSource.restore_elements]. run_method.
  destruct (restoreAnnotation _ _ _ _); [|done].
  match goal with
  | |- context [AnnotationSource.restore_elements _ ?i _ ?st] =>
      destruct (IH i st) as [-> ->]
  end.
  done.
Qed.

Lemma resolve_references_wf l : forall s,
  references_wf s -> references_wf (AnnotationSource.resolve_references l s).2.
Proof.
  induction l as [|reference l IH]; intros s Hwf; [done|].
  cbn [AnnotationSource.resolve_references]. run_method.
  destruct (refs s !! reference) as [r|]; [|done]. simpl.
  apply IH. by eapply (references_wf_alter (set_ref_value _)).
Qed.

(** Every method of the store keeps the registry of references consistent. *)
Lemma store_step_wf s s' : store_step s s' -> references_wf s -> references_wf s'.
Proof.
  intros Hstep Hwf. destruct Hstep.
  - rewrite add_run. destruct (decide (id annotation = "")).
    + destruct (getReference_spec randomHex (add_state (set_id annotation randomHex) commit s))
        as (reference & s' & -> & _ & _ & _ & _ & _ & _ & Hrefs).
      by apply Hrefs, references_wf_add_state.
    + destruct (JsMap.has (id annotation) (annotationMap s)); [done|].
      destruct (getReference_spec (id annotation) (add_state annotation commit s))
        as (reference & s' & -> & _ & _ & _ & _ & _ & _ & Hrefs).
      by apply Hrefs, references_wf_add_state.
  - unfold AnnotationSource.commit. run_method.
    destruct (refs s !! reference); [|done]. by eapply references_wf_same.
  - unfold AnnotationSource.update. run_method.
    destruct (refs s !! reference) as [r|]; [|done].
    destruct (ref_value r); simpl; try done;
      by eapply (references_wf_alter (set_ref_value _)).
  - unfold AnnotationSource.delete. run_method.
    destruct (refs s !! reference) as [r|]; [|done].
    destruct (ref_value r); simpl; try done;
      by eapply (references_wf_alter (set_ref_value _)).
  - destruct (getReference_spec i s) as (reference & s' & -> & _ & _ & _ & _ & _ & _ & Hrefs).
    by apply Hrefs.
  - unfold AnnotationSource.clear. run_method. by eapply references_wf_same.
  - unfold AnnotationSource.restoreState. run_method.
    set (s0 := with_pending ∅ (with_annotationMap JsMap.empty s)).
    assert (Hwf0 : references_wf s0) by (by eapply references_wf_same).
    assert (Hparsed : forall st : Outcome () * AnnotationSourceState,
      references st.2 = references s0 -> refs st.2 = refs s0 ->
      references_wf
        (match st with
         | (Ok _, s1) =>
             match AnnotationSource.resolve_references (JsMap.values (references s1)) s1 with
             | (Ok _, s2) => (Ok (), with_dispatched (dispatched s2 ++ [Changed]) s2)
             | (Throw e, s2) => (Throw e, s2)
             end
         | (Throw e, s1) => (Throw e, s1)
         end).2).
    { intros [[[]|e] s1] Hr Ho; simpl in *.
      - assert (Hwf1 : references_wf s1) by (by eapply references_wf_same).
        pose proof (resolve_references_wf (JsMap.values (references s1)) s1 Hwf1) as Hres.
        destruct (AnnotationSource.resolve_references _ s1) as [[[]|e] s2]; simpl in *;
          [by eapply references_wf_same|done].
      - by eapply references_wf_same. }
    destruct obj as [[| | | |elts|]|]; try exact Hwf0.
    + destruct (restore_elements_frame randomHex elts 0%nat s0) as [Hr Ho].
      by apply Hparsed.
    + by apply (Hparsed (Ok (), s0)).
Qed.

(** Every state that the methods reach from a new store is consistent. *)
Lemma reachable_wf rank rels props s :
  rtc store_step (new_AnnotationSource rank rels props) s -> references_wf s.
Proof.
  intros Hreach. apply rtc_nsteps in Hreach as [n Hreach]. revert s Hreach.
  induction n as [|n IH]; intros s Hreach.
  - inversion Hreach; subst. apply references_wf_new.
  - apply nsteps_inv_r in Hreach as (s' & Hreach & Hstep).
    eapply store_step_wf; [exact Hstep|]. by apply IH.
Qed.

(** ** The invariant of the store *)

Lemma JsMap_get_elem_of {V} k (v : V) (m : JsMap.t V) :
  JsMap.get k m = Some v -> (k, v) ∈ m.
Proof.
  induction m as [|[k' v'] m IH]; simpl; [done|].
  destruct (decide (k' = k)) as [->|Hne]; intros H.
  - simplify_eq. apply elem_of_cons. by left.
  - apply elem_of_cons. right. by apply IH.
Qed.

Lemma JsMap_elem_of_get {V} k (v : V) (m : JsMap.t V) :
  NoDup (JsMap.keys m) -> (k, v) ∈ m -> JsMap.get k m = Some v.
Proof.
  unfold JsMap.keys. induction m as [|[k' v'] m IH]; simpl; intros Hnd Hin.
  - by apply elem_of_nil in Hin.
  - apply NoDup_cons in Hnd as [Hk' Hnd].
    destruct (decide (k' = k)) as [->|Hne].
    + apply elem_of_cons in Hin as [Heq|Hin]; [by simplify_eq|].
      exfalso. apply Hk'. apply list_elem_of_fmap. by exists (k, v).
    + apply elem_of_cons in Hin as [Heq|Hin]; [by simplify_eq|]. by apply IH.
Qed.

Lemma JsMap_get_None {V} k (m : JsMap.t V) : JsMap.get k m = None <-> k ∉ JsMap.keys m.
Proof.
  unfold JsMap.keys. induction m as [|[k' v'] m IH]; simpl.
  - split; [intros _; apply not_elem_of_nil|done].
  - destruct (decide (k' = k)) as [->|Hne].
    + split; [done|]. intros H. exfalso. apply H. apply elem_of_cons. by left.
    + rewrite IH. rewrite not_elem_of_cons. naive_solver.
Qed.

Lemma JsMap_keys_set {V} k (v : V) (m : JsMap.t V) :
  JsMap.keys (JsMap.set k v m)
  = if decide (k ∈ JsMap.keys m) then JsMap.keys m else JsMap.keys m ++ [k].
Proof.
  unfold JsMap.keys. induction m as [|[k' v'] m IH]; cbn [JsMap.set fmap list_fmap fst].
  - rewrite decide_False; [done|apply not_elem_of_nil].
  - destruct (decide (k' = k)) as [->|Hne]; cbn [JsMap.set fmap list_fmap fst].
    + rewrite decide_True; [done|]. apply elem_of_cons. by left.
    + fold (@fmap list _ _ _ (@fst string V) (JsMap.set k v m)) in *.
      rewrite IH. destruct (decide (k ∈ m.*1)) as [Hin|Hin].
      * rewrite decide_True; [done|]. apply elem_of_cons. by right.
      * rewrite decide_False; [done|]. rewrite not_elem_of_cons. naive_solver.
Qed.

Lemma JsMap_NoDup_set {V} k (v : V) (m : JsMap.t V) :
  NoDup (JsMap.keys m) -> NoDup (JsMap.keys (JsMap.set k v m)).
Proof.
  intros Hnd. rewrite JsMap_keys_set. case_decide as Hin; [done|].
  apply NoDup_app. split_and!; [done| |apply NoDup_singleton].
  intros x Hx Hx'. apply list_elem_of_singleton in Hx'. by subst.
Qed.

Lemma JsMap_elem_of_set {V} k (v : V) k' v' (m : JsMap.t V) :
  (k', v') ∈ JsMap.set k v m -> (k', v') = (k, v) \/ (k', v') ∈ m.
Proof.
  induction m as [|[k0 v0] m IH]; simpl.
  - intros H. apply list_elem_of_singleton in H. by left.
  - destruct (decide (k0 = k)) as [->|Hne]; intros H.
    + apply elem_of_cons in H as [H|H]; [by left|]. right. apply elem_of_cons. by right.
    + apply elem_of_cons in H as [H|H].
      * right. apply elem_of_cons. by left.
      * destruct (IH H) as [?|?]; [by left|]. right. apply elem_of_cons. by right.
Qed.

Lemma JsMap_NoDup_delete {V} k (m : JsMap.t V) :
  NoDup (JsMap.keys m) -> NoDup (JsMap.keys (JsMap.delete k m)).
Proof.
  unfold JsMap.keys, JsMap.delete. intros Hnd.
  eapply sublist_NoDup; [exact Hnd|]. apply fmap_sublist, sublist_filter.
Qed.

Lemma store_inv_registry s : store_inv s -> references_wf s.
Proof.
  intros (_ & _ & _ & _ & Hreg) i reference Hget. apply Hreg.
  by apply JsMap_get_elem_of.
Qed.

Lemma store_inv_new rank rels props : store_inv (new_AnnotationSource rank rels props).
Proof.
  unfold store_inv. simpl. split_and!.
  - apply NoDup_nil_2.
  - intros k a H. by apply elem_of_nil in H.
  - intros i H. by apply elem_of_empty in H.
  - apply NoDup_nil_2.
  - intros i a H. by apply elem_of_nil in H.
Qed.

Lemma store_inv_set a s :
  store_inv s ->
  store_inv (with_annotationMap (JsMap.set (id a) a (annotationMap s)) s).
Proof.
  intros (Hnd & Hkey & Hpend & Hreg). unfold store_inv. simpl. split_and!; try tauto.
  - by apply JsMap_NoDup_set.
  - intros k a' Hin. apply JsMap_elem_of_set in Hin as [Heq|Hin]; [by simplify_eq|].
    by apply Hkey.
  - intros i Hi. destruct (decide (id a = i)) as [<-|Hne].
    + rewrite JsMap_get_set_eq. by eexists.
    + rewrite JsMap_get_set_ne by done. by apply Hpend.
Qed.

Lemma store_inv_pending p s :
  store_inv s -> (forall i, i ∈ p -> i ∈ pending s \/ is_Some (JsMap.get i (annotationMap s))) ->
  store_inv (with_pending p s).
Proof.
  intros (Hnd & Hkey & Hpend & Hreg) Hp. unfold store_inv. simpl. split_and!; try tauto.
  intros i Hi. destruct (Hp i Hi) as [?|?]; [by apply Hpend|done].
Qed.

Lemma store_inv_dispatched d s : store_inv s -> store_inv (with_dispatched d s).
Proof. done. Qed.

Lemma store_inv_alter f reference s :
  store_inv s -> (forall r, ref_id (f r) = ref_id r) ->
  store_inv (with_refs (alter f reference (refs s)) s).
Proof.
  intros (Hnd & Hkey & Hpend & Hndr & Hreg) Hf. unfold store_inv. simpl.
  split_and!; try done.
  intros i a Hin. destruct (Hreg i a Hin) as (r & Hr & Hid).
  destruct (decide (a = reference)) as [->|Hne].
  - exists (f r). rewrite list_lookup_alter_eq, Hr. split; [done|]. by rewrite Hf.
  - exists r. by rewrite list_lookup_alter_ne.
Qed.

Lemma store_inv_delete k s :
  store_inv s ->
  store_inv (with_pending (pending s ∖ {[k]})
               (with_annotationMap (JsMap.delete k (annotationMap s)) s)).
Proof.
  intros (Hnd & Hkey & Hpend & Hreg). unfold store_inv. simpl. split_and!; try tauto.
  - by apply JsMap_NoDup_delete.
  - intros k' a Hin. unfold JsMap.delete in Hin. apply list_elem_of_filter in Hin as [_ Hin].
    by apply Hkey.
  - intros i Hi. apply elem_of_difference in Hi as [Hi Hne].
    rewrite JsMap_get_delete_ne; [by apply Hpend|].
    intros ->. apply Hne. by apply elem_of_singleton.
Qed.

Lemma store_inv_clear s :
  store_inv s -> store_inv (with_pending ∅ (with_annotationMap JsMap.empty s)).
Proof.
  intros (Hnd & Hkey & Hpend & Hreg). unfold store_inv. simpl. split_and!; try tauto.
  - apply NoDup_nil_2.
  - intros k a H. by apply elem_of_nil in H.
  - intros i H. by apply elem_of_empty in H.
Qed.

Lemma store_inv_getReference i s : store_inv s -> store_inv (AnnotationSource.getReference i s).2.
Proof.
  intros Hinv. unfold AnnotationSource.getReference.
  destruct (JsMap.get i (references s)) as [existing|] eqn:Hget; simpl.
  - by apply store_inv_alter.
  - destruct Hinv as (Hnd & Hkey & Hpend & Hndr & Hreg). unfold store_inv. simpl.
    split_and!; try done.
    + by apply JsMap_NoDup_set.
    + intros k a Hin. apply JsMap_elem_of_set in Hin as [Heq|Hin].
      * simplify_eq. eexists. rewrite lookup_app_r, Nat.sub_diag by lia. done.
      * destruct (Hreg k a Hin) as (r & Hr & Hid). exists r.
        by rewrite lookup_app_l by (by apply lookup_lt_Some in Hr).
Qed.

Lemma store_inv_add_state a commit s : store_inv s -> store_inv (add_state a commit s).
Proof.
  intros Hinv. unfold add_state.
  pose proof (store_inv_set a s Hinv) as Hset.
  destruct commit; [exact Hset|].
  apply store_inv_pending; [exact Hset|].
  intros i Hi. simpl in *. apply elem_of_union in Hi as [Hi|Hi]; [|by left].
  apply elem_of_singleton in Hi as ->. right. rewrite JsMap_get_set_eq. by eexists.
Qed.

Lemma store_inv_restore_elements randomHex elements : forall index s,
  store_inv s -> store_inv (AnnotationSource.restore_elements randomHex index elements s).2.
Proof.
  induction elements as [|x elements IH]; intros index s Hinv; [done|].
  cbn [AnnotationSource.restore_elements]. run_method.
  destruct (restoreAnnotation _ _ _ _) as [a|e]; [|done].
  apply IH. by apply store_inv_set.
Qed.

Lemma store_inv_resolve_references l : forall s,
  store_inv s -> store_inv (AnnotationSource.resolve_references l s).2.
Proof.
  induction l as [|reference l IH]; intros s Hinv; [done|].
  cbn [AnnotationSource.resolve_references]. run_method.
  destruct (refs s !! reference) as [r|]; [|done]. simpl.
  apply IH. by apply (store_inv_alter (set_ref_value _)).
Qed.

(** Every method of the store keeps the invariant. *)
Lemma store_step_inv s s' : store_step s s' -> store_inv s -> store_inv s'.
Proof.
  intros Hstep Hinv. destruct Hstep.
  - rewrite add_run. destruct (decide (id annotation = "")).
    + by apply store_inv_getReference, store_inv_add_state.
    + destruct (JsMap.has (id annotation) (annotationMap s)); [done|].
      by apply store_inv_getReference, store_inv_add_state.
  - unfold AnnotationSource.commit. run_method.
    destruct (refs s !! reference); [|done]. simpl.
    apply store_inv_pending; [done|]. intros i Hi. left. set_solver.
  - unfold AnnotationSource.update. run_method.
    destruct (refs s !! reference) as [r|]; [|done].
    destruct (ref_value r); simpl; try done.
    + apply (store_inv_set annotation (with_refs _ s)).
      by apply (store_inv_alter (set_ref_value _)).
    + apply (store_inv_set annotation (with_refs _ s)).
      by apply (store_inv_alter (set_ref_value _)).
  - unfold AnnotationSource.delete. run_method.
    destruct (refs s !! reference) as [r|]; [|done].
    destruct (ref_value r); simpl; try done.
    + apply (store_inv_delete (ref_id r) (with_refs _ s)).
      by apply (store_inv_alter (set_ref_value _)).
    + apply (store_inv_delete (ref_id r) (with_refs _ s)).
      by apply (store_inv_alter (set_ref_value _)).
  - by apply store_inv_getReference.
  - unfold AnnotationSource.clear. run_method. by apply store_inv_clear.
  - unfold AnnotationSource.restoreState. run_method.
    set (s0 := with_pending ∅ (with_annotationMap JsMap.empty s)).
    assert (Hinv0 : store_inv s0) by (by apply store_inv_clear).
    assert (Hparsed : forall st : Outcome () * AnnotationSourceState,
      store_inv st.2 ->
      store_inv
        (match st with
         | (Ok _, s1) =>
             match AnnotationSource.resolve_references (JsMap.values (references s1)) s1 with
             | (Ok _, s2) => (Ok (), with_dispatched (dispatched s2 ++ [Changed]) s2)
             | (Throw e, s2) => (Throw e, s2)
             end
         | (Throw e, s1) => (Throw e, s1)
         end).2).
    { intros [[[]|e] s1] Hinv1; simpl in *; [|done].
      pose proof (store_inv_resolve_references (JsMap.values (references s1)) s1 Hinv1) as Hres.
      by destruct (AnnotationSource.resolve_references _ s1) as [[[]|e] s2]. }
    destruct obj as [[| | | |elts|]|]; try exact Hinv0.
    + apply Hparsed. by apply store_inv_restore_elements.
    + by apply (Hparsed (Ok (), s0)).
Qed.

Lemma reachable_inv rank rels props s :
  rtc store_step (new_AnnotationSource rank rels props) s -> store_inv s.
Proof.
  intros Hreach. apply rtc_nsteps in Hreach as [n Hreach]. revert s Hreach.
  induction n as [|n IH]; intros s Hreach.
  - inversion Hreach; subst. apply store_inv_new.
  - apply nsteps_inv_r in Hreach as (s' & Hreach & Hstep).
    eapply store_step_inv; [exact Hstep|]. by apply IH.
Qed.

(** ** Reading the store after a change *)

(** A result is the pair of its outcome and of the state that it leaves. *)
Lemma outcome_state {A B} (p : A * B) (a : A) : p.1 = a -> p = (a, p.2).
Proof. destruct p. simpl. by intros ->. Qed.

Lemma add_result annotation commit randomHex s reference s' :
  AnnotationSource.add annotation commit randomHex s = (Ok reference, s') ->
  annotationMap s'
  = JsMap.set (id (added_record annotation randomHex)) (added_record annotation randomHex)
      (annotationMap s)
  /\ pending s' = (if commit then pending s
                   else {[id (added_record annotation randomHex)]} ∪ pending s)
  /\ dispatched s'
     = dispatched s ++ [Changed; ChildAdded (added_record annotation randomHex)]
  /\ (id annotation <> "" -> JsMap.get (id annotation) (annotationMap s) = None).
Proof.
  rewrite add_run. unfold added_record. intros Hadd.
  destruct (decide (id annotation = "")) as [He|He].
  - destruct (getReference_spec randomHex (add_state (set_id annotation randomHex) commit s))
      as (reference' & s1 & Hrun & Hm & Hp & Hd & _).
    rewrite Hrun in Hadd. simplify_eq. rewrite Hm, Hp, Hd.
    unfold add_state. destruct commit; simpl; split_and!; try done; by rewrite <- app_assoc.
  - destruct (JsMap.has (id annotation) (annotationMap s)) eqn:Hhas; [done|].
    destruct (getReference_spec (id annotation) (add_state annotation commit s))
      as (reference' & s1 & Hrun & Hm & Hp & Hd & _).
    rewrite Hrun in Hadd. simplify_eq. rewrite Hm, Hp, Hd.
    assert (Hnone : JsMap.get (id annotation) (annotationMap s) = None).
    { destruct (JsMap.get (id annotation) (annotationMap s)) eqn:Hget; [|done].
      assert (JsMap.has (id annotation) (annotationMap s) = true) as Htrue
        by (apply JsMap_has_get; rewrite Hget; by eexists).
      congruence. }
    unfold add_state. destruct commit; simpl; split_and!; try done; by rewrite <- app_assoc.
Qed.

(** X1. When [add(annotation, commit)] returns, [get] of the id of the
    stored record gives that record and [get] of every other id gives what
    it gave before; the id is pending exactly when [commit] is false or it
    was pending; and when the id was not a key of the map, the iteration
    over the store yields the former records in their order and then the
    new one. *)
Theorem add_then_get (s s' : AnnotationSourceState) (annotation : Annotation) (commit : bool)
    (randomHex : AnnotationId) (reference : Ref) :
  AnnotationSource.add annotation commit randomHex s = (Ok reference, s') ->
  AnnotationSource.get (id (added_record annotation randomHex)) s'
  = (Ok (Some (added_record annotation randomHex)), s')
  /\ (forall i, i <> id (added_record annotation randomHex) ->
        AnnotationSource.get i s' = (Ok (JsMap.get i (annotationMap s)), s'))
  /\ (id (added_record annotation randomHex) ∈ pending s'
      <-> commit = false \/ id (added_record annotation randomHex) ∈ pending s)
  /\ (id (added_record annotation randomHex) ∉ JsMap.keys (annotationMap s) ->
      AnnotationSource.iterator s'
      = (Ok (JsMap.values (annotationMap s) ++ [added_record annotation randomHex]), s')).
Proof.
  intros Hadd. apply add_result in Hadd as (Hm & Hp & _ & _).
  unfold AnnotationSource.get, AnnotationSource.iterator. run_method. rewrite Hm, Hp.
  split_and!.
  - by rewrite JsMap_get_set_eq.
  - intros i Hi. by rewrite JsMap_get_set_ne.
  - destruct commit; [naive_solver|]. set_solver.
  - intros Hnew. rewrite JsMap_keys_set_new by done.
    unfold JsMap.values. by rewrite fmap_app.
Qed.

Lemma add_then_get_witness :
  AnnotationSource.get "b" example_two_points_store
  = (Ok (Some (example_point "b")), example_two_points_store)
  /\ (forall i, i <> "b" ->
        AnnotationSource.get i example_two_points_store
        = (Ok (JsMap.get i (annotationMap example_one_point_store)), example_two_points_store))
  /\ ("b" ∈ pending example_two_points_store
      <-> true = false \/ "b" ∈ pending example_one_point_store)
  /\ ("b" ∉ JsMap.keys (annotationMap example_one_point_store) ->
      AnnotationSource.iterator example_two_points_store
      = (Ok (JsMap.values (annotationMap example_one_point_store) ++ [example_point "b"]),
         example_two_points_store)).
Proof.
  apply (add_then_get example_one_point_store example_two_points_store (example_point "b")
           true "0f" 1%nat).
  apply outcome_state. vm_compute. reflexivity.
Defined.

(** X2. [delete] through a reference that is not deleted makes [get] of
    the id of the reference give [undefined], leaves [get] of every other id
    as it was, and frees the id: [add] of a record with that id then returns
    and stores the record. *)
Theorem delete_then_add (s : AnnotationSourceState) (reference : Ref) (r : AnnotationReference)
    (annotation : Annotation) (commit : bool) (randomHex : AnnotationId) :
  refs s !! reference = Some r -> ref_value r <> ValueNull ->
  id annotation = ref_id r -> ref_id r <> "" ->
  exists s1 reference' s2,
    AnnotationSource.delete reference s = (Ok (), s1)
    /\ AnnotationSource.get (ref_id r) s1 = (Ok None, s1)
    /\ (forall i, i <> ref_id r ->
          AnnotationSource.get i s1 = (Ok (JsMap.get i (annotationMap s)), s1))
    /\ AnnotationSource.add annotation commit randomHex s1 = (Ok reference', s2)
    /\ AnnotationSource.get (ref_id r) s2 = (Ok (Some annotation), s2).
Proof.
  intros Hr Hv Hid He.
  assert (Hdel : AnnotationSource.delete reference s = (Ok (), delete_state reference r s)).
  { rewrite (delete_run reference r) by done. by destruct (ref_value r). }
  assert (Hget : JsMap.get (ref_id r) (annotationMap (delete_state reference r s)) = None)
    by apply JsMap_get_delete_eq.
  assert (Hadd : exists reference' s2,
    AnnotationSource.add annotation commit randomHex (delete_state reference r s)
    = (Ok reference', s2)).
  { rewrite add_run, decide_False by congruence.
    assert (JsMap.has (id annotation) (annotationMap (delete_state reference r s)) = false)
      as ->.
    { apply not_true_is_false. rewrite JsMap_has_get, Hid, Hget. by intros [? ?]. }
    destruct (getReference_spec (id annotation) (add_state annotation commit
                (delete_state reference r s))) as (reference' & s2 & Hrun & _).
    by exists reference', s2. }
  destruct Hadd as (reference' & s2 & Hadd).
  exists (delete_state reference r s), reference', s2.
  split; [done|].
  pose proof (add_result _ _ _ _ _ _ Hadd) as (Hm & _).
  unfold AnnotationSource.get. run_method. rewrite Hget. split_and!; try done.
  - intros i Hi. unfold delete_state. simpl. by rewrite JsMap_get_delete_ne.
  - rewrite Hm. unfold added_record. rewrite decide_False by congruence.
    by rewrite <- Hid, JsMap_get_set_eq.
Qed.

Lemma delete_then_add_witness :
  exists s1 reference' s2,
    AnnotationSource.delete 0 example_two_points_store = (Ok (), s1)
    /\ AnnotationSource.get "a" s1 = (Ok None, s1)
    /\ (forall i, i <> "a" ->
          AnnotationSource.get i s1
          = (Ok (JsMap.get i (annotationMap example_two_points_store)), s1))
    /\ AnnotationSource.add (set_id example_line "a") false "0f" s1 = (Ok reference', s2)
    /\ AnnotationSource.get "a" s2 = (Ok (Some (set_id example_line "a")), s2).
Proof.
  apply (delete_then_add example_two_points_store 0
           {| ref_id := "a"; ref_value := ValueAnnotation (example_point "a"); refCount := 1 |}
           (set_id example_line "a") false "0f").
  - reflexivity.
  - discriminate.
  - reflexivity.
  - discriminate.
Defined.

(** X3. [update(reference, annotation)] through a deleted reference throws
    and changes nothing. Through any other reference it stores the record
    under the id of the record, not under the id of the reference: every
    other id, the id of the reference included when the two differ, keeps
    its record; the value of the reference becomes the record, the pending
    set and the registry are unchanged, and the [changed] of the reference,
    [changed] and [childUpdated] are dispatched in this order. *)
Theorem update_semantics (s : AnnotationSourceState) (reference : Ref) (r : AnnotationReference)
    (annotation : Annotation) :
  refs s !! reference = Some r ->
  (ref_value r = ValueNull ->
   AnnotationSource.update reference annotation s
   = (Throw (Error "Annotation already deleted."), s))
  /\ (ref_value r <> ValueNull ->
      exists s',
        AnnotationSource.update reference annotation s = (Ok (), s')
        /\ JsMap.get (id annotation) (annotationMap s') = Some annotation
        /\ (forall i, i <> id annotation ->
              JsMap.get i (annotationMap s') = JsMap.get i (annotationMap s))
        /\ refs s' !! reference = Some (set_ref_value (ValueAnnotation annotation) r)
        /\ pending s' = pending s
        /\ references s' = references s
        /\ dispatched s'
           = dispatched s ++ [ReferenceChanged reference; Changed; ChildUpdated annotation]).
Proof.
  intros Hr. rewrite (update_run reference r) by done. split.
  - by intros ->.
  - intros Hv. exists (update_state reference annotation s).
    split; [by destruct (ref_value r)|]. unfold update_state. simpl. split_and!; try done.
    + apply JsMap_get_set_eq.
    + intros i Hi. by apply JsMap_get_set_ne.
    + by rewrite list_lookup_alter_eq, Hr.
Qed.

Lemma update_semantics_witness :
  AnnotationSource.update 0 (example_point "a") example_deleted_store
  = (Throw (Error "Annotation already deleted."), example_deleted_store)
  /\ exists s',
       AnnotationSource.update 0 example_line_b example_pending_store = (Ok (), s')
       /\ JsMap.get "b" (annotationMap s') = Some example_line_b
       /\ (forall i, i <> "b" ->
             JsMap.get i (annotationMap s') = JsMap.get i (annotationMap example_pending_store))
       /\ refs s' !! 0%nat
          = Some (set_ref_value (ValueAnnotation example_line_b)
                    {| ref_id := "a"; ref_value := ValueAnnotation (example_point "a");
                       refCount := 1 |})
       /\ pending s' = pending example_pending_store
       /\ references s' = references example_pending_store
       /\ dispatched s'
          = dispatched example_pending_store
            ++ [ReferenceChanged 0; Changed; ChildUpdated example_line_b].
Proof.
  split.
  - apply (proj1 (update_semantics example_deleted_store 0
                    {| ref_id := "a"; ref_value := ValueNull; refCount := 1 |}
                    (example_point "a") eq_refl)).
    reflexivity.
  - apply (proj2 (update_semantics example_pending_store 0
                    {| ref_id := "a"; ref_value := ValueAnnotation (example_point "a");
                       refCount := 1 |} example_line_b eq_refl)).
    discriminate.
Defined.

(** X4. [clear()] (and [reset()], which calls it) empties the annotation
    map and the pending set and dispatches [changed] only: afterwards [get]
    gives [undefined] for every id and [toJSON()] is empty, but no reference
    is touched or notified, so that a reference keeps the record that it
    held. *)
Theorem clear_leaves_references (s : AnnotationSourceState) :
  exists s',
    AnnotationSource.clear s = (Ok (), s')
    /\ AnnotationSource.reset s = (Ok (), s')
    /\ (forall i, AnnotationSource.get i s' = (Ok None, s'))
    /\ AnnotationSource.toJSON s' = (Ok [], s')
    /\ pending s' = ∅
    /\ refs s' = refs s
    /\ references s' = references s
    /\ dispatched s' = dispatched s ++ [Changed].
Proof.
  eexists. split; [reflexivity|]. split; [reflexivity|].
  rewrite toJSON_run. simpl. split_and!; done.
Qed.

(** X5. In a store whose registry is consistent, [getReference(id)] called
    twice returns the same reference object both times; the second call
    only counts one more user of it. A first call for an id without a
    registered reference makes the object with the record stored under the
    id as its value, or [null] when there is none. No call changes the
    annotation map. *)
Theorem getReference_twice (s : AnnotationSourceState) (i : AnnotationId) :
  references_wf s ->
  exists reference s1 s2 r,
    AnnotationSource.getReference i s = (Ok reference, s1)
    /\ AnnotationSource.getReference i s1 = (Ok reference, s2)
    /\ refs s1 !! reference = Some r /\ ref_id r = i
    /\ refs s2 !! reference = Some (addRef r)
    /\ references s2 = references s1
    /\ annotationMap s2 = annotationMap s
    /\ (JsMap.get i (references s) = None ->
        ref_value r = value_or_null (JsMap.get i (annotationMap s)) /\ refCount r = 1%nat).
Proof.
  intros Hwf. unfold AnnotationSource.getReference at 1.
  destruct (JsMap.get i (references s)) as [existing|] eqn:Hget.
  - destruct (Hwf i existing Hget) as (r & Hr & Hid).
    eexists existing, _, _, (addRef r). split; [done|].
    unfold AnnotationSource.getReference. simpl. rewrite Hget. split; [done|]. simpl.
    rewrite !list_lookup_alter_eq, Hr. done.
  - eexists (length (refs s)), _, _, _. split; [done|].
    unfold AnnotationSource.getReference. simpl. rewrite JsMap_get_set_eq. split; [done|].
    simpl. rewrite list_lookup_alter_eq, lookup_app_r, Nat.sub_diag by lia. done.
Qed.

Lemma getReference_twice_witness :
  exists reference s1 s2 r,
    AnnotationSource.getReference "a" example_two_points_store = (Ok reference, s1)
    /\ AnnotationSource.getReference "a" s1 = (Ok reference, s2)
    /\ refs s1 !! reference = Some r /\ ref_id r = "a"
    /\ refs s2 !! reference = Some (addRef r)
    /\ references s2 = references s1
    /\ annotationMap s2 = annotationMap example_two_points_store
    /\ (JsMap.get "a" (references example_two_points_store) = None ->
        ref_value r = value_or_null (JsMap.get "a" (annotationMap example_two_points_store))
        /\ refCount r = 1%nat).
Proof.
  apply (getReference_twice example_two_points_store "a").
  intros i reference Hget. simpl in Hget.
  repeat case_decide; simplify_eq; by eexists.
Defined.

(** X6. In every state that calls of [add], [commit], [update], [delete],
    [getReference], [clear] and [restoreState] reach from a new store, the
    iteration over the store yields records with pairwise distinct ids,
    [get] of the id of each of them gives that record, every pending id is
    the id of a stored record, and every registered reference is a
    reference object with the id that it is registered for. *)
Theorem reachable_store_invariant (rank : nat) (rels : list string)
    (props : list AnnotationPropertySpec) (s : AnnotationSourceState) :
  rtc store_step (new_AnnotationSource rank rels props) s ->
  NoDup (id <$> JsMap.values (annotationMap s))
  /\ (forall a, a ∈ JsMap.values (annotationMap s) ->
        JsMap.get (id a) (annotationMap s) = Some a)
  /\ (forall i, i ∈ pending s -> is_Some (JsMap.get i (annotationMap s)))
  /\ (forall i reference, JsMap.get i (references s) = Some reference ->
        exists r, refs s !! reference = Some r /\ ref_id r = i).
Proof.
  intros Hreach. pose proof (reachable_inv _ _ _ _ Hreach) as Hinv.
  pose proof (store_inv_registry s Hinv) as Hwf.
  destruct Hinv as (Hnd & Hkey & Hpend & _). split_and!; try done.
  - replace (id <$> JsMap.values (annotationMap s)) with (JsMap.keys (annotationMap s)); [done|].
    unfold JsMap.keys, JsMap.values. rewrite <- list_fmap_compose.
    apply Forall_fmap_ext_1, Forall_forall. intros [k a] Hin. simpl.
    symmetry. by apply Hkey.
  - intros a Ha. unfold JsMap.values in Ha. apply list_elem_of_fmap in Ha as ([k a'] & -> & Hin).
    simpl. rewrite (Hkey k a' Hin). by apply JsMap_elem_of_get.
Qed.

Lemma reachable_store_invariant_witness :
  NoDup (id <$> JsMap.values (annotationMap example_two_points_store))
  /\ (forall a, a ∈ JsMap.values (annotationMap example_two_points_store) ->
        JsMap.get (id a) (annotationMap example_two_points_store) = Some a)
  /\ (forall i, i ∈ pending example_two_points_store ->
        is_Some (JsMap.get i (annotationMap example_two_points_store)))
  /\ (forall i reference,
        JsMap.get i (references example_two_points_store) = Some reference ->
        exists r, refs example_two_points_store !! reference = Some r /\ ref_id r = i).
Proof.
  apply (reachable_store_invariant 3 ["segments"] [] example_two_points_store).
  exact (rtc_l store_step example_store example_one_point_store example_two_points_store
           (step_add example_store (example_point "a") true "0f")
           (rtc_l store_step example_one_point_store example_two_points_store
              example_two_points_store
              (step_add example_one_point_store (example_point "b") true "0f")
              (rtc_refl store_step example_two_points_store))).
Defined.

(** ** [restoreState] of an array that restores *)

Lemma example_pending_store_inv : store_inv example_pending_store.
Proof.
  apply (reachable_inv 3 ["segments"] []).
  exact (rtc_l store_step example_store example_pending_store example_pending_store
           (step_add example_store (example_point "a") false "0f")
           (rtc_refl store_step example_pending_store)).
Qed.

Lemma set_ref_value_twice v r : set_ref_value v (set_ref_value v r) = set_ref_value v r.
Proof. done. Qed.

Lemma resolve_references_run l : forall s,
  (forall a, a ∈ l -> is_Some (refs s !! a)) ->
  exists s',
    AnnotationSource.resolve_references l s = (Ok (), s')
    /\ annotationMap s' = annotationMap s /\ pending s' = pending s
    /\ references s' = references s
    /\ dispatched s' = dispatched s ++ (ReferenceChanged <$> l)
    /\ (forall a r, refs s !! a = Some r ->
          refs s' !! a
          = Some (if decide (a ∈ l)
                  then set_ref_value
                         (value_or_null (JsMap.get (ref_id r) (annotationMap s))) r
                  else r)).
Proof.
  induction l as [|reference l IH]; intros s Hvalid.
  { exists s. simpl. rewrite app_nil_r. split_and!; done. }
  cbn [AnnotationSource.resolve_references]. run_method.
  destruct (Hvalid reference) as [r0 Hr0]; [apply elem_of_cons; by left|].
  rewrite Hr0. simpl.
  match goal with
  | |- context [AnnotationSource.resolve_references l ?st] => destruct (IH st) as
        (s' & Hrun & Hm & Hp & Hrefs & Hd & Hobjs)
  end.
  { intros a Ha. simpl. destruct (Hvalid a) as [r Hr]; [apply elem_of_cons; by right|].
    destruct (decide (a = reference)) as [->|Hne].
    - rewrite list_lookup_alter_eq, Hr. by eexists.
    - rewrite list_lookup_alter_ne by done. by eexists. }
  exists s'. rewrite Hrun.
  cbn [annotationMap pending references dispatched refs with_dispatched with_refs] in *.
  cbn [fmap list_fmap]. split_and!; try done.
  - rewrite Hd. by rewrite <- app_assoc.
  - intros a r Hr. destruct (decide (a = reference)) as [->|Hne].
    + rewrite (Hobjs reference (set_ref_value
                 (value_or_null (JsMap.get (ref_id r0) (annotationMap s))) r0))
        by (by rewrite list_lookup_alter_eq, Hr0).
      simplify_eq.
      rewrite (decide_True (P := reference ∈ reference :: l))
        by (apply elem_of_cons; by left).
      by destruct (decide (reference ∈ l)).
    + rewrite (Hobjs a r) by (by rewrite list_lookup_alter_ne).
      destruct (decide (a ∈ l)) as [Hin|Hin].
      * rewrite (decide_True (P := a ∈ reference :: l)); [done|]. apply elem_of_cons. by right.
      * rewrite (decide_False (P := a ∈ reference :: l)); [done|].
        rewrite not_elem_of_cons. naive_solver.
Qed.

Lemma restore_elements_all randomHex elements restored s :
  restore_all (AnnotationSource.schema s) randomHex 0 elements = Ok restored ->
  AnnotationSource.restore_elements randomHex 0 elements s
  = (Ok (), with_annotationMap (install (annotationMap s) restored) s).
Proof.
  intros Hall. pose proof (restore_elements_prefix randomHex elements 0 restored [] s Hall) as H.
  rewrite app_nil_r in H. rewrite H. done.
Qed.

Lemma install_snoc m l a : install m (l ++ [a]) = JsMap.set (id a) a (install m l).
Proof. unfold install. by rewrite foldl_app. Qed.

Lemma install_get l : forall i,
  JsMap.get i (install JsMap.empty l) = last (filter (fun a => id a = i) l).
Proof.
  induction l as [|a l IH] using rev_ind; intros i; [done|].
  rewrite install_snoc, filter_app, filter_cons, filter_nil.
  destruct (decide (id a = i)) as [<-|Hne].
  - by rewrite JsMap_get_set_eq, last_snoc.
  - rewrite JsMap_get_set_ne by done. by rewrite app_nil_r.
Qed.

Lemma restoreState_run s elements randomHex restored :
  store_inv s ->
  restore_all (AnnotationSource.schema s) randomHex 0 elements = Ok restored ->
  exists s',
    AnnotationSource.restoreState (Some (JArray elements)) randomHex s = (Ok (), s')
    /\ annotationMap s' = install JsMap.empty restored
    /\ pending s' = ∅
    /\ references s' = references s
    /\ (forall i reference, JsMap.get i (references s) = Some reference ->
          exists r, refs s !! reference = Some r
            /\ refs s' !! reference
               = Some (set_ref_value
                         (value_or_null (JsMap.get i (install JsMap.empty restored))) r))
    /\ dispatched s'
       = dispatched s ++ (ReferenceChanged <$> JsMap.values (references s)) ++ [Changed].
Proof.
  intros Hinv Hall.
  unfold AnnotationSource.restoreState. run_method.
  set (s0 := with_pending ∅ (with_annotationMap JsMap.empty s)).
  rewrite (restore_elements_all randomHex elements restored s0 Hall).
  set (s1 := with_annotationMap (install (annotationMap s0) restored) s0).
  destruct (resolve_references_run (JsMap.values (references s1)) s1)
    as (s2 & Hrun & Hm & Hp & Hrefs & Hd & Hobjs).
  { intros a Ha. simpl in Ha. unfold JsMap.values in Ha.
    apply list_elem_of_fmap in Ha as ([i a'] & -> & Hin).
    destruct Hinv as (_ & _ & _ & _ & Hreg). destruct (Hreg i a' Hin) as (r & Hr & _).
    simpl. by eexists. }
  rewrite Hrun. eexists. split; [done|]. simpl. rewrite Hm, Hp, Hrefs, Hd.
  split_and!; try done.
  - intros i reference Hget.
    destruct (store_inv_registry s Hinv i reference Hget) as (r & Hr & Hid).
    exists r. split; [done|]. rewrite (Hobjs reference r Hr).
    rewrite decide_True.
    + simpl. by rewrite Hid.
    + simpl. unfold JsMap.values. apply list_elem_of_fmap. exists (i, reference).
      split; [done|]. by apply JsMap_get_elem_of.
  - by rewrite <- app_assoc.
Qed.

(** X7. In a store that keeps its invariant, [restoreState] of an array
    whose records all restore returns; it has replaced the contents of the
    store by the restored records and cleared the pending set; it has
    assigned to every registered reference the restored record of its id,
    or [null] when there is none, and dispatched the [changed] of each of
    them, in the order of the registry, and then [changed]. *)
Theorem restoreState_resolves_references (s : AnnotationSourceState) (elements : list Json)
    (randomHex : nat -> AnnotationId) (restored : list Annotation) :
  store_inv s ->
  restore_all (AnnotationSource.schema s) randomHex 0 elements = Ok restored ->
  exists s',
    AnnotationSource.restoreState (Some (JArray elements)) randomHex s = (Ok (), s')
    /\ AnnotationSource.iterator s' = (Ok (JsMap.values (install JsMap.empty restored)), s')
    /\ pending s' = ∅
    /\ references s' = references s
    /\ (forall i reference, JsMap.get i (references s) = Some reference ->
          exists r, refs s !! reference = Some r
            /\ refs s' !! reference
               = Some (set_ref_value (value_or_null (JsMap.get i (annotationMap s'))) r))
    /\ dispatched s'
       = dispatched s ++ (ReferenceChanged <$> JsMap.values (references s)) ++ [Changed].
Proof.
  intros Hinv Hall.
  destruct (restoreState_run s elements randomHex restored Hinv Hall)
    as (s' & Hrun & Hm & Hp & Hrefs & Hobjs & Hd).
  exists s'. unfold AnnotationSource.iterator. run_method. rewrite Hm.
  split_and!; done.
Qed.

Lemma restoreState_resolves_references_witness :
  exists s',
    AnnotationSource.restoreState (Some (JArray [example_point_json "b"])) (fun _ => "0f")
      example_pending_store
    = (Ok (), s')
    /\ AnnotationSource.iterator s'
       = (Ok (JsMap.values (install JsMap.empty [example_restored_point "b"])), s')
    /\ pending s' = ∅
    /\ references s' = references example_pending_store
    /\ (forall i reference,
          JsMap.get i (references example_pending_store) = Some reference ->
          exists r, refs example_pending_store !! reference = Some r
            /\ refs s' !! reference
               = Some (set_ref_value (value_or_null (JsMap.get i (annotationMap s'))) r))
    /\ dispatched s'
       = dispatched example_pending_store
         ++ (ReferenceChanged <$> JsMap.values (references example_pending_store))
         ++ [Changed].
Proof.
  apply (restoreState_resolves_references example_pending_store [example_point_json "b"]
           (fun _ => "0f") [example_restored_point "b"]).
  - exact example_pending_store_inv.
  - reflexivity.
Defined.

(** X8. [restoreState] does not reject an array that holds several records
    with the same id, as [add] would: for every id, [get] afterwards gives
    the last record of the array with that id, and [undefined] when the
    array has none. *)
Theorem restoreState_last_record_wins (s : AnnotationSourceState) (elements : list Json)
    (randomHex : nat -> AnnotationId) (restored : list Annotation) :
  store_inv s ->
  restore_all (AnnotationSource.schema s) randomHex 0 elements = Ok restored ->
  exists s',
    AnnotationSource.restoreState (Some (JArray elements)) randomHex s = (Ok (), s')
    /\ forall i, AnnotationSource.get i s'
                 = (Ok (last (filter (fun a => id a = i) restored)), s').
Proof.
  intros Hinv Hall.
  destruct (restoreState_run s elements randomHex restored Hinv Hall)
    as (s' & Hrun & Hm & _).
  exists s'. split; [done|]. intros i.
  unfold AnnotationSource.get. run_method. by rewrite Hm, install_get.
Qed.

Lemma restoreState_last_record_wins_witness :
  exists s',
    AnnotationSource.restoreState
      (Some (JArray [example_point_json "a"; example_point_json "b";
                     example_other_point_json "a"]))
      (fun _ => "0f") example_pending_store
    = (Ok (), s')
    /\ forall i, AnnotationSource.get i s'
                 = (Ok (last (filter (fun a => id a = i)
                                [example_restored_point "a"; example_restored_point "b";
                                 example_other_restored_point "a"])), s').
Proof.
  apply (restoreState_last_record_wins example_pending_store
           [example_point_json "a"; example_point_json "b"; example_other_point_json "a"]
           (fun _ => "0f")
           [example_restored_point "a"; example_restored_point "b";
            example_other_restored_point "a"]).
  - exact example_pending_store_inv.
  - reflexivity.
Defined.

(** ** [LocalAnnotationSource.ensureUpdated] *)

Lemma same_coordinates_dec s : Decision (same_coordinates s).
Proof. unfold same_coordinates. apply _. Defined.

Lemma ensureUpdated_same aliased s :
  same_coordinates s ->
  LocalAnnotationSource.ensureUpdated aliased s
  = {| base := base s;
       curCoordinateTransform :=
         if decide (transform_object (watchableTransform s)
                    = transform_object (curCoordinateTransform s))
         then curCoordinateTransform s else watchableTransform s;
       watchableTransform := watchableTransform s |}.
Proof.
  unfold same_coordinates, LocalAnnotationSource.ensureUpdated.
  intros Hsame. destruct (decide _) as [Heq|Hne]; [by destruct s|].
  destruct Hsame as [?|[Hrank Hspace]]; [done|].
  cbn [curCoordinateTransform watchableTransform base].
  rewrite bool_decide_eq_true_2 by done. simpl.
  unfold arraysEqual.
  destruct Hspace as [Hobj|Hids].
  - by rewrite bool_decide_eq_true_2.
  - rewrite (bool_decide_eq_true_2 (take _ _ = _)) by done. by rewrite orb_true_r.
Qed.

Lemma ensureUpdated_migrate aliased s :
  ~ same_coordinates s ->
  LocalAnnotationSource.ensureUpdated aliased s
  = let transform := watchableTransform s in
    let cur := curCoordinateTransform s in
    let newToOldDims :=
      LocalAnnotationSource.newToOldDims (ids (inputSpace cur)) (ids (inputSpace transform))
        (sourceRank cur) (sourceRank transform) in
    let mapVector := LocalAnnotationSource.mapVector (sourceRank transform) newToOldDims in
    let annotations :=
      (fun kv : string * Annotation => (kv.1, LocalAnnotationSource.migrate mapVector kv.2))
      <$> annotationMap (base s) in
    let objects :=
      imap (fun reference r =>
              if aliased reference then LocalAnnotationSource.migrate_reference mapVector r
              else r)
           (refs (base s)) in
    let b := with_refs objects (with_annotationMap annotations (base s)) in
    let b := with_rank (sourceRank transform) b in
    {| base := with_dispatched (dispatched b ++ [Changed]) b;
       curCoordinateTransform := transform;
       watchableTransform := transform |}.
Proof.
  unfold same_coordinates, LocalAnnotationSource.ensureUpdated. intros Hdiff.
  destruct (decide _) as [Heq|Hne]; [exfalso; apply Hdiff; by left|].
  cbn [curCoordinateTransform watchableTransform base].
  destruct (bool_decide (sourceRank (curCoordinateTransform s)
                         = sourceRank (watchableTransform s))
            && _) eqn:Htest; [|done].
  exfalso. apply Hdiff. right.
  apply andb_true_iff in Htest as [Hrank Hspace].
  apply bool_decide_eq_true in Hrank. split; [done|].
  apply orb_true_iff in Hspace as [Hobj|Hids].
  - left. by apply bool_decide_eq_true in Hobj.
  - right. unfold arraysEqual in Hids. by apply bool_decide_eq_true in Hids.
Qed.

(** X9. [ensureUpdated()] is idempotent: a second call, with the same
    transform, changes nothing. *)
Theorem ensureUpdated_idempotent (aliased : Ref -> bool) (s : LocalAnnotationSourceState) :
  LocalAnnotationSource.ensureUpdated aliased (LocalAnnotationSource.ensureUpdated aliased s)
  = LocalAnnotationSource.ensureUpdated aliased s.
Proof.
  assert (Hfix : forall s', watchableTransform s' = curCoordinateTransform s' ->
                            LocalAnnotationSource.ensureUpdated aliased s' = s').
  { intros s' Heq. unfold LocalAnnotationSource.ensureUpdated.
    rewrite decide_True by (by rewrite Heq). done. }
  destruct (same_coordinates_dec s) as [Hsame|Hdiff].
  - rewrite (ensureUpdated_same aliased s Hsame).
    destruct (decide _) as [Heq|Hne].
    + unfold LocalAnnotationSource.ensureUpdated. simpl. by rewrite decide_True.
    + by apply Hfix.
  - rewrite (ensureUpdated_migrate aliased s Hdiff). by apply Hfix.
Qed.

(** X10. When the transform of the source is the one that it has, or has
    the same rank and the same input space, or the same rank and the same
    ids for the dimensions below the rank, [ensureUpdated()] leaves the
    store as it is: the records, the rank, the references and the
    dispatches. *)
Theorem ensureUpdated_same_coordinates (aliased : Ref -> bool)
    (s : LocalAnnotationSourceState) :
  same_coordinates s ->
  base (LocalAnnotationSource.ensureUpdated aliased s) = base s
  /\ watchableTransform (LocalAnnotationSource.ensureUpdated aliased s) = watchableTransform s.
Proof. intros Hsame. by rewrite (ensureUpdated_same aliased s Hsame). Qed.

Lemma ensureUpdated_same_coordinates_witness :
  base (LocalAnnotationSource.ensureUpdated example_aliased example_migrated_source)
  = base example_migrated_source
  /\ watchableTransform (LocalAnnotationSource.ensureUpdated example_aliased example_migrated_source)
     = watchableTransform example_migrated_source.
Proof.
  apply (ensureUpdated_same_coordinates example_aliased example_migrated_source).
  right. split; [reflexivity|]. left. reflexivity.
Defined.

Lemma mapVector_length sourceRank newToOldDims radii :
  length (LocalAnnotationSource.mapVector sourceRank newToOldDims radii) = sourceRank.
Proof.
  unfold LocalAnnotationSource.mapVector.
  assert (Hlen : forall l acc,
    length (foldl (fun (newRadii : list Z) (i : nat) =>
                     match newToOldDims !! i with
                     | Some oldDim =>
                         <[i := if decide (oldDim = -1) then f32_zero
                                else toFloat32 (radii !! i)]> newRadii
                     | None => newRadii
                     end) acc l) = length acc).
  { induction l as [|x l IH]; intros acc; simpl; [done|].
    rewrite IH. destruct (newToOldDims !! x); [apply length_insert|done]. }
  rewrite Hlen. unfold new_Float32Array. apply length_replicate.
Qed.

(** X11. In every other case [ensureUpdated()] migrates the store: the
    rank becomes the rank of the transform and every vector of every record
    gets that many components, whatever its length was; the records keep
    their keys, their order, their ids, types, descriptions, related
    segments and properties. A reference that holds one of the stored
    objects shows its new vectors (its value stays the record that the map
    holds), and every other reference is left as it is; the reference
    objects keep their ids and counts, the pending set and the registry are
    left as they are, and [changed] is dispatched once. *)
Theorem ensureUpdated_migrates (aliased : Ref -> bool) (s : LocalAnnotationSourceState) :
  ~ same_coordinates s ->
  let s' := LocalAnnotationSource.ensureUpdated aliased s in
  rank_ (base s') = sourceRank (watchableTransform s)
  /\ curCoordinateTransform s' = watchableTransform s
  /\ JsMap.keys (annotationMap (base s')) = JsMap.keys (annotationMap (base s))
  /\ (forall k a', (k, a') ∈ annotationMap (base s') ->
        exists a, (k, a) ∈ annotationMap (base s)
          /\ id a' = id a /\ annotation_type a' = annotation_type a
          /\ description a' = description a /\ relatedSegments a' = relatedSegments a
          /\ properties a' = properties a
          /\ Forall (fun v => length v = sourceRank (watchableTransform s))
               (geometry_vectors (geometry a')))
  /\ pending (base s') = pending (base s)
  /\ length (refs (base s')) = length (refs (base s))
  /\ (forall reference r, refs (base s) !! reference = Some r ->
        exists r', refs (base s') !! reference = Some r'
          /\ ref_id r' = ref_id r /\ refCount r' = refCount r
          /\ (aliased reference = false -> r' = r)
          /\ (aliased reference = true ->
              match ref_value r with
              | ValueAnnotation a =>
                  exists a', ref_value r' = ValueAnnotation a'
                    /\ id a' = id a /\ properties a' = properties a
                    /\ Forall (fun v => length v = sourceRank (watchableTransform s))
                         (geometry_vectors (geometry a'))
              | _ => r' = r
              end))
  /\ (forall reference r k a,
        refs (base s) !! reference = Some r -> aliased reference = true ->
        ref_value r = ValueAnnotation a -> (k, a) ∈ annotationMap (base s) ->
        exists a', (k, a') ∈ annotationMap (base s')
          /\ refs (base s') !! reference = Some (set_ref_value (ValueAnnotation a') r))
  /\ references (base s') = references (base s)
  /\ dispatched (base s') = dispatched (base s) ++ [Changed].
Proof.
  intros Hdiff s'. subst s'. rewrite (ensureUpdated_migrate aliased s Hdiff). simpl.
  split_and!; try done.
  - unfold JsMap.keys. rewrite <- list_fmap_compose. done.
  - intros k a' Hin. apply list_elem_of_fmap in Hin as ([k0 a] & Heq & Hin).
    simpl in Heq. simplify_eq. exists a. split; [done|]. simpl.
    unfold annotation_type. simpl. split_and!; try done.
    + by destruct (geometry a).
    + destruct (geometry a); simpl; repeat constructor; apply mapVector_length.
  - apply length_imap.
  - intros reference r Hr. rewrite list_lookup_imap, Hr. simpl.
    destruct (aliased reference).
    + unfold LocalAnnotationSource.migrate_reference.
      destruct (ref_value r) as [| |a] eqn:Hv.
      * exists r. by split_and!.
      * exists r. by split_and!.
      * eexists. split; [done|]. simpl. split_and!; try done.
        intros _. eexists. split; [done|]. simpl. split_and!; try done.
        destruct (geometry a); simpl; repeat constructor; apply mapVector_length.
    + exists r. by split_and!.
  - intros reference r k a Hr Haliased Hv Hin. eexists. split.
    + apply list_elem_of_fmap. exists (k, a). split; [reflexivity|exact Hin].
    + rewrite list_lookup_imap, Hr. simpl. rewrite Haliased.
      unfold LocalAnnotationSource.migrate_reference. by rewrite Hv.
Qed.

Lemma ensureUpdated_migrates_witness :
  rank_ (base (LocalAnnotationSource.ensureUpdated example_aliased example_local_source))
  = sourceRank (watchableTransform example_local_source)
  /\ refs (base (LocalAnnotationSource.ensureUpdated example_aliased example_local_source))
     !! 0%nat
     = Some {| ref_id := "a"; refCount := 1;
               ref_value :=
                 ValueAnnotation
                   (set_geometry (example_point "a")
                      (PointGeometry [0x3F800000; 0x40000000])) |}.
Proof.
  pose proof (ensureUpdated_migrates example_aliased example_local_source) as Hmigrates.
  destruct Hmigrates as (Hrank & _).
  { unfold same_coordinates. simpl. intros [H|[H _]]; discriminate H. }
  split; [exact Hrank|]. reflexivity.
Defined.

Lemma indexOf_from_first l x : forall k j,
  l !! j = Some x -> (forall j', (j' < j)%nat -> l !! j' <> Some x) ->
  indexOf_from l x k = k + Z.of_nat j.
Proof.
  induction l as [|y l IH]; intros k j Hj Hfirst; [by rewrite lookup_nil in Hj|].
  simpl. destruct (decide (y = x)) as [->|Hne].
  - destruct j as [|j]; [lia|]. exfalso. apply (Hfirst 0%nat); [lia|done].
  - destruct j as [|j]; simpl in Hj; [congruence|].
    rewrite (IH (k + 1) j Hj); [lia|].
    intros j' Hj'. apply (Hfirst (S j')). lia.
Qed.

Lemma indexOf_from_range l x : forall k,
  indexOf_from l x k = -1
  \/ exists j, l !! j = Some x /\ indexOf_from l x k = k + Z.of_nat j.
Proof.
  induction l as [|y l IH]; intros k; simpl; [by left|].
  destruct (decide (y = x)) as [->|Hne].
  - right. exists 0%nat. split; [done|lia].
  - destruct (IH (k + 1)) as [Hnone|(j & Hj & Hfound)]; [by left|].
    right. exists (S j). split; [done|lia].
Qed.

(** X12. When the dimensions that the old and the new space have in common
    are their leading ones (dimensions were added at the end, or dropped
    from the end) and the new ids are distinct, the migration of a vector
    keeps the components of the dimensions in common and gives 0 to every
    added one. *)
Theorem migration_of_leading_dimensions (oldIds newIds : list Z) (oldRank newRank : nat)
    (v : Float32Array) :
  (oldRank <= length oldIds)%nat -> (newRank <= length newIds)%nat ->
  NoDup (take newRank newIds) ->
  take (oldRank `min` newRank) oldIds = take (oldRank `min` newRank) newIds ->
  length v = oldRank ->
  LocalAnnotationSource.mapVector newRank
    (LocalAnnotationSource.newToOldDims oldIds newIds oldRank newRank) v
  = take newRank ((fun x => toFloat32 (Some x)) <$> v)
    ++ replicate (newRank - oldRank) f32_zero.
Proof.
  intros Hold Hnew Hnd Hcommon Hlen.
  apply list_eq. intros i.
  destruct (decide (i < newRank)%nat) as [Hi|Hi].
  2:{ rewrite !lookup_ge_None_2; [done| |].
      - rewrite length_app, length_take, length_fmap, length_replicate. lia.
      - rewrite mapVector_length. lia. }
  destruct (lookup_lt_is_Some_2 newIds i) as [x Hx]; [lia|].
  assert (Hpre : forall j, (j < oldRank `min` newRank)%nat -> oldIds !! j = newIds !! j).
  { intros j Hj. rewrite <- (lookup_take_lt oldIds (oldRank `min` newRank) j) by lia.
    rewrite <- (lookup_take_lt newIds (oldRank `min` newRank) j) by lia. by rewrite Hcommon. }
  assert (Hdistinct : forall j, (j < newRank)%nat -> newIds !! j = Some x -> j = i).
  { intros j Hj Heq.
    eapply (NoDup_lookup (take newRank newIds) j i x); [done| |].
    - by rewrite lookup_take_lt.
    - by rewrite lookup_take_lt. }
  rewrite (mapVector_lookup newRank _ v i (matching_oldDim oldIds newIds oldRank i)); [|done|].
  2:{ rewrite newToOldDims_spec, list_lookup_fmap, lookup_seq_lt by done. done. }
  unfold matching_oldDim. rewrite Hx. unfold indexOf.
  destruct (decide (i < oldRank)%nat) as [Hlt|Hge].
  - rewrite (indexOf_from_first oldIds x 0 i).
    + destruct (Z.geb_spec (0 + Z.of_nat i) (Z.of_nat oldRank)) as [?|_]; [lia|].
      rewrite decide_False by lia.
      rewrite lookup_app_l by (rewrite length_take, length_fmap; lia).
      rewrite lookup_take_lt, list_lookup_fmap by done.
      destruct (lookup_lt_is_Some_2 v i) as [b Hb]; [lia|]. by rewrite Hb.
    + rewrite Hpre by lia. done.
    + intros j' Hj' Heq. rewrite Hpre in Heq by lia.
      specialize (Hdistinct j' ltac:(lia) Heq). lia.
  - assert (Hnone : (if indexOf_from oldIds x 0 >=? Z.of_nat oldRank then -1
                     else indexOf_from oldIds x 0) = -1).
    { destruct (indexOf_from_range oldIds x 0) as [->|(j & Hj & ->)].
      - by destruct (_ >=? _).
      - destruct (Z.geb_spec (0 + Z.of_nat j) (Z.of_nat oldRank)) as [?|Hj']; [done|].
        exfalso. rewrite Hpre in Hj by lia.
        specialize (Hdistinct j ltac:(lia) Hj). lia. }
    rewrite Hnone, decide_True by done.
    rewrite lookup_app_r by (rewrite length_take, length_fmap; lia).
    rewrite length_take, length_fmap. symmetry. apply lookup_replicate_2. lia.
Qed.

Lemma migration_of_leading_dimensions_witness :
  LocalAnnotationSource.mapVector 4
    (LocalAnnotationSource.newToOldDims [10; 11; 12] [10; 11; 12; 13] 3 4)
    [0x3F800000; 0x40000000; 0x40400000]
  = take 4 ((fun x => toFloat32 (Some x)) <$> [0x3F800000; 0x40000000; 0x40400000])
    ++ replicate (4 - 3) f32_zero.
Proof.
  apply (migration_of_leading_dimensions [10; 11; 12] [10; 11; 12; 13] 3 4).
  - simpl. lia.
  - simpl. lia.
  - simpl. apply (bool_decide_unpack (NoDup [10; 11; 12; 13])). vm_compute. exact I.
  - reflexivity.
  - reflexivity.
Defined.

(** X13. The getter [rank] of a local source returns the rank of the
    transform that the source is given at the time of the call, and leaves
    the source with that transform as its current one: the rank of the
    store follows the transform, from the constructor on. *)
Theorem rank_follows_transform (aliased : Ref -> bool) (s : LocalAnnotationSourceState) :
  rank_ (base s) = sourceRank (curCoordinateTransform s) ->
  (transform_object (watchableTransform s) = transform_object (curCoordinateTransform s) ->
   watchableTransform s = curCoordinateTransform s) ->
  (LocalAnnotationSource_rank aliased s).1 = sourceRank (watchableTransform s)
  /\ rank_ (base (LocalAnnotationSource_rank aliased s).2)
     = sourceRank (curCoordinateTransform (LocalAnnotationSource_rank aliased s).2)
  /\ watchableTransform (LocalAnnotationSource_rank aliased s).2 = watchableTransform s
  /\ rank_ (base (new_LocalAnnotationSource (watchableTransform s)))
     = sourceRank (watchableTransform s).
Proof.
  intros Hrank Hobject. unfold LocalAnnotationSource_rank. cbn [fst snd].
  destruct (same_coordinates_dec s) as [Hsame|Hdiff].
  - rewrite (ensureUpdated_same aliased s Hsame). cbn [base curCoordinateTransform watchableTransform].
    destruct (decide _) as [Heq|Hne].
    + rewrite Hrank, (Hobject Heq). done.
    + destruct Hsame as [?|[Hsame _]]; [done|]. rewrite Hrank, Hsame. done.
  - rewrite (ensureUpdated_migrate aliased s Hdiff). done.
Qed.

Lemma rank_follows_transform_witness :
  (LocalAnnotationSource_rank example_aliased example_local_source).1
  = sourceRank (watchableTransform example_local_source)
  /\ rank_ (base (LocalAnnotationSource_rank example_aliased example_local_source).2)
     = sourceRank (curCoordinateTransform (LocalAnnotationSource_rank example_aliased example_local_source).2)
  /\ watchableTransform (LocalAnnotationSource_rank example_aliased example_local_source).2
     = watchableTransform example_local_source
  /\ rank_ (base (new_LocalAnnotationSource (watchableTransform example_local_source)))
     = sourceRank (watchableTransform example_local_source).
Proof.
  apply (rank_follows_transform example_aliased example_local_source).
  - reflexivity.
  - simpl. discriminate.
Defined.

(** ** Facts on the floating-point conversions *)

Lemma iter_pos_iter {A} (f : A -> A) p : forall x, SpecFloat.iter_pos f p x = Pos.iter f x p.
Proof.
  induction p as [p IH|p IH|]; intros x; simpl.
  - rewrite !IH, !Pos.iter_swap. done.
  - by rewrite !IH.
  - done.
Qed.

Lemma digits2_pos_shift m d : digits2_pos (Pos.iter xO m d) = (digits2_pos m + d)%positive.
Proof.
  induction d as [|d IH] using Pos.peano_ind.
  - simpl. lia.
  - rewrite Pos.iter_succ. simpl. rewrite IH. lia.
Qed.

Lemma shift_pos_value m d : Z.pos (Pos.iter xO m d) = Z.pos m * 2 ^ Z.pos d.
Proof.
  induction d as [|d IH] using Pos.peano_ind.
  - simpl. lia.
  - rewrite Pos.iter_succ, Pos2Z.inj_xO, IH, Pos2Z.inj_succ, Z.pow_succ_r by lia. lia.
Qed.

Lemma shr_shift m d :
  SpecFloat.iter_pos shr_1 d {| shr_m := Z.pos (Pos.iter xO m d); shr_r := false; shr_s := false |}
  = {| shr_m := Z.pos m; shr_r := false; shr_s := false |}.
Proof.
  rewrite iter_pos_iter.
  induction d as [|d IH] using Pos.peano_ind.
  - done.
  - rewrite Pos.iter_succ_r. rewrite (Pos.iter_succ d _ xO). simpl. exact IH.
Qed.

Lemma digits2_pos_bounds m :
  2 ^ (Z.pos (digits2_pos m) - 1) <= Z.pos m < 2 ^ Z.pos (digits2_pos m).
Proof.
  induction m as [m IH|m IH|]; simpl.
  - rewrite Pos2Z.inj_succ, Z.pow_succ_r by lia.
    replace (Z.succ (Z.pos (digits2_pos m)) - 1) with (Z.succ (Z.pos (digits2_pos m) - 1)) by lia.
    rewrite Z.pow_succ_r by lia. lia.
  - rewrite Pos2Z.inj_succ, Z.pow_succ_r by lia.
    replace (Z.succ (Z.pos (digits2_pos m)) - 1) with (Z.succ (Z.pos (digits2_pos m) - 1)) by lia.
    rewrite Z.pow_succ_r by lia. lia.
  - simpl. lia.
Qed.

Lemma digits2_pos_le m n : 0 <= n -> Z.pos m < 2 ^ n -> Z.pos (digits2_pos m) <= n.
Proof.
  intros Hn Hm. destruct (digits2_pos_bounds m) as [Hlo _].
  destruct (Z_le_gt_dec (Z.pos (digits2_pos m)) n) as [?|Hgt]; [done|].
  assert (2 ^ n <= 2 ^ (Z.pos (digits2_pos m) - 1)) by (apply Z.pow_le_mono_r; lia). lia.
Qed.

Section Rounding.
Variables prec emax : Z.

(** A mantissa and an exponent in canonical form are kept by the rounding. *)
Lemma binary_round_aux_canonical s m e :
  fexp prec emax (Z.pos (digits2_pos m) + e) = e -> e <= emax - prec ->
  binary_round_aux prec emax s (Z.pos m) e loc_Exact = S754_finite s m e.
Proof.
  intros Hcanon He. unfold binary_round_aux, shr_fexp. simpl Zdigits2.
  rewrite Hcanon, Z.sub_diag. simpl. rewrite Hcanon, Z.sub_diag. simpl.
  by rewrite (proj2 (Z.leb_le _ _) He).
Qed.

(** A value that has a canonical form [(m, e)] and is given with a larger
    mantissa and a smaller exponent is rounded to that form. *)
Lemma binary_round_shifted s m e d :
  fexp prec emax (Z.pos (digits2_pos m) + e) = e -> e <= emax - prec ->
  binary_round prec emax s (Pos.iter xO m d) (e - Z.pos d) = S754_finite s m e.
Proof.
  intros Hcanon He. unfold binary_round, shl_align.
  rewrite digits2_pos_shift, Pos2Z.inj_add.
  replace (Z.pos (digits2_pos m) + Z.pos d + (e - Z.pos d))
    with (Z.pos (digits2_pos m) + e) by lia.
  rewrite Hcanon.
  replace (e - (e - Z.pos d)) with (Z.pos d) by lia.
  unfold binary_round_aux, shr_fexp. simpl Zdigits2.
  rewrite digits2_pos_shift, Pos2Z.inj_add.
  replace (Z.pos (digits2_pos m) + Z.pos d + (e - Z.pos d))
    with (Z.pos (digits2_pos m) + e) by lia.
  rewrite Hcanon.
  replace (e - (e - Z.pos d)) with (Z.pos d) by lia.
  cbn [shr shr_record_of_loc]. rewrite shr_shift.
  cbn [shr_m loc_of_shr_record round_nearest_even Zdigits2].
  replace (e - Z.pos d + Z.pos d) with e by lia.
  rewrite Hcanon, Z.sub_diag. cbn [shr shr_record_of_loc shr_m].
  by rewrite (proj2 (Z.leb_le _ _) He).
Qed.

(** A value with a short mantissa is brought to canonical form by a shift
    to the left. *)
Lemma binary_round_short s m e d :
  fexp prec emax (Z.pos (digits2_pos m) + e) = e - Z.pos d -> e - Z.pos d <= emax - prec ->
  binary_round prec emax s m e = S754_finite s (Pos.iter xO m d) (e - Z.pos d).
Proof.
  intros Hfexp He. unfold binary_round, shl_align. rewrite Hfexp.
  replace (e - Z.pos d - e) with (Z.neg d) by lia.
  apply binary_round_aux_canonical; [|done].
  rewrite digits2_pos_shift, Pos2Z.inj_add.
  replace (Z.pos (digits2_pos m) + Z.pos d + (e - Z.pos d))
    with (Z.pos (digits2_pos m) + e) by lia.
  exact Hfexp.
Qed.
End Rounding.

(** An integer below [2^53] in absolute value is a Number, and its integer
    part is the integer. *)
Lemma toIntegerOrZero_number_of_Z z :
  - 2 ^ 53 < z < 2 ^ 53 -> toIntegerOrZero (number_of_Z z) = z.
Proof.
  intros Hz. unfold number_of_Z, binary_normalize.
  assert (Hpos : forall s m, Z.pos m < 2 ^ 53 ->
    toIntegerOrZero (binary_round 53 1024 s m 0) = cond_Zopp s (Z.pos m)).
  { intros s m Hm.
    pose proof (digits2_pos_le m 53 ltac:(lia) Hm) as Hd.
    pose proof (Pos2Z.is_pos (digits2_pos m)) as Hd0.
    destruct (Z.eq_dec (Z.pos (digits2_pos m)) 53) as [Heq|Hne].
    - unfold binary_round, shl_align.
      assert (Hf : fexp 53 1024 (Z.pos (digits2_pos m) + 0) = 0).
      { unfold fexp, emin. lia. }
      rewrite Hf. change (0 - 0) with 0. cbv beta iota.
      rewrite binary_round_aux_canonical by (done || lia).
      simpl. f_equal. lia.
    - destruct (53 - Z.pos (digits2_pos m)) as [|d|d] eqn:Hd1; [lia| |lia].
      rewrite (binary_round_short 53 1024 s m 0 d).
      + unfold toIntegerOrZero. simpl Z.sub.
        destruct (Z.leb_spec 0 (Z.neg d)) as [?|_]; [lia|].
        rewrite shift_pos_value. simpl Z.opp.
        rewrite Z.div_mul by (apply Z.pow_nonzero; lia). done.
      + unfold fexp, emin. lia.
      + lia. }
  destruct z as [|m|m]; [done|apply (Hpos false); lia|].
  apply (Hpos true). lia.
Qed.

Lemma f32_fields b :
  0 <= b < 2 ^ 32 ->
  b = (if f32_sign b then 2 ^ 31 else 0) + f32_exponent b * 2 ^ 23 + f32_fraction b
  /\ 0 <= f32_exponent b < 256 /\ 0 <= f32_fraction b < 2 ^ 23.
Proof.
  intros Hb. unfold f32_sign, f32_exponent, f32_fraction.
  change (2 ^ 32) with 4294967296 in Hb. change (2 ^ 31) with 2147483648.
  change (2 ^ 23) with 8388608.
  destruct (Z.ltb_spec 0 (b / 2147483648)); Z.div_mod_to_equations; lia.
Qed.

(** The Number of a finite binary32 value: a zero, or the canonical
    binary32 mantissa and exponent shifted to 53 digits. *)
Lemma number_of_f32_finite b :
  f32_finite b ->
  (spec_of_f32 b = S754_zero (f32_sign b) /\ number_of_f32 b = S754_zero (f32_sign b)
   /\ b = if f32_sign b then 2 ^ 31 else 0)
  \/ exists m e d,
       spec_of_f32 b = S754_finite (f32_sign b) m e
       /\ number_of_f32 b = S754_finite (f32_sign b) (Pos.iter xO m d) (e - Z.pos d)
       /\ fexp 24 128 (Z.pos (digits2_pos m) + e) = e /\ e <= 128 - 24
       /\ f32_of_spec (S754_finite (f32_sign b) m e) = b.
Proof.
  intros [Hb Hfin]. destruct (f32_fields b Hb) as (Hsum & Hexp & Hfrac).
  assert (Hround : forall s m e,
    Z.pos m < 2 ^ 24 -> -149 <= e <= 104 ->
    binary_normalize 53 1024 (cond_Zopp s (Z.pos m)) e s
    = S754_finite s (Pos.iter xO m (Z.to_pos (53 - Z.pos (digits2_pos m))))
        (e - Z.pos (Z.to_pos (53 - Z.pos (digits2_pos m))))).
  { intros s m e Hm He.
    pose proof (digits2_pos_le m 24 ltac:(lia) Hm) as Hd.
    pose proof (Pos2Z.is_pos (digits2_pos m)) as Hd0.
    assert (Hshift : Z.pos (Z.to_pos (53 - Z.pos (digits2_pos m)))
                     = 53 - Z.pos (digits2_pos m)) by (rewrite Z2Pos.id; lia).
    replace (binary_normalize 53 1024 (cond_Zopp s (Z.pos m)) e s)
      with (binary_round 53 1024 s m e) by (by destruct s).
    apply binary_round_short.
    - rewrite Hshift. unfold fexp, emin. lia.
    - lia. }
  unfold number_of_f32, spec_of_f32.
  destruct (Z.eqb_spec (f32_exponent b) 255) as [?|_]; [done|].
  destruct (Z.eqb_spec (f32_exponent b) 0) as [He0|He0].
  - destruct (f32_fraction b) as [|m|m] eqn:Hf; [|..|lia].
    + left. split_and!; try done.
      change (2 ^ 31) with 2147483648 in *. change (2 ^ 23) with 8388608 in *.
      destruct (f32_sign b); lia.
    + right. eexists m, (-149), _. split; [done|].
      rewrite Hround by lia. split; [done|].
      pose proof (digits2_pos_le m 23 ltac:(lia) ltac:(lia)) as Hd.
      pose proof (Pos2Z.is_pos (digits2_pos m)) as Hd0.
      split_and!.
      * unfold fexp, emin. lia.
      * lia.
      * unfold f32_of_spec. destruct (Z.ltb_spec (Z.pos m) (2 ^ 23)) as [_|?]; [|lia].
        change (2 ^ 31) with 2147483648 in *. change (2 ^ 23) with 8388608 in *.
        destruct (f32_sign b); lia.
  - destruct (f32_fraction b + 2 ^ 23) as [|m|m] eqn:Hf; [lia| |lia].
    right. eexists m, (f32_exponent b - 150), _. split; [done|].
    rewrite Hround by lia. split; [done|].
    assert (Hd : Z.pos (digits2_pos m) = 24).
    { pose proof (digits2_pos_le m 24 ltac:(lia) ltac:(lia)) as Hd.
      destruct (digits2_pos_bounds m) as [_ Hhi].
      destruct (Z_le_gt_dec (Z.pos (digits2_pos m)) 23) as [Hle|?]; [|lia].
      assert (2 ^ Z.pos (digits2_pos m) <= 2 ^ 23) by (apply Z.pow_le_mono_r; lia). lia. }
    split_and!.
    + rewrite Hd. unfold fexp, emin. lia.
    + lia.
    + unfold f32_of_spec. destruct (Z.ltb_spec (Z.pos m) (2 ^ 23)) as [?|_]; [lia|].
      change (2 ^ 31) with 2147483648 in *. change (2 ^ 23) with 8388608 in *.
      destruct (f32_sign b); lia.
Qed.

(** A finite binary32 value that is read as a Number and stored back into
    a binary32 slot keeps its bit pattern. *)
Lemma fround_number_of_f32 b : f32_finite b -> fround (number_of_f32 b) = b.
Proof.
  intros Hfin.
  destruct (number_of_f32_finite b Hfin)
    as [(_ & -> & Hb)|(m & e & d & _ & -> & Hcanon & He & Hbits)].
  - simpl. rewrite Hb at 2. by destruct (f32_sign b).
  - unfold fround. rewrite binary_round_shifted by done. exact Hbits.
Qed.

Lemma number_of_f32_isFinite b : f32_finite b -> number_isFinite (number_of_f32 b) = true.
Proof.
  intros Hfin.
  by destruct (number_of_f32_finite b Hfin) as [(_ & -> & _)|(m & e & d & _ & -> & _)].
Qed.

Lemma number_of_f32_nonNegative b :
  f32_finite b -> number_nonNegative (number_of_f32 b) = true <-> b = 2 ^ 31 \/ b < 2 ^ 31.
Proof.
  intros Hfin. destruct (f32_fields b (proj1 Hfin)) as (Hsum & Hexp & Hfrac).
  destruct (number_of_f32_finite b Hfin)
    as [(_ & -> & Hb)|(m & e & d & Hspec & -> & _ & _ & _)]; simpl.
  - split; [intros _|done]. destruct (f32_sign b); lia.
  - assert (Hnz : b <> 2 ^ 31).
    { intros ->. vm_compute in Hspec. discriminate Hspec. }
    change (2 ^ 31) with 2147483648 in *. change (2 ^ 23) with 8388608 in *.
    destruct (f32_sign b) eqn:Hs; simpl.
    + split; [done|]. intros [?|?]; [done|]. lia.
    + split; [intros _|done]. right. lia.
Qed.

(** ** Facts on the bytes of a [DataView] *)

Lemma write_bytes_lookup off bs buf k :
  (off + length bs <= length buf)%nat ->
  write_bytes off bs buf !! k
  = if decide (off <= k < off + length bs)%nat then bs !! (k - off)%nat else buf !! k.
Proof.
  intros Hlen. unfold write_bytes.
  destruct (decide (k < off)%nat) as [Hlt|Hge].
  - rewrite lookup_app_l by (rewrite length_take; lia).
    rewrite lookup_take_lt by done. rewrite decide_False by lia. done.
  - rewrite lookup_app_r by (rewrite length_take; lia). rewrite length_take.
    replace (off `min` length buf)%nat with off by lia.
    destruct (decide (k < off + length bs)%nat) as [Hin|Hout].
    + rewrite lookup_app_l by lia. rewrite decide_True by lia. done.
    + rewrite lookup_app_r by lia. rewrite lookup_drop, decide_False by lia.
      f_equal. lia.
Qed.

Lemma read_bytes_lookup o n buf j :
  read_bytes o n buf !! j = if decide (j < n)%nat then buf !! (o + j)%nat else None.
Proof.
  unfold read_bytes. destruct (decide (j < n)%nat) as [Hlt|Hge].
  - by rewrite lookup_take_lt, lookup_drop.
  - by rewrite lookup_take_ge by lia.
Qed.

Lemma read_bytes_ext o n buf buf' :
  (forall j, (j < n)%nat -> buf' !! (o + j)%nat = buf !! (o + j)%nat) ->
  read_bytes o n buf' = read_bytes o n buf.
Proof.
  intros Hsame. apply list_eq. intros j. rewrite !read_bytes_lookup.
  destruct (decide (j < n)%nat); [by apply Hsame|done].
Qed.

Lemma length_bytes_of_integer n : forall v, length (bytes_of_integer n v) = n.
Proof. induction n as [|n IH]; intros v; simpl; [done|]. by rewrite IH. Qed.

Lemma bits_of_bytes_of_integer n : forall v,
  bits_of_bytes (bytes_of_integer n v) = v mod 2 ^ (8 * Z.of_nat n).
Proof.
  induction n as [|n IH]; intros v.
  - simpl. by rewrite Z.mod_1_r.
  - cbn [bytes_of_integer]. unfold bits_of_bytes in *. cbn [foldr]. rewrite IH.
    replace (8 * Z.of_nat (S n)) with (8 + 8 * Z.of_nat n) by lia.
    rewrite Z.pow_add_r by lia. change (2 ^ 8) with 256.
    rewrite Z.rem_mul_r by (try apply Z.pow_nonzero; lia). lia.
Qed.

Lemma signed_mod n z :
  (0 < n)%nat -> - 2 ^ (8 * Z.of_nat n - 1) <= z < 2 ^ (8 * Z.of_nat n - 1) ->
  signed n (z mod 2 ^ (8 * Z.of_nat n)) = z.
Proof.
  intros Hn Hz. unfold signed.
  assert (Hpow : 2 ^ (8 * Z.of_nat n) = 2 * 2 ^ (8 * Z.of_nat n - 1)).
  { rewrite <- Z.pow_succ_r by lia. f_equal. lia. }
  assert (Hp : 0 < 2 ^ (8 * Z.of_nat n - 1)) by (apply Z.pow_pos_nonneg; lia).
  destruct (Z_lt_le_dec z 0) as [Hneg|Hpos].
  - replace (z mod 2 ^ (8 * Z.of_nat n)) with (z + 2 ^ (8 * Z.of_nat n)).
    + destruct (Z.leb_spec (2 ^ (8 * Z.of_nat n - 1)) (z + 2 ^ (8 * Z.of_nat n))); lia.
    + apply Z.mod_unique with (-1); lia.
  - rewrite Z.mod_small by lia.
    destruct (Z.leb_spec (2 ^ (8 * Z.of_nat n - 1)) z); lia.
Qed.

Lemma lor_shiftl_16 lo hi :
  0 <= lo < 2 ^ 16 -> 0 <= hi -> Z.lor lo (Z.shiftl hi 16) = lo + hi * 2 ^ 16.
Proof.
  intros Hlo Hhi. rewrite Z.shiftl_mul_pow2 by lia.
  symmetry. apply Z.add_nocarry_lor.
  apply Z.bits_inj'. intros n Hn. rewrite Z.land_spec, Z.bits_0.
  destruct (Z_lt_le_dec n 16) as [Hlt|Hge].
  - rewrite Z.mul_pow2_bits_low by lia. apply andb_false_r.
  - rewrite (Z.bits_above_log2 lo n); [done|lia|].
    destruct (Z.eq_dec lo 0) as [->|Hnz]; [simpl; lia|].
    apply Z.log2_lt_pow2; [lia|].
    apply Z.lt_le_trans with (2 ^ 16); [lia|]. apply Z.pow_le_mono_r; lia.
Qed.

(** ** The code of one property *)

Lemma length_property_bytes t le p : length (property_bytes t le p) = property_written t.
Proof.
  destruct t; simpl; rewrite ?length_endian_order, ?length_app, ?length_bytes_of_integer; done.
Qed.

Lemma property_written_le t rank :
  Z.of_nat (property_written t) <= handler_serializedBytes t rank.
Proof. destruct t; simpl; lia. Qed.

Lemma set_integer_ok n dv off v le :
  0 <= off -> off + Z.of_nat n <= byteLength dv ->
  set_integer n dv off v le
  = Ok (write_bytes (Z.to_nat off)
          (endian_order le (bytes_of_integer n (toIntegerOrZero v))) dv).
Proof. intros Hoff Hlen. unfold set_integer. by rewrite in_range_true. Qed.

Lemma serializeCode_writes t dv p off le :
  0 <= off -> off + Z.of_nat (property_written t) <= byteLength dv ->
  serializeCode t dv p off le
  = Ok (write_bytes (Z.to_nat off) (property_bytes t le p) dv).
Proof.
  intros Hoff Hlen. unfold byteLength in Hlen.
  destruct t; simpl in *;
    unfold setUint8, setInt8, setUint16, setInt16, setUint32, setInt32;
    try (rewrite set_integer_ok by (unfold byteLength; lia); done).
  - rewrite set_integer_ok by (unfold byteLength; lia).
    cbn [mbind Outcome_bind].
    rewrite set_integer_ok.
    + f_equal. cbn [endian_order].
      replace (Z.to_nat (off + 2))
        with (Z.to_nat off
              + length (bytes_of_integer 2 (toIntegerOrZero (property_number p))))%nat
        by (rewrite length_bytes_of_integer; lia).
      apply write_bytes_app. rewrite !length_bytes_of_integer. lia.
    + lia.
    + unfold byteLength. rewrite length_write_bytes; [lia|].
      rewrite length_endian_order, length_bytes_of_integer. lia.
  - unfold setFloat32. rewrite in_range_true by (unfold byteLength; lia). done.
Qed.

Lemma get_unsigned_ok n dv off le :
  0 <= off -> off + Z.of_nat n <= byteLength dv ->
  get_unsigned n dv off le
  = Ok (bits_of_bytes (endian_order le (read_bytes (Z.to_nat off) n dv))).
Proof. intros Hoff Hlen. unfold get_unsigned. by rewrite in_range_true. Qed.

Lemma deserializeCode_reads t dv off le :
  0 <= off -> off + Z.of_nat (property_written t) <= byteLength dv ->
  deserializeCode t dv off le
  = Ok (property_of_bytes t le (read_bytes (Z.to_nat off) (property_written t) dv)).
Proof.
  intros Hoff Hlen.
  destruct t; simpl in *;
    unfold getUint8, getInt8, getUint16, getInt16, getUint32, getInt32, get_signed;
    try (rewrite get_unsigned_ok by lia; done).
  - rewrite !get_unsigned_ok by lia. cbn [mbind Outcome_bind mret Outcome_ret endian_order].
    do 3 f_equal.
    + unfold read_bytes. by rewrite take_take.
    + f_equal. unfold read_bytes.
      change 3%nat with (2 + 1)%nat. rewrite <- take_drop_commute, drop_drop.
      replace (Z.to_nat (off + 2)) with (Z.to_nat off + 2)%nat by lia. done.
  - unfold getFloat32. rewrite in_range_true by lia. done.
Qed.

Ltac eval_pows :=
  change (2 ^ 53) with 9007199254740992 in *;
  change (2 ^ 32) with 4294967296 in *;
  change (2 ^ 31) with 2147483648 in *;
  change (2 ^ 24) with 16777216 in *;
  change (2 ^ 16) with 65536 in *;
  change (2 ^ 15) with 32768 in *;
  change (2 ^ 8) with 256 in *;
  change (2 ^ 7) with 128 in *.

Lemma property_roundtrip_bytes t le p :
  property_value t p -> property_of_bytes t le (property_bytes t le (Some p)) = p.
Proof.
  assert (Hint : forall z, - 9007199254740992 < z < 9007199254740992 ->
                           toIntegerOrZero (number_of_Z z) = z)
    by apply toIntegerOrZero_number_of_Z.
  assert (Hsigned : forall n z, (0 < n)%nat ->
            - 2 ^ (8 * Z.of_nat n - 1) <= z < 2 ^ (8 * Z.of_nat n - 1) ->
            signed n (z mod 2 ^ (8 * Z.of_nat n)) = z) by apply signed_mod.
  destruct t; cbv [property_value property_bytes property_of_bytes property_number];
    intros (z & Hz & ->); rewrite ?endian_order_involutive.
  - unfold ushr16. eval_pows. rewrite (Hint z) by lia.
    rewrite Z.mod_small by lia. rewrite Z.shiftr_div_pow2 by lia. eval_pows.
    assert (Hhi : 0 <= z / 65536 < 256).
    { split; [apply Z.div_pos; lia|apply Z.div_lt_upper_bound; lia]. }
    rewrite (Hint (z / 65536)) by lia.
    rewrite take_app_length' by done. rewrite drop_app_length' by done.
    rewrite !bits_of_bytes_of_integer. change (8 * Z.of_nat 2) with 16.
    change (8 * Z.of_nat 1) with 8. eval_pows.
    rewrite (Z.mod_small (z / 65536)) by lia.
    rewrite lor_shiftl_16; [|apply Z.mod_pos_bound; lia|lia]. eval_pows.
    f_equal. rewrite (Z.div_mod z 65536) at 3 by lia. lia.
  - eval_pows. rewrite bits_of_bytes_of_integer, Hint by lia.
    by rewrite Z.mod_small by (simpl; lia).
  - destruct Hz as [Hb Hexp].
    rewrite fround_number_of_f32 by done.
    rewrite !(toFloat32_finite z) by done.
    rewrite bits_of_bytes_of_bits by done. by rewrite toFloat32_finite.
  - eval_pows. rewrite bits_of_bytes_of_integer, Hint by lia.
    by rewrite Z.mod_small by (simpl; lia).
  - eval_pows. rewrite bits_of_bytes_of_integer, Hint by lia.
    by rewrite Hsigned by (simpl; lia).
  - eval_pows. rewrite bits_of_bytes_of_integer, Hint by lia.
    by rewrite Z.mod_small by (simpl; lia).
  - eval_pows. rewrite bits_of_bytes_of_integer, Hint by lia.
    by rewrite Hsigned by (simpl; lia).
  - eval_pows. rewrite bits_of_bytes_of_integer, Hint by lia.
    by rewrite Z.mod_small by (simpl; lia).
  - eval_pows. rewrite bits_of_bytes_of_integer, Hint by lia.
    by rewrite Hsigned by (simpl; lia).
Qed.

(** ** The byte ranges of the properties *)

Section LayoutRegions.
Variable rank : nat.
Variable propertySpecs : list AnnotationPropertySpec.

Local Abbreviation size_at' := (size_at rank propertySpecs).

Local Abbreviation regions_inv' := (regions_inv rank propertySpecs).

Lemma size_at_nonneg i : 0 <= size_at' i.
Proof.
  unfold size_at. destruct (propertySpecs !! i) as [spec|]; simpl; [|lia].
  pose proof (handler_serializedBytes_pos (type spec) rank). lia.
Qed.

Lemma layout_step_regions st i :
  0 <= st.1 -> regions_inv' st.1 st.2 ->
  let st' := layout_step rank propertySpecs st i in
  st.1 <= st'.1 /\ regions_inv' st'.1 st'.2.
Proof.
  destruct st as [s offs]. simpl. intros Hs [Hin Hdis]. unfold layout_step.
  destruct (propertySpecs !! i) as [spec|] eqn:Hi; simpl; [|by split].
  pose proof (handler_alignment_pos (type spec) rank) as Ha.
  pose proof (handler_serializedBytes_pos (type spec) rank) as Hb.
  destruct (padTo_spec s _ Hs Ha) as [Hp _].
  assert (Hsize : size_at' i = handler_serializedBytes (type spec) rank)
    by (unfold size_at; by rewrite Hi).
  split; [lia|]. split.
  - intros j o Ho. destruct (decide (i = j)) as [->|Hne].
    + destruct (decide (j < length offs)%nat) as [Hlt|Hge].
      * rewrite list_lookup_insert_eq in Ho by done. simplify_eq. lia.
      * rewrite list_insert_ge in Ho by lia. apply Hin in Ho. lia.
    + rewrite list_lookup_insert_ne in Ho by done. apply Hin in Ho. lia.
  - intros j k oj ok Hjk Hj Hk.
    destruct (decide (i < length offs)%nat) as [Hlt|Hge].
    2:{ rewrite list_insert_ge in Hj, Hk by lia. by apply Hdis. }
    destruct (decide (i = j)) as [<-|Hnj]; destruct (decide (i = k)) as [<-|Hnk].
    + done.
    + rewrite list_lookup_insert_eq in Hj by done.
      rewrite list_lookup_insert_ne in Hk by done. simplify_eq.
      apply Hin in Hk. right. lia.
    + rewrite list_lookup_insert_eq in Hk by done.
      rewrite list_lookup_insert_ne in Hj by done. simplify_eq.
      apply Hin in Hj. left. lia.
    + rewrite list_lookup_insert_ne in Hj, Hk by done. by apply Hdis.
Qed.

Lemma layout_fold_regions l : forall st,
  0 <= st.1 -> regions_inv' st.1 st.2 ->
  let st' := foldl (layout_step rank propertySpecs) st l in
  st.1 <= st'.1 /\ regions_inv' st'.1 st'.2.
Proof.
  induction l as [|i l IH]; intros st Hs Hinv; simpl; [by split|].
  destruct (layout_step_regions st i Hs Hinv) as [Hle Hinv'].
  cbv zeta in Hle, Hinv'.
  destruct (IH (layout_step rank propertySpecs st i) ltac:(lia) Hinv') as [Hle' Hinv2].
  split; [|done]. cbv zeta in Hle'. lia.
Qed.

(** In the result of [getPropertyOffsets] every property has a range of
    bytes inside [serializedBytes], and the ranges are pairwise disjoint. *)
Lemma layout_regions :
  let result := getPropertyOffsets rank propertySpecs in
  (forall i spec, propertySpecs !! i = Some spec ->
     exists o, po_offsets result !! i = Some (Some o) /\ 0 <= o
               /\ o + handler_serializedBytes (type spec) rank <= po_serializedBytes result)
  /\ (forall i j si sj oi oj, i <> j ->
        propertySpecs !! i = Some si -> propertySpecs !! j = Some sj ->
        po_offsets result !! i = Some (Some oi) -> po_offsets result !! j = Some (Some oj) ->
        oi + handler_serializedBytes (type si) rank <= oj
        \/ oj + handler_serializedBytes (type sj) rank <= oi).
Proof.
  intros result. subst result. unfold getPropertyOffsets.
  set (permutation := sort_permutation rank propertySpecs (seq 0 (length propertySpecs))).
  set (st0 := (0, replicate (length propertySpecs) (None : option Z))).
  destruct (layout_fold_inv rank propertySpecs permutation st0)
    as (Hs & _ & _ & _ & Has); [simpl; lia|apply length_replicate| |].
  { intros j spec' o _ Ho. apply lookup_replicate in Ho as [? _]. done. }
  destruct (layout_fold_regions permutation st0) as [_ [Hin Hdis]]; [simpl; lia| |].
  { split.
    - intros i o Ho. apply lookup_replicate in Ho as [? _]. done.
    - intros i j oi oj _ Ho. apply lookup_replicate in Ho as [? _]. done. }
  destruct (foldl _ st0 permutation) as [s offs] eqn:Hfold. cbn [fst snd] in *.
  destruct (padTo_spec s 4 Hs) as [Hpad _]; [lia|]. simpl. split.
  - intros i spec Hspec. pose proof (lookup_lt_Some _ _ _ Hspec) as Hlt.
    destruct (Has i) as [o Ho]; [|done|].
    { subst permutation. rewrite sort_permutation_perm. apply elem_of_seq. lia. }
    exists o. split; [done|]. destruct (Hin i o Ho) as [Ho0 Hend].
    unfold size_at in Hend. rewrite Hspec in Hend. simpl in Hend. lia.
  - intros i j si sj oi oj Hij Hsi Hsj Hoi Hoj.
    destruct (Hdis i j oi oj Hij Hoi Hoj) as [H|H]; unfold size_at in H;
      rewrite ?Hsi, ?Hsj in H; simpl in H; [by left|by right].
Qed.
End LayoutRegions.

(** X14. In the result of [getPropertyOffsets], the bytes of every
    property, from its offset on and as many as the handler of its type
    declares, lie inside [serializedBytes], and the bytes of two properties
    never overlap. *)
Theorem getPropertyOffsets_disjoint (rank : nat) (propertySpecs : list AnnotationPropertySpec) :
  let result := getPropertyOffsets rank propertySpecs in
  (forall i spec, propertySpecs !! i = Some spec ->
     exists o, po_offsets result !! i = Some (Some o) /\ 0 <= o
               /\ o + handler_serializedBytes (type spec) rank <= po_serializedBytes result)
  /\ (forall i j si sj oi oj, i <> j ->
        propertySpecs !! i = Some si -> propertySpecs !! j = Some sj ->
        po_offsets result !! i = Some (Some oi) -> po_offsets result !! j = Some (Some oj) ->
        oi + handler_serializedBytes (type si) rank <= oj
        \/ oj + handler_serializedBytes (type sj) rank <= oi).
Proof. apply layout_regions. Qed.

(** ** The generated serializer *)

Section GeneratedCodeFacts.
Variable rank : nat.
Variable propertySpecs : list AnnotationPropertySpec.
Variable offset : Z.
Variable isLittleEndian : bool.
Variable properties : list Number.

Local Abbreviation offsets := (po_offsets (getPropertyOffsets rank propertySpecs)).
Local Abbreviation total := (po_serializedBytes (getPropertyOffsets rank propertySpecs)).

Hypothesis offset_nonneg : 0 <= offset.

(** The byte [q] lies in the bytes that are written for the property [i]. *)
Local Abbreviation written_at q i :=
  (exists spec o, propertySpecs !! i = Some spec /\ offsets !! i = Some (Some o)
     /\ offset + o <= Z.of_nat q < offset + o + Z.of_nat (property_written (type spec))).

Lemma run_serializeCode_spec rest : forall k dv,
  (forall j spec, rest !! j = Some spec -> propertySpecs !! (k + j)%nat = Some spec) ->
  offset + total <= byteLength dv ->
  exists dv',
    run_serializeCode offsets rest k dv offset isLittleEndian properties = Ok dv'
    /\ length dv' = length dv
    /\ (forall q, (forall j, (j < length rest)%nat -> ~ written_at q (k + j)%nat) ->
          dv' !! q = dv !! q)
    /\ (forall j spec o, rest !! j = Some spec -> offsets !! (k + j)%nat = Some (Some o) ->
          read_bytes (Z.to_nat (offset + o)) (property_written (type spec)) dv'
          = property_bytes (type spec) isLittleEndian (properties !! (k + j)%nat)).
Proof.
  destruct (layout_regions rank propertySpecs) as [Hin Hdis]. cbv zeta in Hin, Hdis.
  induction rest as [|spec rest IH]; intros k dv Hrest Hlen.
  { exists dv. split_and!; done. }
  assert (Hk : propertySpecs !! k = Some spec).
  { specialize (Hrest 0%nat spec eq_refl). by rewrite Nat.add_0_r in Hrest. }
  destruct (Hin k spec Hk) as (o & Ho & Ho0 & Hoend).
  pose proof (property_written_le (type spec) rank) as Hw.
  cbn [run_serializeCode]. unfold offsetExpr. rewrite Ho.
  rewrite serializeCode_writes by lia.
  cbn [mbind Outcome_bind].
  set (bytes := property_bytes (type spec) isLittleEndian (properties !! k)).
  assert (Hbytes : length bytes = property_written (type spec))
    by apply length_property_bytes.
  assert (Hfit : (Z.to_nat (offset + o) + length bytes <= length dv)%nat)
    by (unfold byteLength in Hlen; lia).
  destruct (IH (S k) (write_bytes (Z.to_nat (offset + o)) bytes dv))
    as (dv' & Hrun & Hlen' & Hframe & Hcontent).
  { intros j spec' Hj. replace (S k + j)%nat with (k + S j)%nat by lia. by apply Hrest. }
  { unfold byteLength in *. rewrite length_write_bytes; lia. }
  exists dv'. split; [done|]. split; [by rewrite Hlen', length_write_bytes|]. split.
  - intros q Hq. rewrite Hframe.
    + rewrite write_bytes_lookup by done. rewrite decide_False; [done|].
      intros Hin_k. apply (Hq 0%nat); [simpl; lia|].
      exists spec, o. rewrite Nat.add_0_r. split_and!; try done; lia.
    + intros j Hj. replace (S k + j)%nat with (k + S j)%nat by lia. apply Hq. simpl. lia.
  - intros j spec' o' Hj Ho'. destruct j as [|j].
    + rewrite Nat.add_0_r in Ho'. simpl in Hj.
      assert (spec' = spec) as -> by congruence. assert (o' = o) as -> by congruence.
      rewrite Nat.add_0_r. fold bytes.
      transitivity (read_bytes (Z.to_nat (offset + o)) (length bytes)
                      (write_bytes (Z.to_nat (offset + o)) bytes dv));
        [|by apply read_bytes_write_bytes].
      rewrite Hbytes. apply read_bytes_ext. intros i Hi. apply Hframe.
      intros j Hj' (spec2 & o2 & Hspec2 & Ho2 & Hq).
      destruct (Hdis k (S k + j)%nat spec spec2 o o2 ltac:(lia) Hk Hspec2 Ho Ho2) as [H|H].
      * lia.
      * pose proof (property_written_le (type spec2) rank). lia.
    + replace (k + S j)%nat with (S k + j)%nat in * by lia. by apply Hcontent.
Qed.

Lemma array_assign_spec k x (acc : list Number) :
  (k <= length acc)%nat -> array_assign k x acc = take k acc ++ [x] ++ drop (S k) acc.
Proof.
  intros Hk. unfold array_assign. destruct (decide (k < length acc)%nat) as [Hlt|Hge].
  - apply list_eq. intros i.
    destruct (lt_eq_lt_dec i k) as [[Hi| ->]|Hi].
    + rewrite list_lookup_insert_ne by lia.
      rewrite lookup_app_l by (rewrite length_take; lia). by rewrite lookup_take_lt.
    + rewrite list_lookup_insert_eq by done.
      rewrite lookup_app_r by (rewrite length_take; lia).
      rewrite length_take. replace (k - k `min` length acc)%nat with 0%nat by lia. done.
    + rewrite list_lookup_insert_ne by lia.
      rewrite lookup_app_r by (rewrite length_take; lia). rewrite length_take.
      replace (i - k `min` length acc)%nat with (S (i - S k)) by lia. simpl.
      rewrite lookup_drop. f_equal. lia.
  - replace (k - length acc)%nat with 0%nat by lia. simpl.
    rewrite take_ge, drop_ge by lia. done.
Qed.

Lemma run_deserializeCode_spec dv rest : forall k acc,
  (forall j spec, rest !! j = Some spec -> propertySpecs !! (k + j)%nat = Some spec) ->
  offset + total <= byteLength dv ->
  (forall j spec o, rest !! j = Some spec -> offsets !! (k + j)%nat = Some (Some o) ->
     read_bytes (Z.to_nat (offset + o)) (property_written (type spec)) dv
     = property_bytes (type spec) isLittleEndian (properties !! (k + j)%nat)) ->
  (forall j spec, rest !! j = Some spec ->
     exists p, properties !! (k + j)%nat = Some p /\ property_value (type spec) p) ->
  length properties = (k + length rest)%nat ->
  (k <= length acc)%nat ->
  run_deserializeCode offsets rest k dv offset isLittleEndian acc
  = Ok (take k acc ++ drop k properties ++ drop (k + length rest) acc).
Proof.
  destruct (layout_regions rank propertySpecs) as [Hin _]. cbv zeta in Hin.
  induction rest as [|spec rest IH]; intros k acc Hrest Hlen Hcontent Hvalues Hprops Hacc.
  { simpl. rewrite Nat.add_0_r in *. rewrite drop_ge by lia. simpl. by rewrite take_drop. }
  assert (Hk : propertySpecs !! k = Some spec).
  { specialize (Hrest 0%nat spec eq_refl). by rewrite Nat.add_0_r in Hrest. }
  destruct (Hin k spec Hk) as (o & Ho & Ho0 & Hoend).
  pose proof (property_written_le (type spec) rank) as Hw.
  destruct (Hvalues 0%nat spec eq_refl) as (p & Hp & Hvalue). rewrite Nat.add_0_r in Hp.
  cbn [run_deserializeCode]. unfold offsetExpr. rewrite Ho.
  rewrite deserializeCode_reads by lia.
  rewrite (Hcontent 0%nat spec o eq_refl) by (by rewrite Nat.add_0_r).
  rewrite Nat.add_0_r, Hp, property_roundtrip_bytes by done.
  cbn [mbind Outcome_bind].
  rewrite IH.
  - f_equal. rewrite array_assign_spec by done.
    rewrite (drop_S properties p k Hp). cbn [length].
    assert (Hl : length (take k acc ++ [p]) = S k)
      by (rewrite length_app, length_take; simpl; lia).
    rewrite (app_assoc (take k acc) [p]).
    rewrite take_app_length' by done.
    rewrite drop_app_ge by lia. rewrite Hl, drop_drop.
    rewrite <- !app_assoc. simpl. do 4 f_equal. lia.
  - intros j spec' Hj. replace (S k + j)%nat with (k + S j)%nat by lia. by apply Hrest.
  - done.
  - intros j spec' o' Hj Ho'. replace (S k + j)%nat with (k + S j)%nat in * by lia.
    by apply (Hcontent (S j)).
  - intros j spec' Hj. replace (S k + j)%nat with (k + S j)%nat by lia.
    by apply (Hvalues (S j)).
  - simpl in Hprops. lia.
  - rewrite array_assign_spec by done. rewrite !length_app, length_take. simpl. lia.
Qed.
End GeneratedCodeFacts.

Lemma new_serializer_writes rank propertySpecs buffer offset isLittleEndian properties :
  0 <= offset ->
  offset + ps_serializedBytes (new_AnnotationPropertySerializer rank propertySpecs)
  <= byteLength buffer ->
  exists buffer',
    ps_serialize (new_AnnotationPropertySerializer rank propertySpecs) buffer offset
      isLittleEndian properties = Ok buffer'
    /\ byteLength buffer' = byteLength buffer
    /\ (forall q,
          Z.of_nat q < offset
          \/ offset + ps_serializedBytes (new_AnnotationPropertySerializer rank propertySpecs)
             <= Z.of_nat q ->
          buffer' !! q = buffer !! q)
    /\ (forall i spec o, propertySpecs !! i = Some spec ->
          po_offsets (getPropertyOffsets rank propertySpecs) !! i = Some (Some o) ->
          read_bytes (Z.to_nat (offset + o)) (property_written (type spec)) buffer'
          = property_bytes (type spec) isLittleEndian (properties !! i)).
Proof.
  intros Hoff Hlen. unfold new_AnnotationPropertySerializer in *.
  destruct (decide (length propertySpecs = 0%nat)) as [Hnil|Hcons].
  { exists buffer. simpl. split_and!; try done.
    intros i spec o Hi. apply lookup_lt_Some in Hi. lia. }
  cbn [ps_serializedBytes ps_serialize] in *.
  destruct (run_serializeCode_spec rank propertySpecs offset isLittleEndian properties Hoff
              propertySpecs 0 buffer) as (buffer' & Hrun & Hlen' & Hframe & Hcontent);
    [done|done|].
  exists buffer'. split; [done|]. split; [unfold byteLength; by rewrite Hlen'|]. split.
  - intros q Hq. apply Hframe. intros j Hj (spec & o & Hspec & Ho & Hin).
    destruct (layout_regions rank propertySpecs) as [Hregion _]. cbv zeta in Hregion.
    destruct (Hregion (0 + j)%nat spec Hspec) as (o' & Ho' & Ho0 & Hend).
    assert (o' = o) as -> by congruence.
    pose proof (property_written_le (type spec) rank). lia.
  - intros i spec o Hi Ho. by apply (Hcontent i spec o).
Qed.

(** X15. The serializer that the constructor generates for a schema never
    throws when the bytes of the properties, [serializedBytes] of them from
    [offset] on, lie inside the buffer, and it writes inside these bytes
    only: the buffer keeps its length and every byte outside of them. *)
Theorem property_serializer_in_slot (rank : nat) (propertySpecs : list AnnotationPropertySpec)
    (buffer : DataView) (offset : Z) (isLittleEndian : bool) (properties : list Number) :
  0 <= offset ->
  offset + ps_serializedBytes (new_AnnotationPropertySerializer rank propertySpecs)
  <= byteLength buffer ->
  exists buffer',
    ps_serialize (new_AnnotationPropertySerializer rank propertySpecs) buffer offset
      isLittleEndian properties = Ok buffer'
    /\ byteLength buffer' = byteLength buffer
    /\ (forall q,
          Z.of_nat q < offset
          \/ offset + ps_serializedBytes (new_AnnotationPropertySerializer rank propertySpecs)
             <= Z.of_nat q ->
          buffer' !! q = buffer !! q).
Proof.
  intros Hoff Hlen.
  destruct (new_serializer_writes rank propertySpecs buffer offset isLittleEndian properties
              Hoff Hlen) as (buffer' & Hrun & Hlen' & Hframe & _).
  by exists buffer'.
Qed.

Lemma property_serializer_in_slot_witness :
  exists buffer',
    ps_serialize (new_AnnotationPropertySerializer 3 example_schema) (new_DataView 20) 4
      false example_properties = Ok buffer'
    /\ byteLength buffer' = byteLength (new_DataView 20)
    /\ (forall q,
          Z.of_nat q < 4
          \/ 4 + ps_serializedBytes (new_AnnotationPropertySerializer 3 example_schema)
             <= Z.of_nat q ->
          buffer' !! q = new_DataView 20 !! q).
Proof.
  apply (property_serializer_in_slot 3 example_schema (new_DataView 20) 4 false
           example_properties).
  - lia.
  - vm_compute. discriminate.
Defined.

(** X16. Properties that hold values of their types (integers in the range
    of the type, 24 bits for [rgb]; finite binary32 values), written by the
    generated [serialize], are read back by the generated [deserialize] at
    the same offset and with the same endianness: it assigns them to the
    first elements of the array that it is given. *)
Theorem property_serializer_roundtrip (rank : nat)
    (propertySpecs : list AnnotationPropertySpec) (buffer : DataView) (offset : Z)
    (isLittleEndian : bool) (properties others : list Number) :
  0 <= offset ->
  offset + ps_serializedBytes (new_AnnotationPropertySerializer rank propertySpecs)
  <= byteLength buffer ->
  Forall2 (fun spec p => property_value (type spec) p) propertySpecs properties ->
  exists buffer',
    ps_serialize (new_AnnotationPropertySerializer rank propertySpecs) buffer offset
      isLittleEndian properties = Ok buffer'
    /\ ps_deserialize (new_AnnotationPropertySerializer rank propertySpecs) buffer' offset
         isLittleEndian others
       = Ok (properties ++ drop (length propertySpecs) others).
Proof.
  intros Hoff Hlen Hvalues.
  destruct (new_serializer_writes rank propertySpecs buffer offset isLittleEndian properties
              Hoff Hlen) as (buffer' & Hrun & Hlen' & _ & Hcontent).
  exists buffer'. split; [done|].
  pose proof (Forall2_length _ _ _ Hvalues) as Hlength.
  unfold new_AnnotationPropertySerializer in *.
  destruct (decide (length propertySpecs = 0%nat)) as [Hnil|Hcons].
  { simpl. rewrite Hnil in *. destruct properties; [|done]. by rewrite drop_0. }
  cbn [ps_serializedBytes ps_deserialize] in *.
  rewrite (run_deserializeCode_spec rank propertySpecs offset isLittleEndian properties Hoff
             buffer' propertySpecs 0 others).
  - rewrite take_0, drop_0. done.
  - done.
  - by rewrite Hlen'.
  - intros j spec o Hj Ho. by apply Hcontent.
  - intros j spec Hj. simpl.
    destruct (Forall2_lookup_l _ _ _ _ _ Hvalues Hj) as (p & Hp & Hvalue). by exists p.
  - simpl. lia.
  - lia.
Qed.

Lemma property_serializer_roundtrip_witness :
  exists buffer',
    ps_serialize (new_AnnotationPropertySerializer 3 example_schema) (new_DataView 20) 4
      false example_properties = Ok buffer'
    /\ ps_deserialize (new_AnnotationPropertySerializer 3 example_schema) buffer' 4 false []
       = Ok (example_properties ++ drop (length example_schema) []).
Proof.
  apply (property_serializer_roundtrip 3 example_schema (new_DataView 20) 4 false
           example_properties []).
  - lia.
  - vm_compute. discriminate.
  - repeat constructor; simpl.
    + exists 0x112233. split; [lia|reflexivity].
    + exists (-2). split; [lia|reflexivity].
    + exists 0x3FC00000. split; [|reflexivity]. split; [lia|]. vm_compute. discriminate.
    + exists 70000. split; [lia|reflexivity].
Defined.

(** ** The bytes of a geometry *)

Lemma length_vector_bytes le rank vec : length (vector_bytes le rank vec) = (4 * rank)%nat.
Proof. unfold vector_bytes. by rewrite length_encode_elements, length_fmap, length_seq. Qed.

Lemma length_geometry_bytes le rank g :
  Z.of_nat (length (geometry_bytes le rank g)) = geometry_serializedBytes (geometry_type g) rank.
Proof. destruct g; simpl; rewrite ?length_app, !length_vector_bytes; lia. Qed.

Lemma serializeFloatVector_writes le rank (vec : Float32Array) buf off :
  0 <= off -> off + 4 * Z.of_nat rank <= byteLength buf ->
  serializeFloatVector buf off le rank (Some vec)
  = Ok (write_bytes (Z.to_nat off) (vector_bytes le rank vec) buf, off + 4 * Z.of_nat rank).
Proof. intros Hoff Hlen. unfold serializeFloatVector. by apply serializeFloatVector_from_ok. Qed.

Lemma serializeTwoFloatVectors_writes le rank (vecA vecB : Float32Array) buf off :
  0 <= off -> off + 2 * 4 * Z.of_nat rank <= byteLength buf ->
  fst <$> serializeTwoFloatVectors buf off le rank (Some vecA) (Some vecB)
  = Ok (write_bytes (Z.to_nat off) (vector_bytes le rank vecA ++ vector_bytes le rank vecB) buf).
Proof.
  intros Hoff Hlen. unfold serializeTwoFloatVectors. unfold byteLength in Hlen.
  rewrite serializeFloatVector_writes by (unfold byteLength; lia).
  cbn [mbind Outcome_bind].
  rewrite serializeFloatVector_writes.
  - cbn [fmap Outcome_fmap fst]. f_equal.
    replace (Z.to_nat (off + 4 * Z.of_nat rank))
      with (Z.to_nat off + length (vector_bytes le rank vecA))%nat
      by (rewrite length_vector_bytes; lia).
    apply write_bytes_app. rewrite !length_vector_bytes. lia.
  - lia.
  - unfold byteLength. rewrite length_write_bytes; rewrite ?length_vector_bytes; lia.
Qed.

Lemma geometry_serialize_writes t buf off le rank annotation :
  annotation_type annotation = t ->
  0 <= off -> off + geometry_serializedBytes t rank <= byteLength buf ->
  geometry_serialize t buf off le rank annotation
  = Ok (write_bytes (Z.to_nat off) (geometry_bytes le rank (geometry annotation)) buf).
Proof.
  intros <- Hoff Hlen. unfold annotation_type in *.
  unfold geometry_serialize, get_point, get_pointA, get_pointB, get_center, get_radii.
  destruct (geometry annotation) as [point|pointA pointB|pointA pointB|center radii];
    simpl in *.
  - rewrite serializeFloatVector_writes by lia. done.
  - by apply serializeTwoFloatVectors_writes.
  - by apply serializeTwoFloatVectors_writes.
  - by apply serializeTwoFloatVectors_writes.
Qed.

Lemma vector_bytes_full le rank (vec : Float32Array) :
  length vec = rank -> vector_bytes le rank vec = encode_elements le (Some <$> vec).
Proof. intros <-. unfold vector_bytes. by rewrite lookups_seq. Qed.

Lemma geometry_deserialize_reads buf off le rank g i :
  0 <= off -> off + geometry_serializedBytes (geometry_type g) rank <= byteLength buf ->
  read_bytes (Z.to_nat off) (Z.to_nat (geometry_serializedBytes (geometry_type g) rank)) buf
  = geometry_bytes le rank g ->
  Forall (fun vec => length vec = rank /\ Forall f32_finite vec) (geometry_vectors g) ->
  geometry_deserialize (geometry_type g) buf off le rank i = Ok (deserialized g i).
Proof.
  intros Hoff Hlen Hread Hvec.
  assert (Htwo : forall vecA vecB : Float32Array,
    off + 2 * 4 * Z.of_nat rank <= byteLength buf ->
    read_bytes (Z.to_nat off) (Z.to_nat (2 * 4 * Z.of_nat rank)) buf
    = vector_bytes le rank vecA ++ vector_bytes le rank vecB ->
    length vecA = rank -> Forall f32_finite vecA ->
    length vecB = rank -> Forall f32_finite vecB ->
    deserializeTwoFloatVectors buf off le rank (new_Float32Array rank) (new_Float32Array rank)
    = Ok (vecA, vecB, off + 2 * 4 * Z.of_nat rank)).
  { intros vecA vecB Hl Hr HlA HfA HlB HfB.
    replace (Z.to_nat (2 * 4 * Z.of_nat rank)) with (4 * rank + 4 * rank)%nat in Hr by lia.
    rewrite read_bytes_split in Hr.
    apply app_inj_1 in Hr as [HrA HrB].
    2:{ rewrite length_vector_bytes. unfold read_bytes.
        rewrite length_take, length_drop. unfold byteLength in Hl. lia. }
    unfold deserializeTwoFloatVectors.
    rewrite (deserializeFloatVector_ok le rank vecA); try done; try lia.
    2:{ rewrite HrA. by apply vector_bytes_full. }
    cbn [mbind Outcome_bind].
    rewrite (deserializeFloatVector_ok le rank vecB); try done; try lia.
    - cbn [mbind Outcome_bind mret Outcome_ret]. do 2 f_equal. lia.
    - replace (Z.to_nat (off + 4 * Z.of_nat rank)) with (Z.to_nat off + 4 * rank)%nat by lia.
      rewrite HrB. by apply vector_bytes_full. }
  destruct g as [point|pointA pointB|pointA pointB|center radii]; simpl in *.
  - apply Forall_singleton in Hvec as [Hl Hf].
    rewrite (deserializeFloatVector_ok le rank point); try done; try lia.
    replace (4 * rank)%nat with (Z.to_nat (Z.of_nat rank * 4)) by lia.
    rewrite Hread. by apply vector_bytes_full.
  - apply Forall_cons in Hvec as [[HlA HfA] Hvec]. apply Forall_singleton in Hvec as [HlB HfB].
    by rewrite (Htwo pointA pointB).
  - apply Forall_cons in Hvec as [[HlA HfA] Hvec]. apply Forall_singleton in Hvec as [HlB HfB].
    by rewrite (Htwo pointA pointB).
  - apply Forall_cons in Hvec as [[HlA HfA] Hvec]. apply Forall_singleton in Hvec as [HlB HfB].
    by rewrite (Htwo center radii).
Qed.

(** ** The contents of the serialized annotations *)

Section SerializeContent.
Variable allAnnotations : AnnotationType -> list Annotation.
Variable propertySerializer : AnnotationPropertySerializer.
Variable isLittleEndian : bool.
(** What the bytes of the properties of one annotation hold after
    [serialize], as far as a user of the section tells. *)
Variable holds : Z -> list Number -> DataView -> Prop.

Local Abbreviation rank := (ps_rank propertySerializer).
Local Abbreviation propertyBytes := (ps_serializedBytes propertySerializer).
Local Abbreviation geometryBytes t := (geometry_serializedBytes t (ps_rank propertySerializer)).
Local Abbreviation stride t :=
  (geometry_serializedBytes t (ps_rank propertySerializer)
   + ps_serializedBytes propertySerializer).

Hypothesis annotations_typed :
  forall t annotation, annotation ∈ allAnnotations t -> annotation_type annotation = t.
Hypothesis serializedBytes_nonneg : 0 <= propertyBytes.
(** The generated routine writes inside the bytes of the properties. *)
Hypothesis serialize_in_slot :
  forall buffer offset properties,
    0 <= offset -> offset + propertyBytes <= byteLength buffer ->
    exists buffer',
      ps_serialize propertySerializer buffer offset isLittleEndian properties = Ok buffer'
      /\ byteLength buffer' = byteLength buffer
      /\ (forall q, Z.of_nat q < offset \/ offset + propertyBytes <= Z.of_nat q ->
            buffer' !! q = buffer !! q)
      /\ holds offset properties buffer'.
Hypothesis holds_local :
  forall offset properties buffer buffer',
    0 <= offset ->
    (forall q, offset <= Z.of_nat q < offset + propertyBytes -> buffer' !! q = buffer !! q) ->
    holds offset properties buffer -> holds offset properties buffer'.

Lemma geometryBytes_nonneg t : 0 <= geometryBytes t.
Proof. destruct t; simpl; lia. Qed.

Lemma serialize_annotations_content t annotations : forall dataView offset,
  (forall annotation, annotation ∈ annotations -> annotation_type annotation = t) ->
  0 <= offset ->
  offset + stride t * Z.of_nat (length annotations) <= byteLength dataView ->
  exists dataView',
    serialize_annotations propertySerializer isLittleEndian t annotations dataView offset
    = Ok dataView'
    /\ byteLength dataView' = byteLength dataView
    /\ (forall q, Z.of_nat q < offset
                  \/ offset + stride t * Z.of_nat (length annotations) <= Z.of_nat q ->
          dataView' !! q = dataView !! q)
    /\ (forall i annotation, annotations !! i = Some annotation ->
          read_bytes (Z.to_nat (offset + Z.of_nat i * stride t)) (Z.to_nat (geometryBytes t))
            dataView'
          = geometry_bytes isLittleEndian rank (geometry annotation)
          /\ holds (offset + Z.of_nat i * stride t + geometryBytes t) (properties annotation)
               dataView').
Proof.
  pose proof (geometryBytes_nonneg t) as Hg.
  induction annotations as [|a annotations IH]; intros dv off Htyped Hoff Hlen.
  { exists dv. split_and!; try done. }
  change (length (a :: annotations)) with (S (length annotations)) in *.
  assert (Ha : annotation_type a = t) by (apply Htyped; by left).
  cbn [serialize_annotations].
  rewrite (geometry_serialize_writes t) by (done || nia).
  cbn [mbind Outcome_bind].
  set (bytes := geometry_bytes isLittleEndian rank (geometry a)).
  assert (Hbytes : Z.of_nat (length bytes) = geometryBytes t).
  { subst bytes. rewrite length_geometry_bytes. rewrite <- Ha. by destruct a as [? ? ? ? []]. }
  set (dv1 := write_bytes (Z.to_nat off) bytes dv).
  assert (Hfit : (Z.to_nat off + length bytes <= length dv)%nat)
    by (unfold byteLength in Hlen; nia).
  assert (Hdv1 : byteLength dv1 = byteLength dv).
  { unfold byteLength. subst dv1. by rewrite length_write_bytes. }
  destruct (serialize_in_slot dv1 (off + geometryBytes t) (properties a))
    as (dv2 & -> & Hdv2 & Hframe2 & Hholds); [lia|rewrite Hdv1; nia|].
  cbn [mbind Outcome_bind].
  destruct (IH dv2 (off + geometryBytes t + propertyBytes))
    as (dv3 & -> & Hdv3 & Hframe3 & Hcontent).
  { intros b Hb. apply Htyped. by right. }
  { lia. }
  { rewrite Hdv2, Hdv1. nia. }
  exists dv3. split; [done|]. split; [lia|]. split.
  - intros q Hq. rewrite Hframe3 by nia. rewrite Hframe2 by nia.
    subst dv1. rewrite write_bytes_lookup by done. rewrite decide_False; [done|nia].
  - intros i annotation Hi. destruct i as [|i].
    + simpl in Hi. injection Hi as <-. rewrite Z.mul_0_l, !Z.add_0_r. split.
      * transitivity (read_bytes (Z.to_nat off) (length bytes) dv1).
        -- replace (Z.to_nat (geometryBytes t)) with (length bytes) by lia.
           apply read_bytes_ext. intros j Hj.
           rewrite Hframe3 by lia. rewrite Hframe2 by lia. done.
        -- subst dv1. by apply read_bytes_write_bytes.
      * apply (holds_local _ _ dv2); [lia| |done].
        intros q Hq. apply Hframe3. lia.
    + simpl in Hi. destruct (Hcontent i annotation Hi) as [Hread Hprops].
      replace (off + Z.of_nat (S i) * stride t)
        with (off + geometryBytes t + propertyBytes + Z.of_nat i * stride t) by lia.
      done.
Qed.

Local Abbreviation regions_apart' := (regions_apart allAnnotations propertySerializer).

Lemma serialize_types_content typeToOffset types : forall dataView typeToIds typeToIdMaps,
  NoDup types -> regions_apart' typeToOffset (byteLength dataView) types ->
  exists dataView' typeToIds' typeToIdMaps',
    serialize_types allAnnotations propertySerializer isLittleEndian types typeToOffset
      (dataView, typeToIds, typeToIdMaps)
    = Ok (dataView', typeToIds', typeToIdMaps')
    /\ byteLength dataView' = byteLength dataView
    /\ (forall t i annotation, t ∈ types -> allAnnotations t !! i = Some annotation ->
          read_bytes (Z.to_nat (typeToOffset t + Z.of_nat i * stride t))
            (Z.to_nat (geometryBytes t)) dataView'
          = geometry_bytes isLittleEndian rank (geometry annotation)
          /\ holds (typeToOffset t + Z.of_nat i * stride t + geometryBytes t)
               (properties annotation) dataView')
    /\ (forall q, (forall t, t ∈ types ->
                     Z.of_nat q < typeToOffset t
                     \/ typeToOffset t + stride t * Z.of_nat (length (allAnnotations t))
                        <= Z.of_nat q) ->
          dataView' !! q = dataView !! q).
Proof.
  induction types as [|t types IH]; intros dv ids maps Hnd [Hin Hapart].
  { exists dv, ids, maps. split_and!; try done. intros t i a Ht. by apply elem_of_nil in Ht. }
  apply NoDup_cons in Hnd as [Ht Hnd].
  cbn [serialize_types].
  destruct (Hin t) as [Hoff Hend]; [by left|].
  destruct (serialize_annotations_content t (allAnnotations t) dv (typeToOffset t))
    as (dv1 & -> & Hdv1 & Hframe1 & Hcontent1); [by apply annotations_typed|done|done|].
  cbn [mbind Outcome_bind].
  match goal with
  | |- context [serialize_types _ _ _ _ _ (dv1, ?i, ?m)] =>
      destruct (IH dv1 i m) as (dv2 & ids2 & maps2 & -> & Hdv2 & Hcontent2 & Hframe2)
  end.
  { done. }
  { rewrite Hdv1. split.
    - intros t' Ht'. apply Hin. by right.
    - intros t1 t2 H1 H2. apply Hapart; by right. }
  exists dv2, ids2, maps2. split; [done|]. split; [lia|]. split.
  - intros t' i a Ht' Hi. apply elem_of_cons in Ht' as [->|Ht'].
    + destruct (Hcontent1 i a Hi) as [Hread Hholds].
      pose proof (lookup_lt_Some _ _ _ Hi) as Hlt.
      pose proof (geometryBytes_nonneg t) as Hg.
      assert (Hslot : forall q,
        typeToOffset t + Z.of_nat i * stride t <= Z.of_nat q
          < typeToOffset t + Z.of_nat i * stride t + stride t ->
        dv2 !! q = dv1 !! q).
      { intros q Hq. apply Hframe2. intros t' Ht'.
        assert (t <> t') as Hne by (intros ->; done).
        assert (Z.of_nat i * stride t + stride t
                <= stride t * Z.of_nat (length (allAnnotations t))) by nia.
        assert (0 <= Z.of_nat i * stride t) by nia.
        destruct (Hapart t t') as [H'|H']; [by left|by right|done| |]; [left|right]; lia. }
      assert (0 <= Z.of_nat i * stride t) by nia.
      split.
      * rewrite <- Hread. apply read_bytes_ext. intros j Hj. apply Hslot. lia.
      * apply (holds_local _ _ dv1); [lia| |done]. intros q Hq. apply Hslot. lia.
    + by apply Hcontent2.
  - intros q Hq. rewrite Hframe2.
    + apply Hframe1. apply Hq. by left.
    + intros t' Ht'. apply Hq. by right.
Qed.

(** The offsets that the first loop of [serializeAnnotations] computes. *)
Lemma layout_types_spec :
  let '(totalBytes, typeToOffset) := layout_types allAnnotations propertySerializer in
  let end_of t := typeToOffset t + stride t * Z.of_nat (length (allAnnotations t)) in
  typeToOffset POINT = 0
  /\ typeToOffset LINE = end_of POINT + padTo (end_of POINT) 4
  /\ typeToOffset AXIS_ALIGNED_BOUNDING_BOX = end_of LINE + padTo (end_of LINE) 4
  /\ typeToOffset ELLIPSOID
     = end_of AXIS_ALIGNED_BOUNDING_BOX + padTo (end_of AXIS_ALIGNED_BOUNDING_BOX) 4
  /\ totalBytes = end_of ELLIPSOID + padTo (end_of ELLIPSOID) 4.
Proof.
  unfold layout_types, annotationTypes. cbn [foldl]. cbv beta iota zeta.
  unfold insert, fn_insert.
  repeat (first [rewrite decide_True by done | rewrite decide_False by done]).
  split_and!; done.
Qed.

Lemma layout_types_apart :
  let '(totalBytes, typeToOffset) := layout_types allAnnotations propertySerializer in
  0 <= totalBytes /\ totalBytes mod 4 = 0
  /\ (forall t, typeToOffset t mod 4 = 0)
  /\ regions_apart' typeToOffset totalBytes annotationTypes.
Proof.
  pose proof layout_types_spec as Hspec.
  destruct (layout_types allAnnotations propertySerializer) as [totalBytes typeToOffset].
  cbv zeta in Hspec. destruct Hspec as (H0 & H1 & H2 & H3 & H4).
  pose proof (geometryBytes_nonneg POINT). pose proof (geometryBytes_nonneg LINE).
  pose proof (geometryBytes_nonneg AXIS_ALIGNED_BOUNDING_BOX).
  pose proof (geometryBytes_nonneg ELLIPSOID).
  set (e0 := typeToOffset POINT
             + stride POINT * Z.of_nat (length (allAnnotations POINT))) in *.
  set (e1 := typeToOffset LINE + stride LINE * Z.of_nat (length (allAnnotations LINE))) in *.
  set (e2 := typeToOffset AXIS_ALIGNED_BOUNDING_BOX
             + stride AXIS_ALIGNED_BOUNDING_BOX
               * Z.of_nat (length (allAnnotations AXIS_ALIGNED_BOUNDING_BOX))) in *.
  set (e3 := typeToOffset ELLIPSOID
             + stride ELLIPSOID * Z.of_nat (length (allAnnotations ELLIPSOID))) in *.
  assert (He0 : 0 <= e0) by (subst e0; nia).
  destruct (padTo_spec e0 4 He0) as [Hp0 Hm0]; [lia|].
  assert (He1 : 0 <= e1) by (subst e1; nia).
  destruct (padTo_spec e1 4 He1) as [Hp1 Hm1]; [lia|].
  assert (He2 : 0 <= e2) by (subst e2; nia).
  destruct (padTo_spec e2 4 He2) as [Hp2 Hm2]; [lia|].
  assert (He3 : 0 <= e3) by (subst e3; nia).
  destruct (padTo_spec e3 4 He3) as [Hp3 Hm3]; [lia|].
  split; [lia|]. split; [by rewrite H4|]. split.
  - intros []; [by rewrite H0|by rewrite H1|by rewrite H2|by rewrite H3].
  - unfold regions_apart, annotationTypes. split.
    + intros [] _; fold e0 e1 e2 e3; lia.
    + intros [] [] _ _ Hne; try done; fold e0 e1 e2 e3; lia.
Qed.

Lemma serializeAnnotations_content :
  exists sa,
    serializeAnnotations allAnnotations propertySerializer isLittleEndian = Ok sa
    /\ byteLength (data sa) = (layout_types allAnnotations propertySerializer).1
    /\ typeToOffset sa = (layout_types allAnnotations propertySerializer).2
    /\ (forall t i annotation, allAnnotations t !! i = Some annotation ->
          0 <= typeToOffset sa t + Z.of_nat i * stride t
          /\ typeToOffset sa t + Z.of_nat i * stride t + stride t <= byteLength (data sa)
          /\ read_bytes (Z.to_nat (typeToOffset sa t + Z.of_nat i * stride t))
               (Z.to_nat (geometryBytes t)) (data sa)
             = geometry_bytes isLittleEndian rank (geometry annotation)
          /\ holds (typeToOffset sa t + Z.of_nat i * stride t + geometryBytes t)
               (properties annotation) (data sa)).
Proof.
  pose proof layout_types_apart as Hlayout.
  unfold serializeAnnotations.
  destruct (layout_types allAnnotations propertySerializer) as [totalBytes offs].
  destruct Hlayout as (Htotal & _ & _ & Hapart).
  assert (Hnew : byteLength (new_DataView totalBytes) = totalBytes).
  { unfold byteLength, new_DataView. rewrite length_replicate. lia. }
  destruct (serialize_types_content offs annotationTypes (new_DataView totalBytes)
              (fun _ => []) (fun _ => JsMap.empty))
    as (dv & ids & maps & Hrun & Hdv & Hcontent & _).
  { unfold annotationTypes. apply (bool_decide_unpack (NoDup _)). vm_compute. exact I. }
  { by rewrite Hnew. }
  rewrite Hrun. cbn [mbind Outcome_bind mret Outcome_ret].
  eexists. split; [done|]. cbn [data typeToOffset fst snd]. split; [lia|]. split; [done|].
  intros t i a Hi.
  assert (Ht : t ∈ annotationTypes) by (unfold annotationTypes; destruct t; set_solver).
  destruct (Hcontent t i a Ht Hi) as [Hread Hholds].
  destruct Hapart as [Hin _]. destruct (Hin t Ht) as [Hoff Hend].
  pose proof (lookup_lt_Some _ _ _ Hi) as Hlt.
  pose proof (geometryBytes_nonneg t) as Hg.
  split_and!; try done; nia.
Qed.
End SerializeContent.

(** ** The serialized annotations with the generated property serializer *)

Lemma new_serializer_rank rank propertySpecs :
  ps_rank (new_AnnotationPropertySerializer rank propertySpecs) = rank.
Proof. unfold new_AnnotationPropertySerializer. by destruct (decide _). Qed.

Lemma new_serializer_bytes_nonneg rank propertySpecs :
  0 <= ps_serializedBytes (new_AnnotationPropertySerializer rank propertySpecs).
Proof.
  unfold new_AnnotationPropertySerializer. destruct (decide _); simpl; [done|].
  rewrite getPropertyOffsets_serializedBytes.
  pose proof (declaredBytes_nonneg rank propertySpecs) as Hd.
  destruct (padTo_spec (declaredBytes rank propertySpecs) 4 Hd); lia.
Qed.

Lemma new_serializer_reads rank propertySpecs buffer offset isLittleEndian properties others :
  0 <= offset ->
  offset + ps_serializedBytes (new_AnnotationPropertySerializer rank propertySpecs)
  <= byteLength buffer ->
  properties_written rank propertySpecs isLittleEndian offset properties buffer ->
  Forall2 (fun spec p => property_value (type spec) p) propertySpecs properties ->
  ps_deserialize (new_AnnotationPropertySerializer rank propertySpecs) buffer offset
    isLittleEndian others
  = Ok (properties ++ drop (length propertySpecs) others).
Proof.
  intros Hoff Hlen Hcontent Hvalues.
  pose proof (Forall2_length _ _ _ Hvalues) as Hlength.
  unfold new_AnnotationPropertySerializer in *.
  destruct (decide (length propertySpecs = 0%nat)) as [Hnil|Hcons].
  { simpl. rewrite Hnil in *. destruct properties; [|done]. by rewrite drop_0. }
  cbn [ps_serializedBytes ps_deserialize] in *.
  rewrite (run_deserializeCode_spec rank propertySpecs offset isLittleEndian properties Hoff
             buffer propertySpecs 0 others).
  - rewrite take_0, drop_0. done.
  - done.
  - done.
  - intros j spec o Hj Ho. by apply Hcontent.
  - intros j spec Hj. simpl.
    destruct (Forall2_lookup_l _ _ _ _ _ Hvalues Hj) as (p & Hp & Hvalue). by exists p.
  - simpl. lia.
  - lia.
Qed.

Lemma properties_written_local rank propertySpecs isLittleEndian offset properties
    buffer buffer' :
  0 <= offset ->
  (forall q,
     offset <= Z.of_nat q
     < offset + ps_serializedBytes (new_AnnotationPropertySerializer rank propertySpecs) ->
     buffer' !! q = buffer !! q) ->
  properties_written rank propertySpecs isLittleEndian offset properties buffer ->
  properties_written rank propertySpecs isLittleEndian offset properties buffer'.
Proof.
  intros Hoff Hsame Hwritten i spec o Hi Ho.
  rewrite <- (Hwritten i spec o Hi Ho). apply read_bytes_ext. intros j Hj. apply Hsame.
  destruct (layout_regions rank propertySpecs) as [Hregion _]. cbv zeta in Hregion.
  destruct (Hregion i spec Hi) as (o' & Ho' & Ho0 & Hend).
  assert (o' = o) as -> by congruence.
  pose proof (property_written_le (type spec) rank).
  unfold new_AnnotationPropertySerializer.
  destruct (decide (length propertySpecs = 0%nat)) as [Hnil|Hcons].
  { apply lookup_lt_Some in Hi. lia. }
  simpl. lia.
Qed.

Lemma new_serializer_content rank propertySpecs allAnnotations isLittleEndian :
  (forall t annotation, annotation ∈ allAnnotations t -> annotation_type annotation = t) ->
  let propertySerializer := new_AnnotationPropertySerializer rank propertySpecs in
  exists sa,
    serializeAnnotations allAnnotations propertySerializer isLittleEndian = Ok sa
    /\ byteLength (data sa) = (layout_types allAnnotations propertySerializer).1
    /\ typeToOffset sa = (layout_types allAnnotations propertySerializer).2
    /\ (forall t i annotation, allAnnotations t !! i = Some annotation ->
          0 <= instance_offset propertySerializer sa t i
          /\ instance_offset propertySerializer sa t i
             + (geometry_serializedBytes t rank + ps_serializedBytes propertySerializer)
             <= byteLength (data sa)
          /\ read_bytes (Z.to_nat (instance_offset propertySerializer sa t i))
               (Z.to_nat (geometry_serializedBytes t rank)) (data sa)
             = geometry_bytes isLittleEndian rank (geometry annotation)
          /\ properties_written rank propertySpecs isLittleEndian
               (instance_offset propertySerializer sa t i + geometry_serializedBytes t rank)
               (properties annotation) (data sa)).
Proof.
  intros Htyped propertySerializer.
  destruct (serializeAnnotations_content allAnnotations propertySerializer isLittleEndian
              (properties_written rank propertySpecs isLittleEndian))
    as (sa & Hsa & Hlen & Hoffs & Hcontent).
  - done.
  - apply new_serializer_bytes_nonneg.
  - intros buffer offset properties Hoff Hend.
    by apply new_serializer_writes.
  - intros offset properties buffer buffer' Hoff Hsame.
    by apply properties_written_local.
  - exists sa. split; [done|]. split; [done|]. split; [done|].
    intros t i annotation Hi. specialize (Hcontent t i annotation Hi).
    unfold instance_offset. subst propertySerializer.
    by rewrite !new_serializer_rank in *.
Qed.

(** X17. [serializeAnnotations] with the serializer generated for a schema
    never throws on annotations that are listed under their own types. The
    bytes of the points start at offset 0, the offset of every type and the
    length of the buffer are multiples of 4, and the bytes of the types
    follow each other in the order point, line, bounding box, ellipsoid, each
    type starting less than 4 bytes after the end of the one before it and
    the buffer ending less than 4 bytes after the end of the ellipsoids. *)
Theorem serializeAnnotations_layout (rank : nat) (propertySpecs : list AnnotationPropertySpec)
    (allAnnotations : AnnotationType -> list Annotation) (isLittleEndian : bool) :
  (forall t annotation, annotation ∈ allAnnotations t -> annotation_type annotation = t) ->
  let propertySerializer := new_AnnotationPropertySerializer rank propertySpecs in
  let end_of := instances_end allAnnotations propertySerializer in
  exists sa,
    serializeAnnotations allAnnotations propertySerializer isLittleEndian = Ok sa
    /\ typeToOffset sa POINT = 0
    /\ (forall t, typeToOffset sa t mod 4 = 0)
    /\ byteLength (data sa) mod 4 = 0
    /\ end_of sa POINT <= typeToOffset sa LINE < end_of sa POINT + 4
    /\ end_of sa LINE <= typeToOffset sa AXIS_ALIGNED_BOUNDING_BOX < end_of sa LINE + 4
    /\ end_of sa AXIS_ALIGNED_BOUNDING_BOX <= typeToOffset sa ELLIPSOID
       < end_of sa AXIS_ALIGNED_BOUNDING_BOX + 4
    /\ end_of sa ELLIPSOID <= byteLength (data sa) < end_of sa ELLIPSOID + 4.
Proof.
  intros Htyped propertySerializer end_of.
  destruct (new_serializer_content rank propertySpecs allAnnotations isLittleEndian Htyped)
    as (sa & Hsa & Hlen & Hoffs & _).
  fold propertySerializer in Hsa, Hlen, Hoffs.
  exists sa. split; [done|].
  assert (Hbytes : 0 <= ps_serializedBytes propertySerializer)
    by apply new_serializer_bytes_nonneg.
  clearbody propertySerializer.
  pose proof (layout_types_spec allAnnotations propertySerializer) as Hspec.
  pose proof (layout_types_apart allAnnotations propertySerializer Hbytes) as Hapart.
  subst end_of. unfold instances_end, instance_offset. rewrite Hlen, Hoffs.
  destruct (layout_types allAnnotations propertySerializer) as [totalBytes offs].
  cbv zeta in Hspec. cbn [fst snd].
  destruct Hspec as (H0 & H1 & H2 & H3 & H4).
  destruct Hapart as (_ & Hmod & Hmods & Hin & _).
  assert (Hpad : forall e, 0 <= e -> 0 <= padTo e 4 < 4).
  { intros e He. destruct (padTo_spec e 4 He); lia. }
  assert (Hends : forall t,
    0 <= offs t + Z.of_nat (length (allAnnotations t))
                  * (geometry_serializedBytes t (ps_rank propertySerializer)
                     + ps_serializedBytes propertySerializer)).
  { intros t. destruct (Hin t) as [Ht _]; [unfold annotationTypes; destruct t; set_solver|].
    pose proof (geometryBytes_nonneg propertySerializer t). nia. }
  split; [done|]. split; [done|]. split; [done|].
  pose proof (Hpad _ (Hends POINT)). pose proof (Hpad _ (Hends LINE)).
  pose proof (Hpad _ (Hends AXIS_ALIGNED_BOUNDING_BOX)). pose proof (Hpad _ (Hends ELLIPSOID)).
  rewrite H1 at 1 2. rewrite H2 at 1 2. rewrite H3 at 1 2. rewrite H4 at 1 2.
  rewrite !(Z.mul_comm (geometry_serializedBytes _ _ + _)).
  split_and!; lia.
Qed.

Lemma example_annotations_with_properties_typed t annotation :
  annotation ∈ example_annotations_with_properties t -> annotation_type annotation = t.
Proof.
  destruct t; simpl; intros Ha.
  - by apply list_elem_of_singleton in Ha as ->.
  - by apply elem_of_nil in Ha.
  - by apply elem_of_nil in Ha.
  - by apply list_elem_of_singleton in Ha as ->.
Qed.

Lemma serializeAnnotations_layout_witness :
  exists sa,
    serializeAnnotations example_annotations_with_properties example_propertySerializer false
    = Ok sa
    /\ typeToOffset sa POINT = 0
    /\ (forall t, typeToOffset sa t mod 4 = 0)
    /\ byteLength (data sa) mod 4 = 0
    /\ instances_end example_annotations_with_properties example_propertySerializer sa POINT
       <= typeToOffset sa LINE
       < instances_end example_annotations_with_properties example_propertySerializer sa POINT
         + 4
    /\ instances_end example_annotations_with_properties example_propertySerializer sa LINE
       <= typeToOffset sa AXIS_ALIGNED_BOUNDING_BOX
       < instances_end example_annotations_with_properties example_propertySerializer sa LINE
         + 4
    /\ instances_end example_annotations_with_properties example_propertySerializer sa
         AXIS_ALIGNED_BOUNDING_BOX
       <= typeToOffset sa ELLIPSOID
       < instances_end example_annotations_with_properties example_propertySerializer sa
           AXIS_ALIGNED_BOUNDING_BOX + 4
    /\ instances_end example_annotations_with_properties example_propertySerializer sa
         ELLIPSOID
       <= byteLength (data sa)
       < instances_end example_annotations_with_properties example_propertySerializer sa
           ELLIPSOID + 4.
Proof.
  apply (serializeAnnotations_layout 3 example_schema example_annotations_with_properties
           false).
  apply example_annotations_with_properties_typed.
Defined.

(** X18. What [serializeAnnotations] writes with the serializer generated
    for a schema can be read back: for the annotation at index [i] of the
    type [t], the geometry handler of [t] reads, at the offset of the type
    plus [i] strides, the geometry and the id of the annotation (when its
    vectors have [rank] finite coordinates), and the generated [deserialize]
    reads, right after the bytes of the geometry, its properties (when they
    hold values of their types). *)
Theorem serializeAnnotations_roundtrip (rank : nat)
    (propertySpecs : list AnnotationPropertySpec)
    (allAnnotations : AnnotationType -> list Annotation) (isLittleEndian : bool) :
  (forall t annotation, annotation ∈ allAnnotations t -> annotation_type annotation = t) ->
  let propertySerializer := new_AnnotationPropertySerializer rank propertySpecs in
  exists sa,
    serializeAnnotations allAnnotations propertySerializer isLittleEndian = Ok sa
    /\ forall t i annotation, allAnnotations t !! i = Some annotation ->
         let offset := instance_offset propertySerializer sa t i in
         (Forall (fun vec => length vec = rank /\ Forall f32_finite vec)
            (geometry_vectors (geometry annotation)) ->
          geometry_deserialize t (data sa) offset isLittleEndian rank (id annotation)
          = Ok (deserialized (geometry annotation) (id annotation)))
         /\ (Forall2 (fun spec p => property_value (type spec) p) propertySpecs
               (properties annotation) ->
             ps_deserialize propertySerializer (data sa)
               (offset + geometry_serializedBytes t rank) isLittleEndian []
             = Ok (properties annotation)).
Proof.
  intros Htyped propertySerializer.
  destruct (new_serializer_content rank propertySpecs allAnnotations isLittleEndian Htyped)
    as (sa & Hsa & _ & _ & Hcontent).
  exists sa. split; [done|]. intros t i annotation Hi offset.
  destruct (Hcontent t i annotation Hi) as (Hoff & Hend & Hread & Hwritten).
  fold propertySerializer in Hoff, Hend, Hread, Hwritten. fold offset in Hoff, Hend, Hread, Hwritten.
  assert (Ht : geometry_type (geometry annotation) = t).
  { rewrite <- (Htyped t annotation) by by eapply list_elem_of_lookup_2. done. }
  pose proof (new_serializer_bytes_nonneg rank propertySpecs) as Hbytes.
  fold propertySerializer in Hbytes.
  assert (Hg : 0 <= geometry_serializedBytes t rank) by (destruct t; simpl; lia).
  split.
  - intros Hvec. rewrite <- Ht. apply geometry_deserialize_reads; rewrite ?Ht; try done.
    all: lia.
  - intros Hvalues.
    rewrite (new_serializer_reads rank propertySpecs (data sa) _ isLittleEndian
               (properties annotation) []); try done; try lia.
    + by rewrite drop_nil, app_nil_r.
    + fold propertySerializer. lia.
Qed.

Lemma example_properties_values :
  Forall2 (fun spec p => property_value (type spec) p) example_schema example_properties.
Proof.
  repeat constructor; simpl.
  - exists 0x112233. split; [lia|reflexivity].
  - exists (-2). split; [lia|reflexivity].
  - exists 0x3FC00000. split; [|reflexivity]. split; [lia|]. vm_compute. discriminate.
  - exists 70000. split; [lia|reflexivity].
Defined.

Lemma serializeAnnotations_roundtrip_witness :
  exists sa,
    serializeAnnotations example_annotations_with_properties example_propertySerializer false
    = Ok sa
    /\ geometry_deserialize ELLIPSOID (data sa)
         (instance_offset example_propertySerializer sa ELLIPSOID 0) false 3 "e"
       = Ok (deserialized (EllipsoidGeometry [0x3F800000; 0x40000000; 0x40400000]
                             [0x3F800000; 0x3F800000; 0x40000000]) "e")
    /\ ps_deserialize example_propertySerializer (data sa)
         (instance_offset example_propertySerializer sa ELLIPSOID 0
          + geometry_serializedBytes ELLIPSOID 3) false []
       = Ok example_properties.
Proof.
  destruct (serializeAnnotations_roundtrip 3 example_schema
              example_annotations_with_properties false
              example_annotations_with_properties_typed) as (sa & Hsa & Hall).
  exists sa. split; [exact Hsa|].
  destruct (Hall ELLIPSOID 0%nat _ eq_refl) as [Hgeometry Hproperties]. split.
  - apply Hgeometry. repeat constructor; vm_compute; discriminate.
  - apply Hproperties. exact example_properties_values.
Defined.

(** ** The index of the ids *)

Lemma of_entries_snoc {V} (entries : list (string * V)) k v :
  JsMap.of_entries (entries ++ [(k, v)]) = JsMap.set k v (JsMap.of_entries entries).
Proof. unfold JsMap.of_entries. by rewrite foldl_app. Qed.

Lemma id_map_last_index (annotations : list Annotation) k :
  match JsMap.get k (JsMap.of_entries (imap (fun i x => (id x, Z.of_nat i)) annotations)) with
  | Some j =>
      0 <= j /\ (id <$> annotations) !! Z.to_nat j = Some k
      /\ forall i, (Z.to_nat j < i)%nat -> (id <$> annotations) !! i <> Some k
  | None => k ∉ id <$> annotations
  end.
Proof.
  induction annotations as [|x l IH] using rev_ind.
  { simpl. apply not_elem_of_nil. }
  rewrite imap_app. cbn [imap]. rewrite Nat.add_0_r, of_entries_snoc, fmap_app.
  cbn [fmap list_fmap].
  destruct (decide (id x = k)) as [<-|Hne].
  - rewrite JsMap_get_set_eq. split; [lia|]. rewrite Nat2Z.id. split.
    + rewrite lookup_app_r by (rewrite length_fmap; lia).
      by rewrite length_fmap, Nat.sub_diag.
    + intros i Hi. rewrite lookup_ge_None_2; [done|].
      rewrite length_app, length_fmap. simpl. lia.
  - rewrite JsMap_get_set_ne by done.
    destruct (JsMap.get k _) as [j|].
    + destruct IH as (Hj & Hlookup & Hlast).
      pose proof (lookup_lt_Some _ _ _ Hlookup) as Hlt. rewrite length_fmap in Hlt.
      split; [done|]. split.
      * by rewrite lookup_app_l by (rewrite length_fmap; lia).
      * intros i Hi. destruct (decide (i < length l)%nat) as [Hil|Hil].
        { rewrite lookup_app_l by (rewrite length_fmap; lia). by apply Hlast. }
        rewrite lookup_app_r by (rewrite length_fmap; lia). rewrite length_fmap.
        destruct (i - length l)%nat as [|n]; simpl; [congruence|done].
    + rewrite elem_of_app, list_elem_of_singleton. intros [Hin|Heq]; [done|congruence].
Qed.

(** X19. The maps of ids that [serializeAnnotations] returns invert the
    lists of ids: the map of a type yields for an id the last index at
    which [typeToIds] of this type holds the id, and it has no entry for an
    id exactly when the list does not hold it. *)
Theorem serializeAnnotations_id_index (allAnnotations : AnnotationType -> list Annotation)
    (propertySerializer : AnnotationPropertySerializer) (isLittleEndian : bool)
    (sa : SerializedAnnotations) :
  serializeAnnotations allAnnotations propertySerializer isLittleEndian = Ok sa ->
  forall t k,
    (forall j, JsMap.get k (typeToIdMaps sa t) = Some j <->
       0 <= j /\ typeToIds sa t !! Z.to_nat j = Some k
       /\ forall i, (Z.to_nat j < i)%nat -> typeToIds sa t !! i <> Some k)
    /\ (JsMap.get k (typeToIdMaps sa t) = None <-> k ∉ typeToIds sa t).
Proof.
  intros Hsa t k.
  destruct (serializeAnnotations_fields _ _ _ _ Hsa t) as (-> & -> & _).
  pose proof (id_map_last_index (allAnnotations t) k) as Hget.
  destruct (JsMap.get k _) as [j'|]; split.
  - intros j. split.
    + by intros [= <-].
    + intros (Hj & Hlookup & Hlast). destruct Hget as (Hj' & Hlookup' & Hlast').
      f_equal. destruct (Z.lt_trichotomy j' j) as [Hlt|[Heq|Hgt]]; [|done|].
      * by destruct (Hlast' (Z.to_nat j) ltac:(lia)).
      * by destruct (Hlast (Z.to_nat j') ltac:(lia)).
  - split; [done|]. destruct Hget as (_ & Hlookup & _).
    intros Hnot. destruct Hnot. by eapply list_elem_of_lookup_2.
  - intros j. split; [done|]. intros (_ & Hlookup & _).
    destruct Hget. by eapply list_elem_of_lookup_2.
  - done.
Qed.

Lemma serializeAnnotations_id_index_witness :
  (forall j, JsMap.get "b" (typeToIdMaps example_serialized POINT) = Some j <->
     0 <= j /\ typeToIds example_serialized POINT !! Z.to_nat j = Some "b"
     /\ forall i, (Z.to_nat j < i)%nat -> typeToIds example_serialized POINT !! i <> Some "b")
  /\ (JsMap.get "b" (typeToIdMaps example_serialized POINT) = None
      <-> "b" ∉ typeToIds example_serialized POINT).
Proof.
  apply (serializeAnnotations_id_index example_annotations (empty_AnnotationPropertySerializer 2)
           true example_serialized).
  reflexivity.
Defined.

(** ** The JSON form of an annotation is restored *)

Lemma parse_decimal_pretty_go (x : N) : forall s,
  parse_decimal 0 (pretty_N_go x s) = parse_decimal x s.
Proof.
  induction (N.lt_wf_0 x) as [x _ IH]. intros s.
  destruct (decide (x = 0)%N) as [->|Hx]; [by rewrite pretty_N_go_0|].
  rewrite pretty_N_go_step by lia. rewrite IH by (apply N.div_lt; lia).
  cbn [parse_decimal].
  assert (Hdigit : digit_value (pretty_N_char (x `mod` 10)) = Some (x `mod` 10)%N).
  { pose proof (N.mod_upper_bound x 10 ltac:(lia)) as Hlt.
    generalize dependent (x `mod` 10)%N. intros d Hd.
    assert (d = 0 \/ d = 1 \/ d = 2 \/ d = 3 \/ d = 4 \/ d = 5 \/ d = 6 \/ d = 7 \/ d = 8
            \/ d = 9)%N as Hcases by lia.
    repeat (destruct Hcases as [->|Hcases]; [reflexivity|]). by subst. }
  rewrite Hdigit. cbn [mbind option_bind]. f_equal.
  pose proof (N.div_mod x 10 ltac:(lia)). lia.
Qed.

Lemma pretty_go_nonempty (x : N) : forall c s, exists c' s',
  pretty_N_go x (String c s) = String c' s'.
Proof.
  induction (N.lt_wf_0 x) as [x _ IH]. intros c s.
  destruct (decide (x = 0)%N) as [->|Hx]; [rewrite pretty_N_go_0; eauto|].
  rewrite pretty_N_go_step by lia. apply IH. apply N.div_lt; lia.
Qed.

Lemma Uint64_parseString_toString (x : N) :
  (x < 2 ^ 64)%N -> Uint64_parseString (Some (JString (Uint64_toString x))) = Ok x.
Proof.
  intros Hx. unfold Uint64_parseString, Uint64_toString, pretty, pretty_N.
  destruct (decide (x = 0)%N) as [->|Hne]; [done|].
  pose proof (parse_decimal_pretty_go x "") as Hparse. cbn [parse_decimal] in Hparse.
  rewrite pretty_N_go_step in Hparse |- * by lia.
  destruct (pretty_go_nonempty (x `div` 10) (pretty_N_char (x `mod` 10)) "") as (c & s & Hs).
  rewrite Hs in Hparse |- *. rewrite Hparse.
  by rewrite (proj2 (N.ltb_lt _ _) Hx).
Qed.

Lemma mapM_Ok {A B} (f : A -> Outcome B) (l : list A) (k : list B) :
  Forall2 (fun x y => f x = Ok y) l k -> mapM f l = Ok k.
Proof.
  induction 1 as [|x y l k Hxy _ IH]; [done|].
  cbn [mapM]. rewrite Hxy. cbn [mbind Outcome_bind]. rewrite IH. done.
Qed.

Lemma parse_vector rank name (members : list (string * Json)) (vec : Float32Array)
    (verify : option Json -> Outcome Number) :
  member name members = Some (json_of_vector vec) ->
  length vec = rank ->
  Forall (fun b => verify (Some (JNumber (number_of_f32 b))) = Ok (number_of_f32 b)) vec ->
  Forall f32_finite vec ->
  verifyObjectProperty members name (fun x => parseFixedLengthArray rank x verify) = Ok vec.
Proof.
  intros Hmember Hlen Hverify Hfinite. unfold verifyObjectProperty. rewrite Hmember.
  unfold json_of_vector, parseFixedLengthArray.
  rewrite decide_True by (by rewrite !length_fmap).
  rewrite (mapM_Ok _ _ (number_of_f32 <$> vec)).
  - cbn [fmap Outcome_fmap]. f_equal. rewrite <- list_fmap_compose.
    rewrite <- (list_fmap_id vec) at 2. apply Forall_fmap_ext_1.
    eapply Forall_impl; [exact Hfinite|]. intros b Hb. by apply fround_number_of_f32.
  - rewrite <- list_fmap_compose. apply Forall2_fmap_l, Forall2_fmap_r.
    apply Forall_Forall2_diag. exact Hverify.
Qed.

Lemma verifyFiniteFloat_f32 b :
  f32_finite b -> verifyFiniteFloat (Some (JNumber (number_of_f32 b))) = Ok (number_of_f32 b).
Proof. intros Hb. unfold verifyFiniteFloat. by rewrite number_of_f32_isFinite. Qed.

Lemma verifyFiniteNonNegativeFloat_f32 b :
  f32_finite b -> b = 2 ^ 31 \/ b < 2 ^ 31 ->
  verifyFiniteNonNegativeFloat (Some (JNumber (number_of_f32 b))) = Ok (number_of_f32 b).
Proof.
  intros Hb Hpos. unfold verifyFiniteNonNegativeFloat. rewrite verifyFiniteFloat_f32 by done.
  cbn [mbind Outcome_bind]. by rewrite (proj2 (number_of_f32_nonNegative b Hb) Hpos).
Qed.

Lemma verifyObjectProperty_Ok {T} members name (validator : option Json -> Outcome T) v :
  validator (member name members) = Ok v ->
  verifyObjectProperty members name validator = Ok v.
Proof. intros H. unfold verifyObjectProperty. by rewrite H. Qed.

Lemma verifyEnumString_name t :
  verifyEnumString
    (Some (JString (string_map ascii_toLowerCase (AnnotationType_name t)))) = Ok t.
Proof. by destruct t. Qed.

Lemma members_lookup g t i od os op :
  let members :=
    geometry_toJSON g ++ [("type", t); ("id", i)] ++ optional_member "description" od
    ++ optional_member "segments" os ++ optional_member "props" op in
  member "type" members = Some t /\ member "id" members = Some i
  /\ member "description" members = od /\ member "segments" members = os
  /\ member "props" members = op
  /\ match g with
     | PointGeometry point => member "point" members = Some (json_of_vector point)
     | LineGeometry pointA pointB | BoundingBoxGeometry pointA pointB =>
         member "pointA" members = Some (json_of_vector pointA)
         /\ member "pointB" members = Some (json_of_vector pointB)
     | EllipsoidGeometry center radii =>
         member "center" members = Some (json_of_vector center)
         /\ member "radii" members = Some (json_of_vector radii)
     end.
Proof. destruct g, od, os, op; repeat split; reflexivity. Qed.

Lemma restore_segments (relationships : list string) (segments : list (list N)) :
  length segments = length relationships ->
  Forall (Forall (fun x => (x < 2 ^ 64)%N)) segments ->
  let relObj :=
    if bool_decide (Exists (fun x => x <> []) segments)
    then Some (JArray ((fun x => JArray (JString <$> (Uint64_toString <$> x))) <$> segments))
    else None in
  match relObj with
  | None => Ok ((fun _ => []) <$> relationships)
  | _ =>
      a ← expectArray relObj None;
      match a with
      | [] => Ok ((fun _ => []) <$> relationships)
      | a0 :: _ =>
          if bool_decide (length relationships = 1%nat) && negb (is_JArray a0)
          then (fun x => [x]) <$> parseArray (Some (JArray a)) Uint64_parseString
          else
            a ← expectArray relObj (Some (length relationships));
            parseArray (Some (JArray a)) (fun segments => parseArray segments Uint64_parseString)
      end
  end = Ok segments.
Proof.
  intros Hlen Hbound relObj. subst relObj.
  destruct (bool_decide (Exists (fun x => x <> []) segments)) eqn:Hsome.
  - apply bool_decide_eq_true in Hsome.
    destruct segments as [|x segments]; [by apply Exists_nil in Hsome|].
    set (toJson := fun x : list N => JArray (JString <$> (Uint64_toString <$> x))).
    cbn [expectArray mbind Outcome_bind fmap list_fmap].
    assert (Harray : is_JArray (toJson x) = true) by done. rewrite Harray.
    cbn [negb]. rewrite andb_false_r.
    rewrite decide_True by (simpl in *; by rewrite length_fmap).
    cbn [mbind Outcome_bind]. unfold parseArray at 1.
    change (toJson x :: (toJson <$> segments)) with (toJson <$> x :: segments).
    apply mapM_Ok. apply Forall2_fmap_l, Forall_Forall2_diag.
    eapply Forall_impl; [exact Hbound|]. intros y Hy. simpl. apply mapM_Ok.
    rewrite <- list_fmap_compose. apply Forall2_fmap_l, Forall_Forall2_diag.
    eapply Forall_impl; [exact Hy|]. intros n Hn. by apply Uint64_parseString_toString.
  - apply bool_decide_eq_false in Hsome. f_equal.
    apply not_Exists_Forall in Hsome; [|intros y; apply _].
    clear Hbound. revert relationships Hlen.
    induction Hsome as [|y segments Hy _ IH]; intros [|r relationships] Hlen; try done.
    simpl in *. apply dec_stable in Hy. subst y. f_equal. apply IH. lia.
Qed.

Lemma restore_props (specs : list AnnotationPropertySpec) (props : list Number) :
  length props = length specs ->
  let propsObj :=
    if decide (length specs = 0%nat) then None else Some (JArray (JNumber <$> props)) in
  match propsObj with
  | None => Ok (default <$> specs)
  | _ =>
      a ← expectArray propsObj (Some (length specs));
      parseArray (Some (JArray a)) (fun x => Ok (from_option toNumber S754_nan x))
  end = Ok props.
Proof.
  intros Hlen propsObj. subst propsObj.
  destruct (decide (length specs = 0%nat)) as [Hnil|Hcons].
  - destruct specs; [|done]. by destruct props.
  - cbn [expectArray]. rewrite decide_True by (by rewrite length_fmap).
    cbn [mbind Outcome_bind parseArray]. apply mapM_Ok.
    apply Forall2_fmap_l, Forall_Forall2_diag, Forall_forall. done.
Qed.

Lemma restore_geometry (g : Geometry) (members : list (string * Json)) rank :
  match g with
  | PointGeometry point => member "point" members = Some (json_of_vector point)
  | LineGeometry pointA pointB | BoundingBoxGeometry pointA pointB =>
      member "pointA" members = Some (json_of_vector pointA)
      /\ member "pointB" members = Some (json_of_vector pointB)
  | EllipsoidGeometry center radii =>
      member "center" members = Some (json_of_vector center)
      /\ member "radii" members = Some (json_of_vector radii)
  end ->
  Forall (fun vec => length vec = rank /\ Forall f32_finite vec) (geometry_vectors g) ->
  (forall center radii, g = EllipsoidGeometry center radii ->
     Forall (fun b => b = 2 ^ 31 \/ b < 2 ^ 31) radii) ->
  geometry_restoreState (geometry_type g) members rank = Ok g.
Proof.
  intros Hmembers Hvec Hradii.
  assert (Hfinite : forall vec name, member name members = Some (json_of_vector vec) ->
    length vec = rank -> Forall f32_finite vec ->
    verifyObjectProperty members name
      (fun x => parseFixedLengthArray rank x verifyFiniteFloat) = Ok vec).
  { intros vec name Hm Hl Hf. apply parse_vector; try done.
    eapply Forall_impl; [exact Hf|]. intros b Hb. by apply verifyFiniteFloat_f32. }
  destruct g as [point|pointA pointB|pointA pointB|center radii];
    cbn [geometry_type geometry_restoreState geometry_vectors] in *.
  - apply Forall_singleton in Hvec as [Hl Hf].
    rewrite (Hfinite point) by done.
    reflexivity.
  - apply Forall_cons in Hvec as [[HlA HfA] Hvec]. apply Forall_singleton in Hvec as [HlB HfB].
    destruct Hmembers as [HA HB]. rewrite (Hfinite pointA "pointA" HA HlA HfA).
    cbn [mbind Outcome_bind]. rewrite (Hfinite pointB "pointB" HB HlB HfB). reflexivity.
  - apply Forall_cons in Hvec as [[HlA HfA] Hvec]. apply Forall_singleton in Hvec as [HlB HfB].
    destruct Hmembers as [HA HB]. rewrite (Hfinite pointA "pointA" HA HlA HfA).
    cbn [mbind Outcome_bind]. rewrite (Hfinite pointB "pointB" HB HlB HfB). reflexivity.
  - apply Forall_cons in Hvec as [[HlA HfA] Hvec]. apply Forall_singleton in Hvec as [HlB HfB].
    destruct Hmembers as [HA HB]. rewrite (Hfinite center "center" HA HlA HfA).
    cbn [mbind Outcome_bind].
    rewrite (parse_vector rank "radii" members radii verifyFiniteNonNegativeFloat HB HlB);
      [reflexivity| |done].
    specialize (Hradii center radii eq_refl).
    apply Forall_forall. intros b Hb.
    apply verifyFiniteNonNegativeFloat_f32.
    + by eapply Forall_forall in HfB.
    + by eapply Forall_forall in Hradii.
Qed.

Lemma restoreAnnotation_roundtrip (schema : AnnotationSchema) (a : Annotation)
    (allowMissingId : bool) (randomHex : AnnotationId) :
  conforms schema a ->
  restoreAnnotation (Some (annotationToJson a schema)) schema allowMissingId randomHex = Ok a.
Proof.
  intros (Hid & Hdesc & (segments & Hsegs & Hlen & Hbound) & Hprops & Hvec & Hradii).
  destruct a as [d i rs props g]. cbn [description id relatedSegments properties geometry] in *.
  subst rs. unfold restoreAnnotation, annotationToJson.
  cbn [description id relatedSegments properties geometry verifyObject mbind Outcome_bind].
  match goal with
  | |- context [geometry_toJSON g ++ [("type", ?t); ("id", ?i)]
                ++ optional_member "description" ?od ++ optional_member "segments" ?os
                ++ optional_member "props" ?op] =>
      pose proof (members_lookup g t i od os op) as (Ht & Hi & Hd & Hs & Hp & Hg);
      set (members := geometry_toJSON g ++ [("type", t); ("id", i)]
                      ++ optional_member "description" od ++ optional_member "segments" os
                      ++ optional_member "props" op) in *
  end.
  clearbody members.
  rewrite (verifyObjectProperty_Ok members "type" _ (geometry_type g)).
  2:{ rewrite Ht. apply verifyEnumString_name. }
  cbn [mbind Outcome_bind].
  rewrite (verifyObjectProperty_Ok members "id" _ (Some i)).
  2:{ rewrite Hi. by destruct allowMissingId. }
  cbn [mbind Outcome_bind].
  rewrite (verifyObjectProperty_Ok members "segments" _ segments).
  2:{ rewrite Hs. by apply restore_segments. }
  cbn [mbind Outcome_bind].
  rewrite (verifyObjectProperty_Ok members "props" _ props).
  2:{ rewrite Hp. by apply restore_props. }
  cbn [mbind Outcome_bind].
  rewrite (verifyObjectProperty_Ok members "description" _
             match d with DescString s => Some s | _ => None end).
  2:{ rewrite Hd. destruct Hdesc as [->|(c & s & ->)]; done. }
  cbn [mbind Outcome_bind].
  rewrite (restore_geometry g members (schema_rank schema)) by done.
  cbn [mbind Outcome_bind mret Outcome_ret]. f_equal. f_equal.
  - destruct Hdesc as [->|(c & s & ->)]; done.
  - by destruct i.
Qed.

(** X20. [restoreAnnotation] inverts [annotationToJson] on the annotations
    that the schema describes: it returns, without a call of
    [makeAnnotationId], the annotation that was written, with or without
    [allowMissingId]. *)
Theorem restoreAnnotation_annotationToJson (schema : AnnotationSchema) (a : Annotation)
    (allowMissingId : bool) (randomHex : AnnotationId) :
  conforms schema a ->
  restoreAnnotation (Some (annotationToJson a schema)) schema allowMissingId randomHex = Ok a.
Proof. intros Ha. by apply restoreAnnotation_roundtrip. Qed.

Lemma example_ellipsoid_conforms : conforms example_ellipsoid_schema example_ellipsoid.
Proof.
  unfold conforms, example_ellipsoid. cbn. split_and!.
  - done.
  - right. by eexists _, _.
  - eexists. split; [done|]. split; [done|]. repeat constructor.
  - done.
  - repeat constructor; vm_compute; discriminate.
  - intros center radii [= <- <-].
    apply Forall_cons; split; [right; reflexivity|].
    apply Forall_cons; split; [left; reflexivity|].
    apply Forall_cons; split; [right; reflexivity|]. apply Forall_nil_2.
Defined.

Lemma restoreAnnotation_annotationToJson_witness :
  restoreAnnotation (Some (annotationToJson example_ellipsoid example_ellipsoid_schema))
    example_ellipsoid_schema false "0"
  = Ok example_ellipsoid.
Proof.
  apply (restoreAnnotation_annotationToJson example_ellipsoid_schema example_ellipsoid false
           "0").
  exact example_ellipsoid_conforms.
Defined.

(** ** [restoreState] of what [toJSON] returns *)

Lemma restore_all_annotationToJson schema randomHex (annotations : list Annotation) :
  Forall (conforms schema) annotations ->
  forall index,
    restore_all schema randomHex index ((fun a => annotationToJson a schema) <$> annotations)
    = Ok annotations.
Proof.
  induction 1 as [|a annotations Ha _ IH]; intros index; [done|].
  cbn [fmap list_fmap restore_all].
  rewrite restoreAnnotation_roundtrip by done. cbn [mbind Outcome_bind].
  change (list_fmap _ _ ?f annotations) with (f <$> annotations).
  rewrite IH. done.
Qed.

Lemma install_NoDup (annotations : list Annotation) :
  NoDup (id <$> annotations) ->
  JsMap.values (install JsMap.empty annotations) = annotations.
Proof.
  intros Hnd. unfold install.
  assert (Hfold : forall m,
    foldl (fun m annotation => JsMap.set (id annotation) annotation m) m annotations
    = foldl (fun m (kv : string * Annotation) => JsMap.set kv.1 kv.2 m) m
        ((fun a => (id a, a)) <$> annotations)).
  { induction annotations as [|a l IH]; intros m; [done|]. simpl. apply IH.
    by apply NoDup_cons in Hnd as [_ Hnd]. }
  rewrite Hfold. fold (JsMap.of_entries ((fun a => (id a, a)) <$> annotations)).
  rewrite JsMap_of_entries_NoDup.
  - unfold JsMap.values. rewrite <- list_fmap_compose. apply list_fmap_id.
  - by rewrite <- list_fmap_compose.
Qed.

(** X21. In a store that keeps its invariant and whose records the schema
    describes, [restoreState] of what [toJSON()] returns never throws, and
    leaves the store with the records that were not pending, in their order,
    and with no pending id. *)
Theorem restoreState_toJSON (s : AnnotationSourceState) (randomHex : nat -> AnnotationId) :
  store_inv s ->
  (forall a, a ∈ JsMap.values (annotationMap s) -> conforms (AnnotationSource.schema s) a) ->
  exists s',
    AnnotationSource.restoreState (Some (JArray (toJSON_output s))) randomHex s = (Ok (), s')
    /\ AnnotationSource.iterator s'
       = (Ok (filter (fun a => id a ∉ pending s) (JsMap.values (annotationMap s))), s')
    /\ pending s' = ∅.
Proof.
  intros Hinv Hconforms.
  set (kept := filter (fun a => id a ∉ pending s) (JsMap.values (annotationMap s))).
  assert (Hjson : toJSON_output s
                  = (fun a => annotationToJson a (AnnotationSource.schema s)) <$> kept).
  { unfold toJSON_output. by rewrite toJSON_run. }
  assert (Hall : restore_all (AnnotationSource.schema s) randomHex 0 (toJSON_output s)
                 = Ok kept).
  { rewrite Hjson. apply restore_all_annotationToJson. apply Forall_forall.
    intros a Ha. apply Hconforms. subst kept. by apply list_elem_of_filter in Ha as [_ Ha]. }
  destruct (restoreState_run s (toJSON_output s) randomHex kept Hinv Hall)
    as (s' & Hrun & Hm & Hp & _).
  exists s'. split; [done|]. split; [|done].
  unfold AnnotationSource.iterator. run_method. rewrite Hm. do 2 f_equal.
  apply install_NoDup.
  destruct Hinv as (Hnd & Hkey & _).
  assert (Hids : id <$> JsMap.values (annotationMap s) = JsMap.keys (annotationMap s)).
  { unfold JsMap.keys, JsMap.values. rewrite <- list_fmap_compose.
    apply Forall_fmap_ext_1, Forall_forall. intros [k a] Hin. simpl. by apply Hkey. }
  rewrite <- Hids in Hnd.
  apply (sublist_NoDup (id <$> kept) (id <$> JsMap.values (annotationMap s))); [exact Hnd|].
  apply fmap_sublist, sublist_filter.
Qed.

Lemma example_restored_points_store_inv : store_inv example_restored_points_store.
Proof.
  apply (reachable_inv 3 ["segments"] []).
  exact (rtc_l store_step example_store example_restored_store example_restored_points_store
           (step_add example_store (example_restored_point "a") true "0f")
           (rtc_l store_step example_restored_store example_restored_points_store
              example_restored_points_store
              (step_add example_restored_store (example_other_restored_point "b") true "0f")
              (rtc_refl store_step example_restored_points_store))).
Qed.

Lemma example_restored_points_conform a :
  a ∈ JsMap.values (annotationMap example_restored_points_store) ->
  conforms (AnnotationSource.schema example_restored_points_store) a.
Proof.
  assert (Hvalues : JsMap.values (annotationMap example_restored_points_store)
                    = [example_restored_point "a"; example_other_restored_point "b"])
    by (vm_compute; reflexivity).
  assert (Hschema : AnnotationSource.schema example_restored_points_store
                    = {| schema_rank := 3; schema_relationships := ["segments"];
                         schema_properties := [] |})
    by (vm_compute; reflexivity).
  rewrite Hvalues, Hschema. intros Ha.
  assert (Hpoint : forall i point,
    i <> EmptyString -> length point = 3%nat -> Forall f32_finite point ->
    conforms {| schema_rank := 3; schema_relationships := ["segments"];
                schema_properties := [] |}
      {| description := DescUndefined; id := i; relatedSegments := Some [[]];
         properties := []; geometry := PointGeometry point |}).
  { intros i point Hi Hl Hf. unfold conforms. cbn. split_and!; try done.
    - by left.
    - eexists. split; [done|]. split; [done|]. repeat constructor.
    - by repeat constructor. }
  apply elem_of_cons in Ha as [->|Ha];
    [|apply list_elem_of_singleton in Ha as ->];
    (apply Hpoint; [done|done|repeat constructor; vm_compute; discriminate]).
Qed.

Lemma restoreState_toJSON_witness :
  exists s',
    AnnotationSource.restoreState (Some (JArray (toJSON_output example_restored_points_store)))
      (fun _ => "0f") example_restored_points_store
    = (Ok (), s')
    /\ AnnotationSource.iterator s'
       = (Ok (filter (fun a => id a ∉ pending example_restored_points_store)
                (JsMap.values (annotationMap example_restored_points_store))), s')
    /\ pending s' = ∅.
Proof.
  apply (restoreState_toJSON example_restored_points_store (fun _ => "0f")).
  - exact example_restored_points_store_inv.
  - exact example_restored_points_conform.
Defined.

(** ** Every pick offset is decoded *)

Section Decode.
Variable pickIdsPerInstance : AnnotationType -> Z.
Variable propertySerializer : AnnotationPropertySerializer.
Variable rank : nat.
Variable sa : SerializedAnnotations.
Hypothesis pickIds_pos : forall t, 0 < pickIdsPerInstance t.

Lemma pickIds_of_nonneg types : 0 <= pickIds_of pickIdsPerInstance sa types.
Proof.
  induction types as [|t types IH]; simpl; [done|]. pose proof (pickIds_pos t). nia.
Qed.

Lemma pickIds_of_app before after :
  pickIds_of pickIdsPerInstance sa (before ++ after)
  = pickIds_of pickIdsPerInstance sa before + pickIds_of pickIdsPerInstance sa after.
Proof. induction before as [|t before IH]; simpl; lia. Qed.

Lemma resolve_decodes types : forall offset,
  0 <= offset ->
  match resolve pickIdsPerInstance propertySerializer rank types sa offset with
  | Some p =>
      exists before after k,
        types = before ++ picked_type p :: after
        /\ offset
           = pickIds_of pickIdsPerInstance sa before
             + picked_instanceIndex p * pickIdsPerInstance (picked_type p)
             + picked_partIndex p
        /\ 0 <= picked_partIndex p < pickIdsPerInstance (picked_type p)
        /\ 0 <= picked_instanceIndex p
        /\ typeToIds sa (picked_type p) !! Z.to_nat (picked_instanceIndex p) = Some k
        /\ picked_id p = Some k
        /\ picked_bufferOffset p
           = typeToOffset sa (picked_type p)
             + picked_instanceIndex p
               * (geometry_serializedBytes (picked_type p) rank
                  + ps_serializedBytes propertySerializer)
  | None => pickIds_of pickIdsPerInstance sa types <= offset
  end.
Proof.
  induction types as [|t types IH]; intros offset Hoff; [simpl; lia|].
  pose proof (pickIds_pos t) as HP.
  destruct (decide (offset < Z.of_nat (length (typeToIds sa t)) * pickIdsPerInstance t))
    as [Hlt|Hge].
  - rewrite (resolve_found pickIdsPerInstance propertySerializer rank sa pickIds_pos)
      by lia.
    cbn [picked_type picked_instanceIndex picked_partIndex picked_id picked_bufferOffset].
    assert (Hdiv : 0 <= offset / pickIdsPerInstance t) by (apply Z.div_pos; lia).
    assert (Hidx : offset / pickIdsPerInstance t < Z.of_nat (length (typeToIds sa t))).
    { apply Z.div_lt_upper_bound; lia. }
    destruct (lookup_lt_is_Some_2 (typeToIds sa t) (Z.to_nat (offset / pickIdsPerInstance t)))
      as [k Hk]; [lia|].
    pose proof (Z.div_mod offset (pickIdsPerInstance t) ltac:(lia)) as Hdm.
    pose proof (Z.mod_pos_bound offset (pickIdsPerInstance t) ltac:(lia)) as Hmod.
    exists [], types, k. cbn [app pickIds_of foldr].
    split_and!; try done; try (unfold data_byteOffset; lia).
  - rewrite (resolve_skip pickIdsPerInstance propertySerializer rank sa) by lia.
    specialize (IH (offset - Z.of_nat (length (typeToIds sa t)) * pickIdsPerInstance t)
                  ltac:(lia)).
    destruct (resolve _ _ _ types sa _) as [p|].
    + destruct IH as (before & after & k & -> & Hsum & Hpart & Hidx & Hk & Hid & Hbuf).
      exists (t :: before), after, k. cbn [app pickIds_of foldr].
      fold (pickIds_of pickIdsPerInstance sa before). split_and!; try done; try lia.
    + cbn [pickIds_of foldr]. fold (pickIds_of pickIdsPerInstance sa types). lia.
Qed.
End Decode.

(** ** The snapshot of a store *)

Lemma added_by_type (filter : option (Annotation -> bool)) (annotations : list Annotation) :
  forall serializer t,
    foldl (fun serializer annotation =>
             if passes filter annotation then AnnotationSerializer.add annotation serializer
             else serializer)
          serializer annotations t
    = serializer t
      ++ base.filter (fun a => annotation_type a = t /\ passes filter a = true) annotations.
Proof.
  induction annotations as [|a annotations IH]; intros serializer t.
  { by rewrite filter_nil, app_nil_r. }
  cbn [foldl]. rewrite IH, filter_cons.
  unfold AnnotationSerializer.add, insert, fn_insert.
  destruct (passes filter a) eqn:Hpass; repeat case_decide;
    try done; try (exfalso; naive_solver).
  subst t. by rewrite <- app_assoc.
Qed.

(** X23. [serializeAnnotationSet] of a store that keeps its invariant, with
    any filter, never throws. For every type, [typeToIds] lists the ids of
    the stored records of this type that pass the filter, pending or not, in
    the order of the store; these ids are pairwise distinct, and the id map
    of the type gives for each of them its index in the list. *)
Theorem serializeAnnotationSet_ids (s : AnnotationSourceState)
    (filter : option (Annotation -> bool)) (isLittleEndian : bool) :
  store_inv s ->
  exists sa,
    serializeAnnotationSet s filter isLittleEndian = Ok sa
    /\ forall t,
         typeToIds sa t
         = id <$> base.filter (fun a => annotation_type a = t /\ passes filter a = true)
                    (JsMap.values (annotationMap s))
         /\ NoDup (typeToIds sa t)
         /\ forall i k, typeToIds sa t !! i = Some k ->
                        JsMap.get k (typeToIdMaps sa t) = Some (Z.of_nat i).
Proof.
  intros Hinv. unfold serializeAnnotationSet, AnnotationSource.iterator. run_method.
  cbn [mbind Outcome_bind]. unfold AnnotationSerializer.serialize, annotationPropertySerializer.
  set (annotations := foldl _ AnnotationSerializer.new (JsMap.values (annotationMap s))).
  assert (Hadded : forall t,
    annotations t = base.filter (fun a => annotation_type a = t /\ passes filter a = true)
                      (JsMap.values (annotationMap s))).
  { intros t. subst annotations. by rewrite added_by_type. }
  destruct (new_serializer_content (serializer_rank s) (source_properties s) annotations
              isLittleEndian)
    as (sa & Hsa & _).
  { intros t a Ha. rewrite Hadded in Ha. by apply list_elem_of_filter in Ha as [[? _] _]. }
  exists sa. split; [done|]. intros t.
  destruct (serializeAnnotations_fields _ _ _ _ Hsa t) as (Hids & Hmaps & _).
  rewrite Hids, Hmaps, Hadded.
  assert (Hnd : NoDup (id <$> base.filter
                                (fun a => annotation_type a = t /\ passes filter a = true)
                                (JsMap.values (annotationMap s)))).
  { destruct Hinv as (Hnd & Hkey & _).
    assert (Hkeys : id <$> JsMap.values (annotationMap s) = JsMap.keys (annotationMap s)).
    { unfold JsMap.keys, JsMap.values. rewrite <- list_fmap_compose.
      apply Forall_fmap_ext_1, Forall_forall. intros [k a] Hin. simpl. by apply Hkey. }
    rewrite <- Hkeys in Hnd.
    apply (sublist_NoDup _ (id <$> JsMap.values (annotationMap s))); [exact Hnd|].
    apply fmap_sublist, sublist_filter. }
  split; [done|]. split; [done|]. intros i k Hi.
  pose proof (id_map_last_index
                (base.filter (fun a => annotation_type a = t /\ passes filter a = true)
                   (JsMap.values (annotationMap s))) k) as Hget.
  destruct (JsMap.get k _) as [j|].
  - destruct Hget as (Hj & Hlookup & _). f_equal.
    pose proof (NoDup_lookup _ _ _ _ Hnd Hi Hlookup). lia.
  - destruct Hget. by eapply list_elem_of_lookup_2.
Qed.

Lemma serializeAnnotationSet_ids_witness :
  exists sa,
    serializeAnnotationSet example_pending_store None true = Ok sa
    /\ forall t,
         typeToIds sa t
         = id <$> base.filter (fun a => annotation_type a = t /\ passes None a = true)
                    (JsMap.values (annotationMap example_pending_store))
         /\ NoDup (typeToIds sa t)
         /\ forall i k, typeToIds sa t !! i = Some k ->
                        JsMap.get k (typeToIdMaps sa t) = Some (Z.of_nat i).
Proof.
  apply (serializeAnnotationSet_ids example_pending_store None true).
  exact example_pending_store_inv.
Defined.

Lemma some_segment_visible_spec segmentationState segments :
  some_segment_visible segmentationState segments = true
  <-> exists segment, segment ∈ segments
        /\ visibleSegments_has segmentationState
             (segmentEquivalences_get segmentationState segment) = true.
Proof.
  induction segments as [|x segments IH]; simpl.
  - split; [done|]. intros (segment & Hin & _). by apply elem_of_nil in Hin.
  - destruct (visibleSegments_has _ _) eqn:Hx.
    + split; [|done]. intros _. exists x. split; [apply list_elem_of_here|done].
    + rewrite IH. split.
      * intros (segment & Hin & Hv). exists segment. split; [by apply list_elem_of_further|done].
      * intros (segment & Hin & Hv). apply elem_of_cons in Hin as [->|Hin]; [congruence|].
        by exists segment.
Qed.

Lemma segmentationFilter_from_spec segmentationStates rest : forall i,
  segmentationFilter_from segmentationStates i rest = true
  <-> exists j segments segmentationState,
        rest !! j = Some segments
        /\ segmentationStates !! (i + j)%nat = Some (Some segmentationState)
        /\ some_segment_visible segmentationState segments = true.
Proof.
  induction rest as [|segments rest IH]; intros i; cbn [segmentationFilter_from].
  { split; [done|]. by intros (j & ? & ? & ? & _). }
  assert (Hskip : segmentationFilter_from segmentationStates (S i) rest = true
    <-> exists j segments' segmentationState,
          (segments :: rest) !! S j = Some segments'
          /\ segmentationStates !! (i + S j)%nat = Some (Some segmentationState)
          /\ some_segment_visible segmentationState segments' = true).
  { rewrite IH. split; intros (j & x & st & Hj & Hst & Hv); exists j, x, st.
    - by rewrite Nat.add_succ_r.
    - by rewrite Nat.add_succ_r in Hst. }
  assert (Hcases : forall P : nat -> Prop, (exists j, P j) <-> P 0%nat \/ exists j, P (S j)).
  { intros P. split.
    - intros [[|j] Hj]; [by left|right; by exists j].
    - intros [H0|[j Hj]]; eauto. }
  rewrite (Hcases (fun j => exists segments' segmentationState,
    (segments :: rest) !! j = Some segments'
    /\ segmentationStates !! (i + j)%nat = Some (Some segmentationState)
    /\ some_segment_visible segmentationState segments' = true)).
  rewrite <- Hskip. rewrite Nat.add_0_r. cbn [lookup list_lookup].
  destruct (segmentationStates !! i) as [[st|]|] eqn:Hst.
  - destruct (some_segment_visible st segments) eqn:Hv.
    + split; [|done]. intros _. left. by exists segments, st.
    + split; [by right|]. intros [(x & st' & [= <-] & [= <-] & Hv')|H]; [congruence|done].
  - split; [by right|]. by intros [(x & st' & _ & [=] & _)|H].
  - split; [by right|]. by intros [(x & st' & _ & [=] & _)|H].
Qed.

(** X24. Without segmentation states there is no filter, and every
    annotation passes. With segmentation states, an annotation passes
    exactly when, for some relationship that has a segmentation state, one
    of its segments of this relationship maps to a visible segment of that
    state; an annotation without related segments never passes. *)
Theorem segmentationFilter_passes
    (segmentationStates : option (list (option SegmentationDisplayState)))
    (annotation : Annotation) :
  match segmentationStates with
  | None => passes (segmentationFilter segmentationStates) annotation = true
  | Some states =>
      passes (segmentationFilter segmentationStates) annotation = true
      <-> exists relatedSegments' i segments segmentationState segment,
            relatedSegments annotation = Some relatedSegments'
            /\ relatedSegments' !! i = Some segments
            /\ states !! i = Some (Some segmentationState)
            /\ segment ∈ segments
            /\ visibleSegments_has segmentationState
                 (segmentEquivalences_get segmentationState segment) = true
  end.
Proof.
  destruct segmentationStates as [states|]; [|done].
  cbn [segmentationFilter passes].
  destruct (relatedSegments annotation) as [rs|].
  - rewrite segmentationFilter_from_spec. split.
    + intros (j & segments & st & Hj & Hst & Hv).
      apply some_segment_visible_spec in Hv as (segment & Hin & Hv).
      by exists rs, j, segments, st, segment.
    + intros (rs' & j & segments & st & segment & [= <-] & Hj & Hst & Hin & Hv).
      exists j, segments, st. split; [done|]. split; [done|].
      apply some_segment_visible_spec. by exists segment.
  - split; [done|]. by intros (rs' & ? & ? & ? & ? & [=] & _).
Qed.

(** ** The geometry codecs out of bounds *)

Lemma serializeFloatVector_from_throws le (vec : Float32Array) count :
  forall i buffer offset,
    (0 < count)%nat ->
    ~ (0 <= offset /\ offset + 4 * Z.of_nat count <= byteLength buffer) ->
    serializeFloatVector_from i count buffer offset le (Some vec) = Throw RangeError.
Proof.
  induction count as [|count IH]; intros i buffer offset Hcount Hout; [lia|].
  cbn [serializeFloatVector_from element mbind Outcome_bind]. unfold setFloat32, in_range.
  destruct (0 <=? offset) eqn:H0; [|done].
  destruct (offset + 4 <=? byteLength buffer) eqn:H4; [|done].
  cbn [andb mbind Outcome_bind]. apply IH.
  - destruct count; [|lia]. exfalso. apply Hout. lia.
  - unfold byteLength in *. rewrite length_write_bytes.
    + lia.
    + rewrite length_endian_order. simpl. lia.
Qed.

Lemma deserializeFloatVector_from_throws le buffer count :
  forall i offset vec,
    (0 < count)%nat ->
    ~ (0 <= offset /\ offset + 4 * Z.of_nat count <= byteLength buffer) ->
    deserializeFloatVector_from i count buffer offset le vec = Throw RangeError.
Proof.
  induction count as [|count IH]; intros i offset vec Hcount Hout; [lia|].
  cbn [deserializeFloatVector_from]. unfold getFloat32, in_range.
  destruct (0 <=? offset) eqn:H0; [|done].
  destruct (offset + 4 <=? byteLength buffer) eqn:H4; [|done].
  cbn [andb mbind Outcome_bind]. apply IH.
  - destruct count; [|lia]. exfalso. apply Hout. lia.
  - lia.
Qed.

Lemma deserializeFloatVector_from_returns le buffer count :
  forall i offset vec,
    0 <= offset -> offset + 4 * Z.of_nat count <= byteLength buffer ->
    exists vec',
      deserializeFloatVector_from i count buffer offset le vec
      = Ok (vec', offset + 4 * Z.of_nat count).
Proof.
  induction count as [|count IH]; intros i offset vec Hoff Hlen.
  { exists vec. simpl. do 2 f_equal. lia. }
  cbn [deserializeFloatVector_from]. unfold getFloat32, in_range.
  rewrite (proj2 (Z.leb_le _ _) Hoff).
  rewrite (proj2 (Z.leb_le (offset + 4) _)) by lia.
  cbn [andb mbind Outcome_bind].
  destruct (IH (S i) (offset + 4) (<[i := toFloat32 (Some (bits_of_bytes
              (endian_order le (read_bytes (Z.to_nat offset) 4 buffer))))]> vec))
    as [vec' Hvec']; [lia|lia|].
  exists vec'. rewrite Hvec'. do 2 f_equal. lia.
Qed.

Lemma serializeTwoFloatVectors_throws le rank (vecA vecB : Float32Array) buffer offset :
  (0 < rank)%nat ->
  ~ (0 <= offset /\ offset + 2 * 4 * Z.of_nat rank <= byteLength buffer) ->
  serializeTwoFloatVectors buffer offset le rank (Some vecA) (Some vecB) = Throw RangeError.
Proof.
  intros Hrank Hout. unfold serializeTwoFloatVectors.
  destruct (decide (0 <= offset /\ offset + 4 * Z.of_nat rank <= byteLength buffer))
    as [[Hoff Hin]|Hout1].
  - rewrite serializeFloatVector_writes by done. cbn [mbind Outcome_bind].
    apply serializeFloatVector_from_throws; [done|].
    unfold byteLength in *. rewrite length_write_bytes; rewrite ?length_vector_bytes; lia.
  - unfold serializeFloatVector. by rewrite serializeFloatVector_from_throws.
Qed.

Lemma deserializeTwoFloatVectors_throws le rank vecA vecB buffer offset :
  (0 < rank)%nat ->
  ~ (0 <= offset /\ offset + 2 * 4 * Z.of_nat rank <= byteLength buffer) ->
  deserializeTwoFloatVectors buffer offset le rank vecA vecB = Throw RangeError.
Proof.
  intros Hrank Hout. unfold deserializeTwoFloatVectors, deserializeFloatVector.
  destruct (decide (0 <= offset /\ offset + 4 * Z.of_nat rank <= byteLength buffer))
    as [[Hoff Hin]|Hout1].
  - destruct (deserializeFloatVector_from_returns le buffer rank 0 offset vecA Hoff Hin)
      as [vecA' ->].
    cbn [mbind Outcome_bind]. rewrite deserializeFloatVector_from_throws; [done|done|lia].
  - by rewrite deserializeFloatVector_from_throws.
Qed.

(** X25. For a rank above 0, the geometry handler of an annotation's type
    throws a [RangeError], in [serialize] and in [deserialize], whenever the
    [serializedBytes(rank)] bytes from the offset on do not all lie inside
    the buffer. *)
Theorem geometry_codec_out_of_bounds (buffer : DataView) (offset : Z) (isLittleEndian : bool)
    (rank : nat) (annotation : Annotation) (i : AnnotationId) :
  (0 < rank)%nat ->
  ~ (0 <= offset
     /\ offset + geometry_serializedBytes (annotation_type annotation) rank
        <= byteLength buffer) ->
  geometry_serialize (annotation_type annotation) buffer offset isLittleEndian rank annotation
  = Throw RangeError
  /\ geometry_deserialize (annotation_type annotation) buffer offset isLittleEndian rank i
     = Throw RangeError.
Proof.
  intros Hrank Hout. unfold annotation_type in *.
  unfold geometry_serialize, geometry_deserialize, get_point, get_pointA, get_pointB,
    get_center, get_radii.
  destruct (geometry annotation) as [point|pointA pointB|pointA pointB|center radii];
    cbn [geometry_serializedBytes] in Hout.
  - unfold serializeFloatVector, deserializeFloatVector.
    rewrite serializeFloatVector_from_throws, deserializeFloatVector_from_throws;
      [done|done|lia|done|lia].
  - by rewrite serializeTwoFloatVectors_throws, deserializeTwoFloatVectors_throws.
  - by rewrite serializeTwoFloatVectors_throws, deserializeTwoFloatVectors_throws.
  - by rewrite serializeTwoFloatVectors_throws, deserializeTwoFloatVectors_throws.
Qed.

Lemma geometry_codec_out_of_bounds_witness :
  geometry_serialize (annotation_type example_line) (new_DataView 12) 0 true 2 example_line
  = Throw RangeError
  /\ geometry_deserialize (annotation_type example_line) (new_DataView 12) 0 true 2 "a"
     = Throw RangeError.
Proof.
  apply (geometry_codec_out_of_bounds (new_DataView 12) 0 true 2 example_line "a").
  - lia.
  - vm_compute. intros [_ H]. by apply H.
Defined.

(** ** The methods of a store on every class of store *)

Lemma ensureUpdated_fix aliased s :
  transform_object (watchableTransform s) = transform_object (curCoordinateTransform s) ->
  LocalAnnotationSource.ensureUpdated aliased s = s.
Proof.
  intros Heq. unfold LocalAnnotationSource.ensureUpdated. by rewrite decide_True.
Qed.

Lemma ensureUpdated_current aliased s :
  transform_object (watchableTransform (LocalAnnotationSource.ensureUpdated aliased s))
  = transform_object (curCoordinateTransform (LocalAnnotationSource.ensureUpdated aliased s)).
Proof.
  destruct (same_coordinates_dec s) as [Hsame|Hdiff].
  - rewrite (ensureUpdated_same aliased s Hsame). simpl. by destruct (decide _).
  - by rewrite (ensureUpdated_migrate aliased s Hdiff).
Qed.

Lemma ensureUpdated_keys aliased s :
  JsMap.keys (annotationMap (base (LocalAnnotationSource.ensureUpdated aliased s)))
  = JsMap.keys (annotationMap (base s)).
Proof.
  destruct (same_coordinates_dec s) as [Hsame|Hdiff].
  - by rewrite (ensureUpdated_same aliased s Hsame).
  - rewrite (ensureUpdated_migrate aliased s Hdiff). simpl.
    unfold JsMap.keys. by rewrite <- list_fmap_compose.
Qed.

Lemma ensureUpdated_refs aliased s reference r :
  refs (base s) !! reference = Some r ->
  exists r', refs (base (LocalAnnotationSource.ensureUpdated aliased s)) !! reference = Some r'
             /\ ref_id r' = ref_id r.
Proof.
  intros Hr. destruct (same_coordinates_dec s) as [Hsame|Hdiff].
  - rewrite (ensureUpdated_same aliased s Hsame). by exists r.
  - rewrite (ensureUpdated_migrate aliased s Hdiff). simpl.
    rewrite list_lookup_imap, Hr. simpl. eexists. split; [done|].
    destruct (aliased reference); [|done].
    unfold LocalAnnotationSource.migrate_reference. by destruct (ref_value r).
Qed.

Lemma JsMap_has_keys {V} k (m m' : JsMap.t V) :
  JsMap.keys m' = JsMap.keys m -> JsMap.has k m' = JsMap.has k m.
Proof.
  intros Hkeys. unfold JsMap.has. apply bool_decide_ext.
  rewrite <- !not_eq_None_Some, !JsMap_get_None, Hkeys. done.
Qed.

(** C10. [commit(reference)] runs [ensureUpdated()] and then only removes
    the id of the reference from the pending set. On a store of the class
    [AnnotationSource] itself, and on a local source whose transform is the
    current one or has the same coordinates, it leaves the annotation map,
    the reference objects and their registry, the rank and the pending
    status of every other id unchanged and dispatches nothing; on any local
    source the state that it leaves is the one that [ensureUpdated()]
    leaves, without the id in the pending set. On every store a second
    [commit] changes nothing. *)
Theorem commit_frame (s : AnnotationSourceState) (l : LocalAnnotationSourceState)
    (aliased : Ref -> bool) (reference : Ref) (r r' : AnnotationReference) :
  refs s !! reference = Some r ->
  refs (base l) !! reference = Some r' ->
  (exists s',
     AnnotationSource.commit reference s = (Ok (), s')
     /\ pending s' = pending s ∖ {[ref_id r]}
     /\ annotationMap s' = annotationMap s
     /\ refs s' = refs s
     /\ references s' = references s
     /\ rank_ s' = rank_ s
     /\ dispatched s' = dispatched s
     /\ (forall i, i <> ref_id r -> (i ∈ pending s' <-> i ∈ pending s))
     /\ AnnotationSource.commit reference s' = (Ok (), s'))
  /\ (exists l',
        LocalAnnotationSource.commit aliased reference l = (Ok (), l')
        /\ l' = LocalAnnotationSource.with_base
                  (with_pending
                     (pending (base (LocalAnnotationSource.ensureUpdated aliased l))
                      ∖ {[ref_id r']})
                     (base (LocalAnnotationSource.ensureUpdated aliased l)))
                  (LocalAnnotationSource.ensureUpdated aliased l)
        /\ (same_coordinates l ->
            base l' = with_pending (pending (base l) ∖ {[ref_id r']}) (base l))
        /\ LocalAnnotationSource.commit aliased reference l' = (Ok (), l')).
Proof.
  intros Hr Hr'. split.
  - exists (with_pending (pending s ∖ {[ref_id r]}) s).
    split; [by apply commit_run|]. simpl. split_and!; try done.
    + intros i Hi. set_solver.
    + rewrite (commit_run reference r) by done. f_equal.
      unfold with_pending. simpl. f_equal. set_solver.
  - destruct (ensureUpdated_refs aliased l reference r' Hr') as (r0 & Hr0 & Hid).
    unfold LocalAnnotationSource.commit, LocalAnnotationSource.inherited.
    rewrite (commit_run reference r0) by done. rewrite Hid.
    eexists. split; [done|]. split; [done|]. split.
    + intros Hsame. by rewrite (ensureUpdated_same aliased l Hsame).
    + rewrite ensureUpdated_fix by apply ensureUpdated_current.
      cbn [base LocalAnnotationSource.with_base].
      rewrite (commit_run reference r0) by done. rewrite Hid. f_equal.
      unfold LocalAnnotationSource.with_base, with_pending. simpl. do 2 f_equal. set_solver.
Qed.

Lemma commit_frame_witness :
  (exists s',
     AnnotationSource.commit 0 example_pending_store = (Ok (), s')
     /\ pending s' = pending example_pending_store ∖ {["a"]}
     /\ annotationMap s' = annotationMap example_pending_store
     /\ refs s' = refs example_pending_store
     /\ references s' = references example_pending_store
     /\ rank_ s' = rank_ example_pending_store
     /\ dispatched s' = dispatched example_pending_store
     /\ (forall i, i <> "a" -> (i ∈ pending s' <-> i ∈ pending example_pending_store))
     /\ AnnotationSource.commit 0 s' = (Ok (), s'))
  /\ (exists l',
        LocalAnnotationSource.commit example_aliased 0 example_local_pending_source
        = (Ok (), l')
        /\ l' = LocalAnnotationSource.with_base
                  (with_pending
                     (pending (base (LocalAnnotationSource.ensureUpdated example_aliased
                                       example_local_pending_source))
                      ∖ {["a"]})
                     (base (LocalAnnotationSource.ensureUpdated example_aliased
                              example_local_pending_source)))
                  (LocalAnnotationSource.ensureUpdated example_aliased
                     example_local_pending_source)
        /\ (same_coordinates example_local_pending_source ->
            base l' = with_pending (pending (base example_local_pending_source) ∖ {["a"]})
                        (base example_local_pending_source))
        /\ LocalAnnotationSource.commit example_aliased 0 l' = (Ok (), l')).
Proof.
  apply (commit_frame example_pending_store example_local_pending_source example_aliased 0
           {| ref_id := "a"; ref_value := ValueAnnotation (example_point "a"); refCount := 1 |}
           {| ref_id := "a"; ref_value := ValueAnnotation (example_point "a"); refCount := 1 |}).
  - reflexivity.
  - reflexivity.
Defined.

(** C10 (as stated) fails for a local source whose transform was replaced:
    [commit] first runs [ensureUpdated], which gives the stored point its
    new vector, shows it through the reference, sets the rank and dispatches
    [changed]. *)
Lemma commit_of_local_source_migrates :
  geometry <$> JsMap.get "a" (annotationMap (base example_local_pending_source))
  = Some (PointGeometry [0x3F800000; 0x40000000; 0x40400000])
  /\ geometry <$> JsMap.get "a"
       (annotationMap
          (base (LocalAnnotationSource.commit example_aliased 0
                   example_local_pending_source).2))
     = Some (PointGeometry [0x3F800000; 0x40000000])
  /\ refs (base (LocalAnnotationSource.commit example_aliased 0
                   example_local_pending_source).2)
     <> refs (base example_local_pending_source)
  /\ dispatched (base (LocalAnnotationSource.commit example_aliased 0
                         example_local_pending_source).2)
     = dispatched (base example_local_pending_source) ++ [Changed].
Proof.
  split_and!.
  - vm_compute. reflexivity.
  - vm_compute. reflexivity.
  - vm_compute. discriminate.
  - vm_compute. reflexivity.
Qed.

(** C9. [add] of an annotation with no id stores it under the id that
    [makeAnnotationId()] returns, with that id, and dispatches [changed] and
    [childAdded] for it; it does not test that the store has no record under
    this id: when it has none the record is a new one, after the others, and
    when it has one the record takes its place. [add] of an annotation whose
    id is present in the store throws; it leaves a store of the class
    [AnnotationSource] itself as it is, and a local source as
    [ensureUpdated()] leaves it. *)
Theorem add_id_semantics (s : AnnotationSourceState) (l : LocalAnnotationSourceState)
    (aliased : Ref -> bool) (annotation : Annotation) (commit : bool)
    (randomHex : AnnotationId) :
  (id annotation = "" ->
   exists reference s',
     AnnotationSource.add annotation commit randomHex s = (Ok reference, s')
     /\ annotationMap s'
        = JsMap.set randomHex (set_id annotation randomHex) (annotationMap s)
     /\ JsMap.get randomHex (annotationMap s') = Some (set_id annotation randomHex)
     /\ (randomHex ∉ JsMap.keys (annotationMap s) ->
         annotationMap s' = annotationMap s ++ [(randomHex, set_id annotation randomHex)])
     /\ (randomHex ∈ JsMap.keys (annotationMap s) ->
         JsMap.keys (annotationMap s') = JsMap.keys (annotationMap s))
     /\ dispatched s'
        = dispatched s ++ [Changed; ChildAdded (set_id annotation randomHex)])
  /\ (id annotation <> "" -> JsMap.has (id annotation) (annotationMap s) = true ->
      AnnotationSource.add annotation commit randomHex s
      = (Throw (Error "Annotation id already exists"), s))
  /\ (id annotation = "" ->
      exists reference l',
        LocalAnnotationSource.add aliased annotation commit randomHex l = (Ok reference, l')
        /\ annotationMap (base l')
           = JsMap.set randomHex (set_id annotation randomHex)
               (annotationMap (base (LocalAnnotationSource.ensureUpdated aliased l))))
  /\ (id annotation <> "" -> JsMap.has (id annotation) (annotationMap (base l)) = true ->
      LocalAnnotationSource.add aliased annotation commit randomHex l
      = (Throw (Error "Annotation id already exists"),
         LocalAnnotationSource.ensureUpdated aliased l)).
Proof.
  assert (Hadd : forall s0, id annotation = "" ->
    exists reference s',
      AnnotationSource.add annotation commit randomHex s0 = (Ok reference, s')
      /\ annotationMap s'
         = JsMap.set randomHex (set_id annotation randomHex) (annotationMap s0)
      /\ dispatched s'
         = dispatched s0 ++ [Changed; ChildAdded (set_id annotation randomHex)]).
  { intros s0 He. rewrite add_run, decide_True by done.
    destruct (getReference_spec randomHex (add_state (set_id annotation randomHex) commit s0))
      as (reference & s' & Hrun & Hm & _ & Hd & _).
    exists reference, s'. split; [done|]. rewrite Hm, Hd.
    unfold add_state. destruct commit; simpl; by rewrite <- app_assoc. }
  split_and!.
  - intros He. destruct (Hadd s He) as (reference & s' & Hrun & Hm & Hd).
    exists reference, s'. split; [done|]. split; [done|]. rewrite Hm. split_and!.
    + apply JsMap_get_set_eq.
    + apply JsMap_keys_set_new.
    + intros Hin. rewrite JsMap_keys_set. by rewrite decide_True.
    + done.
  - intros He Hhas. by rewrite add_run, decide_False, Hhas by done.
  - intros He. unfold LocalAnnotationSource.add, LocalAnnotationSource.inherited.
    destruct (Hadd (base (LocalAnnotationSource.ensureUpdated aliased l)) He)
      as (reference & s' & Hrun & Hm & _).
    rewrite Hrun. by exists reference, (LocalAnnotationSource.with_base s'
                                         (LocalAnnotationSource.ensureUpdated aliased l)).
  - intros He Hhas. unfold LocalAnnotationSource.add, LocalAnnotationSource.inherited.
    rewrite add_run, decide_False by done.
    rewrite (JsMap_has_keys _ (annotationMap (base l))) by apply ensureUpdated_keys.
    rewrite Hhas. by destruct (LocalAnnotationSource.ensureUpdated aliased l).
Qed.

Lemma add_id_semantics_witness :
  (exists reference s',
     AnnotationSource.add (example_point "") true "0f" example_pending_store
     = (Ok reference, s')
     /\ annotationMap s'
        = JsMap.set "0f" (set_id (example_point "") "0f") (annotationMap example_pending_store)
     /\ JsMap.get "0f" (annotationMap s') = Some (set_id (example_point "") "0f")
     /\ annotationMap s'
        = annotationMap example_pending_store ++ [("0f", set_id (example_point "") "0f")]
     /\ dispatched s'
        = dispatched example_pending_store
          ++ [Changed; ChildAdded (set_id (example_point "") "0f")])
  /\ AnnotationSource.add (example_point "a") true "0f" example_pending_store
     = (Throw (Error "Annotation id already exists"), example_pending_store)
  /\ LocalAnnotationSource.add example_aliased (example_point "a") true "0f"
       example_local_source
     = (Throw (Error "Annotation id already exists"),
        LocalAnnotationSource.ensureUpdated example_aliased example_local_source).
Proof.
  pose proof (add_id_semantics example_pending_store example_local_source example_aliased
                (example_point "") true "0f") as (Hnew & _).
  pose proof (add_id_semantics example_pending_store example_local_source example_aliased
                (example_point "a") true "0f") as (_ & Hthrow & _ & Hlocal).
  split_and!.
  - destruct (Hnew eq_refl) as (reference & s' & Hrun & Hm & Hget & Hfresh & _ & Hd).
    exists reference, s'. split_and!; done.
  - apply Hthrow; [discriminate|reflexivity].
  - apply Hlocal; [discriminate|reflexivity].
Defined.

(** C9 (as stated) fails. [add] does not check that the id that
    [makeAnnotationId()] returns is fresh: when the store holds a record
    under it, [add] returns and replaces that record. And on a local source
    whose transform was replaced, [add] with an id that is present throws
    after [ensureUpdated] has changed the stored record and dispatched
    [changed]. *)
Lemma add_replaces_and_migrates :
  (geometry <$> JsMap.get example_generated_id (annotationMap example_generated_store)
   = Some (geometry example_line)
   /\ exists reference,
        (AnnotationSource.add (example_point "") true example_generated_id
           example_generated_store).1 = Ok reference
        /\ JsMap.get example_generated_id
             (annotationMap (AnnotationSource.add (example_point "") true example_generated_id
                               example_generated_store).2)
           = Some (example_point example_generated_id)
        /\ JsMap.size (annotationMap (AnnotationSource.add (example_point "") true
                                        example_generated_id example_generated_store).2)
           = 1)
  /\ (LocalAnnotationSource.add example_aliased (example_point "a") true "0f"
        example_local_source).1
     = Throw (Error "Annotation id already exists")
  /\ geometry <$> JsMap.get "a" (annotationMap (base example_local_source))
     = Some (PointGeometry [0x3F800000; 0x40000000; 0x40400000])
  /\ geometry <$> JsMap.get "a"
       (annotationMap
          (base (LocalAnnotationSource.add example_aliased (example_point "a") true "0f"
                   example_local_source).2))
     = Some (PointGeometry [0x3F800000; 0x40000000])
  /\ dispatched (base (LocalAnnotationSource.add example_aliased (example_point "a") true "0f"
                         example_local_source).2)
     = dispatched (base example_local_source) ++ [Changed].
Proof.
  split_and!.
  - vm_compute. reflexivity.
  - exists 0%nat. split_and!; vm_compute; reflexivity.
  - vm_compute. reflexivity.
  - vm_compute. reflexivity.
  - vm_compute. reflexivity.
  - vm_compute. reflexivity.
Qed.

(** ** The counts that [drawGeometry] draws *)

Lemma binary_round_aux_shifted prec emax s m e d :
  fexp prec emax (Z.pos (digits2_pos m) + e) = e -> e <= emax - prec ->
  binary_round_aux prec emax s (Z.pos (Pos.iter xO m d)) (e - Z.pos d) loc_Exact
  = S754_finite s m e.
Proof.
  intros Hcanon He.
  unfold binary_round_aux, shr_fexp. simpl Zdigits2.
  rewrite digits2_pos_shift, Pos2Z.inj_add.
  replace (Z.pos (digits2_pos m) + Z.pos d + (e - Z.pos d))
    with (Z.pos (digits2_pos m) + e) by lia.
  rewrite Hcanon.
  replace (e - (e - Z.pos d)) with (Z.pos d) by lia.
  cbn [shr shr_record_of_loc]. rewrite shr_shift.
  cbn [shr_m loc_of_shr_record round_nearest_even Zdigits2].
  replace (e - Z.pos d + Z.pos d) with e by lia.
  rewrite Hcanon, Z.sub_diag. cbn [shr shr_record_of_loc shr_m].
  by rewrite (proj2 (Z.leb_le _ _) He).
Qed.

(** The Number of a positive integer below [2^53]. *)
Lemma number_of_Z_positive c :
  0 < c < 2 ^ 53 ->
  exists m e,
    number_of_Z c = S754_finite false m e
    /\ fexp 53 1024 (Z.pos (digits2_pos m) + e) = e
    /\ e <= 0 /\ Z.pos m = c * 2 ^ (- e).
Proof.
  intros Hc. destruct c as [|p|p]; [lia| |lia].
  unfold number_of_Z, binary_normalize.
  pose proof (digits2_pos_le p 53 ltac:(lia) ltac:(lia)) as Hd.
  pose proof (Pos2Z.is_pos (digits2_pos p)) as Hd0.
  destruct (Z.eq_dec (Z.pos (digits2_pos p)) 53) as [Heq|Hne].
  - assert (Hf : fexp 53 1024 (Z.pos (digits2_pos p) + 0) = 0).
    { unfold fexp, emin. lia. }
    exists p, 0. unfold binary_round, shl_align.
    rewrite Hf. change (0 - 0) with 0. cbv beta iota.
    rewrite binary_round_aux_canonical by (done || lia).
    split_and!; try done. simpl. lia.
  - destruct (53 - Z.pos (digits2_pos p)) as [|d|d] eqn:Hd1; [lia| |lia].
    assert (Hf : fexp 53 1024 (Z.pos (digits2_pos p) + 0) = 0 - Z.pos d).
    { unfold fexp, emin. lia. }
    exists (Pos.iter xO p d), (0 - Z.pos d).
    rewrite (binary_round_short 53 1024 false p 0 d) by (done || lia).
    split; [done|]. split.
    + rewrite digits2_pos_shift, Pos2Z.inj_add.
      replace (Z.pos (digits2_pos p) + Z.pos d + (0 - Z.pos d))
        with (Z.pos (digits2_pos p) + 0) by lia.
      exact Hf.
    + split; [lia|]. rewrite shift_pos_value. do 2 f_equal; lia.
Qed.

(** [Math.round(count * 1)] is [count]. *)
Lemma round_count c :
  0 < c < 2 ^ 53 -> Math_round (SFmul 53 1024 (number_of_Z c) (number_of_Z 1)) = c.
Proof.
  intros Hc. destruct (number_of_Z_positive c Hc) as (m & e & -> & Hcanon & He & Hm).
  assert (Hone : number_of_Z 1 = S754_finite false 4503599627370496 (-52))
    by (vm_compute; reflexivity).
  rewrite Hone. cbn [SFmul xorb].
  assert (Hshift : (m * 4503599627370496)%positive = Pos.iter xO m 52).
  { apply Pos2Z.inj. rewrite shift_pos_value, Pos2Z.inj_mul. done. }
  rewrite Hshift. replace (e + -52) with (e - Z.pos 52) by lia.
  rewrite binary_round_aux_shifted by (done || lia).
  unfold Math_round. destruct (Z.leb_spec 0 e) as [He0|He0].
  - assert (e = 0) as -> by lia. simpl in *. lia.
  - cbn [cond_Zopp]. rewrite Hm.
    replace (- e + 1) with (Z.succ (- e)) by lia. rewrite Z.pow_succ_r by lia.
    assert (Hp : 0 < 2 ^ (- e)) by (apply Z.pow_pos_nonneg; lia).
    set (q := 2 ^ (- e)) in *.
    replace (2 * (c * q) + q) with (q + c * (2 * q)) by lia.
    rewrite Z.div_add by lia. rewrite Z.div_small by lia. lia.
Qed.

(** With [maxCount] left out, or not finite, [drawGeometry] draws every
    instance that the id maps count. *)
Lemma drawGeometry_all pickIdsPerInstance maxCount sa :
  number_isFinite maxCount = false ->
  (forall t, JsMap.size (typeToIdMaps sa t) < 2 ^ 53) ->
  drawGeometry pickIdsPerInstance maxCount sa
  = (foldl (fun '(basePickId, calls) annotationType =>
              let idMap := typeToIdMaps sa annotationType in
              let count := JsMap.size idMap in
              if count >? 0
              then (basePickId + count * pickIdsPerInstance annotationType,
                    calls ++ [{| draw_type := annotationType;
                                 draw_basePickId := basePickId;
                                 draw_count := count;
                                 draw_bufferOffset := typeToOffset sa annotationType |}])
              else (basePickId, calls))
           (0, []) annotationTypes).2.
Proof.
  intros Hfinite Hsizes. unfold drawGeometry. rewrite Hfinite. f_equal.
  generalize (0, @nil DrawCall). generalize annotationTypes.
  induction l as [|t l IH]; intros st; [done|].
  cbn [foldl]. rewrite <- IH. f_equal. destruct st as [basePickId calls].
  cbv beta iota zeta.
  destruct (JsMap.size (typeToIdMaps sa t) >? 0) eqn:Hpos; [|done].
  rewrite round_count; [done|]. pose proof (Hsizes t). lia.
Qed.

(** C2. For annotations that are listed under their own kinds, with
    distinct ids within each kind, [serializeAnnotations] with the
    serializer of a rank returns a snapshot such that, when the chunk
    transform has no error and the resolver uses that rank, every pick
    offset that the forward enumeration of [drawGeometry] (with [maxCount]
    left out, each kind consuming its count of ids times
    [pickIdsPerInstance] offsets in the order of [annotationTypes]) gives to
    a part of an instance is resolved by [updateMouseState] to that kind, the
    index of that instance, the id of the annotation drawn as that instance
    and the part, and to the byte location
    [typeToOffset[kind] + instanceIndex * (geometryBytes(rank) + propertyBytes)],
    at which the snapshot holds the geometry of that annotation. *)
Theorem picking_inverse (allAnnotations : AnnotationType -> list Annotation) (rank : nat)
    (propertySpecs : list AnnotationPropertySpec) (isLittleEndian : bool)
    (pickIdsPerInstance : AnnotationType -> Z) (maxCount : Number)
    (mouseState : MouseSelectionState) :
  (forall t, 0 < pickIdsPerInstance t) ->
  (forall t annotation, annotation ∈ allAnnotations t -> annotation_type annotation = t) ->
  (forall t, NoDup (id <$> allAnnotations t)) ->
  (forall t, Z.of_nat (length (allAnnotations t)) < 2 ^ 32) ->
  number_isFinite maxCount = false ->
  exists sa,
    serializeAnnotations allAnnotations (new_AnnotationPropertySerializer rank propertySpecs)
      isLittleEndian = Ok sa
    /\ forall call instanceIndex partIndex,
         call ∈ drawGeometry pickIdsPerInstance maxCount sa ->
         0 <= instanceIndex < draw_count call ->
         0 <= partIndex < pickIdsPerInstance (draw_type call) ->
         exists annotation picked,
           allAnnotations (draw_type call) !! Z.to_nat instanceIndex = Some annotation
           /\ resolve pickIdsPerInstance
                (new_AnnotationPropertySerializer rank propertySpecs) rank annotationTypes sa
                (instancePickOffset pickIdsPerInstance call instanceIndex partIndex)
              = Some picked
           /\ picked_type picked = draw_type call
           /\ picked_instanceIndex picked = instanceIndex
           /\ picked_id picked = Some (id annotation)
           /\ picked_partIndex picked = partIndex
           /\ picked_bufferOffset picked
              = typeToOffset sa (draw_type call)
                + instanceIndex
                  * (geometry_serializedBytes (draw_type call) rank
                     + ps_serializedBytes
                         (new_AnnotationPropertySerializer rank propertySpecs))
           /\ read_bytes (Z.to_nat (picked_bufferOffset picked))
                (Z.to_nat (geometry_serializedBytes (draw_type call) rank)) (data sa)
              = geometry_bytes isLittleEndian rank (geometry annotation)
           /\ updateMouseState pickIdsPerInstance
                (new_AnnotationPropertySerializer rank propertySpecs) rank false mouseState
                (instancePickOffset pickIdsPerInstance call instanceIndex partIndex) sa
              = {| pickedAnnotationId := Some (id annotation);
                   pickedOffset := partIndex;
                   pickedAnnotationBufferOffset := Some (picked_bufferOffset picked) |}.
Proof.
  intros HP Htyped Hnd Hlen Hfinite.
  destruct (new_serializer_content rank propertySpecs allAnnotations isLittleEndian Htyped)
    as (sa & Hsa & _ & _ & Hcontent).
  exists sa. split; [done|]. intros call instanceIndex partIndex Hcall Hi Hp.
  pose proof (serializeAnnotations_fields _ _ _ _ Hsa) as Hfields.
  assert (Hsizes : forall t,
    JsMap.size (typeToIdMaps sa t) = Z.of_nat (length (typeToIds sa t))).
  { intros t. destruct (Hfields t) as (-> & -> & _).
    rewrite idMap_size by done. by rewrite length_fmap. }
  rewrite drawGeometry_all in Hcall; [|done|].
  2:{ intros t. rewrite Hsizes. destruct (Hfields t) as (-> & _).
      rewrite length_fmap. pose proof (Hlen t).
      assert (2 ^ 32 < 2 ^ 53) by (apply Z.pow_lt_mono_r; lia). lia. }
  destruct (draw_resolve pickIdsPerInstance
              (new_AnnotationPropertySerializer rank propertySpecs) rank sa HP Hsizes
              annotationTypes 0 [] call Hcall) as [Hnil|(_ & Hcount & Hres)].
  { by apply elem_of_nil in Hnil. }
  destruct (Hres instanceIndex partIndex Hi Hp)
    as (picked & Hpicked & Ht & Hidx & Hid & Hpart & Hoff).
  rewrite Z.sub_0_r in Hpicked.
  destruct (Hfields (draw_type call)) as (Hids & _ & _).
  rewrite Hids, list_lookup_fmap in Hid.
  destruct (allAnnotations (draw_type call) !! Z.to_nat instanceIndex) as [annotation|] eqn:Ha.
  2:{ apply lookup_ge_None in Ha. rewrite Hcount, Hids, length_fmap in Hi. lia. }
  destruct (Hcontent (draw_type call) (Z.to_nat instanceIndex) annotation Ha)
    as (_ & _ & Hread & _).
  unfold instance_offset in Hread. rewrite new_serializer_rank in Hread.
  rewrite Z2Nat.id in Hread by lia.
  exists annotation, picked. split_and!; try done.
  - by rewrite Hoff.
  - unfold updateMouseState. rewrite Hpicked, Hid, Hpart. done.
Qed.

Lemma example_annotations_typed t annotation :
  annotation ∈ example_annotations t -> annotation_type annotation = t.
Proof.
  destruct t; simpl; intros Ha.
  - apply elem_of_cons in Ha as [->|Ha]; [done|].
    by apply list_elem_of_singleton in Ha as ->.
  - by apply list_elem_of_singleton in Ha as ->.
  - by apply elem_of_nil in Ha.
  - by apply elem_of_nil in Ha.
Qed.

(** The third part of the line of the example, drawn after the two points. *)
Lemma picking_inverse_witness :
  exists sa,
    serializeAnnotations example_annotations (new_AnnotationPropertySerializer 2 []) true
    = Ok sa
    /\ exists annotation picked,
         example_annotations LINE !! Z.to_nat 0 = Some annotation
         /\ resolve example_pickIdsPerInstance (new_AnnotationPropertySerializer 2 []) 2
              annotationTypes sa 4
            = Some picked
         /\ picked_type picked = LINE
         /\ picked_id picked = Some (id annotation)
         /\ picked_partIndex picked = 2
         /\ picked_bufferOffset picked = typeToOffset sa LINE
         /\ read_bytes (Z.to_nat (picked_bufferOffset picked)) 16 (data sa)
            = geometry_bytes true 2 (geometry annotation).
Proof.
  destruct (picking_inverse example_annotations 2 [] true example_pickIdsPerInstance
              (S754_infinity false) example_mouseState) as (sa & Hsa & Hpick).
  - intros t. destruct t; reflexivity.
  - apply example_annotations_typed.
  - intros t. destruct t; simpl; repeat constructor; set_solver.
  - intros t. destruct t; simpl; lia.
  - reflexivity.
  - exists sa. split; [exact Hsa|].
    assert (Hexample : serializeAnnotations example_annotations
                         (new_AnnotationPropertySerializer 2 []) true
                       = Ok example_serialized) by reflexivity.
    assert (sa = example_serialized) as -> by congruence.
    assert (Hcall : {| draw_type := LINE; draw_basePickId := 2; draw_count := 1;
                       draw_bufferOffset := 16 |}
                    ∈ drawGeometry example_pickIdsPerInstance (S754_infinity false)
                        example_serialized).
    { vm_compute. apply list_elem_of_further, list_elem_of_here. }
    destruct (Hpick _ 0 2 Hcall)
      as (annotation & picked & Ha & Hres & Ht & _ & Hid & Hp & Hoff & Hread & _);
      [simpl; lia|simpl; lia|].
    exists annotation, picked.
    cbn [draw_type draw_basePickId draw_count instancePickOffset example_pickIdsPerInstance]
      in *.
    split_and!; [exact Ha|exact Hres|exact Ht|exact Hid|exact Hp| |].
    + rewrite Hoff. reflexivity.
    + exact Hread.
Defined.

(** C2 (as stated) fails for a snapshot in which two points have the same
    id: [drawGeometry] counts the two entries of the id map of the points and
    gives the pick offset 2 to the first part of the line, and the loop of
    [updateMouseState], which counts the three ids of the points, resolves
    this offset to the third point. *)
Lemma picking_not_inverse_for_duplicate_ids :
  exists sa call picked,
    serializeAnnotations example_duplicate_annotations
      (new_AnnotationPropertySerializer 2 []) true = Ok sa
    /\ call ∈ drawGeometry example_pickIdsPerInstance (S754_infinity false) sa
    /\ draw_type call = LINE /\ draw_count call = 1
    /\ instancePickOffset example_pickIdsPerInstance call 0 0 = 2
    /\ resolve example_pickIdsPerInstance (new_AnnotationPropertySerializer 2 []) 2
         annotationTypes sa (instancePickOffset example_pickIdsPerInstance call 0 0)
       = Some picked
    /\ picked_type picked = POINT /\ picked_instanceIndex picked = 2
    /\ picked_id picked = Some "a".
Proof.
  eexists _, {| draw_type := LINE; draw_basePickId := 2; draw_count := 1;
                draw_bufferOffset := _ |}, _.
  split; [vm_compute; reflexivity|]. split.
  { vm_compute. apply list_elem_of_further, list_elem_of_here. }
  split; [reflexivity|]. split; [reflexivity|]. split; [reflexivity|].
  split; [vm_compute; reflexivity|]. split_and!; reflexivity.
Qed.

(** X22. For annotations that are listed under their own types,
    [serializeAnnotations] with the serializer of a rank returns a snapshot
    of which, with positive numbers of pick ids per instance and the
    resolver at that rank, the loop of [updateMouseState] decodes every pick
    offset from 0 up to the number of pick ids: it finds a type, an
    annotation of this type and a part, which together encode the offset,
    and it assigns the id of the annotation, the part and the offset at
    which the snapshot holds the geometry of the annotation. An offset from
    the number of pick ids on leaves the mouse state as it is, and so does
    an error of the chunk transform. *)
Theorem updateMouseState_decodes (allAnnotations : AnnotationType -> list Annotation)
    (rank : nat) (propertySpecs : list AnnotationPropertySpec) (isLittleEndian : bool)
    (pickIdsPerInstance : AnnotationType -> Z) (mouseState : MouseSelectionState)
    (offset : Z) :
  (forall t, 0 < pickIdsPerInstance t) ->
  (forall t annotation, annotation ∈ allAnnotations t -> annotation_type annotation = t) ->
  0 <= offset ->
  exists sa,
    serializeAnnotations allAnnotations (new_AnnotationPropertySerializer rank propertySpecs)
      isLittleEndian = Ok sa
    /\ updateMouseState pickIdsPerInstance
         (new_AnnotationPropertySerializer rank propertySpecs) rank true mouseState offset sa
       = mouseState
    /\ (pickIds_of pickIdsPerInstance sa annotationTypes <= offset ->
        updateMouseState pickIdsPerInstance
          (new_AnnotationPropertySerializer rank propertySpecs) rank false mouseState offset sa
        = mouseState)
    /\ (offset < pickIds_of pickIdsPerInstance sa annotationTypes ->
        exists before t after instanceIndex partIndex annotation,
          annotationTypes = before ++ t :: after
          /\ offset = pickIds_of pickIdsPerInstance sa before
                      + Z.of_nat instanceIndex * pickIdsPerInstance t + partIndex
          /\ 0 <= partIndex < pickIdsPerInstance t
          /\ allAnnotations t !! instanceIndex = Some annotation
          /\ updateMouseState pickIdsPerInstance
               (new_AnnotationPropertySerializer rank propertySpecs) rank false mouseState
               offset sa
             = {| pickedAnnotationId := Some (id annotation);
                  pickedOffset := partIndex;
                  pickedAnnotationBufferOffset :=
                    Some (instance_offset
                            (new_AnnotationPropertySerializer rank propertySpecs) sa t
                            instanceIndex) |}
          /\ read_bytes
               (Z.to_nat (instance_offset
                            (new_AnnotationPropertySerializer rank propertySpecs) sa t
                            instanceIndex))
               (Z.to_nat (geometry_serializedBytes t rank)) (data sa)
             = geometry_bytes isLittleEndian rank (geometry annotation)).
Proof.
  intros Hpos Htyped Hoff.
  destruct (new_serializer_content rank propertySpecs allAnnotations isLittleEndian Htyped)
    as (sa & Hsa & _ & _ & Hcontent).
  exists sa. split; [done|]. split; [done|].
  pose proof (serializeAnnotations_fields _ _ _ _ Hsa) as Hfields.
  pose proof (resolve_decodes pickIdsPerInstance
                (new_AnnotationPropertySerializer rank propertySpecs) rank sa Hpos
                annotationTypes offset Hoff) as Hdecode.
  unfold updateMouseState.
  destruct (resolve _ _ _ annotationTypes sa offset) as [p|].
  - destruct Hdecode as (before & after & k & Htypes & Hsum & Hpart & Hidx & Hk & Hid & Hbuf).
    split.
    + intros Hge. exfalso.
      rewrite Htypes in Hge. rewrite pickIds_of_app in Hge. cbn [pickIds_of foldr] in Hge.
      fold (pickIds_of pickIdsPerInstance sa after) in Hge.
      pose proof (pickIds_of_nonneg pickIdsPerInstance sa Hpos after).
      pose proof (lookup_lt_Some _ _ _ Hk) as Hlt. pose proof (Hpos (picked_type p)). nia.
    + intros _.
      destruct (Hfields (picked_type p)) as (Hids & _).
      rewrite Hids, list_lookup_fmap in Hk.
      destruct (allAnnotations (picked_type p) !! Z.to_nat (picked_instanceIndex p))
        as [annotation|] eqn:Ha; [|done].
      simpl in Hk. injection Hk as <-.
      destruct (Hcontent (picked_type p) (Z.to_nat (picked_instanceIndex p)) annotation Ha)
        as (_ & _ & Hread & _).
      exists before, (picked_type p), after, (Z.to_nat (picked_instanceIndex p)),
        (picked_partIndex p), annotation.
      rewrite Z2Nat.id by done.
      unfold instance_offset in *. rewrite new_serializer_rank in *.
      rewrite Z2Nat.id in * by done.
      split_and!; try done; try lia.
      by rewrite Hid, Hbuf.
  - split; [done|]. intros Hlt. lia.
Qed.

Lemma updateMouseState_decodes_witness :
  exists sa,
    serializeAnnotations example_annotations (new_AnnotationPropertySerializer 2 []) true
    = Ok sa
    /\ updateMouseState example_pickIdsPerInstance (new_AnnotationPropertySerializer 2 []) 2
         true example_mouseState 4 sa
       = example_mouseState
    /\ (pickIds_of example_pickIdsPerInstance sa annotationTypes <= 4 ->
        updateMouseState example_pickIdsPerInstance (new_AnnotationPropertySerializer 2 []) 2
          false example_mouseState 4 sa
        = example_mouseState)
    /\ (4 < pickIds_of example_pickIdsPerInstance sa annotationTypes ->
        exists before t after instanceIndex partIndex annotation,
          annotationTypes = before ++ t :: after
          /\ 4 = pickIds_of example_pickIdsPerInstance sa before
                 + Z.of_nat instanceIndex * example_pickIdsPerInstance t + partIndex
          /\ 0 <= partIndex < example_pickIdsPerInstance t
          /\ example_annotations t !! instanceIndex = Some annotation
          /\ updateMouseState example_pickIdsPerInstance
               (new_AnnotationPropertySerializer 2 []) 2 false example_mouseState 4 sa
             = {| pickedAnnotationId := Some (id annotation);
                  pickedOffset := partIndex;
                  pickedAnnotationBufferOffset :=
                    Some (instance_offset (new_AnnotationPropertySerializer 2 []) sa t
                            instanceIndex) |}
          /\ read_bytes
               (Z.to_nat (instance_offset (new_AnnotationPropertySerializer 2 []) sa t
                            instanceIndex))
               (Z.to_nat (geometry_serializedBytes t 2)) (data sa)
             = geometry_bytes true 2 (geometry annotation)).
Proof.
  apply (updateMouseState_decodes example_annotations 2 [] true example_pickIdsPerInstance
           example_mouseState 4).
  - intros t. destruct t; reflexivity.
  - apply example_annotations_typed.
  - lia.
Defined.

(** The resolver takes its rank from [curRank], which follows the rank of
    the source, and the serializer of the source keeps the rank that the
    constructor gave it. When the two differ, as after [ensureUpdated] set
    another rank, the location that [updateMouseState] assigns is not the
    one at which the snapshot holds the instance: with a serializer of rank
    3 and the resolver at rank 2, the second point is found at the byte 8
    and lies at the byte 12. *)
Lemma resolve_at_another_rank :
  exists sa picked,
    serializeAnnotations example_annotations (new_AnnotationPropertySerializer 3 []) true
    = Ok sa
    /\ resolve example_pickIdsPerInstance (new_AnnotationPropertySerializer 3 []) 2
         annotationTypes sa 1
       = Some picked
    /\ picked_id picked = Some "b"
    /\ picked_bufferOffset picked = 8
    /\ instance_offset (new_AnnotationPropertySerializer 3 []) sa POINT 1 = 12.
Proof.
  eexists _, _. split; [vm_compute; reflexivity|].
  split; [vm_compute; reflexivity|]. split_and!; reflexivity.
Qed.
